(** * OpenRCT2 window manager (src/openrct2/interface/Window.cpp)

    A shallow embedding of the window list, its z-order operations, the
    visible-region splitter of the redraw engine, hit testing, scrolling
    and viewport coordination, with the properties the specification
    states about them.

    Conventions of the embedding.
    - [g_window_list] is the static array of window records; a
      [rct_window *] is an index into it ([nat]), [nullptr] is [None].
      Slots at and after [gWindowNextSlot] keep whatever was last stored
      in them, exactly as [memmove] leaves them.
    - [rct_window], [rct_viewport], [rct_widget], [rct_scroll] and
      [rct_drawpixelinfo] are declared in headers that are not part of
      the sources at hand; the records below hold the fields Window.cpp
      reads and writes, with integer fields in [Z].  Conversions that
      Window.cpp itself writes out (casts to [sint16], declared [sint16]
      locals, the [sint8] parameter) are modelled with their wrap-around.
      The positions of windows and viewports, the saved view position
      and the view extents are 16-bit fields: where a function stores
      into them a value computed from its arguments
      ([window_move_position], [window_move_and_snap]) or doubles them
      ([window_zoom_set]), the store is written with its wrap-around
      [sint16]; the other stores hold values that stay within the field
      for windows on a screen of less than 32768 pixels and are left
      as the [int] expressions of the source.
    - Constants, macros and functions defined outside Window.cpp are the
      fields of the class [Env]; event handlers are functions on the
      whole state, looked up through a window's [event_handlers].
    - Calls into the drawing and configuration layers are appended to
      [ext_calls]. *)

From Stdlib Require Import ZArith Lia.
From stdpp Require Import base decidable option numbers list.

Local Open Scope Z_scope.

(** ** Integer conversions written out in the source *)

Definition sint16 (z : Z) : Z := (z + 32768) mod 65536 - 32768.
Definition sint8 (z : Z) : Z := (z + 128) mod 256 - 128.

(** [flags & mask] used as a condition. *)
Definition test (flags mask : Z) : bool := negb (Z.land flags mask =? 0).

(** ** Data model *)

Inductive visibility_cache := VC_UNKNOWN | VC_VISIBLE | VC_COVERED.

Record rct_widget := mk_widget {
  wd_type : Z;
  wd_left : Z;
  wd_right : Z;
  wd_top : Z;
  wd_bottom : Z
}.

Record rct_scroll := mk_scroll {
  sc_flags : Z;
  sc_h_left : Z;
  sc_h_right : Z;
  sc_h_thumb_left : Z;
  sc_h_thumb_right : Z;
  sc_v_top : Z;
  sc_v_bottom : Z;
  sc_v_thumb_top : Z;
  sc_v_thumb_bottom : Z
}.

Record rct_viewport := mk_viewport {
  vp_width : Z;
  vp_height : Z;
  vp_x : Z;
  vp_y : Z;
  vp_view_x : Z;
  vp_view_y : Z;
  vp_view_width : Z;
  vp_view_height : Z;
  vp_zoom : Z;
  vp_flags : Z;
  vp_visibility : visibility_cache
}.

Record rct_window := mk_window {
  w_event_handlers : Z;
  w_viewport : option nat;
  w_widgets : list rct_widget;
  w_x : Z;
  w_y : Z;
  w_width : Z;
  w_height : Z;
  w_number : Z;
  w_flags : Z;
  w_scrolls : list rct_scroll;
  w_saved_view_x : Z;
  w_saved_view_y : Z;
  w_classification : Z;
  w_viewport_target_sprite : Z;
  w_viewport_smart_follow_sprite : Z;
  w_visibility : visibility_cache;
  w_colours : list Z
}.

Record rct_drawpixelinfo := mk_dpi {
  dpi_bits : Z;
  dpi_x : Z;
  dpi_y : Z;
  dpi_width : Z;
  dpi_height : Z;
  dpi_pitch : Z;
  dpi_zoom_level : Z
}.

(** Calls that leave Window.cpp for the drawing, viewport and
    configuration layers. *)
Inductive ext_call :=
  | gfx_set_dirty_blocks (left top right bottom : Z)
  | config_save_default
  | viewport_update_pointers.

Record ui_state := mk_state {
  g_window_list : list rct_window;
  gWindowNextSlot : option nat;
  g_viewport_list : list rct_viewport;
  gConfigGeneral_window_limit : Z;
  gConfigGeneral_zoom_to_cursor : bool;
  gScreenFlags : Z;
  gS6Info_editor_step : Z;
  gCurrentWindowColours : list Z;
  ext_calls : list ext_call
}.

(** The zero-initialised record of the static array. *)
Definition rct_window_zero : rct_window :=
  mk_window 0 None [] 0 0 0 0 0 0 [] 0 0 0 0 0 VC_UNKNOWN [].
Definition rct_viewport_zero : rct_viewport :=
  mk_viewport 0 0 0 0 0 0 0 0 0 0 VC_UNKNOWN.
Definition rct_widget_zero : rct_widget := mk_widget 0 0 0 0 0.
Definition rct_scroll_zero : rct_scroll := mk_scroll 0 0 0 0 0 0 0 0 0.

#[global] Instance rct_window_inhabited : Inhabited rct_window :=
  populate rct_window_zero.
#[global] Instance rct_viewport_inhabited : Inhabited rct_viewport :=
  populate rct_viewport_zero.
#[global] Instance rct_widget_inhabited : Inhabited rct_widget :=
  populate rct_widget_zero.
#[global] Instance rct_scroll_inhabited : Inhabited rct_scroll :=
  populate rct_scroll_zero.

(** *** Field assignments *)

Definition set_w_viewport (v : option nat) (w : rct_window) : rct_window :=
  mk_window (w_event_handlers w) v (w_widgets w) (w_x w) (w_y w) (w_width w)
    (w_height w) (w_number w) (w_flags w) (w_scrolls w) (w_saved_view_x w)
    (w_saved_view_y w) (w_classification w) (w_viewport_target_sprite w)
    (w_viewport_smart_follow_sprite w) (w_visibility w) (w_colours w).

Definition set_w_widgets (v : list rct_widget) (w : rct_window) : rct_window :=
  mk_window (w_event_handlers w) (w_viewport w) v (w_x w) (w_y w) (w_width w)
    (w_height w) (w_number w) (w_flags w) (w_scrolls w) (w_saved_view_x w)
    (w_saved_view_y w) (w_classification w) (w_viewport_target_sprite w)
    (w_viewport_smart_follow_sprite w) (w_visibility w) (w_colours w).

Definition set_w_x (v : Z) (w : rct_window) : rct_window :=
  mk_window (w_event_handlers w) (w_viewport w) (w_widgets w) v (w_y w)
    (w_width w) (w_height w) (w_number w) (w_flags w) (w_scrolls w)
    (w_saved_view_x w) (w_saved_view_y w) (w_classification w)
    (w_viewport_target_sprite w) (w_viewport_smart_follow_sprite w)
    (w_visibility w) (w_colours w).

Definition set_w_y (v : Z) (w : rct_window) : rct_window :=
  mk_window (w_event_handlers w) (w_viewport w) (w_widgets w) (w_x w) v
    (w_width w) (w_height w) (w_number w) (w_flags w) (w_scrolls w)
    (w_saved_view_x w) (w_saved_view_y w) (w_classification w)
    (w_viewport_target_sprite w) (w_viewport_smart_follow_sprite w)
    (w_visibility w) (w_colours w).

Definition set_w_flags (v : Z) (w : rct_window) : rct_window :=
  mk_window (w_event_handlers w) (w_viewport w) (w_widgets w) (w_x w) (w_y w)
    (w_width w) (w_height w) (w_number w) v (w_scrolls w)
    (w_saved_view_x w) (w_saved_view_y w) (w_classification w)
    (w_viewport_target_sprite w) (w_viewport_smart_follow_sprite w)
    (w_visibility w) (w_colours w).

Definition set_w_scrolls (v : list rct_scroll) (w : rct_window) : rct_window :=
  mk_window (w_event_handlers w) (w_viewport w) (w_widgets w) (w_x w) (w_y w)
    (w_width w) (w_height w) (w_number w) (w_flags w) v
    (w_saved_view_x w) (w_saved_view_y w) (w_classification w)
    (w_viewport_target_sprite w) (w_viewport_smart_follow_sprite w)
    (w_visibility w) (w_colours w).

Definition set_w_saved_view (vx vy : Z) (w : rct_window) : rct_window :=
  mk_window (w_event_handlers w) (w_viewport w) (w_widgets w) (w_x w) (w_y w)
    (w_width w) (w_height w) (w_number w) (w_flags w) (w_scrolls w)
    vx vy (w_classification w)
    (w_viewport_target_sprite w) (w_viewport_smart_follow_sprite w)
    (w_visibility w) (w_colours w).

Definition set_w_sprites (target follow : Z) (w : rct_window) : rct_window :=
  mk_window (w_event_handlers w) (w_viewport w) (w_widgets w) (w_x w) (w_y w)
    (w_width w) (w_height w) (w_number w) (w_flags w) (w_scrolls w)
    (w_saved_view_x w) (w_saved_view_y w) (w_classification w)
    target follow (w_visibility w) (w_colours w).

Definition set_w_visibility (v : visibility_cache) (w : rct_window) : rct_window :=
  mk_window (w_event_handlers w) (w_viewport w) (w_widgets w) (w_x w) (w_y w)
    (w_width w) (w_height w) (w_number w) (w_flags w) (w_scrolls w)
    (w_saved_view_x w) (w_saved_view_y w) (w_classification w)
    (w_viewport_target_sprite w) (w_viewport_smart_follow_sprite w)
    v (w_colours w).

Definition set_vp_width (v : Z) (p : rct_viewport) : rct_viewport :=
  mk_viewport v (vp_height p) (vp_x p) (vp_y p) (vp_view_x p) (vp_view_y p)
    (vp_view_width p) (vp_view_height p) (vp_zoom p) (vp_flags p)
    (vp_visibility p).

Definition set_vp_x (v : Z) (p : rct_viewport) : rct_viewport :=
  mk_viewport (vp_width p) (vp_height p) v (vp_y p) (vp_view_x p)
    (vp_view_y p) (vp_view_width p) (vp_view_height p) (vp_zoom p)
    (vp_flags p) (vp_visibility p).

Definition set_vp_y (v : Z) (p : rct_viewport) : rct_viewport :=
  mk_viewport (vp_width p) (vp_height p) (vp_x p) v (vp_view_x p)
    (vp_view_y p) (vp_view_width p) (vp_view_height p) (vp_zoom p)
    (vp_flags p) (vp_visibility p).

Definition set_vp_view_size (vw vh : Z) (p : rct_viewport) : rct_viewport :=
  mk_viewport (vp_width p) (vp_height p) (vp_x p) (vp_y p) (vp_view_x p)
    (vp_view_y p) vw vh (vp_zoom p) (vp_flags p) (vp_visibility p).

Definition set_vp_zoom (v : Z) (p : rct_viewport) : rct_viewport :=
  mk_viewport (vp_width p) (vp_height p) (vp_x p) (vp_y p) (vp_view_x p)
    (vp_view_y p) (vp_view_width p) (vp_view_height p) v (vp_flags p)
    (vp_visibility p).

Definition set_vp_flags (v : Z) (p : rct_viewport) : rct_viewport :=
  mk_viewport (vp_width p) (vp_height p) (vp_x p) (vp_y p) (vp_view_x p)
    (vp_view_y p) (vp_view_width p) (vp_view_height p) (vp_zoom p) v
    (vp_visibility p).

Definition set_vp_visibility (v : visibility_cache) (p : rct_viewport) : rct_viewport :=
  mk_viewport (vp_width p) (vp_height p) (vp_x p) (vp_y p) (vp_view_x p)
    (vp_view_y p) (vp_view_width p) (vp_view_height p) (vp_zoom p)
    (vp_flags p) v.

Definition set_sc_h_left (v : Z) (s : rct_scroll) : rct_scroll :=
  mk_scroll (sc_flags s) v (sc_h_right s) (sc_h_thumb_left s)
    (sc_h_thumb_right s) (sc_v_top s) (sc_v_bottom s) (sc_v_thumb_top s)
    (sc_v_thumb_bottom s).

Definition set_sc_v_top (v : Z) (s : rct_scroll) : rct_scroll :=
  mk_scroll (sc_flags s) (sc_h_left s) (sc_h_right s) (sc_h_thumb_left s)
    (sc_h_thumb_right s) v (sc_v_bottom s) (sc_v_thumb_top s)
    (sc_v_thumb_bottom s).

Definition set_sc_h_thumb_left (v : Z) (s : rct_scroll) : rct_scroll :=
  mk_scroll (sc_flags s) (sc_h_left s) (sc_h_right s) v
    (sc_h_thumb_right s) (sc_v_top s) (sc_v_bottom s) (sc_v_thumb_top s)
    (sc_v_thumb_bottom s).

Definition set_sc_h_thumb_right (v : Z) (s : rct_scroll) : rct_scroll :=
  mk_scroll (sc_flags s) (sc_h_left s) (sc_h_right s) (sc_h_thumb_left s)
    v (sc_v_top s) (sc_v_bottom s) (sc_v_thumb_top s)
    (sc_v_thumb_bottom s).

Definition set_sc_v_thumb_top (v : Z) (s : rct_scroll) : rct_scroll :=
  mk_scroll (sc_flags s) (sc_h_left s) (sc_h_right s) (sc_h_thumb_left s)
    (sc_h_thumb_right s) (sc_v_top s) (sc_v_bottom s) v
    (sc_v_thumb_bottom s).

Definition set_sc_v_thumb_bottom (v : Z) (s : rct_scroll) : rct_scroll :=
  mk_scroll (sc_flags s) (sc_h_left s) (sc_h_right s) (sc_h_thumb_left s)
    (sc_h_thumb_right s) (sc_v_top s) (sc_v_bottom s) (sc_v_thumb_top s)
    v.

Definition set_window_list (l : list rct_window) (st : ui_state) : ui_state :=
  mk_state l (gWindowNextSlot st) (g_viewport_list st)
    (gConfigGeneral_window_limit st) (gConfigGeneral_zoom_to_cursor st)
    (gScreenFlags st) (gS6Info_editor_step st) (gCurrentWindowColours st)
    (ext_calls st).

Definition set_next_slot (n : option nat) (st : ui_state) : ui_state :=
  mk_state (g_window_list st) n (g_viewport_list st)
    (gConfigGeneral_window_limit st) (gConfigGeneral_zoom_to_cursor st)
    (gScreenFlags st) (gS6Info_editor_step st) (gCurrentWindowColours st)
    (ext_calls st).

Definition set_viewport_list (l : list rct_viewport) (st : ui_state) : ui_state :=
  mk_state (g_window_list st) (gWindowNextSlot st) l
    (gConfigGeneral_window_limit st) (gConfigGeneral_zoom_to_cursor st)
    (gScreenFlags st) (gS6Info_editor_step st) (gCurrentWindowColours st)
    (ext_calls st).

Definition set_window_limit (v : Z) (st : ui_state) : ui_state :=
  mk_state (g_window_list st) (gWindowNextSlot st) (g_viewport_list st)
    v (gConfigGeneral_zoom_to_cursor st)
    (gScreenFlags st) (gS6Info_editor_step st) (gCurrentWindowColours st)
    (ext_calls st).

Definition set_window_colours (l : list Z) (st : ui_state) : ui_state :=
  mk_state (g_window_list st) (gWindowNextSlot st) (g_viewport_list st)
    (gConfigGeneral_window_limit st) (gConfigGeneral_zoom_to_cursor st)
    (gScreenFlags st) (gS6Info_editor_step st) l (ext_calls st).

(** An external call, recorded in order. *)
Definition call (c : ext_call) (st : ui_state) : ui_state :=
  mk_state (g_window_list st) (gWindowNextSlot st) (g_viewport_list st)
    (gConfigGeneral_window_limit st) (gConfigGeneral_zoom_to_cursor st)
    (gScreenFlags st) (gS6Info_editor_step st) (gCurrentWindowColours st)
    (ext_calls st ++ [c]).

(** *** Pointers *)

(** [*w] for a window pointer. *)
Definition deref (st : ui_state) (w : nat) : rct_window :=
  g_window_list st !!! w.

(** [*w = f( *w )]: an assignment to fields of the record [w] points to. *)
Definition modify (w : nat) (f : rct_window → rct_window) (st : ui_state) : ui_state :=
  set_window_list (alter f w (g_window_list st)) st.

(** The viewport a window's [viewport] pointer refers to. *)
Definition deref_vp (st : ui_state) (p : nat) : rct_viewport :=
  g_viewport_list st !!! p.

Definition modify_vp (p : nat) (f : rct_viewport → rct_viewport) (st : ui_state) : ui_state :=
  set_viewport_list (alter f p (g_viewport_list st)) st.

(** [RCT2_NEW_WINDOW] as an offset from [g_window_list].  Before
    [window_init_all] the pointer is null; the loops [w < RCT2_NEW_WINDOW]
    then run no iteration, as for offset 0.  The loops that start at
    [RCT2_LAST_WINDOW], or are bounded by it, differ: they are guarded in
    the functions that have them. *)
Definition RCT2_NEW_WINDOW (st : ui_state) : nat :=
  default 0%nat (gWindowNextSlot st).

(** The open windows, back to front. *)
Definition open_windows (st : ui_state) : list rct_window :=
  take (RCT2_NEW_WINDOW st) (g_window_list st).

(** [for (w = from; w < from + n; w++) if (P w) return w; return nullptr]. *)
Fixpoint scan_up (P : rct_window → bool) (l : list rct_window) (from n : nat) : option nat :=
  match n with
  | O => None
  | S n' => if P (l !!! from) then Some from else scan_up P l (S from) n'
  end.

(** [for (w = g_window_list + k - 1; w >= g_window_list; w--) if (P w) break;]
    with [None] when the loop ends with [w < g_window_list]. *)
Fixpoint scan_down (P : rct_window → bool) (l : list rct_window) (k : nat) : option nat :=
  match k with
  | O => None
  | S i => if P (l !!! i) then Some i else scan_down P l i
  end.

(** [memmove(dst, dst + 1, n * sizeof(rct_window))] on the window array. *)
Definition memmove_down (l : list rct_window) (dst n : nat) : list rct_window :=
  take dst l ++ take n (drop (S dst) l) ++ drop (dst + n) l.

(** [window_scroll_locations]: the fractions of the viewport to centre on,
    each factor [f] written as the integer [8 * f].  All entries are
    multiples of 1/8, so the single-precision product of a 16-bit extent
    with a factor is exact and the conversion to [sint16] truncates it
    toward zero. *)
Definition window_scroll_locations : list (Z * Z) :=
  [ (4, 4); (6, 4); (2, 4); (4, 6); (4, 2); (6, 6); (6, 2); (2, 6); (2, 2);
    (1, 4); (7, 4); (4, 1); (4, 7); (7, 1); (7, 7); (1, 7); (1, 1) ].

(** [(sint16)(extent * window_scroll_locations[i][k])] *)
Definition scroll_fraction (extent eighths : Z) : Z :=
  sint16 (Z.quot (extent * eighths) 8).

(** ** The environment of Window.cpp *)

Class Env := {
  WF_STICK_TO_BACK : Z;
  WF_STICK_TO_FRONT : Z;
  WF_NO_SCROLLING : Z;
  WF_SCROLLING_TO_LOCATION : Z;
  WF_TRANSPARENT : Z;
  WF_NO_AUTO_CLOSE : Z;
  WC_MAIN_WINDOW : Z;
  WC_DROPDOWN : Z;
  WC_OPTIONS : Z;
  WINDOW_LIMIT_MIN : Z;
  WINDOW_LIMIT_MAX : Z;
  WINDOW_LIMIT_RESERVED : Z;
  MAX_ZOOM_LEVEL : Z;
  SPRITE_INDEX_NULL : Z;
  SCREEN_FLAGS_TITLE_DEMO : Z;
  SCREEN_FLAGS_SCENARIO_EDITOR : Z;
  EDITOR_STEP_LANDSCAPE_EDITOR : Z;
  HSCROLLBAR_VISIBLE : Z;
  VSCROLLBAR_VISIBLE : Z;
  WWT_EMPTY : Z;
  WWT_DROPDOWN : Z;
  WWT_SCROLL : Z;
  WWT_LAST : Z;
  (** [NOT_TRANSLUCENT(colour)] *)
  NOT_TRANSLUCENT : Z → Z;
  (** [w->event_handlers->close] and its siblings; [None] is a null entry. *)
  event_close : Z → option (nat → ui_state → ui_state);
  event_invalidate : Z → option (nat → ui_state → ui_state);
  event_paint : Z → option (nat → rct_drawpixelinfo → ui_state → ui_state);
  (** Map and projection functions of the world module. *)
  tile_element_height : Z → Z → Z;
  coordinate_3d_to_2d : Z * Z * Z → Z → Z * Z;
  get_current_rotation : Z;
  centre_2d_coordinates : Z → Z → Z → rct_viewport → Z * Z;
  get_map_coordinates_from_pos : Z → Z → ui_state → Z * Z;
  context_get_cursor_position_scaled : Z * Z;
  (** The two double-precision expressions of [widget_scroll_update_thumbs],
      [(uint16)std::lround(lo - 20 * bar)] and
      [(uint16)std::lround(hi + 20 * (1 - bar))] with
      [bar = (hi * 1.0) / view_size]. *)
  thumb_lround_lo : Z → Z → Z → Z;
  thumb_lround_hi : Z → Z → Z → Z
}.

(** Modelled from the spec: [Math::Clamp(low, x, high)] of core/Math.hpp,
    which is not part of the sources; the spec has it clamp to [low, high]. *)
Definition Math_Clamp (low x high : Z) : Z := Z.min (Z.max low x) high.

Section Window.
Context `{E : Env}.

(** ** Event dispatch *)

Definition window_event_close_call (w : nat) (st : ui_state) : ui_state :=
  match event_close (w_event_handlers (deref st w)) with
  | Some close => close w st
  | None => st
  end.

Definition window_event_invalidate_call (w : nat) (st : ui_state) : ui_state :=
  match event_invalidate (w_event_handlers (deref st w)) with
  | Some invalidate => invalidate w st
  | None => st
  end.

Definition window_event_paint_call (w : nat) (dpi : rct_drawpixelinfo) (st : ui_state) : ui_state :=
  match event_paint (w_event_handlers (deref st w)) with
  | Some paint => paint w dpi st
  | None => st
  end.

(** ** Invalidation and lookup *)

Definition window_invalidate (window : option nat) (st : ui_state) : ui_state :=
  match window with
  | Some w =>
      let win := deref st w in
      call (gfx_set_dirty_blocks (w_x win) (w_y win)
              (w_x win + w_width win) (w_y win + w_height win)) st
  | None => st
  end.

Definition window_find_by_number (cls number : Z) (st : ui_state) : option nat :=
  scan_up (λ w, (w_classification w =? cls) && (w_number w =? number))
    (g_window_list st) 0 (RCT2_NEW_WINDOW st).

Definition window_find_by_class (cls : Z) (st : ui_state) : option nat :=
  scan_up (λ w, w_classification w =? cls)
    (g_window_list st) 0 (RCT2_NEW_WINDOW st).

(** ** window_close *)

Definition window_close (window : option nat) (st : ui_state) : ui_state :=
  match window with
  | None => st
  | Some w =>
      let cls := w_classification (deref st w) in
      let number := w_number (deref st w) in
      let st := window_event_close_call w st in
      match window_find_by_number cls number st with
      | None => st
      | Some w =>
          (* Remove viewport *)
          let st :=
            match w_viewport (deref st w) with
            | Some p => modify w (set_w_viewport None) (modify_vp p (set_vp_width 0) st)
            | None => st
            end in
          (* Invalidate the window (area) *)
          let st := window_invalidate (Some w) st in
          (* Remove window from list and reshift all windows *)
          let st := set_next_slot (Some (RCT2_NEW_WINDOW st - 1)%nat) st in
          let num_windows := (RCT2_NEW_WINDOW st - w)%nat in
          let st :=
            if decide (0 < num_windows)%nat
            then set_window_list (memmove_down (g_window_list st) w num_windows) st
            else st in
          call viewport_update_pointers st
      end
  end.

(** ** window_move_position *)

Definition window_move_position (w : nat) (dx dy : Z) (st : ui_state) : ui_state :=
  if (dx =? 0) && (dy =? 0) then st
  else
    (* Invalidate old region *)
    let st := window_invalidate (Some w) st in
    (* Translate window and viewport: [w->x += dx] and its siblings
       store an [int] sum into a 16-bit field *)
    let st := modify w (λ win, set_w_x (sint16 (w_x win + dx)) win) st in
    let st := modify w (λ win, set_w_y (sint16 (w_y win + dy)) win) st in
    let st :=
      match w_viewport (deref st w) with
      | Some p =>
          modify_vp p (λ v, set_vp_y (sint16 (vp_y v + dy)) v)
            (modify_vp p (λ v, set_vp_x (sint16 (vp_x v + dx)) v) st)
      | None => st
      end in
    (* Invalidate new region *)
    window_invalidate (Some w) st.

(** ** window_bring_to_front *)

(** [do { t = *w; *w = *(w + 1); *(w + 1) = t; w++; } while (w != v)],
    [n] being the number of times the body runs. *)
Fixpoint swap_up (n : nat) (w : nat) (l : list rct_window) : list rct_window :=
  match n with
  | O => l
  | S n' =>
      let t := l !!! w in
      swap_up n' (S w) (<[S w := t]> (<[w := l !!! S w]> l))
  end.

(** The last block of [window_bring_to_front]:
    [if (w->x + w->width < 20) { ... }]. *)
Definition window_bring_to_front_nudge (w : nat) (st : ui_state) : ui_state :=
  let win := deref st w in
  if w_x win + w_width win <? 20 then
    let i := 20 - w_x win in
    let st := modify w (λ win, set_w_x (w_x win + i) win) st in
    let st :=
      match w_viewport (deref st w) with
      | Some p => modify_vp p (λ v, set_vp_x (vp_x v + i) v) st
      | None => st
      end in
    window_invalidate (Some w) st
  else st.

(** The result is the returned pointer and the new state; [None] when the
    do-while loop would start at a [w] behind [v] and run off the array,
    and when [gWindowNextSlot] is null, the scan for [v] then starting at
    [nullptr - 1]. *)
Definition window_bring_to_front (w : nat) (st : ui_state) : option (nat * ui_state) :=
  if test (w_flags (deref st w)) (Z.lor WF_STICK_TO_BACK WF_STICK_TO_FRONT)
  then Some (w, st)
  else
    match gWindowNextSlot st with
    | None => None
    | Some _ =>
        let v := scan_down (λ v, negb (test (w_flags v) WF_STICK_TO_FRONT))
                   (g_window_list st) (RCT2_NEW_WINDOW st) in
        r ← match v with
            | Some v =>
                if decide (w = v) then Some (w, st)
                else if decide (w < v)%nat then
                  let st := set_window_list (swap_up (v - w) w (g_window_list st)) st in
                  Some (v, window_invalidate (Some v) st)
                else None
            | None => Some (w, st)
            end;
        Some (r.1, window_bring_to_front_nudge r.1 r.2)
    end.

(** ** Zooming *)

Definition window_viewport_get_map_coords_by_cursor (w p : nat) (st : ui_state) : Z * Z * Z * Z :=
  (* Get mouse position to offset against. *)
  let '(mouse_x, mouse_y) := context_get_cursor_position_scaled in
  (* Compute map coordinate by mouse position. *)
  let '(map_x, map_y) := get_map_coordinates_from_pos mouse_x mouse_y st in
  (* Get viewport coordinates centring around the tile. *)
  let base_height := tile_element_height map_x map_y in
  let '(dest_x, dest_y) := centre_2d_coordinates map_x map_y base_height (deref_vp st p) in
  (* Rebase mouse position onto centre of window, and compensate for zoom level. *)
  let zoom := vp_zoom (deref_vp st p) in
  let rebased_x := (Z.shiftr (w_width (deref st w)) 1 - mouse_x) * Z.shiftl 1 zoom in
  let rebased_y := (Z.shiftr (w_height (deref st w)) 1 - mouse_y) * Z.shiftl 1 zoom in
  (* Compute cursor offset relative to tile. *)
  (map_x, map_y,
   sint16 ((w_saved_view_x (deref st w) - (dest_x + rebased_x)) * Z.shiftl 1 zoom),
   sint16 ((w_saved_view_y (deref st w) - (dest_y + rebased_y)) * Z.shiftl 1 zoom)).

Definition window_viewport_centre_tile_around_cursor (w p : nat) (saved : Z * Z * Z * Z) (st : ui_state) : ui_state :=
  let '(map_x, map_y, offset_x, offset_y) := saved in
  (* Get viewport coordinates centring around the tile. *)
  let base_height := tile_element_height map_x map_y in
  let '(dest_x, dest_y) := centre_2d_coordinates map_x map_y base_height (deref_vp st p) in
  (* Get mouse position to offset against. *)
  let '(mouse_x, mouse_y) := context_get_cursor_position_scaled in
  (* Rebase mouse position onto centre of window, and compensate for zoom level. *)
  let zoom := vp_zoom (deref_vp st p) in
  let rebased_x := (Z.shiftr (w_width (deref st w)) 1 - mouse_x) * Z.shiftl 1 zoom in
  let rebased_y := (Z.shiftr (w_height (deref st w)) 1 - mouse_y) * Z.shiftl 1 zoom in
  (* Apply offset to the viewport. *)
  modify w (set_w_saved_view
              (dest_x + rebased_x + Z.quot offset_x (Z.shiftl 1 zoom))
              (dest_y + rebased_y + Z.quot offset_y (Z.shiftl 1 zoom))) st.

(** [while (v->zoom > zoomLevel) { ... }]; [fuel] bounds the iterations.
    The saved view position and the view extents are 16-bit fields: the
    sums and the doubled extents are stored with their wrap-around (a
    halved extent stays within the range of the field). *)
Fixpoint zoom_in_loop (fuel : nat) (w p : nat) (zoomLevel : Z) (st : ui_state) : ui_state :=
  match fuel with
  | O => st
  | S fuel =>
      if zoomLevel <? vp_zoom (deref_vp st p) then
        let st := modify_vp p (λ v, set_vp_zoom (vp_zoom v - 1) v) st in
        let v := deref_vp st p in
        let st := modify w (λ win, set_w_saved_view
                    (sint16 (w_saved_view_x win + Z.quot (vp_view_width v) 4))
                    (sint16 (w_saved_view_y win + Z.quot (vp_view_height v) 4)) win) st in
        let st := modify_vp p (λ v, set_vp_view_size
                    (Z.quot (vp_view_width v) 2) (Z.quot (vp_view_height v) 2) v) st in
        zoom_in_loop fuel w p zoomLevel st
      else st
  end.

(** [while (v->zoom < zoomLevel) { ... }]. *)
Fixpoint zoom_out_loop (fuel : nat) (w p : nat) (zoomLevel : Z) (st : ui_state) : ui_state :=
  match fuel with
  | O => st
  | S fuel =>
      if vp_zoom (deref_vp st p) <? zoomLevel then
        let st := modify_vp p (λ v, set_vp_zoom (vp_zoom v + 1) v) st in
        let v := deref_vp st p in
        let st := modify w (λ win, set_w_saved_view
                    (sint16 (w_saved_view_x win - Z.quot (vp_view_width v) 2))
                    (sint16 (w_saved_view_y win - Z.quot (vp_view_height v) 2)) win) st in
        let st := modify_vp p (λ v, set_vp_view_size
                    (sint16 (vp_view_width v * 2)) (sint16 (vp_view_height v * 2)) v) st in
        zoom_out_loop fuel w p zoomLevel st
      else st
  end.

(** [None] when [w] has no viewport (the source dereferences it at once)
    or [window_bring_to_front] runs off the array. *)
Definition window_zoom_set (w : nat) (zoomLevel : Z) (atCursor : bool) (st : ui_state) : option ui_state :=
  match w_viewport (deref st w) with
  | None => None
  | Some p =>
      let zoomLevel := Math_Clamp 0 zoomLevel MAX_ZOOM_LEVEL in
      if vp_zoom (deref_vp st p) =? zoomLevel then Some st
      else
        (* Zooming to cursor? Remember where we're pointing at the moment. *)
        let saved :=
          if gConfigGeneral_zoom_to_cursor st && atCursor
          then window_viewport_get_map_coords_by_cursor w p st
          else (0, 0, 0, 0) in
        (* Zoom in *)
        let st := zoom_in_loop (Z.to_nat (vp_zoom (deref_vp st p) - zoomLevel)) w p zoomLevel st in
        (* Zoom out *)
        let st := zoom_out_loop (Z.to_nat (zoomLevel - vp_zoom (deref_vp st p))) w p zoomLevel st in
        (* Zooming to cursor? Centre around the tile we were hovering over just now. *)
        let st :=
          if gConfigGeneral_zoom_to_cursor st && atCursor
          then window_viewport_centre_tile_around_cursor w p saved st
          else st in
        r ← window_bring_to_front w st;
        Some (window_invalidate (Some w) r.2)
  end.

(** ** Bulk closing *)

(** [for (w = g_window_list; w < RCT2_NEW_WINDOW;)] with a restart from the
    head after every removal.  An event handler may reopen windows, so the
    loop is bounded by [fuel]; [None] is fuel running out. *)
Fixpoint window_close_by_class_loop (fuel : nat) (cls : Z) (w : nat) (st : ui_state) : option ui_state :=
  match fuel with
  | O => None
  | S fuel =>
      if decide (w < RCT2_NEW_WINDOW st)%nat then
        if w_classification (deref st w) =? cls
        then window_close_by_class_loop fuel cls 0 (window_close (Some w) st)
        else window_close_by_class_loop fuel cls (S w) st
      else Some st
  end.

Definition window_close_by_class (fuel : nat) (cls : Z) (st : ui_state) : option ui_state :=
  window_close_by_class_loop fuel cls 0 st.

(** [for (w = g_window_list + k - 1; w >= g_window_list; w--)
      if (!keep( *w )) window_close(w);] *)
Fixpoint close_down_loop (keep : rct_window → bool) (k : nat) (st : ui_state) : ui_state :=
  match k with
  | O => st
  | S w =>
      close_down_loop keep w
        (if keep (deref st w) then st else window_close (Some w) st)
  end.

(** [RCT2_LAST_WINDOW] is [gWindowNextSlot - 1].  While [gWindowNextSlot]
    is null, a loop that starts at [RCT2_LAST_WINDOW] or is bounded by it
    reads the window list through [nullptr - 1]; a function that gets
    there has no defined result, which is [None] below (as is fuel
    running out). *)
Definition window_close_top (fuel : nat) (st : ui_state) : option ui_state :=
  st ← window_close_by_class fuel WC_DROPDOWN st;
  if test (gScreenFlags st) SCREEN_FLAGS_SCENARIO_EDITOR
     && negb (gS6Info_editor_step st =? EDITOR_STEP_LANDSCAPE_EDITOR)
  then Some st
  else
    match gWindowNextSlot st with
    | None => None
    | Some _ =>
        match scan_down (λ w, negb (test (w_flags w) (Z.lor WF_STICK_TO_BACK WF_STICK_TO_FRONT)))
                (g_window_list st) (RCT2_NEW_WINDOW st) with
        | Some w => Some (window_close (Some w) st)
        | None => Some st
        end
    end.

Definition window_close_all (fuel : nat) (st : ui_state) : option ui_state :=
  match gWindowNextSlot st with
  | None => Some st
  | Some _ =>
      st ← window_close_by_class fuel WC_DROPDOWN st;
      Some (close_down_loop
              (λ w, test (w_flags w) (Z.lor WF_STICK_TO_BACK WF_STICK_TO_FRONT))
              (RCT2_NEW_WINDOW st) st)
  end.

(** [for (w = g_window_list; w <= RCT2_LAST_WINDOW; w++)]; after a removal
    [w = g_window_list] is followed by the loop's [w++].  With a null
    [gWindowNextSlot] the bound is [nullptr - 1], which no [w] exceeds:
    the loop does not end within the array. *)
Fixpoint window_close_all_except_class_loop (fuel : nat) (cls : Z) (w : nat) (st : ui_state) : option ui_state :=
  match fuel with
  | O => None
  | S fuel =>
      match gWindowNextSlot st with
      | None => None
      | Some _ =>
          if decide (w < RCT2_NEW_WINDOW st)%nat then
            if negb (w_classification (deref st w) =? cls)
               && negb (test (w_flags (deref st w)) (Z.lor WF_STICK_TO_BACK WF_STICK_TO_FRONT))
            then window_close_all_except_class_loop fuel cls 1 (window_close (Some w) st)
            else window_close_all_except_class_loop fuel cls (S w) st
          else Some st
      end
  end.

Definition window_close_all_except_class (fuel : nat) (cls : Z) (st : ui_state) : option ui_state :=
  st ← window_close_by_class fuel WC_DROPDOWN st;
  window_close_all_except_class_loop fuel cls 0 st.

(** The loop starts at [RCT2_LAST_WINDOW] without the null test of
    [window_close_all]. *)
Definition window_close_all_except_flags (flags : Z) (st : ui_state) : option ui_state :=
  match gWindowNextSlot st with
  | None => None
  | Some _ => Some (close_down_loop (λ w, test (w_flags w) flags) (RCT2_NEW_WINDOW st) st)
  end.

(** ** The window limit *)

(** [for (i = 0; i < WINDOW_LIMIT_MAX; i++)
      if (&g_window_list[i] == RCT2_NEW_WINDOW) { count = i; break; }] *)
Fixpoint count_open_loop (n : nat) (i : nat) (st : ui_state) : Z :=
  match n with
  | O => WINDOW_LIMIT_MAX
  | S n' =>
      if decide (gWindowNextSlot st = Some i) then Z.of_nat i
      else count_open_loop n' (S i) st
  end.

(** One round of the eviction loop. *)
Definition window_close_surplus_round (avoid_classification : Z) (st : ui_state) : ui_state :=
  (* iterates through the list until it finds the newest window, or a
     window that can be closed *)
  let w :=
    default (RCT2_NEW_WINDOW st)
      (scan_up (λ w, negb (test (w_flags w)
                 (Z.lor (Z.lor WF_STICK_TO_BACK WF_STICK_TO_FRONT) WF_NO_AUTO_CLOSE)))
         (g_window_list st) 0 (RCT2_NEW_WINDOW st)) in
  (* skip window if window matches specified rct_windowclass *)
  if negb (avoid_classification =? -1)
     && (w_classification (deref st w) =? avoid_classification)
  then st
  else window_close (Some w) st.

Fixpoint window_close_surplus_loop (diff : nat) (avoid_classification : Z) (st : ui_state) : ui_state :=
  match diff with
  | O => st
  | S diff' =>
      window_close_surplus_loop diff' avoid_classification
        (window_close_surplus_round avoid_classification st)
  end.

Definition window_close_surplus (cap avoid_classification : Z) (st : ui_state) : ui_state :=
  (* find the amount of windows that are currently open *)
  let count := count_open_loop (Z.to_nat WINDOW_LIMIT_MAX) 0 st in
  (* difference between amount open and cap = amount to close *)
  let diff := count - WINDOW_LIMIT_RESERVED - cap in
  window_close_surplus_loop (Z.to_nat diff) avoid_classification st.

Definition window_set_window_limit (value : Z) (st : ui_state) : ui_state :=
  let prev := gConfigGeneral_window_limit st in
  let val := Math_Clamp WINDOW_LIMIT_MIN value WINDOW_LIMIT_MAX in
  let st := set_window_limit val st in
  let st := call config_save_default st in
  (* Checks if value decreases and then closes surplus windows *)
  if val <? prev then window_close_surplus val (sint8 WC_OPTIONS) st else st.

(** ** Visibility and drawing *)

(** [w_other] covers [w]: the test of [window_is_visible]. *)
Definition window_covers (w w_other : rct_window) : bool :=
  (w_x w_other <=? w_x w)
  && (w_y w_other <=? w_y w)
  && (w_x w + w_width w <=? w_x w_other + w_width w_other)
  && (w_y w + w_height w <=? w_y w_other + w_height w_other).

Definition window_is_visible (window : option nat) (st : ui_state) : bool * ui_state :=
  match window with
  | None => (false, st)
  | Some w =>
      let win := deref st w in
      match w_visibility win with
      | VC_VISIBLE => (true, st)
      | VC_COVERED => (false, st)
      | VC_UNKNOWN =>
          match w_viewport win with
          | None => (true, modify w (set_w_visibility VC_VISIBLE) st)
          | Some p =>
              (* only consider viewports, consider the main window always visible *)
              if w_classification win =? WC_MAIN_WINDOW
              then (true, modify w (set_w_visibility VC_VISIBLE) st)
              else
                (* start from the window above the current *)
                match scan_up (window_covers win) (g_window_list st) (S w)
                        (RCT2_NEW_WINDOW st - S w) with
                | Some _ =>
                    (false, modify_vp p (set_vp_visibility VC_COVERED)
                              (modify w (set_w_visibility VC_COVERED) st))
                | None =>
                    (true, modify_vp p (set_vp_visibility VC_VISIBLE)
                             (modify w (set_w_visibility VC_VISIBLE) st))
                end
          end
      end
  end.

(** A call of a window's paint handler: the window and the clipped
    render-surface descriptor it is given. *)
Definition paint_call : Type := nat * rct_drawpixelinfo.

(** The four clamps of [window_draw_single] on its copy of [dpi];
    [None] is one of the early returns. *)
Definition window_draw_single_clip (dpi : rct_drawpixelinfo) (left top right bottom : Z) : option rct_drawpixelinfo :=
  (* Clamp left to 0 *)
  dpi ← (let overflow := left - dpi_x dpi in
         if 0 <? overflow then
           let dpi := mk_dpi (dpi_bits dpi) (dpi_x dpi + overflow) (dpi_y dpi)
                        (dpi_width dpi - overflow) (dpi_height dpi)
                        (dpi_pitch dpi) (dpi_zoom_level dpi) in
           if dpi_width dpi <=? 0 then None
           else Some (mk_dpi (dpi_bits dpi + overflow) (dpi_x dpi) (dpi_y dpi)
                        (dpi_width dpi) (dpi_height dpi)
                        (dpi_pitch dpi + overflow) (dpi_zoom_level dpi))
         else Some dpi);
  (* Clamp width to right *)
  dpi ← (let overflow := dpi_x dpi + dpi_width dpi - right in
         if 0 <? overflow then
           let dpi := mk_dpi (dpi_bits dpi) (dpi_x dpi) (dpi_y dpi)
                        (dpi_width dpi - overflow) (dpi_height dpi)
                        (dpi_pitch dpi) (dpi_zoom_level dpi) in
           if dpi_width dpi <=? 0 then None
           else Some (mk_dpi (dpi_bits dpi) (dpi_x dpi) (dpi_y dpi)
                        (dpi_width dpi) (dpi_height dpi)
                        (dpi_pitch dpi + overflow) (dpi_zoom_level dpi))
         else Some dpi);
  (* Clamp top to 0 *)
  dpi ← (let overflow := top - dpi_y dpi in
         if 0 <? overflow then
           let dpi := mk_dpi (dpi_bits dpi) (dpi_x dpi) (dpi_y dpi + overflow)
                        (dpi_width dpi) (dpi_height dpi - overflow)
                        (dpi_pitch dpi) (dpi_zoom_level dpi) in
           if dpi_height dpi <=? 0 then None
           else Some (mk_dpi (dpi_bits dpi + (dpi_width dpi + dpi_pitch dpi) * overflow)
                        (dpi_x dpi) (dpi_y dpi) (dpi_width dpi) (dpi_height dpi)
                        (dpi_pitch dpi) (dpi_zoom_level dpi))
         else Some dpi);
  (* Clamp height to bottom *)
  let overflow := dpi_y dpi + dpi_height dpi - bottom in
  if 0 <? overflow then
    let dpi := mk_dpi (dpi_bits dpi) (dpi_x dpi) (dpi_y dpi) (dpi_width dpi)
                 (dpi_height dpi - overflow) (dpi_pitch dpi) (dpi_zoom_level dpi) in
    if dpi_height dpi <=? 0 then None else Some dpi
  else Some dpi.

Definition window_draw_single (dpi : rct_drawpixelinfo) (w : nat) (left top right bottom : Z) (st : ui_state) : ui_state * list paint_call :=
  match window_draw_single_clip dpi left top right bottom with
  | None => (st, [])
  | Some dpi =>
      (* Invalidate modifies the window colours so first get the correct
         colour before setting the global variables for the string painting *)
      let st := window_event_invalidate_call w st in
      (* Text colouring *)
      let colours := w_colours (deref st w) in
      let st := set_window_colours
                  [NOT_TRANSLUCENT (colours !!! 0%nat); NOT_TRANSLUCENT (colours !!! 1%nat);
                   NOT_TRANSLUCENT (colours !!! 2%nat); NOT_TRANSLUCENT (colours !!! 3%nat)] st in
      (window_event_paint_call w dpi st, [(w, dpi)])
  end.

(** [topwindow] overlaps the region and is not transparent: the three
    [continue] tests of [window_draw_split], negated. *)
Definition window_occludes (left top right bottom : Z) (topwindow : rct_window) : bool :=
  negb ((right <=? w_x topwindow) || (bottom <=? w_y topwindow))
  && negb ((w_x topwindow + w_width topwindow <=? left)
           || (w_y topwindow + w_height topwindow <=? top))
  && negb (test (w_flags topwindow) WF_TRANSPARENT).

(** [window_draw_split], with [draw] standing for the recursive calls of
    [window_draw] on the same [dpi] and [w].  The result is the returned
    0 or 1, the state and the paint calls issued. *)
Definition window_draw_split
    (draw : Z → Z → Z → Z → ui_state → option (ui_state * list paint_call))
    (w : nat) (left top right bottom : Z) (st : ui_state)
    : option (bool * ui_state * list paint_call) :=
  match scan_up (window_occludes left top right bottom) (g_window_list st) (S w)
          (RCT2_NEW_WINDOW st - S w) with
  | None => Some (false, st, []) (* No windows overlap *)
  | Some topwindow =>
      (* A window overlaps w, split up the draw into two regions where the
         window starts to overlap *)
      let tw := deref st topwindow in
      if left <? w_x tw then
        (* Split draw at topwindow.left *)
        r1 ← draw left top (w_x tw) bottom st;
        r2 ← draw (w_x (deref r1.1 topwindow)) top right bottom r1.1;
        Some (true, r2.1, r1.2 ++ r2.2)
      else if w_x tw + w_width tw <? right then
        (* Split draw at topwindow.right *)
        r1 ← draw left top (w_x tw + w_width tw) bottom st;
        r2 ← draw (w_x (deref r1.1 topwindow) + w_width (deref r1.1 topwindow))
               top right bottom r1.1;
        Some (true, r2.1, r1.2 ++ r2.2)
      else if top <? w_y tw then
        (* Split draw at topwindow.top *)
        r1 ← draw left top right (w_y tw) st;
        r2 ← draw left (w_y (deref r1.1 topwindow)) right bottom r1.1;
        Some (true, r2.1, r1.2 ++ r2.2)
      else if w_y tw + w_height tw <? bottom then
        (* Split draw at topwindow.bottom *)
        r1 ← draw left top right (w_y tw + w_height tw) st;
        r2 ← draw left (w_y (deref r1.1 topwindow) + w_height (deref r1.1 topwindow))
               right bottom r1.1;
        Some (true, r2.1, r1.2 ++ r2.2)
      else
        (* Drawing for this region should be done now, exit *)
        Some (true, st, [])
  end.

(** [for (v = w; v < RCT2_NEW_WINDOW; v++)] of [window_draw]; [n] bounds
    the slots left in the array. *)
Fixpoint window_draw_paint_loop (n : nat) (dpi : rct_drawpixelinfo) (w v : nat)
    (left top right bottom : Z) (st : ui_state) : ui_state * list paint_call :=
  match n with
  | O => (st, [])
  | S n' =>
      if decide (v < RCT2_NEW_WINDOW st)%nat then
        (* Don't draw overlapping opaque windows, they won't have changed *)
        let r :=
          if bool_decide (w = v) || test (w_flags (deref st v)) WF_TRANSPARENT then
            let vis := window_is_visible (Some v) st in
            if vis.1 then window_draw_single dpi v left top right bottom vis.2
            else (vis.2, [])
          else (st, []) in
        let r' := window_draw_paint_loop n' dpi w (S v) left top right bottom r.1 in
        (r'.1, r.2 ++ r'.2)
      else (st, [])
  end.

(** [window_draw]: the state after the call and the paint calls issued,
    in order.  The recursion through [window_draw_split] is bounded by
    [fuel]; [None] is fuel running out. *)
Fixpoint window_draw (fuel : nat) (dpi : rct_drawpixelinfo) (w : nat)
    (left top right bottom : Z) (st : ui_state) : option (ui_state * list paint_call) :=
  match fuel with
  | O => None
  | S fuel =>
      let vis := window_is_visible (Some w) st in
      if negb vis.1 then Some (vis.2, [])
      else
        (* Split window into only the regions that require drawing *)
        '(done, st, calls) ← window_draw_split (window_draw fuel dpi w) w left top right bottom vis.2;
        if (done : bool) then Some (st, calls)
        else
          (* Clamp region *)
          let left := Z.max left (w_x (deref st w)) in
          let top := Z.max top (w_y (deref st w)) in
          let right := Z.min right (w_x (deref st w) + w_width (deref st w)) in
          let bottom := Z.min bottom (w_y (deref st w) + w_height (deref st w)) in
          if right <=? left then Some (st, [])
          else if bottom <=? top then Some (st, [])
          else
            (* Draw the window in this region *)
            Some (window_draw_paint_loop (length (g_window_list st) - w) dpi w w
                    left top right bottom st)
  end.

(** ** Hit testing *)

(** The scan of the widget table in [window_find_widget_from_point];
    [None] when the table has no [WWT_LAST] entry to stop at. *)
Fixpoint widget_scan (widgets : list rct_widget) (i : Z) (wx wy x y : Z) (widget_index : Z) : option Z :=
  match widgets with
  | [] => None
  | widget :: rest =>
      if wd_type widget =? WWT_LAST then Some widget_index
      else if negb (wd_type widget =? WWT_EMPTY) then
        if (wx + wd_left widget <=? x) && (x <=? wx + wd_right widget)
           && (wy + wd_top widget <=? y) && (y <=? wy + wd_bottom widget)
        then widget_scan rest (i + 1) wx wy x y i
        else widget_scan rest (i + 1) wx wy x y widget_index
      else widget_scan rest (i + 1) wx wy x y widget_index
  end.

Definition window_find_widget_from_point (w : nat) (x y : Z) (st : ui_state) : ui_state * option Z :=
  (* Invalidate the window *)
  let st := window_event_invalidate_call w st in
  let win := deref st w in
  (* Find the widget at point x, y *)
  (st,
   widget_index ← widget_scan (w_widgets win) 0 (w_x win) (w_y win) x y (-1);
   (* Return next widget if a dropdown *)
   if negb (widget_index =? -1)
      && (wd_type (w_widgets win !!! Z.to_nat widget_index) =? WWT_DROPDOWN)
   then Some (widget_index + 1)
   else Some widget_index).

(** ** Scrolling to a location *)

Definition window_unfollow_sprite (w : nat) (st : ui_state) : ui_state :=
  modify w (set_w_sprites SPRITE_INDEX_NULL SPRITE_INDEX_NULL) st.

(** [w2], widened by 10 pixels on every side, covers the point. *)
Definition window_scroll_obscures (x2 y2 : Z) (w2 : rct_window) : bool :=
  let x1 := sint16 (w_x w2 - 10) in
  let y1 := sint16 (w_y w2 - 10) in
  (x1 <=? x2) && (x2 <=? w_width w2 + x1 + 20)
  && ((y1 <=? y2) && (y2 <=? w_height w2 + y1 + 20)).

(** The search [while (!found)] over the table, [locations] being the
    entries from index [i] on; running past the last entry is the
    [i >= CountOf(window_scroll_locations)] exit with [i = 0]. *)
Fixpoint window_scroll_search (locations : list (Z * Z)) (i : Z) (w p : nat) (st : ui_state) : Z :=
  match locations with
  | [] => 0
  | loc :: rest =>
      let v := deref_vp st p in
      let x2 := sint16 (vp_x v + scroll_fraction (vp_width v) loc.1) in
      let y2 := sint16 (vp_y v + scroll_fraction (vp_height v) loc.2) in
      match scan_up (window_scroll_obscures x2 y2) (g_window_list st) (S w)
              (RCT2_NEW_WINDOW st - S w) with
      | Some _ =>
          (* window is covering this area, try the next one *)
          window_scroll_search rest (i + 1) w p st
      | None => i
      end
  end.

Definition window_scroll_to_location (w : nat) (x y z : Z) (st : ui_state) : ui_state :=
  let location_3d := (sint16 x, sint16 y, sint16 z) in
  let st := window_unfollow_sprite w st in
  match w_viewport (deref st w) with
  | None => st
  | Some p =>
      let height := sint16 (tile_element_height x y) in
      let st :=
        if z <? height - 16 then
          if negb (test (vp_flags (deref_vp st p)) 1)
          then window_invalidate (Some w)
                 (modify_vp p (λ v, set_vp_flags (Z.lor (vp_flags v) 1) v) st)
          else st
        else
          if test (vp_flags (deref_vp st p)) 1
          then window_invalidate (Some w)
                 (modify_vp p (λ v, set_vp_flags (Z.land (vp_flags v) (Z.lnot 1)) v) st)
          else st in
      let map_coordinate := coordinate_3d_to_2d location_3d get_current_rotation in
      let i :=
        if negb (test (gScreenFlags st) SCREEN_FLAGS_TITLE_DEMO)
        then window_scroll_search window_scroll_locations 0 w p st
        else 0 in
      if w_viewport_target_sprite (deref st w) =? SPRITE_INDEX_NULL then
        if negb (test (w_flags (deref st w)) WF_NO_SCROLLING) then
          let loc := window_scroll_locations !!! Z.to_nat i in
          let v := deref_vp st p in
          modify w (λ win,
            set_w_flags (Z.lor (w_flags win) WF_SCROLLING_TO_LOCATION)
              (set_w_saved_view
                 (map_coordinate.1 - scroll_fraction (vp_view_width v) loc.1)
                 (map_coordinate.2 - scroll_fraction (vp_view_height v) loc.2)
                 win)) st
        else st
      else st
  end.

(** ** Mouse wheel on a scroll region *)

(** The widget found is given by its index in the table; [None] is
    [nullptr] (and a table without [WWT_LAST]). *)
Fixpoint window_get_scroll_widget_loop (widgets : list rct_widget) (i : nat) (scrollIndex : Z) : option nat :=
  match widgets with
  | [] => None
  | widget :: rest =>
      if wd_type widget =? WWT_LAST then None
      else if negb (wd_type widget =? WWT_SCROLL)
      then window_get_scroll_widget_loop rest (S i) scrollIndex
      else if scrollIndex =? 0 then Some i
      else window_get_scroll_widget_loop rest (S i) (scrollIndex - 1)
  end.

Definition window_get_scroll_widget (w : rct_window) (scrollIndex : Z) : option nat :=
  window_get_scroll_widget_loop (w_widgets w) 0 scrollIndex.

(** [None] when the table has no [WWT_LAST] entry to stop at. *)
Fixpoint window_get_widget_index_loop (widgets : list rct_widget) (i : nat) (widget : nat) : option Z :=
  match widgets with
  | [] => None
  | widget2 :: rest =>
      if wd_type widget2 =? WWT_LAST then Some (-1)
      else if decide (widget = i) then Some (Z.of_nat i)
      else window_get_widget_index_loop rest (S i) widget
  end.

Definition window_get_widget_index (w : rct_window) (widget : nat) : option Z :=
  window_get_widget_index_loop (w_widgets w) 0 widget.

Fixpoint window_get_scroll_data_index_loop (n : nat) (i : nat) (widgets : list rct_widget) (result : nat) : nat :=
  match n with
  | O => result
  | S n' =>
      window_get_scroll_data_index_loop n' (S i) widgets
        (if wd_type (widgets !!! i) =? WWT_SCROLL then S result else result)
  end.

Definition window_get_scroll_data_index (w : rct_window) (widget_index : nat) : nat :=
  window_get_scroll_data_index_loop widget_index 0 (w_widgets w) 0.

(** [widget_scroll_update_thumbs], first block: the thumb of the
    horizontal scrollbar recomputed for [scroll] and its [widget]. *)
Definition scroll_update_h_thumbs (widget : rct_widget) (scroll : rct_scroll) : rct_scroll :=
  if test (sc_flags scroll) HSCROLLBAR_VISIBLE then
    let view_size := wd_right widget - wd_left widget - 21 in
    let view_size :=
      if test (sc_flags scroll) VSCROLLBAR_VISIBLE then view_size - 11 else view_size in
    let x := sc_h_left scroll * view_size in
    let x := if negb (sc_h_right scroll =? 0) then Z.quot x (sc_h_right scroll) else x in
    let scroll := set_sc_h_thumb_left (x + 11) scroll in
    let x := wd_right widget - wd_left widget - 2 in
    let x := if test (sc_flags scroll) VSCROLLBAR_VISIBLE then x - 11 else x in
    let x := x + sc_h_left scroll in
    let x :=
      if negb (sc_h_right scroll =? 0)
      then Z.quot (x * view_size) (sc_h_right scroll) else x in
    let x := x + 11 in
    let view_size := view_size + 10 in
    let scroll := set_sc_h_thumb_right (Z.min x view_size) scroll in
    if sc_h_thumb_right scroll - sc_h_thumb_left scroll <? 20 then
      let lo := thumb_lround_lo (sc_h_thumb_left scroll) (sc_h_thumb_right scroll) view_size in
      let hi := thumb_lround_hi (sc_h_thumb_left scroll) (sc_h_thumb_right scroll) view_size in
      set_sc_h_thumb_right hi (set_sc_h_thumb_left lo scroll)
    else scroll
  else scroll.

(** Second block: the thumb of the vertical scrollbar. *)
Definition scroll_update_v_thumbs (widget : rct_widget) (scroll : rct_scroll) : rct_scroll :=
  if test (sc_flags scroll) VSCROLLBAR_VISIBLE then
    let view_size := wd_bottom widget - wd_top widget - 21 in
    let view_size :=
      if test (sc_flags scroll) HSCROLLBAR_VISIBLE then view_size - 11 else view_size in
    let y := sc_v_top scroll * view_size in
    let y := if negb (sc_v_bottom scroll =? 0) then Z.quot y (sc_v_bottom scroll) else y in
    let scroll := set_sc_v_thumb_top (y + 11) scroll in
    let y := wd_bottom widget - wd_top widget - 2 in
    let y := if test (sc_flags scroll) HSCROLLBAR_VISIBLE then y - 11 else y in
    let y := y + sc_v_top scroll in
    let y :=
      if negb (sc_v_bottom scroll =? 0)
      then Z.quot (y * view_size) (sc_v_bottom scroll) else y in
    let y := y + 11 in
    let view_size := view_size + 10 in
    let scroll := set_sc_v_thumb_bottom (Z.min y view_size) scroll in
    if sc_v_thumb_bottom scroll - sc_v_thumb_top scroll <? 20 then
      let lo := thumb_lround_lo (sc_v_thumb_top scroll) (sc_v_thumb_bottom scroll) view_size in
      let hi := thumb_lround_hi (sc_v_thumb_top scroll) (sc_v_thumb_bottom scroll) view_size in
      set_sc_v_thumb_bottom hi (set_sc_v_thumb_top lo scroll)
    else scroll
  else scroll.

Definition scroll_update_thumbs (widget : rct_widget) (scroll : rct_scroll) : rct_scroll :=
  scroll_update_v_thumbs widget (scroll_update_h_thumbs widget scroll).

Definition widget_scroll_update_thumbs (w : nat) (widget_index : nat) (st : ui_state) : ui_state :=
  let win := deref st w in
  let widget := w_widgets win !!! widget_index in
  let data_index := window_get_scroll_data_index win widget_index in
  let scroll := w_scrolls win !!! data_index in
  modify w (λ win,
    set_w_scrolls (<[data_index := scroll_update_thumbs widget scroll]> (w_scrolls win)) win) st.

Definition widget_invalidate (w : nat) (widgetIndex : nat) (st : ui_state) : ui_state :=
  let win := deref st w in
  let widget := w_widgets win !!! widgetIndex in
  if wd_left widget =? -2 then st
  else
    call (gfx_set_dirty_blocks (w_x win + wd_left widget) (w_y win + wd_top widget)
            (w_x win + wd_right widget + 1) (w_y win + wd_bottom widget + 1)) st.

(** [None] when [window_get_scroll_widget] returns [nullptr], which the
    source dereferences. *)
Definition window_scroll_wheel_input (w : nat) (scrollIndex : Z) (wheel : Z) (st : ui_state) : option ui_state :=
  let win := deref st w in
  let scroll := w_scrolls win !!! Z.to_nat scrollIndex in
  widget_ptr ← window_get_scroll_widget win scrollIndex;
  widgetIndex ← window_get_widget_index win widget_ptr;
  let widget := w_widgets win !!! widget_ptr in
  let scroll :=
    if test (sc_flags scroll) VSCROLLBAR_VISIBLE then
      let size := wd_bottom widget - wd_top widget - 1 in
      let size := if test (sc_flags scroll) HSCROLLBAR_VISIBLE then size - 11 else size in
      let size := Z.max 0 (sc_v_bottom scroll - size) in
      set_sc_v_top (Z.min (Z.max 0 (sc_v_top scroll + wheel)) size) scroll
    else
      let size := wd_right widget - wd_left widget - 1 in
      let size := if test (sc_flags scroll) VSCROLLBAR_VISIBLE then size - 11 else size in
      let size := Z.max 0 (sc_h_right scroll - size) in
      set_sc_h_left (Z.min (Z.max 0 (sc_h_left scroll + wheel)) size) scroll in
  let st := modify w (λ win, set_w_scrolls (<[Z.to_nat scrollIndex := scroll]> (w_scrolls win)) win) st in
  if widgetIndex <? 0 then None
  else
    let st := widget_scroll_update_thumbs w (Z.to_nat widgetIndex) st in
    Some (widget_invalidate w (Z.to_nat widgetIndex) st).

End Window.

(** ** Sample environments and states

    Used to evaluate the operations on concrete window lists. *)

(** An environment with the close handlers [close] and no other event
    handlers.  The flag bits and class numbers are those of the OpenRCT2
    headers; the three window limits are left open. *)
Definition sample_env (close : Z → option (nat → ui_state → ui_state))
    (limit_min limit_max limit_reserved : Z) : Env :=
  {| WF_STICK_TO_BACK := 1;
     WF_STICK_TO_FRONT := 2;
     WF_NO_SCROLLING := 4;
     WF_SCROLLING_TO_LOCATION := 8;
     WF_TRANSPARENT := 16;
     WF_NO_AUTO_CLOSE := 512;
     WC_MAIN_WINDOW := 0;
     WC_DROPDOWN := 6;
     WC_OPTIONS := 36;
     WINDOW_LIMIT_MIN := limit_min;
     WINDOW_LIMIT_MAX := limit_max;
     WINDOW_LIMIT_RESERVED := limit_reserved;
     MAX_ZOOM_LEVEL := 3;
     SPRITE_INDEX_NULL := 65535;
     SCREEN_FLAGS_TITLE_DEMO := 1;
     SCREEN_FLAGS_SCENARIO_EDITOR := 2;
     EDITOR_STEP_LANDSCAPE_EDITOR := 1;
     HSCROLLBAR_VISIBLE := 1;
     VSCROLLBAR_VISIBLE := 16;
     WWT_EMPTY := 0;
     WWT_DROPDOWN := 7;
     WWT_SCROLL := 22;
     WWT_LAST := 26;
     NOT_TRANSLUCENT := λ c, Z.land c 127;
     event_close := close;
     event_invalidate := λ _, None;
     event_paint := λ _, None;
     tile_element_height := λ _ _, 0;
     coordinate_3d_to_2d := λ '(x, y, z) _, (y - x, Z.shiftr (x + y) 1 - z);
     get_current_rotation := 0;
     centre_2d_coordinates := λ x y z v,
       (y - x - Z.shiftr (vp_view_width v) 1,
        Z.shiftr (x + y) 1 - z - Z.shiftr (vp_view_height v) 1);
     get_map_coordinates_from_pos := λ _ _ _, (0, 0);
     context_get_cursor_position_scaled := (0, 0);
     thumb_lround_lo := λ lo _ _, lo;
     thumb_lround_hi := λ _ hi _, hi |}.

Definition no_handlers_env (limit_min limit_max limit_reserved : Z) : Env :=
  sample_env (λ _, None) limit_min limit_max limit_reserved.

Definition default_env : Env := no_handlers_env 4 64 4.

(** A close handler that removes its own window from the list before
    [window_close] gets to it. *)
Definition close_self (w : nat) (st : ui_state) : ui_state :=
  set_next_slot (Some (RCT2_NEW_WINDOW st - 1)%nat)
    (set_window_list
       (memmove_down (g_window_list st) w (RCT2_NEW_WINDOW st - 1 - w)) st).

(** Windows whose [event_handlers] is 1 close themselves. *)
Definition self_closing_env : Env :=
  sample_env (λ h, if h =? 1 then Some close_self else None) 4 64 4.

(** A close handler that saves the configuration, and leaves the window
    list alone. *)
Definition close_saving (w : nat) (st : ui_state) : ui_state :=
  call config_save_default st.

(** Windows whose [event_handlers] is 2 save the configuration when they
    are closed. *)
Definition saving_env : Env :=
  sample_env (λ h, if h =? 2 then Some close_saving else None) 4 64 4.

(** [E] with the invalidate handlers [invalidate]. *)
Definition with_event_invalidate (E : Env)
    (invalidate : Z → option (nat → ui_state → ui_state)) : Env :=
  {| WF_STICK_TO_BACK := WF_STICK_TO_BACK;
     WF_STICK_TO_FRONT := WF_STICK_TO_FRONT;
     WF_NO_SCROLLING := WF_NO_SCROLLING;
     WF_SCROLLING_TO_LOCATION := WF_SCROLLING_TO_LOCATION;
     WF_TRANSPARENT := WF_TRANSPARENT;
     WF_NO_AUTO_CLOSE := WF_NO_AUTO_CLOSE;
     WC_MAIN_WINDOW := WC_MAIN_WINDOW;
     WC_DROPDOWN := WC_DROPDOWN;
     WC_OPTIONS := WC_OPTIONS;
     WINDOW_LIMIT_MIN := WINDOW_LIMIT_MIN;
     WINDOW_LIMIT_MAX := WINDOW_LIMIT_MAX;
     WINDOW_LIMIT_RESERVED := WINDOW_LIMIT_RESERVED;
     MAX_ZOOM_LEVEL := MAX_ZOOM_LEVEL;
     SPRITE_INDEX_NULL := SPRITE_INDEX_NULL;
     SCREEN_FLAGS_TITLE_DEMO := SCREEN_FLAGS_TITLE_DEMO;
     SCREEN_FLAGS_SCENARIO_EDITOR := SCREEN_FLAGS_SCENARIO_EDITOR;
     EDITOR_STEP_LANDSCAPE_EDITOR := EDITOR_STEP_LANDSCAPE_EDITOR;
     HSCROLLBAR_VISIBLE := HSCROLLBAR_VISIBLE;
     VSCROLLBAR_VISIBLE := VSCROLLBAR_VISIBLE;
     WWT_EMPTY := WWT_EMPTY;
     WWT_DROPDOWN := WWT_DROPDOWN;
     WWT_SCROLL := WWT_SCROLL;
     WWT_LAST := WWT_LAST;
     NOT_TRANSLUCENT := NOT_TRANSLUCENT;
     event_close := event_close;
     event_invalidate := invalidate;
     event_paint := event_paint;
     tile_element_height := tile_element_height;
     coordinate_3d_to_2d := coordinate_3d_to_2d;
     get_current_rotation := get_current_rotation;
     centre_2d_coordinates := centre_2d_coordinates;
     get_map_coordinates_from_pos := get_map_coordinates_from_pos;
     context_get_cursor_position_scaled := context_get_cursor_position_scaled;
     thumb_lround_lo := thumb_lround_lo;
     thumb_lround_hi := thumb_lround_hi |}.

(** An invalidate handler that lays out the widgets of its window: a
    frame, a dropdown with its companion button, a scroll region and the
    terminator. *)
Definition invalidate_layout (w : nat) (st : ui_state) : ui_state :=
  modify w
    (set_w_widgets
       [ mk_widget 1 0 199 0 119;
         mk_widget 7 10 80 20 31;
         mk_widget 8 69 79 21 30;
         mk_widget 22 10 189 40 109;
         mk_widget 26 0 0 0 0 ]) st.

(** Windows whose [event_handlers] is 3 lay out their widgets when they
    are invalidated. *)
Definition layout_env : Env :=
  with_event_invalidate default_env (λ h, if h =? 3 then Some invalidate_layout else None).

(** [plain_window] with the self-closing handler table. *)
Definition self_closing_window (cls number x y width height flags : Z) : rct_window :=
  mk_window 1 None [] x y width height number flags [] 0 0 cls 0 0 VC_UNKNOWN [].

(** A window without widgets, scroll regions or viewport. *)
Definition plain_window (cls number x y width height flags : Z) : rct_window :=
  mk_window 0 None [] x y width height number flags [] 0 0 cls 0 0 VC_UNKNOWN [].

(** A window owning viewport [p]. *)
Definition viewport_window (cls number x y width height flags : Z) (p : nat) : rct_window :=
  mk_window 0 (Some p) [] x y width height number flags [] 0 0 cls 65535 65535
    VC_UNKNOWN [].

(** A state whose array holds [slots], the first [n] of them open. *)
Definition ui_state_of (slots : list rct_window) (n : nat) (viewports : list rct_viewport) : ui_state :=
  mk_state slots (Some n) viewports 64 false 0 0 [] [].

Definition simple_viewport (x y width height zoom : Z) : rct_viewport :=
  mk_viewport width height x y 0 0 (width * 2 ^ zoom) (height * 2 ^ zoom) zoom 0
    VC_UNKNOWN.

Definition st_self_closing : ui_state :=
  ui_state_of
    [ plain_window 0 0 0 0 640 480 1;
      self_closing_window 9 1 100 80 200 150 0;
      plain_window 14 0 300 200 120 90 0;
      rct_window_zero ]
    3 [].

(** As [st_moving] below, the second window saving the configuration
    when it is closed. *)
Definition st_saving : ui_state :=
  ui_state_of
    [ plain_window 0 0 0 0 640 480 1;
      mk_window 2 (Some 0%nat) [] 100 80 200 150 1 0 [] 0 0 9 65535 65535 VC_UNKNOWN [];
      plain_window 14 0 300 200 120 90 0;
      rct_window_zero ]
    3 [ simple_viewport 103 97 194 130 0 ].

Definition st_moving : ui_state :=
  ui_state_of
    [ plain_window 0 0 0 0 640 480 1;
      viewport_window 9 1 100 80 200 150 0 0;
      plain_window 14 0 300 200 120 90 0;
      rct_window_zero ]
    3 [ simple_viewport 103 97 194 130 0 ].

(** ** Predicates used to state the properties *)

Section Predicates.
Context `{E : Env}.

(** A widget that is not of empty type and whose bounds, relative to the
    window origin [(wx, wy)], contain the point. *)
Definition widget_hit (wx wy x y : Z) (widget : rct_widget) : Prop :=
  wd_type widget ≠ WWT_EMPTY
  ∧ wx + wd_left widget ≤ x ≤ wx + wd_right widget
  ∧ wy + wd_top widget ≤ y ≤ wy + wd_bottom widget.

(** [n] is the index of the table's terminator. *)
Definition widgets_end (widgets : list rct_widget) (n : nat) : Prop :=
  (∃ t, widgets !! n = Some t ∧ wd_type t = WWT_LAST)
  ∧ ∀ k wd, (k < n)%nat → widgets !! k = Some wd → wd_type wd ≠ WWT_LAST.


(** The z-order invariant of the window list: the windows flagged
    stick-to-front are the last ones of the list. *)
Definition stick_to_front_last (st : ui_state) : Prop :=
  ∀ i j, (i < j < RCT2_NEW_WINDOW st)%nat →
    test (w_flags (deref st i)) WF_STICK_TO_FRONT = true →
    test (w_flags (deref st j)) WF_STICK_TO_FRONT = true.

(** The nudge at the end of [window_bring_to_front], on the record. *)
Definition nudged (win : rct_window) : rct_window :=
  if w_x win + w_width win <? 20 then set_w_x (w_x win + (20 - w_x win)) win else win.

(** The view extents and zoom level of a viewport. *)
Definition view_of (v : rct_viewport) : Z * Z * Z :=
  (vp_zoom v, vp_view_width v, vp_view_height v).

(** The close handlers leave the window array and its end alone (they
    may still change viewports, flags of the configuration or the log of
    external calls). *)
Definition close_handlers_inert : Prop :=
  ∀ h f, event_close h = Some f →
    ∀ w st, g_window_list (f w st) = g_window_list st
            ∧ gWindowNextSlot (f w st) = gWindowNextSlot st.

(** Classification and number, the key of an open window. *)
Definition window_key (win : rct_window) : Z * Z :=
  (w_classification win, w_number win).

(** No two open windows share classification and number. *)
Definition keys_unique (st : ui_state) : Prop :=
  NoDup (window_key <$> open_windows st).

(** The open windows lie within the array. *)
Definition list_in_array (st : ui_state) : Prop :=
  (RCT2_NEW_WINDOW st ≤ length (g_window_list st))%nat.

(** Every open window of [st] that satisfies [P] is still open in [st'],
    with the same record. *)
Definition spared (P : rct_window → Prop) (st st' : ui_state) : Prop :=
  ∀ win, win ∈ open_windows st → P win → win ∈ open_windows st'.

(** A window flagged stick-to-back or stick-to-front. *)
Definition sticky (win : rct_window) : Prop :=
  test (w_flags win) WF_STICK_TO_BACK = true
  ∨ test (w_flags win) WF_STICK_TO_FRONT = true.


(** Position, size and flags of a window: what the visible-region
    splitter reads. *)
Definition geometry (win : rct_window) : Z * Z * Z * Z * Z :=
  (w_x win, w_y win, w_width win, w_height win, w_flags win).

Definition layout (st : ui_state) : list (Z * Z * Z * Z * Z) * option nat :=
  (geometry <$> g_window_list st, gWindowNextSlot st).

(** The invalidate and paint handlers do not move, resize, reflag, open
    or close windows. *)
Definition paint_handlers_keep_layout : Prop :=
  (∀ h f, event_invalidate h = Some f → ∀ w st, layout (f w st) = layout st)
  ∧ (∀ h f, event_paint h = Some f → ∀ w dpi st, layout (f w dpi st) = layout st).

(** The region of a clipped descriptor lies within the rectangle. *)
Definition dpi_within (left top right bottom : Z) (dpi : rct_drawpixelinfo) : Prop :=
  left ≤ dpi_x dpi ∧ dpi_x dpi + dpi_width dpi ≤ right
  ∧ top ≤ dpi_y dpi ∧ dpi_y dpi + dpi_height dpi ≤ bottom.

(** The region of a clipped descriptor has no pixel in common with the
    window. *)
Definition dpi_disjoint (dpi : rct_drawpixelinfo) (win : rct_window) : Prop :=
  dpi_x dpi + dpi_width dpi ≤ w_x win
  ∨ dpi_y dpi + dpi_height dpi ≤ w_y win
  ∨ w_x win + w_width win ≤ dpi_x dpi
  ∨ w_y win + w_height win ≤ dpi_y dpi.

(** The split step in the spec's words: the two sub-rectangles along the
    occluder's left edge, else its right edge, else its top edge, else
    its bottom edge, whichever first crosses the rectangle; [None] when
    no edge does. *)
Definition split_rect (left top right bottom : Z) (occluder : rct_window)
    : option ((Z * Z * Z * Z) * (Z * Z * Z * Z)) :=
  let x := w_x occluder in
  let y := w_y occluder in
  let x' := w_x occluder + w_width occluder in
  let y' := w_y occluder + w_height occluder in
  if (left <? x) && (x <? right) then Some ((left, top, x, bottom), (x, top, right, bottom))
  else if (left <? x') && (x' <? right) then Some ((left, top, x', bottom), (x', top, right, bottom))
  else if (top <? y) && (y <? bottom) then Some ((left, top, right, y), (left, y, right, bottom))
  else if (top <? y') && (y' <? bottom) then Some ((left, top, right, y'), (left, y', right, bottom))
  else None.

(** What a call of [window_draw] on the rectangle achieves in the end. *)
Definition draw_ok (w : nat) (left top right bottom : Z) (st : ui_state)
    (res : ui_state * list paint_call) : Prop :=
  layout res.1 = layout st
  ∧ ∀ c, c ∈ res.2 →
      dpi_within left top right bottom c.2
      ∧ ∀ j, (w < j < RCT2_NEW_WINDOW st)%nat →
             test (w_flags (deref st j)) WF_TRANSPARENT = false →
             dpi_disjoint c.2 (deref st j).

End Predicates.

(** A window at (100, 50) with a frame, a dropdown with its companion
    button, a scroll region and the terminator. *)
Definition st_widgets : ui_state :=
  ui_state_of
    [ mk_window 0 None
        [ mk_widget 1 0 199 0 119;
          mk_widget 7 10 80 20 31;
          mk_widget 8 69 79 21 30;
          mk_widget 22 10 189 40 109;
          mk_widget 26 0 0 0 0 ]
        100 50 200 120 0 0
        [ mk_scroll 16 0 0 0 0 30 400 0 0 ]
        0 0 20 0 0 VC_UNKNOWN [];
      rct_window_zero ]
    1 [].

(** The window of [st_widgets] before its widgets are laid out: the
    table holds the widget types only, its invalidate handler fills in
    the bounds. *)
Definition st_lazy : ui_state :=
  ui_state_of
    [ mk_window 3 None
        [ mk_widget 1 0 0 0 0;
          mk_widget 7 0 0 0 0;
          mk_widget 8 0 0 0 0;
          mk_widget 22 0 0 0 0;
          mk_widget 26 0 0 0 0 ]
        100 50 200 120 0 0
        [ mk_scroll 16 0 0 0 0 30 400 0 0 ]
        0 0 20 0 0 VC_UNKNOWN [];
      rct_window_zero ]
    1 [].

(** The main window with its viewport, and a window in front of it that
    covers every candidate anchor of the viewport. *)
Definition st_obscured : ui_state :=
  ui_state_of
    [ viewport_window 0 0 0 0 640 480 1 0;
      plain_window 14 0 10 10 620 460 0;
      rct_window_zero ]
    2 [ simple_viewport 0 0 640 480 0 ].

(** Main window (stick to back), three ordinary windows, the second of
    them off the left edge with a viewport, and a toolbar (stick to
    front). *)
Definition st_z_order : ui_state :=
  ui_state_of
    [ plain_window 0 0 0 0 640 480 1;
      viewport_window 9 1 (-200) 80 210 150 0 0;
      plain_window 14 0 300 200 120 90 0;
      plain_window 17 0 50 60 120 90 0;
      plain_window 1 0 0 0 640 28 2;
      rct_window_zero ]
    5 [ simple_viewport (-197) 97 204 130 1 ].

(** Between the main window and the toolbar, a window 5 pixels from the
    left edge of the screen and one that starts 50 pixels left of it,
    both 100 pixels wide. *)
Definition st_near_edge : ui_state :=
  ui_state_of
    [ plain_window 0 0 0 0 640 480 1;
      plain_window 9 1 5 80 100 150 0;
      plain_window 9 2 (-50) 200 100 150 0;
      plain_window 1 0 0 0 640 28 2;
      rct_window_zero ]
    4 [].

(** A viewport window of 500 by 350 pixels at zoom level 1: its view
    extents are 1000 by 700. *)
Definition st_zoom_even : ui_state :=
  ui_state_of
    [ plain_window 0 0 0 0 640 480 1;
      viewport_window 9 1 100 80 500 350 0 0;
      rct_window_zero ]
    2 [ mk_viewport 500 350 100 80 0 0 1000 700 1 0 VC_UNKNOWN ].


(** Main window (stick to back), a ride window, an open dropdown and the
    top toolbar (both stick to front). *)
Definition st_bulk : ui_state :=
  ui_state_of
    [ plain_window 0 0 0 0 640 480 1;
      plain_window 9 1 100 80 200 150 0;
      plain_window 6 0 120 100 80 60 2;
      plain_window 1 0 0 0 640 28 2;
      rct_window_zero; rct_window_zero ]
    4 [].



(** Six windows without protection flags between the main window and the
    toolbar, in an array of 12; the window limit is 8. *)
Definition st_many : ui_state :=
  mk_state
    [ plain_window 0 0 0 0 640 480 1;
      plain_window 9 1 100 80 200 150 0;
      plain_window 9 2 110 90 200 150 0;
      plain_window 14 0 300 200 120 90 0;
      plain_window 17 0 50 60 120 90 0;
      plain_window 9 3 120 100 200 150 0;
      plain_window 9 4 130 110 200 150 0;
      plain_window 1 0 0 0 640 28 2;
      rct_window_zero; rct_window_zero; rct_window_zero; rct_window_zero ]
    (Some 8%nat) [] 8 false 0 0 [] [].

(** The render surface of a 640 by 480 screen. *)
Definition screen_dpi : rct_drawpixelinfo := mk_dpi 0 0 0 640 480 0 0.

(** Window A at (0, 0) of size 100 by 100 and, opened after it, the
    opaque window B at (50, 50) of size 100 by 100. *)
Definition st_overlap : ui_state :=
  ui_state_of
    [ plain_window 9 1 0 0 100 100 0;
      plain_window 9 2 50 50 100 100 0;
      rct_window_zero ]
    2 [].

(** Window A and an opaque window B exactly on top of it. *)
Definition st_covered : ui_state :=
  ui_state_of
    [ plain_window 9 1 0 0 100 100 0;
      plain_window 9 2 0 0 100 100 0;
      rct_window_zero ]
    2 [].

(** * Further functions of Window.cpp *)

Definition uint16 (x : Z) : Z := x mod 65536.

(** Constants and screen queries the functions below read; the headers
    that define them are not part of the sources. *)
Class Screen := {
  WF_NO_BACKGROUND : Z;
  WF_WHITE_BORDER_MASK : Z;
  TOP_TOOLBAR_HEIGHT : Z;
  context_get_width : Z;
  context_get_height : Z
}.

Section WindowMore.
Context `{E : Env} `{Sc : Screen}.

(** ** Scroll regions of a widget table *)

(** The loop of [window_get_scroll_index]; [None] when the table has no
    [WWT_LAST] entry to stop at. *)
Fixpoint window_get_scroll_index_loop (widgets : list rct_widget) (widgetIndex : nat)
    (targetWidgetIndex : nat) (scrollIndex : Z) : option Z :=
  match widgets with
  | [] => None
  | widget :: rest =>
      if wd_type widget =? WWT_LAST then Some scrollIndex
      else if decide (widgetIndex = targetWidgetIndex) then Some scrollIndex
      else
        window_get_scroll_index_loop rest (S widgetIndex) targetWidgetIndex
          (if wd_type widget =? WWT_SCROLL then scrollIndex + 1 else scrollIndex)
  end.

(** [None] also when [targetWidgetIndex] is not an entry of the table. *)
Definition window_get_scroll_index (w : rct_window) (targetWidgetIndex : nat) : option Z :=
  widget ← w_widgets w !! targetWidgetIndex;
  if negb (wd_type widget =? WWT_SCROLL) then Some (-1)
  else window_get_scroll_index_loop (w_widgets w) 0 targetWidgetIndex 0.

(** ** Lookup and closing by class and number *)

Definition window_get_main (st : ui_state) : option nat :=
  scan_up (λ w, w_classification w =? WC_MAIN_WINDOW)
    (g_window_list st) 0 (RCT2_NEW_WINDOW st).

(** As [window_close_by_class_loop], for a class and a number. *)
Fixpoint window_close_by_number_loop (fuel : nat) (cls number : Z) (w : nat) (st : ui_state) : option ui_state :=
  match fuel with
  | O => None
  | S fuel =>
      if decide (w < RCT2_NEW_WINDOW st)%nat then
        if (w_classification (deref st w) =? cls) && (w_number (deref st w) =? number)
        then window_close_by_number_loop fuel cls number 0 (window_close (Some w) st)
        else window_close_by_number_loop fuel cls number (S w) st
      else Some st
  end.

Definition window_close_by_number (fuel : nat) (cls number : Z) (st : ui_state) : option ui_state :=
  window_close_by_number_loop fuel cls number 0 st.

(** ** Hit testing on the window list *)

(** [for (w = RCT2_LAST_WINDOW; w >= g_window_list; w--)] with [k] the
    slot after [w]; the result is the state the invalidate handlers
    leave and the window found.  [None] when a widget table scanned has
    no [WWT_LAST] entry, and when [gWindowNextSlot] is null, the loop
    then starting at [nullptr - 1]. *)
Fixpoint window_find_from_point_loop (k : nat) (x y : Z) (st : ui_state) : option (ui_state * option nat) :=
  match k with
  | O => Some (st, None)
  | S w =>
      let win := deref st w in
      if (x <? w_x win) || (w_x win + w_width win <=? x)
         || (y <? w_y win) || (w_y win + w_height win <=? y)
      then window_find_from_point_loop w x y st
      else if test (w_flags win) WF_NO_BACKGROUND then
        let r := window_find_widget_from_point w x y st in
        widget_index ← r.2;
        if widget_index =? -1 then window_find_from_point_loop w x y r.1
        else Some (r.1, Some w)
      else Some (st, Some w)
  end.

Definition window_find_from_point (x y : Z) (st : ui_state) : option (ui_state * option nat) :=
  match gWindowNextSlot st with
  | None => None
  | Some _ => window_find_from_point_loop (RCT2_NEW_WINDOW st) x y st
  end.

(** ** Invalidation by class and number *)

(** [for (w = g_window_list + from; w < g_window_list + from + n; w++)
      if (P( *w )) f(w);] for an [f] that opens and closes no window. *)
Fixpoint for_each_window (P : rct_window → bool) (f : nat → ui_state → ui_state)
    (from n : nat) (st : ui_state) : ui_state :=
  match n with
  | O => st
  | S n' =>
      for_each_window P f (S from) n' (if P (deref st from) then f from st else st)
  end.

Definition window_invalidate_by_class (cls : Z) (st : ui_state) : ui_state :=
  for_each_window (λ w, w_classification w =? cls)
    (λ w, window_invalidate (Some w)) 0 (RCT2_NEW_WINDOW st) st.

Definition window_invalidate_by_number (cls number : Z) (st : ui_state) : ui_state :=
  for_each_window (λ w, (w_classification w =? cls) && (w_number w =? number))
    (λ w, window_invalidate (Some w)) 0 (RCT2_NEW_WINDOW st) st.

Definition window_invalidate_all (st : ui_state) : ui_state :=
  for_each_window (λ _, true) (λ w, window_invalidate (Some w)) 0 (RCT2_NEW_WINDOW st) st.

Definition widget_invalidate_by_class (cls : Z) (widgetIndex : nat) (st : ui_state) : ui_state :=
  for_each_window (λ w, w_classification w =? cls)
    (λ w, widget_invalidate w widgetIndex) 0 (RCT2_NEW_WINDOW st) st.

Definition widget_invalidate_by_number (cls number : Z) (widgetIndex : nat) (st : ui_state) : ui_state :=
  for_each_window (λ w, (w_classification w =? cls) && (w_number w =? number))
    (λ w, widget_invalidate w widgetIndex) 0 (RCT2_NEW_WINDOW st) st.

(** ** Bringing to front by class and number *)

(** The result is the returned pointer ([None] is [nullptr]) and the new
    state; [None] as for [window_bring_to_front]. *)
Definition window_bring_to_front_by_class_with_flags (cls flags : Z) (st : ui_state) : option (option nat * ui_state) :=
  match window_find_by_class cls st with
  | Some w =>
      let st := modify w (λ win, set_w_flags (Z.lor (w_flags win) (uint16 flags)) win) st in
      let st := window_invalidate (Some w) st in
      r ← window_bring_to_front w st;
      Some (Some r.1, r.2)
  | None => Some (None, st)
  end.

Definition window_bring_to_front_by_class (cls : Z) (st : ui_state) : option (option nat * ui_state) :=
  window_bring_to_front_by_class_with_flags cls WF_WHITE_BORDER_MASK st.

Definition window_bring_to_front_by_number (cls number : Z) (st : ui_state) : option (option nat * ui_state) :=
  match window_find_by_number cls number st with
  | Some w =>
      let st := modify w (λ win, set_w_flags (Z.lor (w_flags win) WF_WHITE_BORDER_MASK) win) st in
      let st := window_invalidate (Some w) st in
      r ← window_bring_to_front w st;
      Some (Some r.1, r.2)
  | None => Some (None, st)
  end.

(** ** Pushing other windows aside *)

(** The loop body of [window_push_others_right] for the slot [w]. *)
Definition window_push_others_right_step (window w : nat) (st : ui_state) : ui_state :=
  let win1 := deref st window in
  let win := deref st w in
  if decide (w = window) then st
  else if test (w_flags win) (Z.lor WF_STICK_TO_BACK WF_STICK_TO_FRONT) then st
  else if w_x win1 + w_width win1 <=? w_x win then st
  else if w_x win + w_width win <=? w_x win1 then st
  else if w_y win1 + w_height win1 <=? w_y win then st
  else if w_y win + w_height win <=? w_y win1 then st
  else
    let st := window_invalidate (Some w) st in
    if context_get_width <=? w_x win1 + w_width win1 + 13 then st
    else
      let push_amount := uint16 (w_x win1 + w_width win1 - w_x win + 3) in
      let st := modify w (λ win, set_w_x (w_x win + push_amount) win) st in
      let st := window_invalidate (Some w) st in
      match w_viewport (deref st w) with
      | Some p => modify_vp p (λ v, set_vp_x (vp_x v + push_amount) v) st
      | None => st
      end.

Definition window_push_others_right (window : nat) (st : ui_state) : ui_state :=
  for_each_window (λ _, true) (window_push_others_right_step window)
    0 (RCT2_NEW_WINDOW st) st.

(** The loop body of [window_push_others_below] for the slot [w2]. *)
Definition window_push_others_below_step (w1 w2 : nat) (st : ui_state) : ui_state :=
  let win1 := deref st w1 in
  let win2 := deref st w2 in
  if decide (w1 = w2) then st
  else if test (w_flags win2) (Z.lor WF_STICK_TO_BACK WF_STICK_TO_FRONT) then st
  (* Check if w2 intersects with w1 *)
  else if (w_x win1 + w_width win1 <? w_x win2) || (w_x win2 + w_width win2 <? w_x win1) then st
  else if (w_y win1 + w_height win1 <? w_y win2) || (w_y win2 + w_height win2 <? w_y win1) then st
  (* Check if there is room to push it down *)
  else if context_get_height <=? w_y win1 + w_height win1 + 80 then st
  else
    (* Invalidate the window's current area *)
    let st := window_invalidate (Some w2) st in
    let push_amount := w_y win1 + w_height win1 - w_y win2 + 3 in
    let st := modify w2 (λ win, set_w_y (w_y win + push_amount) win) st in
    (* Invalidate the window's new area *)
    let st := window_invalidate (Some w2) st in
    (* Update viewport position if necessary *)
    match w_viewport (deref st w2) with
    | Some p => modify_vp p (λ v, set_vp_y (vp_y v + push_amount) v) st
    | None => st
    end.

Definition window_push_others_below (w1 : nat) (st : ui_state) : ui_state :=
  for_each_window (λ _, true) (window_push_others_below_step w1)
    0 (RCT2_NEW_WINDOW st) st.

(** ** Positions, locations and zoom steps *)

Definition window_set_position (w : nat) (x y : Z) (st : ui_state) : ui_state :=
  window_move_position w (x - w_x (deref st w)) (y - w_y (deref st w)) st.

Definition window_set_location (w : nat) (x y z : Z) (st : ui_state) : ui_state :=
  let st := window_scroll_to_location w x y z st in
  modify w (λ win, set_w_flags (Z.land (w_flags win) (Z.lnot WF_SCROLLING_TO_LOCATION)) win) st.

(** [None] when [w] has no viewport, as for [window_zoom_set]. *)
Definition window_zoom_in (w : nat) (atCursor : bool) (st : ui_state) : option ui_state :=
  p ← w_viewport (deref st w);
  window_zoom_set w (vp_zoom (deref_vp st p) - 1) atCursor st.

Definition window_zoom_out (w : nat) (atCursor : bool) (st : ui_state) : option ui_state :=
  p ← w_viewport (deref st w);
  window_zoom_set w (vp_zoom (deref_vp st p) + 1) atCursor st.

(** The loop body of [window_relocate_windows] for the slot [w]; the
    state carries [new_location]. *)
Definition window_relocate_windows_step (width height : Z) (w : nat)
    (acc : Z * ui_state) : Z * ui_state :=
  let '(new_location, st) := acc in
  let win := deref st w in
  (* Work out if the window requires moving *)
  if (w_x win + 10 <? width)
     && ((test (w_flags win) (Z.lor WF_STICK_TO_BACK WF_STICK_TO_FRONT)
          && (w_y win - 22 <? height))
         || (w_y win + 10 <? height))
  then acc
  else
    (* Calculate the new locations *)
    let x := w_x win in
    let y := w_y win in
    let st := modify w (set_w_x new_location) st in
    let st := modify w (set_w_y (new_location + TOP_TOOLBAR_HEIGHT + 1)) st in
    (* Adjust the viewport if required. *)
    let st :=
      match w_viewport (deref st w) with
      | Some p =>
          modify_vp p (λ v, set_vp_y (vp_y v - (y - w_y (deref st w))) v)
            (modify_vp p (λ v, set_vp_x (vp_x v - (x - w_x (deref st w))) v) st)
      | None => st
      end in
    (* Move the next new location so windows are not directly on top *)
    (new_location + 8, st).

Fixpoint window_relocate_windows_loop (width height : Z) (from n : nat)
    (acc : Z * ui_state) : Z * ui_state :=
  match n with
  | O => acc
  | S n' =>
      window_relocate_windows_loop width height (S from) n'
        (window_relocate_windows_step width height from acc)
  end.

Definition window_relocate_windows (width height : Z) (st : ui_state) : ui_state :=
  (window_relocate_windows_loop width height 0 (RCT2_NEW_WINDOW st) (8, st)).2.

(** ** Visibility cache and viewports *)

Definition window_reset_visibilities_step (w : nat) (st : ui_state) : ui_state :=
  let st := modify w (set_w_visibility VC_UNKNOWN) st in
  match w_viewport (deref st w) with
  | Some p => modify_vp p (set_vp_visibility VC_UNKNOWN) st
  | None => st
  end.

Definition window_reset_visibilities (st : ui_state) : ui_state :=
  (* reset window visibility status to unknown *)
  for_each_window (λ _, true) window_reset_visibilities_step 0 (RCT2_NEW_WINDOW st) st.

(** [while (true) { window--; ... }] with [k] the slot after [window];
    viewports are given by their pointers, [None] being [nullptr]. *)
Fixpoint window_get_previous_viewport_loop (k : nat) (current : option nat)
    (foundPrevious : bool) (st : ui_state) : option nat :=
  match k with
  | O => None
  | S window =>
      match w_viewport (deref st window) with
      | None => window_get_previous_viewport_loop window current foundPrevious st
      | Some p =>
          if foundPrevious then Some p
          else
            window_get_previous_viewport_loop window current
              (bool_decide (Some p = current)) st
      end
  end.

Definition window_get_previous_viewport (current : option nat) (st : ui_state) : option nat :=
  let foundPrevious := bool_decide (current = None) in
  match gWindowNextSlot st with
  | None => None
  | Some window => window_get_previous_viewport_loop window current foundPrevious st
  end.

(** ** Redrawing a screen region *)

(** [for (w = g_window_list; w < gWindowNextSlot; w++)] of
    [window_draw_all]; [n] bounds the slots left in the array and [fuel]
    each call of [window_draw]. *)
Fixpoint window_draw_all_loop (fuel n : nat) (windowDPI : rct_drawpixelinfo) (w : nat)
    (left top right bottom : Z) (st : ui_state) : option (ui_state * list paint_call) :=
  match n with
  | O => Some (st, [])
  | S n' =>
      if decide (w < RCT2_NEW_WINDOW st)%nat then
        let win := deref st w in
        if test (w_flags win) WF_TRANSPARENT
        then window_draw_all_loop fuel n' windowDPI (S w) left top right bottom st
        else if (right <=? w_x win) || (bottom <=? w_y win)
        then window_draw_all_loop fuel n' windowDPI (S w) left top right bottom st
        else if (w_x win + w_width win <=? left) || (w_y win + w_height win <=? top)
        then window_draw_all_loop fuel n' windowDPI (S w) left top right bottom st
        else
          r ← window_draw fuel windowDPI w left top right bottom st;
          r' ← window_draw_all_loop fuel n' windowDPI (S w) left top right bottom r.1;
          Some (r'.1, r.2 ++ r'.2)
      else Some (st, [])
  end.

Definition window_draw_all (fuel : nat) (dpi : rct_drawpixelinfo)
    (left top right bottom : Z) (st : ui_state) : option (ui_state * list paint_call) :=
  let left := sint16 left in
  let top := sint16 top in
  let right := sint16 right in
  let bottom := sint16 bottom in
  let windowDPI :=
    mk_dpi (dpi_bits dpi + left + (dpi_width dpi + dpi_pitch dpi) * top)
      left top (right - left) (bottom - top)
      (dpi_width dpi + dpi_pitch dpi + left - right) 0 in
  window_draw_all_loop fuel (length (g_window_list st)) windowDPI 0 left top right bottom st.

End WindowMore.

#[global] Instance sticky_dec `{E : Env} (win : rct_window) : Decision (sticky win) :=
  decide (test (w_flags win) WF_STICK_TO_BACK = true
          ∨ test (w_flags win) WF_STICK_TO_FRONT = true).

(** Two plain windows and nothing else. *)
Definition st_pair : ui_state :=
  ui_state_of
    [ plain_window 9 1 100 80 200 150 0;
      plain_window 14 0 300 200 120 90 0;
      rct_window_zero ]
    2 [].

(** The point lies on the window. *)
Definition window_contains (x y : Z) (win : rct_window) : Prop :=
  w_x win ≤ x < w_x win + w_width win ∧ w_y win ≤ y < w_y win + w_height win.

(** The screen constants of the OpenRCT2 headers on a 640 by 480 screen. *)
Definition default_screen : Screen :=
  {| WF_NO_BACKGROUND := 32;
     WF_WHITE_BORDER_MASK := 12288;
     TOP_TOOLBAR_HEIGHT := 27;
     context_get_width := 640;
     context_get_height := 480 |}.

(** A main window, a plain window and, in front of them, a window
    without background and without widgets over the whole screen. *)
Definition st_overlay : ui_state :=
  ui_state_of
    [ plain_window 0 0 0 0 640 480 1;
      plain_window 14 0 300 200 120 90 0;
      mk_window 0 None [mk_widget 26 0 0 0 0] 0 0 640 480 0 32 [] 0 0 20 0 0
        VC_UNKNOWN [];
      rct_window_zero ]
    3 [].

(** A viewport window fully behind a larger plain window, one that
    sticks out from under it, and the main window below both. *)
Definition st_covering : ui_state :=
  ui_state_of
    [ viewport_window 0 0 0 0 640 480 1 0;
      viewport_window 9 1 100 100 100 80 0 1;
      viewport_window 9 2 300 100 200 80 0 2;
      plain_window 14 0 80 80 300 200 0;
      rct_window_zero ]
    4 [ simple_viewport 0 0 640 480 0;
        simple_viewport 103 117 94 60 0;
        simple_viewport 303 117 194 60 0 ].

(** [st_covering] after the visibility of its second window was asked
    for, and the window covering it then moved away. *)
Definition st_uncovered : ui_state :=
  window_set_position 3 400 300
    (window_is_visible (E := default_env) (Some 1%nat) st_covering).2.

(** A widget table with two scroll regions, at entries 1 and 3. *)
Definition two_scroll_window : rct_window :=
  mk_window 0 None
    [ mk_widget 1 0 199 0 119;
      mk_widget 22 10 189 10 50;
      mk_widget 8 69 79 21 30;
      mk_widget 22 10 189 60 109;
      mk_widget 26 0 0 0 0 ]
    100 50 200 120 0 0
    [ mk_scroll 16 0 0 0 0 30 400 0 0; mk_scroll 16 0 0 0 0 30 400 0 0 ]
    0 0 20 0 0 VC_UNKNOWN [].

(** A ride window between the main window and the toolbar, a viewport
    window that overlaps it and a window clear of it. *)
Definition st_crowded : ui_state :=
  ui_state_of
    [ plain_window 0 0 0 0 640 480 1;
      plain_window 9 1 100 80 200 150 0;
      viewport_window 14 0 150 200 120 90 0 0;
      plain_window 17 0 400 60 120 90 0;
      plain_window 1 0 0 0 640 28 2;
      rct_window_zero ]
    5 [ simple_viewport 153 217 114 70 0 ].

(** The region [window_invalidate] marks dirty for a window. *)
Definition window_region (win : rct_window) : ext_call :=
  gfx_set_dirty_blocks (w_x win) (w_y win) (w_x win + w_width win) (w_y win + w_height win).

(** The pixel lies in the region of the descriptor. *)
Definition dpi_contains (px py : Z) (dpi : rct_drawpixelinfo) : Prop :=
  dpi_x dpi ≤ px < dpi_x dpi + dpi_width dpi ∧ dpi_y dpi ≤ py < dpi_y dpi + dpi_height dpi.

(** The invalidate and paint handlers leave the visibility cache of the
    windows alone. *)
Definition paint_handlers_keep_visibility `{E : Env} : Prop :=
  (∀ h f, event_invalidate h = Some f →
     ∀ w st j, w_visibility (deref (f w st) j) = w_visibility (deref st j))
  ∧ (∀ h f, event_paint h = Some f →
       ∀ w dpi st j, w_visibility (deref (f w dpi st) j) = w_visibility (deref st j)).


(** The test of [window_relocate_windows] for a window that need not
    move on a screen of the given size. *)
Definition window_in_view `{E : Env} (width height : Z) (win : rct_window) : bool :=
  (w_x win + 10 <? width)
  && ((test (w_flags win) (Z.lor WF_STICK_TO_BACK WF_STICK_TO_FRONT)
       && (w_y win - 22 <? height))
      || (w_y win + 10 <? height)).

(** The main window, a window in view and two windows right of and
    below a 640 by 480 screen. *)
Definition st_offscreen : ui_state :=
  ui_state_of
    [ plain_window 0 0 0 0 640 480 1;
      plain_window 9 1 700 80 200 150 0;
      plain_window 14 0 300 200 120 90 0;
      viewport_window 17 0 50 500 120 90 0 0;
      rct_window_zero ]
    4 [ simple_viewport 53 517 114 70 0 ].

(** The region [widget_invalidate] marks dirty for the widget
    [widgetIndex] of a window; none for a widget whose left is -2. *)
Definition widget_region (widgetIndex : nat) (win : rct_window) : option ext_call :=
  let widget := w_widgets win !!! widgetIndex in
  if wd_left widget =? -2 then None
  else Some (gfx_set_dirty_blocks (w_x win + wd_left widget) (w_y win + wd_top widget)
               (w_x win + wd_right widget + 1) (w_y win + wd_bottom widget + 1)).

(** Three windows of class 20 with a frame and a dropdown, the second of
    them with its dropdown hidden (left is -2), and a window of another
    class. *)
Definition st_two_tables : ui_state :=
  ui_state_of
    [ mk_window 0 None
        [ mk_widget 1 0 199 0 119; mk_widget 7 10 80 20 31; mk_widget 26 0 0 0 0 ]
        100 50 200 120 0 0 [] 0 0 20 0 0 VC_UNKNOWN [];
      plain_window 14 0 300 200 120 90 0;
      mk_window 0 None
        [ mk_widget 1 0 199 0 119; mk_widget 7 (-2) 80 20 31; mk_widget 26 0 0 0 0 ]
        10 300 200 120 1 0 [] 0 0 20 0 0 VC_UNKNOWN [];
      mk_window 0 None
        [ mk_widget 1 0 199 0 119; mk_widget 7 10 80 20 31; mk_widget 26 0 0 0 0 ]
        400 300 200 120 2 0 [] 0 0 20 0 0 VC_UNKNOWN [];
      rct_window_zero ]
    4 [].

(** ** Snapping a dragged window to its neighbours *)

Definition INT32_MIN : Z := -2147483648.
Definition INT32_MAX : Z := 2147483647.

Section Snap.
Context `{E : Env} `{Sc : Screen}.

(** [for (w2 = g_window_list; w2 < RCT2_NEW_WINDOW; w2++)] of the four
    snap functions: [candidate] gives the edge of [w2] when it passes
    the two range tests, [pick] is [std::max] or [std::min].  The edges
    are [sint32] locals; [w->x] and [w->y], which they are stored into,
    are 16-bit fields. *)
Fixpoint window_snap_loop (candidate : rct_window → option Z) (pick : Z → Z → Z)
    (w : nat) (mainWindow : option nat) (from n : nat) (most : Z) (st : ui_state) : Z :=
  match n with
  | O => most
  | S n' =>
      let most :=
        if bool_decide (from = w) || bool_decide (Some from = mainWindow) then most
        else
          match candidate (deref st from) with
          | Some edge => pick most edge
          | None => most
          end in
      window_snap_loop candidate pick w mainWindow (S from) n' most st
  end.

Definition window_snap_left (w : nat) (proximity : Z) (st : ui_state) : ui_state :=
  let mainWindow := window_get_main st in
  let win := deref st w in
  let wBottom := w_y win + w_height win in
  let wLeftProximity := w_x win - proximity * 2 in
  let wRightProximity := w_x win + proximity * 2 in
  let rightMost :=
    window_snap_loop
      (λ w2,
         let right := w_x w2 + w_width w2 in
         if (wBottom <? w_y w2) || (w_y w2 + w_height w2 <? w_y win) then None
         else if (right <? wLeftProximity) || (wRightProximity <? right) then None
         else Some right)
      Z.max w mainWindow 0 (RCT2_NEW_WINDOW st) INT32_MIN st in
  let rightMost :=
    if (wLeftProximity <=? 0) && (0 <=? wRightProximity)
    then Z.max rightMost 0 else rightMost in
  if negb (rightMost =? INT32_MIN) then modify w (set_w_x (sint16 rightMost)) st else st.

Definition window_snap_top (w : nat) (proximity : Z) (st : ui_state) : ui_state :=
  let mainWindow := window_get_main st in
  let win := deref st w in
  let wRight := w_x win + w_width win in
  let wTopProximity := w_y win - proximity * 2 in
  let wBottomProximity := w_y win + proximity * 2 in
  let bottomMost :=
    window_snap_loop
      (λ w2,
         let bottom := w_y w2 + w_height w2 in
         if (wRight <? w_x w2) || (w_x w2 + w_width w2 <? w_x win) then None
         else if (bottom <? wTopProximity) || (wBottomProximity <? bottom) then None
         else Some bottom)
      Z.max w mainWindow 0 (RCT2_NEW_WINDOW st) INT32_MIN st in
  let bottomMost :=
    if (wTopProximity <=? 0) && (0 <=? wBottomProximity)
    then Z.max bottomMost 0 else bottomMost in
  if negb (bottomMost =? INT32_MIN) then modify w (set_w_y (sint16 bottomMost)) st else st.

Definition window_snap_right (w : nat) (proximity : Z) (st : ui_state) : ui_state :=
  let mainWindow := window_get_main st in
  let win := deref st w in
  let wRight := w_x win + w_width win in
  let wBottom := w_y win + w_height win in
  let wLeftProximity := wRight - proximity * 2 in
  let wRightProximity := wRight + proximity * 2 in
  let leftMost :=
    window_snap_loop
      (λ w2,
         if (wBottom <? w_y w2) || (w_y w2 + w_height w2 <? w_y win) then None
         else if (w_x w2 <? wLeftProximity) || (wRightProximity <? w_x w2) then None
         else Some (w_x w2))
      Z.min w mainWindow 0 (RCT2_NEW_WINDOW st) INT32_MAX st in
  let screenWidth := context_get_width in
  let leftMost :=
    if (wLeftProximity <=? screenWidth) && (screenWidth <=? wRightProximity)
    then Z.min leftMost screenWidth else leftMost in
  if negb (leftMost =? INT32_MAX)
  then modify w (set_w_x (sint16 (leftMost - w_width win))) st else st.

Definition window_snap_bottom (w : nat) (proximity : Z) (st : ui_state) : ui_state :=
  let mainWindow := window_get_main st in
  let win := deref st w in
  let wRight := w_x win + w_width win in
  let wBottom := w_y win + w_height win in
  let wTopProximity := wBottom - proximity * 2 in
  let wBottomProximity := wBottom + proximity * 2 in
  let topMost :=
    window_snap_loop
      (λ w2,
         if (wRight <? w_x w2) || (w_x w2 + w_width w2 <? w_x win) then None
         else if (w_y w2 <? wTopProximity) || (wBottomProximity <? w_y w2) then None
         else Some (w_y w2))
      Z.min w mainWindow 0 (RCT2_NEW_WINDOW st) INT32_MAX st in
  let screenHeight := context_get_height in
  let topMost :=
    if (wTopProximity <=? screenHeight) && (screenHeight <=? wBottomProximity)
    then Z.min topMost screenHeight else topMost in
  if negb (topMost =? INT32_MAX)
  then modify w (set_w_y (sint16 (topMost - w_height win))) st else st.

Definition window_move_and_snap (w : nat) (newWindowX newWindowY snapProximity : Z)
    (st : ui_state) : ui_state :=
  let originalX := w_x (deref st w) in
  let originalY := w_y (deref st w) in
  let minY :=
    if test (gScreenFlags st) SCREEN_FLAGS_TITLE_DEMO then 1 else TOP_TOOLBAR_HEIGHT + 2 in
  let newWindowY := Math_Clamp minY newWindowY (context_get_height - 34) in
  if 0 <? snapProximity then
    let st := modify w (set_w_x (sint16 newWindowX)) st in
    let st := modify w (set_w_y (sint16 newWindowY)) st in
    let st := window_snap_right w snapProximity st in
    let st := window_snap_bottom w snapProximity st in
    let st := window_snap_left w snapProximity st in
    let st := window_snap_top w snapProximity st in
    if (w_x (deref st w) =? originalX) && (w_y (deref st w) =? originalY) then st
    else
      let newWindowX := w_x (deref st w) in
      let newWindowY := w_y (deref st w) in
      let st := modify w (set_w_x (sint16 originalX)) st in
      let st := modify w (set_w_y (sint16 originalY)) st in
      window_set_position w newWindowX newWindowY st
  else window_set_position w newWindowX newWindowY st.

End Snap.

(** A window dragged next to a neighbour whose left edge is at 300. *)
Definition st_dragged : ui_state :=
  ui_state_of
    [ plain_window 0 0 0 0 640 480 1;
      plain_window 9 1 100 80 200 150 0;
      plain_window 14 0 300 100 120 90 0;
      rct_window_zero ]
    3 [].

(** A snap along x writes [w]'s [x] and nothing else; with a proximity
    [p] that keeps [x - 2p .. x + 2p] within the 16-bit range the window
    moves by at most [2p]. *)
Definition snaps_x (p : Z) (w : nat) (st st' : ui_state) : Prop :=
  length (g_window_list st') = length (g_window_list st)
  ∧ (∀ j, j ≠ w → deref st' j = deref st j)
  ∧ w_width (deref st' w) = w_width (deref st w)
  ∧ w_height (deref st' w) = w_height (deref st w)
  ∧ w_y (deref st' w) = w_y (deref st w)
  ∧ (0 ≤ p → -32768 ≤ w_x (deref st w) - 2 * p → w_x (deref st w) + 2 * p ≤ 32767 →
     Z.abs (w_x (deref st' w) - w_x (deref st w)) ≤ 2 * p).

Definition snaps_y (p : Z) (w : nat) (st st' : ui_state) : Prop :=
  length (g_window_list st') = length (g_window_list st)
  ∧ (∀ j, j ≠ w → deref st' j = deref st j)
  ∧ w_width (deref st' w) = w_width (deref st w)
  ∧ w_height (deref st' w) = w_height (deref st w)
  ∧ w_x (deref st' w) = w_x (deref st w)
  ∧ (0 ≤ p → -32768 ≤ w_y (deref st w) - 2 * p → w_y (deref st w) + 2 * p ≤ 32767 →
     Z.abs (w_y (deref st' w) - w_y (deref st w)) ≤ 2 * p).

(** * Properties *)

(** ** State plumbing *)

(** Equality of tuples, component by component. *)
Ltac tuple_eq :=
  (repeat (apply pair_equal_spec; split)); (try done); (try lia).

Section Plumbing.
Context `{E : Env}.

Lemma deref_modify_eq st w f :
  (w < length (g_window_list st))%nat →
  deref (modify w f st) w = f (deref st w).
Proof. intros Hw. unfold deref, modify. simpl. by apply list_lookup_total_alter_eq. Qed.

Lemma deref_modify_ne st w w' f :
  w ≠ w' → deref (modify w f st) w' = deref st w'.
Proof. intros Hw. unfold deref, modify. simpl. by apply list_lookup_total_alter_ne. Qed.

Lemma deref_vp_modify_vp_eq st p f :
  (p < length (g_viewport_list st))%nat →
  deref_vp (modify_vp p f st) p = f (deref_vp st p).
Proof. intros Hp. unfold deref_vp, modify_vp. simpl. by apply list_lookup_total_alter_eq. Qed.

Lemma deref_vp_modify_vp_ne st p p' f :
  p ≠ p' → deref_vp (modify_vp p f st) p' = deref_vp st p'.
Proof. intros Hp. unfold deref_vp, modify_vp. simpl. by apply list_lookup_total_alter_ne. Qed.

(** Projections of a state through the updates that leave them alone. *)

Lemma next_call c st : RCT2_NEW_WINDOW (call c st) = RCT2_NEW_WINDOW st.
Proof. done. Qed.
Lemma deref_call c st j : deref (call c st) j = deref st j.
Proof. done. Qed.
Lemma deref_vp_call c st p : deref_vp (call c st) p = deref_vp st p.
Proof. done. Qed.

Lemma next_window_invalidate o st :
  RCT2_NEW_WINDOW (window_invalidate o st) = RCT2_NEW_WINDOW st.
Proof. by destruct o. Qed.
Lemma next_slot_window_invalidate o st :
  gWindowNextSlot (window_invalidate o st) = gWindowNextSlot st.
Proof. by destruct o. Qed.
Lemma window_list_window_invalidate o st :
  g_window_list (window_invalidate o st) = g_window_list st.
Proof. by destruct o. Qed.
Lemma viewport_list_window_invalidate o st :
  g_viewport_list (window_invalidate o st) = g_viewport_list st.
Proof. by destruct o. Qed.
Lemma deref_window_invalidate o st j : deref (window_invalidate o st) j = deref st j.
Proof. by destruct o. Qed.
Lemma deref_vp_window_invalidate o st p :
  deref_vp (window_invalidate o st) p = deref_vp st p.
Proof. by destruct o. Qed.

Lemma next_modify w f st : RCT2_NEW_WINDOW (modify w f st) = RCT2_NEW_WINDOW st.
Proof. done. Qed.
Lemma next_slot_modify w f st : gWindowNextSlot (modify w f st) = gWindowNextSlot st.
Proof. done. Qed.
Lemma viewport_list_modify w f st : g_viewport_list (modify w f st) = g_viewport_list st.
Proof. done. Qed.
Lemma deref_vp_modify w f st p : deref_vp (modify w f st) p = deref_vp st p.
Proof. done. Qed.
Lemma length_modify w f st :
  length (g_window_list (modify w f st)) = length (g_window_list st).
Proof. unfold modify. simpl. by rewrite length_alter. Qed.

Lemma next_modify_vp p f st : RCT2_NEW_WINDOW (modify_vp p f st) = RCT2_NEW_WINDOW st.
Proof. done. Qed.
Lemma next_slot_modify_vp p f st :
  gWindowNextSlot (modify_vp p f st) = gWindowNextSlot st.
Proof. done. Qed.
Lemma window_list_modify_vp p f st :
  g_window_list (modify_vp p f st) = g_window_list st.
Proof. done. Qed.
Lemma deref_modify_vp p f st j : deref (modify_vp p f st) j = deref st j.
Proof. done. Qed.
Lemma length_modify_vp p f st :
  length (g_viewport_list (modify_vp p f st)) = length (g_viewport_list st).
Proof. unfold modify_vp. simpl. by rewrite length_alter. Qed.

End Plumbing.

Create Rewrite HintDb ui_state.

#[export] Hint Rewrite next_call deref_call deref_vp_call
  next_window_invalidate next_slot_window_invalidate
  window_list_window_invalidate viewport_list_window_invalidate
  deref_window_invalidate deref_vp_window_invalidate
  next_modify next_slot_modify viewport_list_modify deref_vp_modify length_modify
  next_modify_vp next_slot_modify_vp window_list_modify_vp deref_modify_vp
  length_modify_vp : ui_state.

(** ** window_move_position *)

(** A value within the 16-bit range is stored as it is. *)
Lemma sint16_id z : -32768 ≤ z ≤ 32767 → sint16 z = z.
Proof. intros Hz. unfold sint16. rewrite Z.mod_small by lia. lia. Qed.

(** The claim of C10 as stated fails on the code: the position fields
    are 16 bits wide, so a window at x = 100 moved by dx = 40000 is not
    at 40100 afterwards but at 40100 - 65536. *)
Lemma window_move_position_counterexample :
  w_x (deref st_moving 1) = 100
  ∧ w_x (deref (window_move_position 1 40000 0 st_moving) 1) = -25436
  ∧ vp_x (deref_vp st_moving 0) = 103
  ∧ vp_x (deref_vp (window_move_position 1 40000 0 st_moving) 0) = -25433.
Proof. split_and!; by vm_compute. Qed.

(** C10, amended: [window_move_position(w, 0, 0)] changes nothing and
    invalidates nothing.  With a non-zero delta, [w]'s [x] and [y]
    become [x + dx] and [y + dy] as stored in their 16-bit fields, that
    is wrapped into -32768..32767, hence moved by exactly [dx] and [dy]
    when the sums lie in that range; its width, height, flags, widgets
    and all its other fields, every other window and the end of the list
    stay as they were; the viewport [w] owns, if any, moves in the same
    way and no other viewport changes; the old and the new region are
    invalidated. *)
Theorem window_move_position_frame (st : ui_state) (w : nat) (dx dy : Z) :
  (w < length (g_window_list st))%nat →
  window_move_position w 0 0 st = st
  ∧ (dx ≠ 0 ∨ dy ≠ 0 →
     let st' := window_move_position w dx dy st in
     let x' := sint16 (w_x (deref st w) + dx) in
     let y' := sint16 (w_y (deref st w) + dy) in
     deref st' w = set_w_y y' (set_w_x x' (deref st w))
     ∧ w_x (deref st' w) = x'
     ∧ w_y (deref st' w) = y'
     ∧ (-32768 ≤ w_x (deref st w) + dx ≤ 32767 →
        w_x (deref st' w) = w_x (deref st w) + dx)
     ∧ (-32768 ≤ w_y (deref st w) + dy ≤ 32767 →
        w_y (deref st' w) = w_y (deref st w) + dy)
     ∧ w_width (deref st' w) = w_width (deref st w)
     ∧ w_height (deref st' w) = w_height (deref st w)
     ∧ w_flags (deref st' w) = w_flags (deref st w)
     ∧ w_widgets (deref st' w) = w_widgets (deref st w)
     ∧ (∀ w', w' ≠ w → deref st' w' = deref st w')
     ∧ length (g_window_list st') = length (g_window_list st)
     ∧ gWindowNextSlot st' = gWindowNextSlot st
     ∧ match w_viewport (deref st w) with
       | Some p =>
           ((p < length (g_viewport_list st))%nat →
            deref_vp st' p
            = set_vp_y (sint16 (vp_y (deref_vp st p) + dy))
                (set_vp_x (sint16 (vp_x (deref_vp st p) + dx)) (deref_vp st p))
            ∧ (-32768 ≤ vp_x (deref_vp st p) + dx ≤ 32767 →
               vp_x (deref_vp st' p) = vp_x (deref_vp st p) + dx)
            ∧ (-32768 ≤ vp_y (deref_vp st p) + dy ≤ 32767 →
               vp_y (deref_vp st' p) = vp_y (deref_vp st p) + dy))
           ∧ (∀ p', p' ≠ p → deref_vp st' p' = deref_vp st p')
       | None => g_viewport_list st' = g_viewport_list st
       end
     ∧ ext_calls st'
       = ext_calls st
         ++ [gfx_set_dirty_blocks (w_x (deref st w)) (w_y (deref st w))
               (w_x (deref st w) + w_width (deref st w))
               (w_y (deref st w) + w_height (deref st w));
             gfx_set_dirty_blocks x' y'
               (x' + w_width (deref st w)) (y' + w_height (deref st w))]).
Proof.
  intros Hw. split.
  { reflexivity. }
  intros Hd. unfold window_move_position.
  assert ((dx =? 0) && (dy =? 0) = false) as ->.
  { apply andb_false_iff. destruct Hd; [left|right]; by apply Z.eqb_neq. }
  cbv zeta.
  set (st1 := window_invalidate (Some w) st).
  set (st2 := modify w (λ win, set_w_x (sint16 (w_x win + dx)) win) st1).
  set (st3 := modify w (λ win, set_w_y (sint16 (w_y win + dy)) win) st2).
  assert (Hl1 : (w < length (g_window_list st1))%nat) by done.
  assert (Hl2 : (w < length (g_window_list st2))%nat).
  { unfold st2, modify. simpl. by rewrite length_alter. }
  assert (H3 : deref st3 w
     = set_w_y (sint16 (w_y (deref st w) + dy))
         (set_w_x (sint16 (w_x (deref st w) + dx)) (deref st w))).
  { unfold st3. rewrite deref_modify_eq by done.
    unfold st2. rewrite deref_modify_eq by done. done. }
  assert (H3ne : ∀ w', w' ≠ w → deref st3 w' = deref st w').
  { intros w' Hne. unfold st3, st2. by rewrite !deref_modify_ne. }
  assert (Hvp : w_viewport (deref st3 w) = w_viewport (deref st w)) by (by rewrite H3).
  rewrite Hvp.
  destruct (w_viewport (deref st w)) as [p|] eqn:Hp.
  - set (st4 := modify_vp p _ (modify_vp p _ st3)).
    assert (H4 : ∀ w', deref (window_invalidate (Some w) st4) w' = deref st3 w') by done.
    rewrite !H4, H3.
    assert (Hv4 : (p < length (g_viewport_list st))%nat →
              deref_vp st4 p
              = set_vp_y (sint16 (vp_y (deref_vp st p) + dy))
                  (set_vp_x (sint16 (vp_x (deref_vp st p) + dx)) (deref_vp st p))).
    { intros Hpl. unfold st4. rewrite deref_vp_modify_vp_eq.
      - rewrite deref_vp_modify_vp_eq by done. done.
      - unfold modify_vp. simpl. by rewrite length_alter. }
    split_and!; try done.
    + intros Hr. simpl. by apply sint16_id.
    + intros Hr. simpl. by apply sint16_id.
    + unfold st4, st3, st2, modify. simpl. by rewrite !length_alter.
    + intros Hpl.
      change (deref_vp (window_invalidate (Some w) st4) p) with (deref_vp st4 p).
      rewrite (Hv4 Hpl). split_and!; [done| |]; intros Hr; simpl; by apply sint16_id.
    + intros p' Hne.
      change (deref_vp st4 p' = deref_vp st p'). unfold st4.
      by rewrite !deref_vp_modify_vp_ne.
    + unfold window_invalidate. simpl.
      change (deref st4 w) with (deref st3 w). rewrite H3. simpl.
      rewrite <- app_assoc. done.
  - assert (H4 : ∀ w', deref (window_invalidate (Some w) st3) w' = deref st3 w') by done.
    rewrite !H4, H3. split_and!; try done.
    + intros Hr. simpl. by apply sint16_id.
    + intros Hr. simpl. by apply sint16_id.
    + unfold st3, st2, modify. simpl. by rewrite !length_alter.
    + unfold window_invalidate. rewrite H3. simpl.
      rewrite <- app_assoc. done.
Qed.

Lemma window_move_position_frame_witness :
  window_move_position 1 0 0 st_moving = st_moving
  ∧ w_x (deref (window_move_position 1 7 (-3) st_moving) 1) = 107
  ∧ vp_y (deref_vp (window_move_position 1 7 (-3) st_moving) 0) = 94
  ∧ w_x (deref (window_move_position 1 40000 0 st_moving) 1) = sint16 40100.
Proof.
  pose proof (window_move_position_frame st_moving 1 7 (-3)) as H.
  pose proof (window_move_position_frame st_moving 1 40000 0) as H'.
  destruct H as [H0 H]; [simpl; lia|].
  destruct H as (_ & _ & _ & Hx & _ & _ & _ & _ & _ & _ & _ & _ & Hv & _); [left; lia|].
  destruct H' as [_ H']; [simpl; lia|].
  destruct H' as (_ & Hx' & _); [left; lia|].
  split_and!.
  - exact H0.
  - etrans; [apply Hx; vm_compute; split; discriminate | reflexivity].
  - destruct Hv as [Hv _]. destruct Hv as (_ & _ & Hvy); [simpl; lia|].
    etrans; [apply Hvy; vm_compute; split; discriminate | reflexivity].
  - exact Hx'.
Defined.

(** ** Scanning the window array *)

Lemma scan_up_Some P (l : list rct_window) from n k :
  scan_up P l from n = Some k ↔
  (from ≤ k < from + n)%nat ∧ P (l !!! k) = true
  ∧ ∀ j, (from ≤ j < k)%nat → P (l !!! j) = false.
Proof.
  revert from. induction n as [|n IH]; intros from; simpl.
  - split; [done|]. intros [? _]. lia.
  - destruct (P (l !!! from)) eqn:HP.
    + split.
      * intros [= <-]. split_and!; [lia|lia|done|]. intros j ?. lia.
      * intros (Hk & Hk' & Hlt). f_equal.
        destruct (decide (from = k)) as [|Hne]; [done|].
        rewrite Hlt in HP; [done | lia].
    + rewrite IH. split.
      * intros (Hk & Hk' & Hlt). split_and!; [lia|lia|done|].
        intros j Hj. destruct (decide (j = from)) as [->|]; [done|]. apply Hlt. lia.
      * intros (Hk & Hk' & Hlt).
        assert (from ≠ k) by (intros ->; congruence).
        split_and!; [lia|lia|done|]. intros j Hj. apply Hlt. lia.
Qed.

Lemma scan_up_None P (l : list rct_window) from n :
  scan_up P l from n = None ↔
  ∀ j, (from ≤ j < from + n)%nat → P (l !!! j) = false.
Proof.
  revert from. induction n as [|n IH]; intros from; simpl.
  - split; [|done]. intros _ j ?. lia.
  - destruct (P (l !!! from)) eqn:HP.
    + split; [done|]. intros H. rewrite H in HP; [done | lia].
    + rewrite IH. split.
      * intros H j Hj. destruct (decide (j = from)) as [->|]; [done|]. apply H. lia.
      * intros H j Hj. apply H. lia.
Qed.

Lemma scan_down_Some P (l : list rct_window) k i :
  scan_down P l k = Some i ↔
  (i < k)%nat ∧ P (l !!! i) = true
  ∧ ∀ j, (i < j < k)%nat → P (l !!! j) = false.
Proof.
  induction k as [|k IH]; simpl.
  - split; [done|]. intros [? _]. lia.
  - destruct (P (l !!! k)) eqn:HP.
    + split.
      * intros [= <-]. split_and!; [lia|done|]. intros j ?. lia.
      * intros (Hk & Hk' & Hlt). f_equal.
        destruct (decide (k = i)) as [|Hne]; [done|].
        rewrite Hlt in HP; [done | lia].
    + rewrite IH. split.
      * intros (Hk & Hk' & Hlt). split_and!; [lia|done|].
        intros j Hj. destruct (decide (j = k)) as [->|]; [done|]. apply Hlt. lia.
      * intros (Hk & Hk' & Hlt).
        assert (k ≠ i) by (intros ->; congruence).
        split_and!; [lia|done|]. intros j Hj. apply Hlt. lia.
Qed.

Lemma scan_down_None P (l : list rct_window) k :
  scan_down P l k = None ↔ ∀ j, (j < k)%nat → P (l !!! j) = false.
Proof.
  induction k as [|k IH]; simpl.
  - split; [|done]. intros _ j ?. lia.
  - destruct (P (l !!! k)) eqn:HP.
    + split; [done|]. intros H. rewrite H in HP; [done | lia].
    + rewrite IH. split.
      * intros H j Hj. destruct (decide (j = k)) as [->|]; [done|]. apply H. lia.
      * intros H j Hj. apply H. lia.
Qed.

(** ** Compaction *)

Lemma length_memmove_down (l : list rct_window) dst n :
  (S dst + n ≤ length l)%nat → length (memmove_down l dst n) = length l.
Proof.
  intros H. unfold memmove_down.
  rewrite !length_app, !length_take, !length_drop. lia.
Qed.

(** The open windows after the removal step of [window_close]. *)
Lemma take_memmove_down (l : list rct_window) j n :
  (j < n)%nat → (n ≤ length l)%nat →
  take (n - 1)
    (if decide (0 < n - 1 - j)%nat then memmove_down l j (n - 1 - j) else l)
  = delete j (take n l).
Proof.
  intros Hj Hn. rewrite delete_take_drop, take_take, skipn_firstn_comm.
  replace (j `min` n)%nat with j by lia.
  case_decide as Hd.
  - unfold memmove_down. rewrite app_assoc.
    rewrite take_app_length'.
    + by replace (n - 1 - j)%nat with (n - S j)%nat by lia.
    + rewrite length_app, !length_take, length_drop. lia.
  - replace (n - 1)%nat with j by lia.
    replace (n - S j)%nat with 0%nat by lia. simpl. by rewrite app_nil_r.
Qed.

(** ** window_close *)

Section WindowClose.
Context `{E : Env}.

Lemma window_find_by_number_Some cls number st j :
  window_find_by_number cls number st = Some j ↔
  (j < RCT2_NEW_WINDOW st)%nat
  ∧ w_classification (deref st j) = cls ∧ w_number (deref st j) = number
  ∧ ∀ k, (k < j)%nat →
      ¬ (w_classification (deref st k) = cls ∧ w_number (deref st k) = number).
Proof.
  unfold window_find_by_number. rewrite scan_up_Some. unfold deref.
  split.
  - intros (Hj & HP & Hlt). apply andb_true_iff in HP as [H1 H2].
    apply Z.eqb_eq in H1, H2. split_and!; [lia|done|done|].
    intros k Hk [H3 H4]. specialize (Hlt k ltac:(lia)).
    apply andb_false_iff in Hlt as [Hf|Hf]; apply Z.eqb_neq in Hf; done.
  - intros (Hj & H1 & H2 & Hlt). split_and!; [lia|lia| |].
    + apply andb_true_iff. split; by apply Z.eqb_eq.
    + intros k Hk. specialize (Hlt k ltac:(lia)).
      apply andb_false_iff.
      destruct (decide (w_classification (g_window_list st !!! k) = cls)) as [Hc|Hc].
      * right. apply Z.eqb_neq. intros Hn. by apply Hlt.
      * left. by apply Z.eqb_neq.
Qed.

(** The state [window_close] leaves once the window has been found again
    at [j] in the state [st1] the close handler returned. *)
Lemma window_close_found st w j :
  let st1 := window_event_close_call w st in
  window_find_by_number (w_classification (deref st w)) (w_number (deref st w)) st1 = Some j →
  (RCT2_NEW_WINDOW st1 ≤ length (g_window_list st1))%nat →
  let st' := window_close (Some w) st in
  open_windows st' = delete j (open_windows st1)
  ∧ gWindowNextSlot st' = Some (RCT2_NEW_WINDOW st1 - 1)%nat
  ∧ length (g_window_list st') = length (g_window_list st1)
  ∧ g_viewport_list st'
    = match w_viewport (deref st1 j) with
      | Some p => alter (set_vp_width 0) p (g_viewport_list st1)
      | None => g_viewport_list st1
      end
  ∧ ext_calls st'
    = ext_calls st1
      ++ [gfx_set_dirty_blocks (w_x (deref st1 j)) (w_y (deref st1 j))
            (w_x (deref st1 j) + w_width (deref st1 j))
            (w_y (deref st1 j) + w_height (deref st1 j));
          viewport_update_pointers].
Proof.
  intros st1 Hfind Hwf st'.
  pose proof Hfind as Hfind'.
  apply window_find_by_number_Some in Hfind' as (Hj & _).
  unfold st', window_close. fold st1. rewrite Hfind.
  set (st2 := match w_viewport (deref st1 j) with
              | Some p => modify j (set_w_viewport None) (modify_vp p (set_vp_width 0) st1)
              | None => st1
              end).
  assert (Hnext2 : RCT2_NEW_WINDOW st2 = RCT2_NEW_WINDOW st1).
  { unfold st2. by destruct (w_viewport (deref st1 j)). }
  assert (Hlen2 : length (g_window_list st2) = length (g_window_list st1)).
  { unfold st2. destruct (w_viewport (deref st1 j)); [|done].
    unfold modify. simpl. by rewrite length_alter. }
  assert (Htake : take j (g_window_list st2) = take j (g_window_list st1)).
  { unfold st2. destruct (w_viewport (deref st1 j)); [|done].
    unfold modify. simpl. by rewrite take_alter_ge. }
  assert (Hdrop : drop (S j) (g_window_list st2) = drop (S j) (g_window_list st1)).
  { unfold st2. destruct (w_viewport (deref st1 j)); [|done].
    unfold modify. simpl. rewrite drop_alter_lt; [done | lia]. }
  assert (Hgeom : ∀ f : rct_window → Z,
            (∀ v win, f (set_w_viewport v win) = f win) →
            f (deref st2 j) = f (deref st1 j)).
  { intros f Hf. unfold st2. destruct (w_viewport (deref st1 j)); [|done].
    rewrite deref_modify_eq; [by rewrite Hf|].
    unfold modify_vp. simpl. lia. }
  cbv zeta.
  change (RCT2_NEW_WINDOW (window_invalidate (Some j) st2)) with (RCT2_NEW_WINDOW st2).
  rewrite Hnext2.
  set (n := RCT2_NEW_WINDOW st1) in *.
  set (st3 := set_next_slot (Some (n - 1)%nat) (window_invalidate (Some j) st2)).
  change (RCT2_NEW_WINDOW st3) with (n - 1)%nat.
  assert (Hopen : take (n - 1)
            (if decide (0 < n - 1 - j)%nat
             then memmove_down (g_window_list st2) j (n - 1 - j)
             else g_window_list st2)
          = delete j (open_windows st1)).
  { rewrite take_memmove_down by lia. unfold open_windows. fold n.
    rewrite !delete_take_drop, !take_take, !skipn_firstn_comm.
    replace (j `min` n)%nat with j by lia.
    by rewrite Htake, Hdrop. }
  assert (Hc : ext_calls st3 = ext_calls st1
      ++ [gfx_set_dirty_blocks (w_x (deref st1 j)) (w_y (deref st1 j))
            (w_x (deref st1 j) + w_width (deref st1 j))
            (w_y (deref st1 j) + w_height (deref st1 j))]).
  { unfold st3. simpl.
    rewrite (Hgeom w_x), (Hgeom w_y), (Hgeom w_width), (Hgeom w_height) by done.
    f_equal. unfold st2. by destruct (w_viewport (deref st1 j)). }
  assert (Hv : g_viewport_list st3
    = match w_viewport (deref st1 j) with
      | Some p => alter (set_vp_width 0) p (g_viewport_list st1)
      | None => g_viewport_list st1
      end).
  { unfold st3, st2. simpl. by destruct (w_viewport (deref st1 j)). }
  destruct (decide (0 < n - 1 - j)%nat) as [Hd|Hd].
  - split_and!.
    + exact Hopen.
    + done.
    + simpl. rewrite length_memmove_down; [done|]. lia.
    + exact Hv.
    + simpl. simpl in Hc. rewrite Hc, <- app_assoc. done.
  - split_and!.
    + exact Hopen.
    + done.
    + done.
    + exact Hv.
    + simpl. simpl in Hc. rewrite Hc, <- app_assoc. done.
Qed.

End WindowClose.

(** C2: [window_close] of a null pointer changes nothing.  Otherwise the
    close handler of [w], the entry of its [event_handlers] table if it
    is not null, runs first, on [w] and the state as it is, and the
    window is looked up again by class and number in the state [st1]
    the handler leaves.  If it is gone, [st1] is the result.  If it is
    found at [j], the open windows of the result are those of [st1] with
    entry [j] deleted (one fewer, the others in their order, later
    entries one slot down), the viewport it owned has width 0, and its
    area is invalidated before the list is compacted. *)
Theorem window_close_spec `{E : Env} (st : ui_state) (w : nat) :
  let st1 :=
    match event_close (w_event_handlers (deref st w)) with
    | Some close => close w st
    | None => st
    end in
  (RCT2_NEW_WINDOW st1 ≤ length (g_window_list st1))%nat →
  window_close None st = st
  ∧ match window_find_by_number (w_classification (deref st w)) (w_number (deref st w)) st1 with
    | None => window_close (Some w) st = st1
    | Some j =>
        let st' := window_close (Some w) st in
        (j < RCT2_NEW_WINDOW st1)%nat
        ∧ w_classification (deref st1 j) = w_classification (deref st w)
        ∧ w_number (deref st1 j) = w_number (deref st w)
        ∧ open_windows st' = delete j (open_windows st1)
        ∧ S (length (open_windows st')) = length (open_windows st1)
        ∧ (∀ k, (k < j)%nat → open_windows st' !! k = open_windows st1 !! k)
        ∧ (∀ k, (j ≤ k)%nat → open_windows st' !! k = open_windows st1 !! S k)
        ∧ match w_viewport (deref st1 j) with
          | Some p =>
              ((p < length (g_viewport_list st1))%nat →
               deref_vp st' p = set_vp_width 0 (deref_vp st1 p))
              ∧ ∀ p', p' ≠ p → deref_vp st' p' = deref_vp st1 p'
          | None => g_viewport_list st' = g_viewport_list st1
          end
        ∧ ext_calls st'
          = ext_calls st1
            ++ [gfx_set_dirty_blocks (w_x (deref st1 j)) (w_y (deref st1 j))
                  (w_x (deref st1 j) + w_width (deref st1 j))
                  (w_y (deref st1 j) + w_height (deref st1 j));
                viewport_update_pointers]
    end.
Proof.
  intros st1 Hwf. split; [done|].
  change st1 with (window_event_close_call w st) in *. clear st1.
  set (st1 := window_event_close_call w st) in *.
  destruct (window_find_by_number _ _ st1) as [j|] eqn:Hfind.
  - pose proof (window_close_found st w j Hfind Hwf) as (Hopen & Hnext & Hlen & Hvp & Hcalls).
    apply window_find_by_number_Some in Hfind as (Hj & Hc & Hn & _).
    fold st1 in Hopen, Hnext, Hlen, Hvp, Hcalls.
    assert (Hlj : (j < length (open_windows st1))%nat).
    { unfold open_windows. rewrite length_take. lia. }
    cbv zeta. split_and!; try done.
    + rewrite Hopen, length_delete; [lia|]. by apply lookup_lt_is_Some_2.
    + intros k Hk. rewrite Hopen. by apply list_lookup_delete_lt.
    + intros k Hk. rewrite Hopen. by apply list_lookup_delete_ge.
    + destruct (w_viewport (deref st1 j)) as [p|]; [|done].
      split.
      * intros Hp. unfold deref_vp. rewrite Hvp. by apply list_lookup_total_alter_eq.
      * intros p' Hne. unfold deref_vp. rewrite Hvp. by apply list_lookup_total_alter_ne.
  - unfold window_close. fold st1. by rewrite Hfind.
Qed.

Lemma window_close_spec_witness :
  open_windows (window_close (E := saving_env) (Some 1%nat) st_saving)
  = [ plain_window 0 0 0 0 640 480 1; plain_window 14 0 300 200 120 90 0 ]
  ∧ vp_width (deref_vp (window_close (E := saving_env) (Some 1%nat) st_saving) 0) = 0
  ∧ ext_calls (window_close (E := saving_env) (Some 1%nat) st_saving)
    = [ config_save_default; gfx_set_dirty_blocks 100 80 300 230; viewport_update_pointers ]
  ∧ window_close (E := self_closing_env) (Some 1%nat) st_self_closing
    = close_self 1 st_self_closing.
Proof.
  pose proof (window_close_spec (E := saving_env) st_saving 1) as H.
  pose proof (window_close_spec (E := self_closing_env) st_self_closing 1) as H2.
  cbv zeta in H, H2.
  destruct H as [_ H']; [vm_compute; lia|].
  destruct H2 as [_ H2']; [vm_compute; lia|].
  change (window_find_by_number _ _ _) with (Some 1%nat) in H'.
  change (window_find_by_number _ _ _) with (@None nat) in H2'.
  destruct H' as (_ & _ & _ & Hopen & _ & _ & _ & Hvp & Hcalls).
  split_and!.
  - rewrite Hopen. reflexivity.
  - destruct Hvp as [Hvp _]. rewrite Hvp; [reflexivity | simpl; lia].
  - rewrite Hcalls. reflexivity.
  - exact H2'.
Defined.

(** A window whose close handler already removed it: [window_close] stops
    after the handler, and no second window is removed. *)
Example window_close_handler_removed :
  window_find_by_number 9 1 (close_self 1 st_self_closing) = None
  ∧ window_close (E := self_closing_env) (Some 1%nat) st_self_closing
    = close_self 1 st_self_closing
  ∧ open_windows (window_close (E := self_closing_env) (Some 1%nat) st_self_closing)
    = [ plain_window 0 0 0 0 640 480 1; plain_window 14 0 300 200 120 90 0 ].
Proof. by vm_compute. Qed.

(** ** window_find_widget_from_point *)

Section WidgetHit.
Context `{E : Env}.

Lemma widget_scan_spec wx wy x y n :
  ∀ widgets i acc,
  widgets_end widgets n →
  ∃ r, widget_scan widgets i wx wy x y acc = Some r
    ∧ ((r = acc
        ∧ ∀ k wd, (k < n)%nat → widgets !! k = Some wd → ¬ widget_hit wx wy x y wd)
       ∨ ∃ k wd, (k < n)%nat ∧ widgets !! k = Some wd ∧ widget_hit wx wy x y wd
           ∧ (∀ k' wd', (k < k' < n)%nat → widgets !! k' = Some wd' →
                ¬ widget_hit wx wy x y wd')
           ∧ r = i + Z.of_nat k).
Proof.
  induction n as [|n IH]; intros widgets i acc [(t & Ht & HL) Hbefore].
  - destruct widgets as [|wd rest]; [done|]. simpl in Ht. injection Ht as ->.
    simpl. apply Z.eqb_eq in HL. rewrite HL.
    exists acc. split; [done|]. left. split; [done|]. intros k ? ?. lia.
  - destruct widgets as [|wd rest]; [done|]. simpl in Ht.
    assert (Hwd : wd_type wd ≠ WWT_LAST) by (apply (Hbefore 0%nat); [lia|done]).
    assert (Hend : widgets_end rest n).
    { split; [by exists t|]. intros k wd' Hk Hl. apply (Hbefore (S k)); [lia|done]. }
    simpl. apply Z.eqb_neq in Hwd. rewrite Hwd.
    set (hit := (wx + wd_left wd <=? x) && (x <=? wx + wd_right wd)
                && (wy + wd_top wd <=? y) && (y <=? wy + wd_bottom wd)).
    assert (Hhit : negb (wd_type wd =? WWT_EMPTY) && hit = true ↔ widget_hit wx wy x y wd).
    { unfold hit, widget_hit.
      rewrite !andb_true_iff, negb_true_iff, Z.eqb_neq, !Z.leb_le. tauto. }
    assert (Hcases :
      (if negb (wd_type wd =? WWT_EMPTY)
       then if hit then widget_scan rest (i + 1) wx wy x y i
            else widget_scan rest (i + 1) wx wy x y acc
       else widget_scan rest (i + 1) wx wy x y acc)
      = widget_scan rest (i + 1) wx wy x y
          (if negb (wd_type wd =? WWT_EMPTY) && hit then i else acc)).
    { by destruct (negb (wd_type wd =? WWT_EMPTY)), hit. }
    rewrite Hcases. clear Hcases.
    destruct (IH rest (i + 1) (if negb (wd_type wd =? WWT_EMPTY) && hit then i else acc) Hend)
      as (r & Hr & Hspec).
    exists r. split; [done|].
    destruct Hspec as [[-> Hno] | (k & wd' & Hk & Hl & Hh & Hlater & ->)].
    + destruct (negb (wd_type wd =? WWT_EMPTY) && hit) eqn:Hb.
      * right. exists 0%nat, wd. split_and!; [lia|done|by apply Hhit| |lia].
        intros [|k'] wd' Hk' Hl'; [lia|]. apply (Hno k'); [lia|done].
      * left. split; [done|]. intros [|k] wd' Hk Hl.
        -- simpl in Hl. injection Hl as <-. intros Hw. apply Hhit in Hw. congruence.
        -- apply (Hno k); [lia|done].
    + right. exists (S k), wd'. split_and!; [lia|done|done| |lia].
      intros [|k'] wd'' Hk' Hl'; [lia|]. apply (Hlater k'); [lia|done].
Qed.

End WidgetHit.

(** C7: [window_find_widget_from_point] first dispatches the window's
    invalidate event: the invalidate handler of [w], the entry of its
    [event_handlers] table if it is not null, runs on [w] and the state
    as it is, and leaves the state [st1].  On the widget table as the
    handler leaves it, with its terminator at [n], the result is -1 when
    no non-empty widget before the terminator contains the point, and
    otherwise is decided by the last such widget [k]: [k + 1] when
    widget [k] is of dropdown type, [k] itself when not. *)
Theorem window_find_widget_from_point_spec `{E : Env} (st : ui_state) (w : nat) (x y : Z) (n : nat) :
  let st1 :=
    match event_invalidate (w_event_handlers (deref st w)) with
    | Some invalidate => invalidate w st
    | None => st
    end in
  let win := deref st1 w in
  widgets_end (w_widgets win) n →
  ∃ r, window_find_widget_from_point w x y st = (st1, Some r)
    ∧ ((r = -1
        ∧ ∀ k wd, (k < n)%nat → w_widgets win !! k = Some wd →
            ¬ widget_hit (w_x win) (w_y win) x y wd)
       ∨ ∃ k wd, (k < n)%nat ∧ w_widgets win !! k = Some wd
           ∧ widget_hit (w_x win) (w_y win) x y wd
           ∧ (∀ k' wd', (k < k' < n)%nat → w_widgets win !! k' = Some wd' →
                ¬ widget_hit (w_x win) (w_y win) x y wd')
           ∧ r = if wd_type wd =? WWT_DROPDOWN then Z.of_nat k + 1 else Z.of_nat k).
Proof.
  intros st1 win Hend.
  destruct (widget_scan_spec (w_x win) (w_y win) x y n (w_widgets win) 0 (-1) Hend)
    as (r & Hr & Hspec).
  unfold window_find_widget_from_point, window_event_invalidate_call.
  fold st1. fold win. rewrite Hr. simpl.
  destruct Hspec as [[-> Hno] | (k & wd & Hk & Hl & Hh & Hlater & ->)].
  - exists (-1). split; [done|]. by left.
  - assert (Hwd : w_widgets win !!! Z.to_nat (0 + Z.of_nat k) = wd).
    { replace (Z.to_nat (0 + Z.of_nat k)) with k by lia.
      by apply list_lookup_total_correct. }
    rewrite Hwd.
    assert (Hne : (0 + Z.of_nat k =? -1) = false) by (apply Z.eqb_neq; lia).
    rewrite Hne. simpl.
    exists (if wd_type wd =? WWT_DROPDOWN then Z.of_nat k + 1 else Z.of_nat k).
    split.
    + destruct (wd_type wd =? WWT_DROPDOWN); do 2 f_equal; lia.
    + right. exists k, wd. by split_and!.
Qed.

Lemma window_find_widget_from_point_spec_witness :
  window_find_widget_from_point (E := layout_env) 0 120 75 st_lazy
  = (invalidate_layout 0 st_lazy, Some 2)
  ∧ (window_find_widget_from_point (E := layout_env) 0 50 50 st_lazy).2 = Some (-1)
  ∧ (window_find_widget_from_point (E := layout_env) 0 105 55 st_lazy).2 = Some 0
  ∧ (window_find_widget_from_point (E := default_env) 0 120 75 st_widgets).2 = Some 2.
Proof.
  assert (Hend : widgets_end (E := layout_env)
            (w_widgets (deref (invalidate_layout 0 st_lazy) 0)) 4).
  { split.
    - eexists. split; reflexivity.
    - intros k wd Hk Hl.
      destruct k as [|[|[|[|k]]]]; [| | | |lia]; injection Hl as <-; discriminate. }
  assert (Hend' : widgets_end (E := default_env) (w_widgets (deref st_widgets 0)) 4).
  { split.
    - eexists. split; reflexivity.
    - intros k wd Hk Hl.
      destruct k as [|[|[|[|k]]]]; [| | | |lia]; injection Hl as <-; discriminate. }
  split_and!.
  - destruct (window_find_widget_from_point_spec (E := layout_env) st_lazy 0 120 75 4 Hend)
      as (r & Hr & _).
    rewrite Hr. vm_compute in Hr. injection Hr as <-. reflexivity.
  - destruct (window_find_widget_from_point_spec (E := layout_env) st_lazy 0 50 50 4 Hend)
      as (r & Hr & _).
    rewrite Hr. simpl. vm_compute in Hr. by injection Hr as <-.
  - destruct (window_find_widget_from_point_spec (E := layout_env) st_lazy 0 105 55 4 Hend)
      as (r & Hr & _).
    rewrite Hr. simpl. vm_compute in Hr. by injection Hr as <-.
  - destruct (window_find_widget_from_point_spec (E := default_env) st_widgets 0 120 75 4 Hend')
      as (r & Hr & _).
    rewrite Hr. simpl. vm_compute in Hr. by injection Hr as <-.
Defined.

(** ** window_scroll_wheel_input *)

Section ScrollWheel.
Context `{E : Env}.

Lemma scroll_update_thumbs_offsets widget scroll :
  sc_flags (scroll_update_thumbs widget scroll) = sc_flags scroll
  ∧ sc_h_left (scroll_update_thumbs widget scroll) = sc_h_left scroll
  ∧ sc_h_right (scroll_update_thumbs widget scroll) = sc_h_right scroll
  ∧ sc_v_top (scroll_update_thumbs widget scroll) = sc_v_top scroll
  ∧ sc_v_bottom (scroll_update_thumbs widget scroll) = sc_v_bottom scroll.
Proof.
  assert (Hh : ∀ s, let s' := scroll_update_h_thumbs widget s in
            sc_flags s' = sc_flags s ∧ sc_h_left s' = sc_h_left s
            ∧ sc_h_right s' = sc_h_right s ∧ sc_v_top s' = sc_v_top s
            ∧ sc_v_bottom s' = sc_v_bottom s).
  { intros s. unfold scroll_update_h_thumbs.
    destruct (test (sc_flags s) HSCROLLBAR_VISIBLE); [|done].
    cbv zeta. destruct (sc_h_thumb_right _ - sc_h_thumb_left _ <? 20); done. }
  assert (Hv : ∀ s, let s' := scroll_update_v_thumbs widget s in
            sc_flags s' = sc_flags s ∧ sc_h_left s' = sc_h_left s
            ∧ sc_h_right s' = sc_h_right s ∧ sc_v_top s' = sc_v_top s
            ∧ sc_v_bottom s' = sc_v_bottom s).
  { intros s. unfold scroll_update_v_thumbs.
    destruct (test (sc_flags s) VSCROLLBAR_VISIBLE); [|done].
    cbv zeta. destruct (sc_v_thumb_bottom _ - sc_v_thumb_top _ <? 20); done. }
  unfold scroll_update_thumbs.
  destruct (Hv (scroll_update_h_thumbs widget scroll)) as (-> & -> & -> & -> & ->).
  apply Hh.
Qed.

(** The widget [window_get_scroll_widget] returns lies before the
    terminator, so [window_get_widget_index] finds it. *)
Lemma window_get_widget_index_of_scroll_widget widgets :
  ∀ i scrollIndex wi,
  window_get_scroll_widget_loop widgets i scrollIndex = Some wi →
  (i ≤ wi)%nat ∧ window_get_widget_index_loop widgets i wi = Some (Z.of_nat wi).
Proof.
  induction widgets as [|wd rest IH]; intros i scrollIndex wi; simpl; [done|].
  destruct (wd_type wd =? WWT_LAST); [done|].
  destruct (negb (wd_type wd =? WWT_SCROLL)).
  - intros H. apply IH in H as [Hle H]. split; [lia|].
    case_decide; [lia|done].
  - destruct (scrollIndex =? 0).
    + intros [= <-]. split; [lia|]. by case_decide.
    + intros H. apply IH in H as [Hle H]. split; [lia|].
      case_decide; [lia|done].
Qed.

Lemma widget_scroll_update_thumbs_offsets st w widget_index s :
  let st' := widget_scroll_update_thumbs w widget_index st in
  (w < length (g_window_list st))%nat →
  sc_h_left (w_scrolls (deref st' w) !!! s) = sc_h_left (w_scrolls (deref st w) !!! s)
  ∧ sc_v_top (w_scrolls (deref st' w) !!! s) = sc_v_top (w_scrolls (deref st w) !!! s).
Proof.
  intros st' Hw. unfold st', widget_scroll_update_thumbs. cbv zeta.
  rewrite deref_modify_eq by done. simpl.
  set (di := window_get_scroll_data_index (deref st w) widget_index).
  destruct (decide (di = s)) as [<-|Hne].
  - destruct (decide (di < length (w_scrolls (deref st w)))%nat) as [Hlt|Hge].
    + rewrite list_lookup_total_insert_eq by done.
      pose proof (scroll_update_thumbs_offsets
                    (w_widgets (deref st w) !!! widget_index)
                    (w_scrolls (deref st w) !!! di)) as (_ & H1 & _ & H2 & _).
      done.
    + rewrite list_insert_ge by lia. done.
  - rewrite list_lookup_total_insert_ne by done. done.
Qed.

End ScrollWheel.

(** C9: when the scroll region exists, [window_scroll_wheel_input]
    returns, and the offset it updates lies between 0 and the larger of
    0 and the content extent minus the visible widget size, whatever the
    starting offset and the wheel value: [v_top] with [v_bottom] and the
    widget height when the vertical scrollbar is visible, [h_left] with
    [h_right] and the widget width otherwise.  The other offset keeps
    its value. *)
Theorem window_scroll_wheel_input_bounds `{E : Env} (st : ui_state) (w : nat) (scrollIndex wheel : Z) (wi : nat) :
  let win := deref st w in
  let scroll := w_scrolls win !!! Z.to_nat scrollIndex in
  let widget := w_widgets win !!! wi in
  (w < length (g_window_list st))%nat →
  (Z.to_nat scrollIndex < length (w_scrolls win))%nat →
  window_get_scroll_widget win scrollIndex = Some wi →
  ∃ st', window_scroll_wheel_input w scrollIndex wheel st = Some st'
    ∧ let scroll' := w_scrolls (deref st' w) !!! Z.to_nat scrollIndex in
      if test (sc_flags scroll) VSCROLLBAR_VISIBLE then
        0 ≤ sc_v_top scroll'
          ≤ Z.max 0 (sc_v_bottom scroll
                     - (wd_bottom widget - wd_top widget - 1
                        - if test (sc_flags scroll) HSCROLLBAR_VISIBLE then 11 else 0))
        ∧ sc_h_left scroll' = sc_h_left scroll
      else
        0 ≤ sc_h_left scroll'
          ≤ Z.max 0 (sc_h_right scroll - (wd_right widget - wd_left widget - 1))
        ∧ sc_v_top scroll' = sc_v_top scroll.
Proof.
  intros win scroll widget Hw Hs Hfind.
  pose proof Hfind as Hidx.
  apply window_get_widget_index_of_scroll_widget in Hidx as [_ Hidx].
  unfold window_scroll_wheel_input. fold win. rewrite Hfind. simpl.
  unfold window_get_widget_index. rewrite Hidx. simpl.
  fold scroll. fold widget.
  assert ((Z.of_nat wi <? 0) = false) as -> by (apply Z.ltb_ge; lia).
  rewrite Nat2Z.id.
  eexists. split; [reflexivity|]. cbv zeta.
  set (sc1 := if test (sc_flags scroll) VSCROLLBAR_VISIBLE
              then set_sc_v_top _ scroll else set_sc_h_left _ scroll).
  set (st1 := modify w _ st).
  assert (Hw1 : (w < length (g_window_list st1))%nat).
  { unfold st1, modify. simpl. by rewrite length_alter. }
  assert (Hinv : ∀ st0, deref (widget_invalidate w wi st0) w = deref st0 w).
  { intros st0. unfold widget_invalidate. by destruct (_ =? -2). }
  rewrite Hinv.
  { destruct (widget_scroll_update_thumbs_offsets st1 w wi (Z.to_nat scrollIndex) Hw1)
      as [Hh Hv].
    rewrite Hh, Hv.
    assert (Hsc : w_scrolls (deref st1 w) !!! Z.to_nat scrollIndex = sc1).
    { unfold st1. rewrite deref_modify_eq by done. simpl.
      by rewrite list_lookup_total_insert_eq. }
    rewrite Hsc. unfold sc1.
    destruct (test (sc_flags scroll) VSCROLLBAR_VISIBLE) eqn:HV; simpl.
    - split; [|done].
      destruct (test (sc_flags scroll) HSCROLLBAR_VISIBLE); lia.
    - split; [lia|done]. }
Qed.

Lemma window_scroll_wheel_input_bounds_witness :
  ∃ st', window_scroll_wheel_input (E := default_env) 0 0 (-500) st_widgets = Some st'
    ∧ sc_v_top (w_scrolls (deref st' 0) !!! 0%nat) = 0
    ∧ ∃ st'', window_scroll_wheel_input (E := default_env) 0 0 5000 st_widgets = Some st''
      ∧ sc_v_top (w_scrolls (deref st'' 0) !!! 0%nat) = 332.
Proof.
  assert (H0 : (0 < length (g_window_list st_widgets))%nat) by (simpl; lia).
  assert (H1 : (Z.to_nat 0 < length (w_scrolls (deref st_widgets 0)))%nat) by (simpl; lia).
  assert (H2 : window_get_scroll_widget (E := default_env) (deref st_widgets 0) 0 = Some 3%nat)
    by reflexivity.
  destruct (window_scroll_wheel_input_bounds (E := default_env) st_widgets 0 0 (-500) 3 H0 H1 H2)
    as (st' & Hst' & _).
  destruct (window_scroll_wheel_input_bounds (E := default_env) st_widgets 0 0 5000 3 H0 H1 H2)
    as (st'' & Hst'' & _).
  exists st'. split; [exact Hst'|].
  vm_compute in Hst'. injection Hst' as <-. split; [reflexivity|].
  exists st''. split; [exact Hst''|].
  vm_compute in Hst''. injection Hst'' as <-. reflexivity.
Defined.

(** ** window_scroll_to_location *)

Section ScrollToLocation.
Context `{E : Env}.





End ScrollToLocation.

#[local] Arguments window_scroll_search : simpl never.
#[local] Arguments window_scroll_locations : simpl never.



(** ** window_bring_to_front *)

Section BringToFront.
Context `{E : Env}.

Lemma test_lor flags a b :
  test flags (Z.lor a b) = test flags a || test flags b.
Proof.
  unfold test. rewrite Z.land_lor_distr_r.
  destruct (Z.land flags a =? 0) eqn:Ha, (Z.land flags b =? 0) eqn:Hb; simpl.
  - apply Z.eqb_eq in Ha, Hb. rewrite Ha, Hb. done.
  - apply negb_true_iff, Z.eqb_neq. intros H. apply Z.lor_eq_0_iff in H as [_ H].
    by apply Z.eqb_neq in Hb.
  - apply negb_true_iff, Z.eqb_neq. intros H. apply Z.lor_eq_0_iff in H as [H _].
    by apply Z.eqb_neq in Ha.
  - apply negb_true_iff, Z.eqb_neq. intros H. apply Z.lor_eq_0_iff in H as [H _].
    by apply Z.eqb_neq in Ha.
Qed.

Lemma length_swap_up n : ∀ w l, length (swap_up n w l) = length l.
Proof.
  induction n as [|n IH]; intros w l; simpl; [done|].
  by rewrite IH, !length_insert.
Qed.

(** The rotation done by the do-while loop: the entries after [w] up to
    [w + n] move back one slot, and the entry of [w] lands at [w + n]. *)
Lemma swap_up_lookup n :
  ∀ w l i, (w + n < length l)%nat →
  swap_up n w l !!! i
  = if decide (i < w)%nat then l !!! i
    else if decide (i < w + n)%nat then l !!! S i
    else if decide (i = w + n)%nat then l !!! w
    else l !!! i.
Proof.
  induction n as [|n IH]; intros w l i Hlen; simpl.
  - repeat case_decide; try done; try lia. by replace i with w by lia.
  - rewrite IH by (rewrite !length_insert; lia).
    repeat case_decide; try lia.
    + rewrite !list_lookup_total_insert_ne by lia. done.
    + replace i with w by lia.
      rewrite list_lookup_total_insert_ne by lia.
      rewrite list_lookup_total_insert_eq by lia. done.
    + rewrite !list_lookup_total_insert_ne by lia. done.
    + rewrite list_lookup_total_insert_eq by (rewrite length_insert; lia). done.
    + rewrite !list_lookup_total_insert_ne by lia. done.
Qed.

Lemma window_bring_to_front_nudge_spec st v :
  (v < length (g_window_list st))%nat →
  let st' := window_bring_to_front_nudge v st in
  deref st' v = nudged (deref st v)
  ∧ (∀ j, j ≠ v → deref st' j = deref st j)
  ∧ gWindowNextSlot st' = gWindowNextSlot st
  ∧ length (g_window_list st') = length (g_window_list st)
  ∧ g_viewport_list st'
    = match w_viewport (deref st v) with
      | Some p =>
          if w_x (deref st v) + w_width (deref st v) <? 20
          then alter (λ vp, set_vp_x (vp_x vp + (20 - w_x (deref st v))) vp) p
                 (g_viewport_list st)
          else g_viewport_list st
      | None => g_viewport_list st
      end.
Proof.
  intros Hv. unfold window_bring_to_front_nudge, nudged. cbv zeta.
  destruct (w_x (deref st v) + w_width (deref st v) <? 20) eqn:Hn.
  - set (st1 := modify v _ st).
    assert (H1 : deref st1 v
              = set_w_x (w_x (deref st v) + (20 - w_x (deref st v))) (deref st v)).
    { unfold st1. by rewrite deref_modify_eq. }
    assert (H1ne : ∀ j, j ≠ v → deref st1 j = deref st j).
    { intros j Hj. unfold st1. by rewrite deref_modify_ne. }
    assert (Hl1 : length (g_window_list st1) = length (g_window_list st)).
    { unfold st1, modify. simpl. by rewrite length_alter. }
    rewrite H1. simpl.
    destruct (w_viewport (deref st v)) as [p|]; split_and!; try done.
  - split_and!; try done. by destruct (w_viewport (deref st v)).
Qed.

(** What [window_bring_to_front] does to an open window without the
    stick-to-back and stick-to-front flags. *)
Lemma window_bring_to_front_moves st w :
  (w < RCT2_NEW_WINDOW st ≤ length (g_window_list st))%nat →
  test (w_flags (deref st w)) (Z.lor WF_STICK_TO_BACK WF_STICK_TO_FRONT) = false →
  ∃ v st',
    window_bring_to_front w st = Some (v, st')
    ∧ (w ≤ v < RCT2_NEW_WINDOW st)%nat
    ∧ test (w_flags (deref st v)) WF_STICK_TO_FRONT = false
    ∧ (∀ j, (v < j < RCT2_NEW_WINDOW st)%nat →
         test (w_flags (deref st j)) WF_STICK_TO_FRONT = true)
    ∧ gWindowNextSlot st' = gWindowNextSlot st
    ∧ length (g_window_list st') = length (g_window_list st)
    ∧ (∀ j, (j < w)%nat → deref st' j = deref st j)
    ∧ (∀ j, (w ≤ j < v)%nat → deref st' j = deref st (S j))
    ∧ (∀ j, (v < j)%nat → deref st' j = deref st j)
    ∧ deref st' v = nudged (deref st w)
    ∧ g_viewport_list st'
      = match w_viewport (deref st w) with
        | Some p =>
            if w_x (deref st w) + w_width (deref st w) <? 20
            then alter (λ vp, set_vp_x (vp_x vp + (20 - w_x (deref st w))) vp) p
                   (g_viewport_list st)
            else g_viewport_list st
        | None => g_viewport_list st
        end.
Proof.
  intros [Hw Hwf] Hflags.
  rewrite test_lor in Hflags. apply orb_false_iff in Hflags as [HB HF].
  assert (Hsome : ∃ n0, gWindowNextSlot st = Some n0).
  { unfold RCT2_NEW_WINDOW in Hw. destruct (gWindowNextSlot st); [by eexists|].
    simpl in Hw. lia. }
  destruct Hsome as [n0 Hnext0].
  unfold window_bring_to_front. rewrite test_lor, HB, HF. cbn [orb]. cbv zeta.
  rewrite Hnext0.
  destruct (scan_down _ (g_window_list st) (RCT2_NEW_WINDOW st)) as [v|] eqn:Hscan.
  2:{ rewrite scan_down_None in Hscan. specialize (Hscan w Hw). simpl in Hscan.
      unfold deref in HF. rewrite HF in Hscan. done. }
  apply scan_down_Some in Hscan as (Hv & HvF & Hafter).
  apply negb_true_iff in HvF.
  assert (Hwv : (w ≤ v)%nat).
  { destruct (decide (w ≤ v)%nat); [done|].
    specialize (Hafter w ltac:(lia)). unfold deref in HF. rewrite HF in Hafter. done. }
  assert (Hafter' : ∀ j, (v < j < RCT2_NEW_WINDOW st)%nat →
            test (w_flags (deref st j)) WF_STICK_TO_FRONT = true).
  { intros j Hj. specialize (Hafter j Hj). by apply negb_false_iff in Hafter. }
  (* the state after the rotation *)
  set (st1 := set_window_list (swap_up (v - w) w (g_window_list st)) st).
  assert (Hrot : ∀ j, deref st1 j
            = if decide (j < w)%nat then deref st j
              else if decide (j < v)%nat then deref st (S j)
              else if decide (j = v)%nat then deref st w
              else deref st j).
  { intros j. unfold st1, deref. simpl. rewrite swap_up_lookup by lia.
    replace (w + (v - w))%nat with v by lia. done. }
  assert (Hmid : ∃ st2,
            (if decide (w = v) then Some (w, st)
             else if decide (w < v)%nat
                  then Some (v, window_invalidate (Some v) st1)
                  else None) = Some (v, st2)
            ∧ (∀ j, deref st2 j = deref st1 j)
            ∧ gWindowNextSlot st2 = gWindowNextSlot st
            ∧ length (g_window_list st2) = length (g_window_list st)
            ∧ g_viewport_list st2 = g_viewport_list st).
  { destruct (decide (w = v)) as [->|Hne].
    - exists st. split_and!; try done.
      intros j. rewrite Hrot. repeat case_decide; try done; try lia. by subst.
    - destruct (decide (w < v)%nat); [|lia].
      exists (window_invalidate (Some v) st1). split_and!; try done.
      unfold st1. simpl. by rewrite length_swap_up. }
  destruct Hmid as (st2 & Heq & Hd2 & Hn2 & Hl2 & Hv2).
  rewrite Heq. simpl.
  assert (Hv2d : deref st2 v = deref st w).
  { rewrite Hd2, Hrot. repeat case_decide; try done; lia. }
  destruct (window_bring_to_front_nudge_spec st2 v) as (G1 & G2 & G3 & G4 & G5); [lia|].
  rewrite Hv2d in G1, G5.
  eexists v, _. split; [reflexivity|]. split_and!; try done.
  - congruence.
  - congruence.
  - intros j Hj. rewrite G2, Hd2, Hrot by lia. repeat case_decide; try done; lia.
  - intros j Hj. rewrite G2, Hd2, Hrot by lia. repeat case_decide; try done; lia.
  - intros j Hj. rewrite G2, Hd2, Hrot by lia. repeat case_decide; try done; lia.
  - by rewrite G5, Hv2.
Qed.

End BringToFront.

(** The claim of C5 as stated fails on the code: a window that starts
    less than 20 pixels from the left edge of the screen, or left of it,
    is not shifted when its right edge is at 20 or beyond.  Here the
    windows at x = 5 and at x = -50, both 100 wide, are brought to the
    front and keep their x. *)
Lemma window_bring_to_front_counterexample :
  w_x (deref st_near_edge 1) = 5
  ∧ w_x (deref st_near_edge 2) = -50
  ∧ (r ← window_bring_to_front (E := default_env) 1 st_near_edge;
     Some (r.1, w_number (deref r.2 r.1), w_x (deref r.2 r.1)))
    = Some (2%nat, 1, 5)
  ∧ (r ← window_bring_to_front (E := default_env) 2 st_near_edge;
     Some (r.1, w_number (deref r.2 r.1), w_x (deref r.2 r.1)))
    = Some (2%nat, 2, -50).
Proof. split_and!; by vm_compute. Qed.

(** C5, amended: [window_bring_to_front] returns [w] and leaves the state
    alone when [w] is flagged stick-to-back or stick-to-front.  Otherwise
    it returns the slot [v] of the last open window that is not
    stick-to-front: every window after [v] is stick-to-front, and on a
    list whose stick-to-front windows are the last ones no window up to
    [v] is, so that [v] is the position just before the first
    stick-to-front window (the list end when there is none).  The
    windows that were between [w] and [v] each move back one slot in
    their order, all others keep their slot, and [w]'s record lands at
    [v].  If its right edge [x + width] is left of 20, the record's [x]
    is raised by [20 - x], to 20, and the [x] of the viewport it owns by
    the same amount; otherwise both are left as they are. *)
Theorem window_bring_to_front_spec `{E : Env} (st : ui_state) (w : nat) :
  (w < RCT2_NEW_WINDOW st ≤ length (g_window_list st))%nat →
  (test (w_flags (deref st w)) (Z.lor WF_STICK_TO_BACK WF_STICK_TO_FRONT) = true →
   window_bring_to_front w st = Some (w, st))
  ∧ (test (w_flags (deref st w)) (Z.lor WF_STICK_TO_BACK WF_STICK_TO_FRONT) = false →
     ∃ v st',
       window_bring_to_front w st = Some (v, st')
       ∧ (w ≤ v < RCT2_NEW_WINDOW st)%nat
       ∧ test (w_flags (deref st v)) WF_STICK_TO_FRONT = false
       ∧ (∀ j, (v < j < RCT2_NEW_WINDOW st)%nat →
            test (w_flags (deref st j)) WF_STICK_TO_FRONT = true)
       ∧ (stick_to_front_last st →
          ∀ j, (j ≤ v)%nat → test (w_flags (deref st j)) WF_STICK_TO_FRONT = false)
       ∧ gWindowNextSlot st' = gWindowNextSlot st
       ∧ (∀ j, (j < w)%nat → deref st' j = deref st j)
       ∧ (∀ j, (w ≤ j < v)%nat → deref st' j = deref st (S j))
       ∧ (∀ j, (v < j)%nat → deref st' j = deref st j)
       ∧ deref st' v
         = (if w_x (deref st w) + w_width (deref st w) <? 20
            then set_w_x (w_x (deref st w) + (20 - w_x (deref st w))) (deref st w)
            else deref st w)
       ∧ w_x (deref st' v)
         = (if w_x (deref st w) + w_width (deref st w) <? 20 then 20 else w_x (deref st w))
       ∧ match w_viewport (deref st w) with
         | Some p =>
             if w_x (deref st w) + w_width (deref st w) <? 20
             then ((p < length (g_viewport_list st))%nat →
                   deref_vp st' p
                   = set_vp_x (vp_x (deref_vp st p) + (20 - w_x (deref st w))) (deref_vp st p))
                  ∧ (∀ p', p' ≠ p → deref_vp st' p' = deref_vp st p')
             else g_viewport_list st' = g_viewport_list st
         | None => g_viewport_list st' = g_viewport_list st
         end).
Proof.
  intros Hw. split.
  - intros Hflags. unfold window_bring_to_front. by rewrite Hflags.
  - intros Hflags.
    destruct (window_bring_to_front_moves st w Hw Hflags)
      as (v & st' & Heq & Hv & HvF & Hafter & Hn & Hl & H1 & H2 & H3 & H4 & H5).
    exists v, st'. split_and!; try done.
    + lia.
    + lia.
    + intros Hinv j Hj. destruct (decide (j = v)) as [->|Hne]; [done|].
      destruct (test (w_flags (deref st j)) WF_STICK_TO_FRONT) eqn:Hj'; [|done].
      rewrite (Hinv j v) in HvF; [done|lia|done].
    + rewrite H4. unfold nudged.
      destruct (w_x (deref st w) + w_width (deref st w) <? 20); [simpl; lia|done].
    + destruct (w_viewport (deref st w)) as [p|]; [|done].
      destruct (w_x (deref st w) + w_width (deref st w) <? 20); [|done].
      split.
      * intros Hp. unfold deref_vp. rewrite H5.
        by rewrite list_lookup_total_alter_eq.
      * intros p' Hne. unfold deref_vp. rewrite H5.
        by rewrite list_lookup_total_alter_ne.
Qed.

Lemma window_bring_to_front_spec_witness :
  ∃ st',
    window_bring_to_front (E := default_env) 1 st_z_order = Some (3%nat, st')
    ∧ open_windows st'
      = [ plain_window 0 0 0 0 640 480 1;
          plain_window 14 0 300 200 120 90 0;
          plain_window 17 0 50 60 120 90 0;
          viewport_window 9 1 20 80 210 150 0 0;
          plain_window 1 0 0 0 640 28 2 ]
    ∧ vp_x (deref_vp st' 0) = 23
    ∧ window_bring_to_front (E := default_env) 4 st_z_order = Some (4%nat, st_z_order).
Proof.
  destruct (window_bring_to_front_spec (E := default_env) st_z_order 1) as [_ Hmove];
    [vm_compute; lia |].
  destruct (Hmove eq_refl) as (v & st' & Heq & _).
  destruct (window_bring_to_front_spec (E := default_env) st_z_order 4) as [Hstay _];
    [vm_compute; lia |].
  exists st'. vm_compute in Heq. injection Heq as <- <-.
  split_and!; [reflexivity | reflexivity | reflexivity | exact (Hstay eq_refl)].
Defined.

(** ** window_zoom_set *)

Section Zoom.
Context `{E : Env}.

Lemma zoom_in_loop_spec w p zoomLevel :
  ∀ fuel st,
  (p < length (g_viewport_list st))%nat →
  fuel = Z.to_nat (vp_zoom (deref_vp st p) - zoomLevel) →
  let st' := zoom_in_loop fuel w p zoomLevel st in
  view_of (deref_vp st' p)
  = (vp_zoom (deref_vp st p) - Z.of_nat fuel,
     Nat.iter fuel (λ a, Z.quot a 2) (vp_view_width (deref_vp st p)),
     Nat.iter fuel (λ a, Z.quot a 2) (vp_view_height (deref_vp st p)))
  ∧ length (g_viewport_list st') = length (g_viewport_list st)
  ∧ length (g_window_list st') = length (g_window_list st)
  ∧ gWindowNextSlot st' = gWindowNextSlot st
  ∧ gConfigGeneral_zoom_to_cursor st' = gConfigGeneral_zoom_to_cursor st
  ∧ (∀ j, w_viewport (deref st' j) = w_viewport (deref st j)
          ∧ w_flags (deref st' j) = w_flags (deref st j)).
Proof.
  induction fuel as [|fuel IH]; intros st Hp Hfuel; simpl.
  - split_and!; try done. unfold view_of. tuple_eq.
  - assert ((zoomLevel <? vp_zoom (deref_vp st p)) = true) as -> by (apply Z.ltb_lt; lia).
    set (st1 := modify_vp p (λ v, set_vp_zoom (vp_zoom v - 1) v) st).
    set (st2 := modify w _ st1).
    set (st3 := modify_vp p _ st2).
    assert (H1 : deref_vp st1 p = set_vp_zoom (vp_zoom (deref_vp st p) - 1) (deref_vp st p)).
    { unfold st1. by rewrite deref_vp_modify_vp_eq. }
    assert (H3 : deref_vp st3 p
              = set_vp_view_size (Z.quot (vp_view_width (deref_vp st p)) 2)
                  (Z.quot (vp_view_height (deref_vp st p)) 2)
                  (set_vp_zoom (vp_zoom (deref_vp st p) - 1) (deref_vp st p))).
    { unfold st3. rewrite deref_vp_modify_vp_eq.
      - change (deref_vp st2 p) with (deref_vp st1 p). by rewrite H1.
      - unfold st2, st1, modify_vp. simpl. by rewrite length_alter. }
    assert (Hlen3 : length (g_viewport_list st3) = length (g_viewport_list st)).
    { unfold st3, st2, st1, modify_vp. simpl. by rewrite !length_alter. }
    destruct (IH st3) as (Hview & Hl & Hlw & Hn & Hc & Hwin).
    { lia. }
    { rewrite H3. simpl. lia. }
    split_and!.
    + rewrite Hview, H3. simpl. unfold view_of.
      rewrite !(Nat.iter_swap fuel Z (λ a, Z.quot a 2)). tuple_eq.
    + by rewrite Hl.
    + rewrite Hlw. unfold st3, st2, modify. simpl. by rewrite length_alter.
    + by rewrite Hn.
    + by rewrite Hc.
    + intros j. destruct (Hwin j) as [-> ->].
      change (deref st3 j) with (deref st2 j). unfold st2.
      change (g_window_list st1) with (g_window_list st).
      unfold deref, modify. simpl. rewrite list_lookup_total_alter.
      case_decide as Hd; [|done]. by destruct Hd as [-> _].
Qed.

Lemma zoom_out_loop_spec w p zoomLevel :
  ∀ fuel st,
  (p < length (g_viewport_list st))%nat →
  fuel = Z.to_nat (zoomLevel - vp_zoom (deref_vp st p)) →
  let st' := zoom_out_loop fuel w p zoomLevel st in
  view_of (deref_vp st' p)
  = (vp_zoom (deref_vp st p) + Z.of_nat fuel,
     Nat.iter fuel (λ a, sint16 (a * 2)) (vp_view_width (deref_vp st p)),
     Nat.iter fuel (λ a, sint16 (a * 2)) (vp_view_height (deref_vp st p)))
  ∧ length (g_viewport_list st') = length (g_viewport_list st)
  ∧ length (g_window_list st') = length (g_window_list st)
  ∧ gWindowNextSlot st' = gWindowNextSlot st
  ∧ gConfigGeneral_zoom_to_cursor st' = gConfigGeneral_zoom_to_cursor st
  ∧ (∀ j, w_viewport (deref st' j) = w_viewport (deref st j)
          ∧ w_flags (deref st' j) = w_flags (deref st j)).
Proof.
  induction fuel as [|fuel IH]; intros st Hp Hfuel; simpl.
  - split_and!; try done. unfold view_of. tuple_eq.
  - assert ((vp_zoom (deref_vp st p) <? zoomLevel) = true) as -> by (apply Z.ltb_lt; lia).
    set (st1 := modify_vp p (λ v, set_vp_zoom (vp_zoom v + 1) v) st).
    set (st2 := modify w _ st1).
    set (st3 := modify_vp p _ st2).
    assert (H1 : deref_vp st1 p = set_vp_zoom (vp_zoom (deref_vp st p) + 1) (deref_vp st p)).
    { unfold st1. by rewrite deref_vp_modify_vp_eq. }
    assert (H3 : deref_vp st3 p
              = set_vp_view_size (sint16 (vp_view_width (deref_vp st p) * 2))
                  (sint16 (vp_view_height (deref_vp st p) * 2))
                  (set_vp_zoom (vp_zoom (deref_vp st p) + 1) (deref_vp st p))).
    { unfold st3. rewrite deref_vp_modify_vp_eq.
      - change (deref_vp st2 p) with (deref_vp st1 p). by rewrite H1.
      - unfold st2, st1, modify_vp. simpl. by rewrite length_alter. }
    assert (Hlen3 : length (g_viewport_list st3) = length (g_viewport_list st)).
    { unfold st3, st2, st1, modify_vp. simpl. by rewrite !length_alter. }
    destruct (IH st3) as (Hview & Hl & Hlw & Hn & Hc & Hwin).
    { lia. }
    { rewrite H3. simpl. lia. }
    split_and!.
    + rewrite Hview, H3. simpl. unfold view_of.
      rewrite !(Nat.iter_swap fuel Z (λ a, sint16 (a * 2))). tuple_eq.
    + by rewrite Hl.
    + rewrite Hlw. unfold st3, st2, modify. simpl. by rewrite length_alter.
    + by rewrite Hn.
    + by rewrite Hc.
    + intros j. destruct (Hwin j) as [-> ->].
      change (deref st3 j) with (deref st2 j). unfold st2.
      change (g_window_list st1) with (g_window_list st).
      unfold deref, modify. simpl. rewrite list_lookup_total_alter.
      case_decide as Hd; [|done]. by destruct Hd as [-> _].
Qed.




End Zoom.

Section ZoomSet.
Context `{E : Env}.

Lemma view_of_alter_x (l : list rct_viewport) p p' f :
  view_of (alter (λ vp, set_vp_x (f vp) vp) p l !!! p') = view_of (l !!! p').
Proof.
  rewrite list_lookup_total_alter. case_decide as Hd; [|done]. by destruct Hd as [-> _].
Qed.

(** The last two steps of [window_zoom_set]. *)
Lemma window_zoom_set_tail st w p :
  (w < RCT2_NEW_WINDOW st ≤ length (g_window_list st))%nat →
  w_viewport (deref st w) = Some p →
  ∃ r, window_bring_to_front w st = Some r
    ∧ let st' := window_invalidate (Some w) r.2 in
      (∀ p', view_of (deref_vp st' p') = view_of (deref_vp st p'))
      ∧ length (g_viewport_list st') = length (g_viewport_list st)
      ∧ length (g_window_list st') = length (g_window_list st)
      ∧ gWindowNextSlot st' = gWindowNextSlot st
      ∧ ∃ w', (w' < RCT2_NEW_WINDOW st')%nat ∧ w_viewport (deref st' w') = Some p.
Proof.
  intros Hw Hp.
  destruct (test (w_flags (deref st w)) (Z.lor WF_STICK_TO_BACK WF_STICK_TO_FRONT)) eqn:Hf.
  - exists (w, st). unfold window_bring_to_front. rewrite Hf. split; [done|].
    simpl. split_and!; try done. exists w. autorewrite with ui_state. split; [lia|done].
  - destruct (window_bring_to_front_moves st w Hw Hf)
      as (v & st' & Heq & Hv & _ & _ & Hn & Hl & _ & _ & _ & H4 & H5).
    exists (v, st'). split; [done|]. simpl. split_and!; try done.
    + intros p'. unfold deref_vp. simpl. rewrite H5.
      destruct (w_viewport (deref st w)); [|done].
      destruct (_ <? 20); [|done]. apply view_of_alter_x.
    + simpl. rewrite H5. destruct (w_viewport (deref st w)); [|done].
      destruct (_ <? 20); [|done]. by rewrite length_alter.
    + exists v. autorewrite with ui_state. split.
      * unfold RCT2_NEW_WINDOW in *. rewrite Hn. lia.
      * rewrite H4. unfold nudged. by destruct (_ <? 20).
Qed.

(** The viewport after [window_zoom_set]: the level is the clamped
    request, and the view extents were halved once per level down or
    doubled, in their 16-bit fields, once per level up. *)
Lemma window_zoom_set_view st w p zoomLevel atCursor :
  (w < RCT2_NEW_WINDOW st ≤ length (g_window_list st))%nat →
  (p < length (g_viewport_list st))%nat →
  w_viewport (deref st w) = Some p →
  let v := deref_vp st p in
  let level := Math_Clamp 0 zoomLevel MAX_ZOOM_LEVEL in
  ∃ st',
    window_zoom_set w zoomLevel atCursor st = Some st'
    ∧ view_of (deref_vp st' p)
      = (level,
         Nat.iter (Z.to_nat (level - vp_zoom v)) (λ a, sint16 (a * 2))
           (Nat.iter (Z.to_nat (vp_zoom v - level)) (λ a, Z.quot a 2) (vp_view_width v)),
         Nat.iter (Z.to_nat (level - vp_zoom v)) (λ a, sint16 (a * 2))
           (Nat.iter (Z.to_nat (vp_zoom v - level)) (λ a, Z.quot a 2) (vp_view_height v)))
    ∧ (RCT2_NEW_WINDOW st' ≤ length (g_window_list st'))%nat
    ∧ (p < length (g_viewport_list st'))%nat
    ∧ ∃ w', (w' < RCT2_NEW_WINDOW st')%nat ∧ w_viewport (deref st' w') = Some p.
Proof.
  intros Hw Hp Hvp v level.
  unfold window_zoom_set. rewrite Hvp. fold level. fold v.
  destruct (vp_zoom v =? level) eqn:Hz.
  - apply Z.eqb_eq in Hz. exists st. split; [done|]. split_and!; try done; try lia.
    + rewrite Hz. replace (Z.to_nat (level - level)) with 0%nat by lia. simpl.
      unfold view_of. fold v. rewrite Hz. tuple_eq.
    + exists w. split; [lia|done].
  - set (saved := if gConfigGeneral_zoom_to_cursor st && atCursor then _ else _).
    clearbody saved.
    set (n1 := Z.to_nat (vp_zoom v - level)).
    destruct (zoom_in_loop_spec w p level n1 st Hp eq_refl)
      as (Hview1 & Hl1 & Hlw1 & Hn1 & Hc1 & Hwin1).
    set (st1 := zoom_in_loop n1 w p level st) in *.
    assert (Hp1 : (p < length (g_viewport_list st1))%nat) by lia.
    injection Hview1 as Hz1 Hvw1 Hvh1. fold v in Hz1, Hvw1, Hvh1.
    set (n2 := Z.to_nat (level - vp_zoom (deref_vp st1 p))).
    destruct (zoom_out_loop_spec w p level n2 st1 Hp1 eq_refl)
      as (Hview2 & Hl2 & Hlw2 & Hn2 & Hc2 & Hwin2).
    set (st2 := zoom_out_loop n2 w p level st1) in *.
    injection Hview2 as Hz2 Hvw2 Hvh2.
    set (st3 := if gConfigGeneral_zoom_to_cursor st2 && atCursor
                then window_viewport_centre_tile_around_cursor w p saved st2 else st2).
    assert (H3vp : g_viewport_list st3 = g_viewport_list st2).
    { unfold st3. destruct (_ && _); [|done].
      unfold window_viewport_centre_tile_around_cursor.
      destruct saved as [[[? ?] ?] ?].
      destruct (centre_2d_coordinates _ _ _ _), context_get_cursor_position_scaled. done. }
    assert (H3n : gWindowNextSlot st3 = gWindowNextSlot st2).
    { unfold st3. destruct (_ && _); [|done].
      unfold window_viewport_centre_tile_around_cursor.
      destruct saved as [[[? ?] ?] ?].
      destruct (centre_2d_coordinates _ _ _ _), context_get_cursor_position_scaled. done. }
    assert (H3l : length (g_window_list st3) = length (g_window_list st2)).
    { unfold st3. destruct (_ && _); [|done].
      unfold window_viewport_centre_tile_around_cursor.
      destruct saved as [[[? ?] ?] ?].
      destruct (centre_2d_coordinates _ _ _ _), context_get_cursor_position_scaled.
      unfold modify. simpl. by rewrite length_alter. }
    assert (H3w : w_viewport (deref st3 w) = w_viewport (deref st2 w)).
    { unfold st3. destruct (_ && _); [|done].
      unfold window_viewport_centre_tile_around_cursor.
      destruct saved as [[[? ?] ?] ?].
      destruct (centre_2d_coordinates _ _ _ _), context_get_cursor_position_scaled.
      unfold deref, modify. simpl. rewrite list_lookup_total_alter.
      case_decide; done. }
    assert (Hn3 : RCT2_NEW_WINDOW st3 = RCT2_NEW_WINDOW st).
    { unfold RCT2_NEW_WINDOW. by rewrite H3n, Hn2, Hn1. }
    destruct (window_zoom_set_tail st3 w p) as (r & Hr & Hview & Hlv & Hll & Hnn & w' & Hw').
    { rewrite Hn3, H3l, Hlw2, Hlw1. done. }
    { rewrite H3w. destruct (Hwin2 w) as [-> _]. destruct (Hwin1 w) as [-> _]. done. }
    exists (window_invalidate (Some w) r.2). split.
    { fold n1. fold st1. fold n2. fold st2. fold st3. rewrite Hr. done. }
    split_and!.
    + rewrite Hview. unfold deref_vp. rewrite H3vp.
      change (view_of (deref_vp st2 p) = 
        (level,
         Nat.iter (Z.to_nat (level - vp_zoom v)) (λ a, sint16 (a * 2))
           (Nat.iter n1 (λ a, Z.quot a 2) (vp_view_width v)),
         Nat.iter (Z.to_nat (level - vp_zoom v)) (λ a, sint16 (a * 2))
           (Nat.iter n1 (λ a, Z.quot a 2) (vp_view_height v)))).
      unfold view_of. rewrite Hz2, Hvw2, Hvh2, Hz1, Hvw1, Hvh1.
      assert (Hn2' : n2 = Z.to_nat (level - vp_zoom v)).
      { unfold n2. rewrite Hz1. unfold n1. apply Z.eqb_neq in Hz. lia. }
      rewrite <- Hn2'. tuple_eq.
    + unfold RCT2_NEW_WINDOW in *. rewrite Hnn, Hll, H3n, H3l, Hn2, Hlw2, Hn1, Hlw1. lia.
    + rewrite Hlv, H3vp. lia.
    + by exists w'.
Qed.

End ZoomSet.





(** Zooming out and back in within the range of the fields: the main
    window of an 800 by 600 screen from level 0 to level 3 and back. *)
Example window_zoom_set_out_and_back :
  (st1 ← window_zoom_set (E := default_env) 0 3 false
           (ui_state_of [viewport_window 0 0 0 0 800 600 1 0; rct_window_zero] 1
              [simple_viewport 0 0 800 600 0]);
   st2 ← window_zoom_set (E := default_env) 0 0 false st1;
   Some (view_of (deref_vp st1 0), view_of (deref_vp st2 0)))
  = Some ((3, 6400, 4800), (0, 800, 600)).
Proof. by vm_compute. Qed.

(** ** Closing under well-behaved handlers *)

Section InertClose.
Context `{E : Env}.
Hypothesis Hinert : close_handlers_inert.

Lemma open_windows_lookup st i :
  (i < RCT2_NEW_WINDOW st)%nat → list_in_array st →
  open_windows st !! i = Some (deref st i).
Proof.
  intros Hi Hwf. unfold open_windows, deref.
  rewrite lookup_take_lt by done.
  apply list_lookup_lookup_total_lt. unfold list_in_array in Hwf. lia.
Qed.

Lemma length_open_windows st :
  list_in_array st → length (open_windows st) = RCT2_NEW_WINDOW st.
Proof. intros Hwf. unfold open_windows, list_in_array in *. rewrite length_take. lia. Qed.

Lemma window_event_close_call_inert w st :
  g_window_list (window_event_close_call w st) = g_window_list st
  ∧ gWindowNextSlot (window_event_close_call w st) = gWindowNextSlot st.
Proof.
  unfold window_event_close_call.
  destruct (event_close _) as [f|] eqn:Hf; [|done]. by apply (Hinert _ _ Hf).
Qed.

(** With unique keys the window handed to [window_close] is the one that
    is removed. *)
Lemma window_close_open st i :
  (i < RCT2_NEW_WINDOW st)%nat → list_in_array st → keys_unique st →
  let st' := window_close (Some i) st in
  open_windows st' = delete i (open_windows st)
  ∧ gWindowNextSlot st' = Some (RCT2_NEW_WINDOW st - 1)%nat
  ∧ list_in_array st'
  ∧ keys_unique st'.
Proof.
  intros Hi Hwf Huniq st'.
  destruct (window_event_close_call_inert i st) as [Hl Hn].
  set (st1 := window_event_close_call i st) in *.
  assert (Hn1 : RCT2_NEW_WINDOW st1 = RCT2_NEW_WINDOW st).
  { unfold RCT2_NEW_WINDOW. by rewrite Hn. }
  assert (Hd : ∀ j, deref st1 j = deref st j).
  { intros j. unfold deref. by rewrite Hl. }
  assert (Hopen1 : open_windows st1 = open_windows st).
  { unfold open_windows. by rewrite Hn1, Hl. }
  assert (Hfind : window_find_by_number (w_classification (deref st i))
                    (w_number (deref st i)) st1 = Some i).
  { apply window_find_by_number_Some. rewrite Hn1, Hd.
    split_and!; [done|done|done|].
    intros k Hk [Hc Hnum]. rewrite Hd in Hc, Hnum.
    assert (k = i); [|lia].
    eapply (NoDup_lookup _ k i (window_key (deref st i)) Huniq).
    - rewrite list_lookup_fmap, open_windows_lookup by (done || lia).
      simpl. unfold window_key. by rewrite Hc, Hnum.
    - by rewrite list_lookup_fmap, open_windows_lookup. }
  destruct (window_close_found st i i Hfind) as (Hopen & Hnext & Hlen & _).
  { fold st1. rewrite Hn1, Hl. done. }
  fold st1 in Hopen, Hnext, Hlen. fold st' in Hopen, Hnext, Hlen.
  rewrite Hopen1 in Hopen. rewrite Hn1 in Hnext. rewrite Hl in Hlen.
  split_and!; [done|done| |].
  - unfold list_in_array in *. unfold RCT2_NEW_WINDOW at 1. rewrite Hnext, Hlen. simpl. lia.
  - unfold keys_unique. rewrite Hopen, list_fmap_delete.
    eapply sublist_NoDup; [exact Huniq|]. apply sublist_delete.
Qed.

Lemma window_close_next_slot window st :
  is_Some (gWindowNextSlot st) → is_Some (gWindowNextSlot (window_close window st)).
Proof.
  intros Hs. destruct window as [w|]; [|done]. unfold window_close.
  destruct (window_event_close_call_inert w st) as [_ Hn].
  destruct (window_find_by_number _ _ _); [|by rewrite Hn].
  cbv zeta. case_decide; simpl; eauto.
Qed.

Lemma spared_refl P st : spared P st st.
Proof. by intros win. Qed.

Lemma spared_trans P st1 st2 st3 :
  spared P st1 st2 → spared P st2 st3 → spared P st1 st3.
Proof. intros H12 H23 win Hin HP. apply H23; [|done]. by apply H12. Qed.

(** Closing an open window that does not satisfy [P] spares all that do. *)
Lemma window_close_spared (P : rct_window → Prop) st i :
  (i < RCT2_NEW_WINDOW st)%nat → list_in_array st → keys_unique st →
  ¬ P (deref st i) →
  spared P st (window_close (Some i) st).
Proof.
  intros Hi Hwf Huniq HnP win Hin HP.
  destruct (window_close_open st i Hi Hwf Huniq) as (-> & _).
  apply list_elem_of_lookup in Hin as [k Hk].
  assert (k ≠ i).
  { intros ->. rewrite open_windows_lookup in Hk by done. by injection Hk as <-. }
  apply list_elem_of_lookup.
  destruct (decide (k < i)%nat).
  - exists k. by rewrite list_lookup_delete_lt.
  - exists (k - 1)%nat. rewrite list_lookup_delete_ge by lia.
    by replace (S (k - 1)) with k by lia.
Qed.

End InertClose.

(** ** The bulk-close loops *)

#[local] Arguments window_close : simpl never.

Section BulkClose.
Context `{E : Env}.
Hypothesis Hinert : close_handlers_inert.

Lemma sticky_test win :
  sticky win ↔ test (w_flags win) (Z.lor WF_STICK_TO_BACK WF_STICK_TO_FRONT) = true.
Proof. unfold sticky. rewrite test_lor, orb_true_iff. done. Qed.

Lemma next_after_close st i :
  (i < RCT2_NEW_WINDOW st)%nat → list_in_array st → keys_unique st →
  RCT2_NEW_WINDOW (window_close (Some i) st) = (RCT2_NEW_WINDOW st - 1)%nat.
Proof.
  intros Hi Hwf Hu.
  destruct (window_close_open Hinert st i Hi Hwf Hu) as (_ & Hn & _).
  unfold RCT2_NEW_WINDOW at 1. by rewrite Hn.
Qed.

Lemma window_close_all_except_class_loop_spared cls :
  ∀ fuel w st,
  list_in_array st → keys_unique st → is_Some (gWindowNextSlot st) →
  (RCT2_NEW_WINDOW st * S (RCT2_NEW_WINDOW st) + (RCT2_NEW_WINDOW st - w) + 1 ≤ fuel)%nat →
  ∃ st', window_close_all_except_class_loop fuel cls w st = Some st'
    ∧ list_in_array st' ∧ keys_unique st'
    ∧ spared (λ win, w_classification win = cls ∨ sticky win) st st'
    ∧ open_windows st' `sublist_of` open_windows st
    ∧ (RCT2_NEW_WINDOW st' ≤ RCT2_NEW_WINDOW st)%nat.
Proof.
  induction fuel as [|fuel IH]; intros w st Hwf Hu [n0 Hnext] Hfuel; [lia|]. simpl.
  rewrite Hnext.
  case_decide as Hw.
  - destruct (negb (w_classification (deref st w) =? cls)
              && negb (test (w_flags (deref st w)) (Z.lor WF_STICK_TO_BACK WF_STICK_TO_FRONT)))
      eqn:Hc.
    + destruct (window_close_open Hinert st w) as (Hop1 & Hnx1 & Hwf1 & Hu1); [lia|done|done|].
      pose proof (next_after_close st w ltac:(lia) Hwf Hu) as Hn1.
      destruct (IH 1%nat (window_close (Some w) st))
        as (st' & Heq & Hwf' & Hu' & Hsp & Hsub & Hn');
        [done|done|by eexists|rewrite Hn1; nia|].
      exists st'. split_and!; [done|done|done| | |lia].
      * eapply spared_trans; [|exact Hsp].
        apply window_close_spared; [done|lia|done|done|].
        apply andb_true_iff in Hc as [Hc1 Hc2].
        apply negb_true_iff in Hc1, Hc2. apply Z.eqb_neq in Hc1.
        rewrite sticky_test. intros [?|?]; congruence.
      * etrans; [exact Hsub|]. rewrite Hop1. apply sublist_delete.
    + destruct (IH (S w) st) as (st' & Heq & Hwf' & Hu' & Hsp & Hsub & Hn');
        [done|done|by eexists|lia|].
      by exists st'.
  - exists st. split_and!; try done. apply spared_refl.
Qed.

Lemma spared_weaken (P Q : rct_window → Prop) st st' :
  (∀ win, Q win → P win) → spared P st st' → spared Q st st'.
Proof. intros HQP Hsp win Hin HQ. apply Hsp; [done|]. by apply HQP. Qed.

End BulkClose.

(** ** The window limit *)

Section Surplus.
Context `{E : Env}.



End Surplus.




(** With a positive surplus windows are evicted: 8 open windows, 4
    reserved slots and the limit lowered from 8 to 1 (raised to the
    minimum 2) give 8 - 4 - 2 = 2 rounds, which remove the first two
    unprotected windows. *)
Example window_set_window_limit_evicts :
  open_windows (window_set_window_limit (E := no_handlers_env 2 64 4) 1 st_many)
  = [ plain_window 0 0 0 0 640 480 1;
      plain_window 14 0 300 200 120 90 0;
      plain_window 17 0 50 60 120 90 0;
      plain_window 9 3 120 100 200 150 0;
      plain_window 9 4 130 110 200 150 0;
      plain_window 1 0 0 0 640 28 2 ].
Proof. by vm_compute. Qed.

(** ** Drawing the visible regions of a window *)

#[local] Arguments window_is_visible : simpl never.
#[local] Arguments window_draw_single : simpl never.
#[local] Arguments window_draw_single_clip : simpl never.

Section Draw.
Context `{E : Env}.

Lemma geometry_fields a b :
  geometry a = geometry b →
  w_x a = w_x b ∧ w_y a = w_y b ∧ w_width a = w_width b
  ∧ w_height a = w_height b ∧ w_flags a = w_flags b.
Proof. unfold geometry. intros H. split_and!; congruence. Qed.

Lemma layout_deref st st' j :
  layout st' = layout st → geometry (deref st' j) = geometry (deref st j).
Proof.
  unfold layout, deref. intros H.
  rewrite !list_lookup_total_alt.
  assert (Hj : geometry <$> (g_window_list st' !! j) = geometry <$> (g_window_list st !! j)).
  { rewrite <- !list_lookup_fmap. congruence. }
  destruct (g_window_list st' !! j), (g_window_list st !! j); simpl in *; congruence.
Qed.

Lemma layout_next st st' :
  layout st' = layout st → RCT2_NEW_WINDOW st' = RCT2_NEW_WINDOW st.
Proof. unfold layout, RCT2_NEW_WINDOW. intros H. congruence. Qed.

Lemma layout_modify w f st :
  (∀ win, geometry (f win) = geometry win) → layout (modify w f st) = layout st.
Proof.
  intros Hf. unfold layout, modify. simpl. f_equal.
  apply list_eq. intros i. rewrite !list_lookup_fmap.
  destruct (decide (i = w)) as [->|Hne].
  - rewrite list_lookup_alter_eq. destruct (g_window_list st !! w); simpl; [|done].
    by rewrite Hf.
  - by rewrite list_lookup_alter_ne.
Qed.

Lemma layout_window_is_visible o st :
  layout (window_is_visible o st).2 = layout st.
Proof.
  destruct o as [w|]; [|done]. unfold window_is_visible.
  repeat case_match; simpl; try done;
    try (change (layout (modify_vp ?p ?f ?s)) with (layout s));
    by apply layout_modify.
Qed.

Lemma layout_window_event_invalidate_call w st :
  paint_handlers_keep_layout →
  layout (window_event_invalidate_call w st) = layout st.
Proof.
  intros [H _]. unfold window_event_invalidate_call.
  destruct (event_invalidate _) eqn:Hh; [|done]. by eapply H.
Qed.

Lemma layout_window_event_paint_call w dpi st :
  paint_handlers_keep_layout →
  layout (window_event_paint_call w dpi st) = layout st.
Proof.
  intros [_ H]. unfold window_event_paint_call.
  destruct (event_paint _) eqn:Hh; [|done]. by eapply H.
Qed.

Lemma window_draw_single_clip_within dpi left top right bottom d :
  window_draw_single_clip dpi left top right bottom = Some d →
  dpi_within left top right bottom d.
Proof.
  unfold window_draw_single_clip, dpi_within. intros H.
  repeat match type of H with
         | context [if ?c then _ else _] => destruct c eqn:?; simpl in H
         end;
    simplify_eq; simpl; lia.
Qed.

Lemma window_draw_single_inv dpi v left top right bottom st :
  paint_handlers_keep_layout →
  layout (window_draw_single dpi v left top right bottom st).1 = layout st
  ∧ ∀ c, c ∈ (window_draw_single dpi v left top right bottom st).2 →
         dpi_within left top right bottom c.2.
Proof.
  intros Hk. unfold window_draw_single.
  destruct (window_draw_single_clip _ _ _ _ _) as [d|] eqn:Hclip; simpl.
  - split.
    + rewrite layout_window_event_paint_call by done.
      change (layout (set_window_colours ?l ?s)) with (layout s).
      by apply layout_window_event_invalidate_call.
    + intros c Hc. apply list_elem_of_singleton in Hc as ->. simpl.
      by eapply window_draw_single_clip_within.
  - split; [done|]. intros c Hc. by apply elem_of_nil in Hc.
Qed.

Lemma window_draw_paint_loop_inv n dpi w v left top right bottom st :
  paint_handlers_keep_layout →
  layout (window_draw_paint_loop n dpi w v left top right bottom st).1 = layout st
  ∧ ∀ c, c ∈ (window_draw_paint_loop n dpi w v left top right bottom st).2 →
         dpi_within left top right bottom c.2.
Proof.
  intros Hk. revert v st. induction n as [|n IH]; intros v st; simpl.
  - split; [done|]. intros c Hc. by apply elem_of_nil in Hc.
  - case_decide; [|split; [done|]; intros c Hc; by apply elem_of_nil in Hc].
    set (r := if _ || _ then _ else _).
    assert (Hr : layout r.1 = layout st
                 ∧ ∀ c, c ∈ r.2 → dpi_within left top right bottom c.2).
    { subst r. destruct (_ || _).
      - destruct (window_is_visible (Some v) st).1 eqn:Hvis.
        + destruct (window_draw_single_inv dpi v left top right bottom
                      (window_is_visible (Some v) st).2 Hk) as [Hl Hc].
          split; [|done]. rewrite Hl. apply layout_window_is_visible.
        + simpl. split; [apply layout_window_is_visible|].
          intros c Hc. by apply elem_of_nil in Hc.
      - split; [done|]. intros c Hc. by apply elem_of_nil in Hc. }
    destruct Hr as [Hl Hc]. destruct (IH (S v) r.1) as [Hl' Hc'].
    simpl. split; [congruence|].
    intros c Hin. apply elem_of_app in Hin as [?|?]; auto.
Qed.

Lemma draw_ok_nil w left top right bottom st st' :
  layout st' = layout st → draw_ok w left top right bottom st (st', []).
Proof. intros H. split; [done|]. intros c Hc. by apply elem_of_nil in Hc. Qed.

Lemma window_occludes_true left top right bottom tw :
  window_occludes left top right bottom tw = true →
  w_x tw < right ∧ w_y tw < bottom
  ∧ left < w_x tw + w_width tw ∧ top < w_y tw + w_height tw
  ∧ test (w_flags tw) WF_TRANSPARENT = false.
Proof.
  unfold window_occludes. intros H.
  repeat (apply andb_true_iff in H as [H ?]).
  repeat match goal with
         | H : negb _ = true |- _ => apply negb_true_iff in H
         | H : _ || _ = false |- _ => apply orb_false_iff in H as [? ?]
         end.
  split_and!; try lia. done.
Qed.

Lemma window_occludes_false left top right bottom tw :
  window_occludes left top right bottom tw = false →
  test (w_flags tw) WF_TRANSPARENT = false →
  right ≤ w_x tw ∨ bottom ≤ w_y tw
  ∨ w_x tw + w_width tw ≤ left ∨ w_y tw + w_height tw ≤ top.
Proof.
  unfold window_occludes. intros H Ht. rewrite Ht in H. simpl in H.
  rewrite andb_true_r in H.
  apply andb_false_iff in H as [H|H]; apply negb_false_iff, orb_true_iff in H;
    destruct H; lia.
Qed.

(** Two halves that are fine make a whole that is fine. *)
Lemma draw_ok_halves w l t r b l1 t1 r1 b1 l2 t2 r2 b2 st st1 res1 res2 :
  layout st1 = layout st →
  l ≤ l1 → r1 ≤ r → t ≤ t1 → b1 ≤ b →
  l ≤ l2 → r2 ≤ r → t ≤ t2 → b2 ≤ b →
  draw_ok w l1 t1 r1 b1 st1 res1 →
  draw_ok w l2 t2 r2 b2 res1.1 res2 →
  draw_ok w l t r b st (res2.1, res1.2 ++ res2.2).
Proof.
  intros Hl ? ? ? ? ? ? ? ? [Hl1 Hc1] [Hl2 Hc2]. split; simpl; [congruence|].
  intros c Hin. apply elem_of_app in Hin as [Hin|Hin].
  - destruct (Hc1 c Hin) as [Hw Hd]. split; [unfold dpi_within in *; lia|].
    intros j Hj Hop.
    destruct (geometry_fields _ _ (layout_deref st st1 j Hl)) as (?&?&?&?&Hf).
    rewrite <- (layout_next _ _ Hl) in Hj. rewrite <- Hf in Hop.
    specialize (Hd j Hj Hop). unfold dpi_disjoint in *. lia.
  - destruct (Hc2 c Hin) as [Hw Hd]. split; [unfold dpi_within in *; lia|].
    intros j Hj Hop.
    assert (Hl' : layout res1.1 = layout st) by congruence.
    destruct (geometry_fields _ _ (layout_deref st res1.1 j Hl')) as (?&?&?&?&Hf).
    rewrite <- (layout_next _ _ Hl') in Hj. rewrite <- Hf in Hop.
    specialize (Hd j Hj Hop). unfold dpi_disjoint in *. lia.
Qed.

Lemma window_draw_sound dpi w :
  paint_handlers_keep_layout →
  ∀ fuel left top right bottom st,
    (Z.to_nat (right - left) + Z.to_nat (bottom - top) < fuel)%nat →
    ∃ res, window_draw fuel dpi w left top right bottom st = Some res
           ∧ draw_ok w left top right bottom st res.
Proof.
  intros Hk. induction fuel as [|fuel IH]; intros l t r b st Hfuel; [lia|].
  simpl.
  pose proof (layout_window_is_visible (Some w) st) as Hl1.
  set (st1 := (window_is_visible (Some w) st).2) in *.
  destruct (window_is_visible (Some w) st).1; simpl.
  2: { eexists. split; [done|]. by apply draw_ok_nil. }
  unfold window_draw_split.
  destruct (scan_up _ _ _ _) as [tj|] eqn:Hscan; simpl.
  - apply scan_up_Some in Hscan as (Hj & Hocc & _).
    apply window_occludes_true in Hocc as (Hx & Hy & Hx' & Hy' & _).
    fold (deref st1 tj) in *.
    set (tw := deref st1 tj) in *.
    assert (Hsplit : ∀ l1 t1 r1 b1 (g : rct_window → Z * Z * Z * Z),
              (∀ a a', geometry a = geometry a' → g a = g a') →
              (Z.to_nat (r1 - l1) + Z.to_nat (b1 - t1) < fuel)%nat →
              (let '(l2, t2, r2, b2) := g tw in
               (Z.to_nat (r2 - l2) + Z.to_nat (b2 - t2) < fuel)%nat
               ∧ l ≤ l2 ∧ r2 ≤ r ∧ t ≤ t2 ∧ b2 ≤ b) →
              l ≤ l1 → r1 ≤ r → t ≤ t1 → b1 ≤ b →
              ∃ res1 res2,
                window_draw fuel dpi w l1 t1 r1 b1 st1 = Some res1
                ∧ (let '(l2, t2, r2, b2) := g (deref res1.1 tj) in
                   window_draw fuel dpi w l2 t2 r2 b2 res1.1) = Some res2
                ∧ draw_ok w l t r b st (res2.1, res1.2 ++ res2.2)).
    { intros l1 t1 r1 b1 g Hg Hm1 Hm2 ? ? ? ?.
      destruct (IH l1 t1 r1 b1 st1 Hm1) as (res1 & Heq1 & Hok1).
      exists res1.
      rewrite (Hg (deref res1.1 tj) tw)
        by (apply layout_deref; apply Hok1).
      destruct (g tw) as [[[l2 t2] r2] b2].
      destruct Hm2 as (Hm2 & ? & ? & ? & ?).
      destruct (IH l2 t2 r2 b2 res1.1 Hm2) as (res2 & Heq2 & Hok2).
      exists res2. split_and!; [done|done|].
      by eapply (draw_ok_halves w l t r b l1 t1 r1 b1 l2 t2 r2 b2 st st1). }
    destruct (l <? w_x tw) eqn:Hc1; [|destruct (w_x tw + w_width tw <? r) eqn:Hc2;
      [|destruct (t <? w_y tw) eqn:Hc3; [|destruct (w_y tw + w_height tw <? b) eqn:Hc4]]].
    + destruct (Hsplit l t (w_x tw) b (λ a, (w_x a, t, r, b)))
        as (res1 & res2 & Heq1 & Heq2 & Hok); try lia.
      { intros a a' Ha. by destruct (geometry_fields _ _ Ha) as (->&_). }
      rewrite Heq1. simpl. simpl in Heq2. rewrite Heq2. simpl. by eexists.
    + destruct (Hsplit l t (w_x tw + w_width tw) b
                  (λ a, (w_x a + w_width a, t, r, b)))
        as (res1 & res2 & Heq1 & Heq2 & Hok); try lia.
      { intros a a' Ha. by destruct (geometry_fields _ _ Ha) as (->&_&->&_). }
      rewrite Heq1. simpl. simpl in Heq2. rewrite Heq2. simpl. by eexists.
    + destruct (Hsplit l t r (w_y tw) (λ a, (l, w_y a, r, b)))
        as (res1 & res2 & Heq1 & Heq2 & Hok); try lia.
      { intros a a' Ha. by destruct (geometry_fields _ _ Ha) as (_&->&_). }
      rewrite Heq1. simpl. simpl in Heq2. rewrite Heq2. simpl. by eexists.
    + destruct (Hsplit l t r (w_y tw + w_height tw)
                  (λ a, (l, w_y a + w_height a, r, b)))
        as (res1 & res2 & Heq1 & Heq2 & Hok); try lia.
      { intros a a' Ha. by destruct (geometry_fields _ _ Ha) as (_&->&_&->&_). }
      rewrite Heq1. simpl. simpl in Heq2. rewrite Heq2. simpl. by eexists.
    + eexists. split; [done|]. by apply draw_ok_nil.
  - pose proof (proj1 (scan_up_None _ _ _ _) Hscan) as Hnone.
    repeat case_match; try (eexists; split; [done|]; by apply draw_ok_nil).
    eexists. split; [done|].
    match goal with
    | |- draw_ok _ _ _ _ _ _ (window_draw_paint_loop ?n _ _ ?v ?l' ?t' ?r' ?b' _) =>
        destruct (window_draw_paint_loop_inv n dpi w v l' t' r' b' st1 Hk) as [Hl Hc]
    end.
    split; [congruence|].
    intros c Hin. specialize (Hc c Hin). split; [unfold dpi_within in *; lia|].
    intros j Hj Hop.
    destruct (geometry_fields _ _ (layout_deref st st1 j Hl1)) as (?&?&?&?&Hf).
    rewrite <- (layout_next _ _ Hl1) in Hj. rewrite <- Hf in Hop.
    assert (Hno : window_occludes l t r b (deref st1 j) = false).
    { apply Hnone. lia. }
    apply window_occludes_false in Hno; [|done].
    unfold dpi_within, dpi_disjoint in *. lia.
Qed.

End Draw.

Section DrawSplit.
Context `{E : Env}.

Lemma window_draw_split_rule dpi w fuel left top right bottom st tj :
  paint_handlers_keep_layout →
  (Z.to_nat (right - left) + Z.to_nat (bottom - top) ≤ fuel)%nat →
  (window_is_visible (Some w) st).1 = true →
  let st1 := (window_is_visible (Some w) st).2 in
  scan_up (window_occludes left top right bottom) (g_window_list st1) (S w)
    (RCT2_NEW_WINDOW st1 - S w) = Some tj →
  match split_rect left top right bottom (deref st1 tj) with
  | Some ((l1, t1, r1, b1), (l2, t2, r2, b2)) =>
      ∃ res1 res2,
        window_draw fuel dpi w l1 t1 r1 b1 st1 = Some res1
        ∧ window_draw fuel dpi w l2 t2 r2 b2 res1.1 = Some res2
        ∧ window_draw (S fuel) dpi w left top right bottom st
          = Some (res2.1, res1.2 ++ res2.2)
  | None => window_draw (S fuel) dpi w left top right bottom st = Some (st1, [])
  end.
Proof.
  intros Hk Hfuel Hvis st1 Hscan.
  cbn [window_draw]. rewrite Hvis. fold st1. cbn [negb].
  unfold window_draw_split. rewrite Hscan.
  apply scan_up_Some in Hscan as (Hj & Hocc & _).
  apply window_occludes_true in Hocc as (Hx & Hy & Hx' & Hy' & _).
  fold (deref st1 tj) in *. set (tw := deref st1 tj) in *.
  assert (Hsub : ∀ l1 t1 r1 b1,
            (Z.to_nat (r1 - l1) + Z.to_nat (b1 - t1) < fuel)%nat →
            ∃ res1, window_draw fuel dpi w l1 t1 r1 b1 st1 = Some res1
                    ∧ geometry (deref res1.1 tj) = geometry tw
                    ∧ ∀ l2 t2 r2 b2,
                        (Z.to_nat (r2 - l2) + Z.to_nat (b2 - t2) < fuel)%nat →
                        ∃ res2, window_draw fuel dpi w l2 t2 r2 b2 res1.1 = Some res2).
  { intros l1 t1 r1 b1 Hm.
    destruct (window_draw_sound dpi w Hk fuel l1 t1 r1 b1 st1 Hm) as (res1 & Heq1 & Hl & _).
    exists res1. split_and!; [done|by apply layout_deref|].
    intros l2 t2 r2 b2 Hm2.
    destruct (window_draw_sound dpi w Hk fuel l2 t2 r2 b2 res1.1 Hm2) as (res2 & Heq2 & _).
    by exists res2. }
  unfold split_rect. cbv zeta.
  destruct (left <? w_x tw) eqn:Hc1; [|destruct (w_x tw + w_width tw <? right) eqn:Hc2;
    [|destruct (top <? w_y tw) eqn:Hc3; [|destruct (w_y tw + w_height tw <? bottom) eqn:Hc4]]].
  - rewrite (proj2 (Z.ltb_lt _ _) Hx). cbn [andb].
    destruct (Hsub left top (w_x tw) bottom) as (res1 & Heq1 & Hg & Hnext); [lia|].
    destruct (geometry_fields _ _ Hg) as (Hgx & Hgy & Hgw & Hgh & _).
    destruct (Hnext (w_x tw) top right bottom) as (res2 & Heq2); [lia|].
    exists res1, res2. split_and!; [done|done|].
    rewrite Heq1. simpl. rewrite Hgx, Heq2. done.
  - rewrite (proj2 (Z.ltb_lt _ _) Hx'). cbn [andb].
    destruct (Hsub left top (w_x tw + w_width tw) bottom) as (res1 & Heq1 & Hg & Hnext); [lia|].
    destruct (geometry_fields _ _ Hg) as (Hgx & Hgy & Hgw & Hgh & _).
    destruct (Hnext (w_x tw + w_width tw) top right bottom) as (res2 & Heq2); [lia|].
    exists res1, res2. split_and!; [done|done|].
    rewrite Heq1. simpl. rewrite Hgx, Hgw, Heq2. done.
  - rewrite andb_false_r. rewrite (proj2 (Z.ltb_lt _ _) Hy). cbn [andb].
    destruct (Hsub left top right (w_y tw)) as (res1 & Heq1 & Hg & Hnext); [lia|].
    destruct (geometry_fields _ _ Hg) as (Hgx & Hgy & Hgw & Hgh & _).
    destruct (Hnext left (w_y tw) right bottom) as (res2 & Heq2); [lia|].
    exists res1, res2. split_and!; [done|done|].
    rewrite Heq1. simpl. rewrite Hgy, Heq2. done.
  - rewrite andb_false_r. rewrite (proj2 (Z.ltb_lt _ _) Hy'). cbn [andb].
    destruct (Hsub left top right (w_y tw + w_height tw)) as (res1 & Heq1 & Hg & Hnext); [lia|].
    destruct (geometry_fields _ _ Hg) as (Hgx & Hgy & Hgw & Hgh & _).
    destruct (Hnext left (w_y tw + w_height tw) right bottom) as (res2 & Heq2); [lia|].
    exists res1, res2. split_and!; [done|done|].
    rewrite Heq1. simpl. rewrite Hgy, Hgh, Heq2. done.
  - rewrite !andb_false_r. done.
Qed.

End DrawSplit.

(** The claim of C1 as stated fails on the code: with an opaque window
    lying exactly on top of A, [window_draw] finds the occluder
    overlapping the rectangle, yet none of its edges crosses the
    rectangle, so the rectangle is not split and [window_draw] is not
    called again (the splitter returns without calling [draw], here a
    function that would fail); no paint call is issued. *)
Lemma window_draw_split_counterexample :
  scan_up (window_occludes (E := default_env) 0 0 100 100) (g_window_list st_covered) 1 1
  = Some 1%nat
  ∧ split_rect 0 0 100 100 (deref st_covered 1) = None
  ∧ window_draw_split (E := default_env) (λ _ _ _ _ _, None) 0 0 0 100 100 st_covered
    = Some (true, st_covered, [])
  ∧ snd <$> window_draw (E := default_env) 201 screen_dpi 0 0 0 100 100 st_covered
    = Some [].
Proof. split_and!; by vm_compute. Qed.

(** C1, amended: with invalidate and paint handlers that leave positions,
    sizes, flags and the set of open windows alone, [window_draw] on a
    window [w] and rectangle [r] returns, and every paint call it issues
    lies within [r] and has no pixel in common with any non-transparent
    window above [w].  When [w] is visible and the first non-transparent
    window above [w] overlapping [r] is found, [r] is split in two along
    that window's left edge, else right edge, else top edge, else bottom
    edge, whichever first crosses [r], and [window_draw] recurses on the
    two halves in order; when no edge crosses [r] (the window covers
    [r]) nothing is split and nothing is painted.  With A at (0, 0) of
    size 100 by 100 and the opaque B at (50, 50) of size 100 by 100
    above it, drawing A on the full screen paints A twice: on the strip
    left of B and on the part above B. *)
Theorem window_draw_visible_regions `{E : Env} (dpi : rct_drawpixelinfo) (w : nat)
    (left top right bottom : Z) (st : ui_state) (fuel : nat) :
  paint_handlers_keep_layout →
  (Z.to_nat (right - left) + Z.to_nat (bottom - top) ≤ fuel)%nat →
  let st1 := (window_is_visible (Some w) st).2 in
  (∃ st' calls,
     window_draw (S fuel) dpi w left top right bottom st = Some (st', calls)
     ∧ ∀ v d, (v, d) ∈ calls →
         dpi_within left top right bottom d
         ∧ ∀ j, (w < j < RCT2_NEW_WINDOW st)%nat →
                test (w_flags (deref st j)) WF_TRANSPARENT = false →
                dpi_disjoint d (deref st j))
  ∧ (∀ tj,
       (window_is_visible (Some w) st).1 = true →
       scan_up (window_occludes left top right bottom) (g_window_list st1) (S w)
         (RCT2_NEW_WINDOW st1 - S w) = Some tj →
       match split_rect left top right bottom (deref st1 tj) with
       | Some ((l1, t1, r1, b1), (l2, t2, r2, b2)) =>
           ∃ res1 res2,
             window_draw fuel dpi w l1 t1 r1 b1 st1 = Some res1
             ∧ window_draw fuel dpi w l2 t2 r2 b2 res1.1 = Some res2
             ∧ window_draw (S fuel) dpi w left top right bottom st
               = Some (res2.1, res1.2 ++ res2.2)
       | None =>
           window_draw (S fuel) dpi w left top right bottom st = Some (st1, [])
       end)
  ∧ snd <$> window_draw (E := default_env) 1121 screen_dpi 0 0 0 640 480 st_overlap
    = Some [ (0%nat, mk_dpi 0 0 0 50 100 590 0);
             (0%nat, mk_dpi 50 50 0 50 50 590 0) ].
Proof.
  intros Hk Hfuel st1. split_and!.
  - destruct (window_draw_sound dpi w Hk (S fuel) left top right bottom st)
      as ([st' calls] & Heq & _ & Hc); [lia|].
    exists st', calls. split; [done|].
    intros v d Hin. apply (Hc (v, d) Hin).
  - intros tj Hvis Hscan.
    by apply (window_draw_split_rule dpi w fuel left top right bottom st tj).
  - by vm_compute.
Qed.

Lemma window_draw_visible_regions_witness :
  paint_handlers_keep_layout (E := default_env)
  ∧ ∃ st' calls,
      window_draw (E := default_env) 1121 screen_dpi 0 0 0 640 480 st_overlap
      = Some (st', calls)
      ∧ ∀ v d, (v, d) ∈ calls →
          dpi_within 0 0 640 480 d
          ∧ ∀ j, (0 < j < RCT2_NEW_WINDOW st_overlap)%nat →
                 test (w_flags (deref st_overlap j)) (WF_TRANSPARENT (Env := default_env)) = false →
                 dpi_disjoint d (deref st_overlap j).
Proof.
  assert (Hk : paint_handlers_keep_layout (E := default_env)).
  { split; intros h f Hf; discriminate. }
  split; [exact Hk|].
  destruct (window_draw_visible_regions (E := default_env) screen_dpi 0 0 0 640 480
              st_overlap 1120 Hk) as [H _].
  - vm_compute. lia.
  - exact H.
Defined.

(** * Further properties *)

(** ** What the closing functions leave open *)

Section Filter.
Context {A : Type} (P : A → Prop) `{!∀ x, Decision (P x)}.

Lemma filter_delete_rejected (l : list A) i x :
  l !! i = Some x → ¬ P x → filter P (delete i l) = filter P l.
Proof.
  revert i. induction l as [|a l IH]; intros [|i] Hi Hx; simpl in *; try done.
  - simplify_eq. by rewrite filter_cons_False.
  - rewrite !filter_cons. by rewrite (IH i).
Qed.

Lemma filter_all (l : list A) : (∀ x, x ∈ l → P x) → filter P l = l.
Proof.
  induction l as [|a l IH]; intros Hall; [done|].
  rewrite filter_cons_True by (apply Hall; left).
  f_equal. apply IH. intros x Hx. apply Hall. by right.
Qed.

End Filter.

Section CloseExact.
Context `{E : Env}.
Hypothesis Hinert : close_handlers_inert.

(** The downward loop keeps, of the [k] first windows, those to keep. *)
Lemma close_down_loop_open (keep : rct_window → bool) k :
  ∀ st,
  (k ≤ RCT2_NEW_WINDOW st)%nat → list_in_array st → keys_unique st →
  let st' := close_down_loop keep k st in
  list_in_array st' ∧ keys_unique st'
  ∧ open_windows st'
    = filter (λ win, keep win = true) (take k (open_windows st)) ++ drop k (open_windows st).
Proof.
  induction k as [|w IH]; intros st Hk Hwf Hu; simpl.
  - by split_and!.
  - pose proof (open_windows_lookup st w ltac:(lia) Hwf) as Hw.
    rewrite (take_S_r _ _ _ Hw), filter_app.
    destruct (keep (deref st w)) eqn:Hkeep.
    + destruct (IH st) as (Hwf' & Hu' & Hopen); [lia|done|done|].
      split_and!; [done|done|]. rewrite Hopen.
      rewrite (drop_S _ _ _ Hw).
      rewrite filter_cons_True by done. rewrite filter_nil.
      by rewrite <- app_assoc.
    + destruct (window_close_open Hinert st w) as (Hopen1 & _ & Hwf1 & Hu1); [lia|done|done|].
      pose proof (next_after_close Hinert st w ltac:(lia) Hwf Hu) as Hn1.
      destruct (IH (window_close (Some w) st)) as (Hwf' & Hu' & Hopen); [lia|done|done|].
      split_and!; [done|done|]. rewrite Hopen, Hopen1.
      rewrite filter_cons_False by (rewrite Hkeep; done). rewrite filter_nil, app_nil_r.
      assert (Hlen : length (take w (open_windows st)) = w).
      { rewrite length_take, length_open_windows by done. lia. }
      rewrite delete_take_drop.
      rewrite take_app_length' by done.
      rewrite drop_app_length' by done. done.
Qed.

(** The restarting loops, for a predicate [P] on the windows to keep;
    [body] is one of the loops, [first] the slot it resumes at after a
    removal. *)
Lemma window_close_by_class_loop_open cls :
  ∀ fuel w st,
  list_in_array st → keys_unique st →
  (RCT2_NEW_WINDOW st * S (RCT2_NEW_WINDOW st) + (RCT2_NEW_WINDOW st - w) + 1 ≤ fuel)%nat →
  (∀ k, (k < w)%nat → (k < RCT2_NEW_WINDOW st)%nat → w_classification (deref st k) ≠ cls) →
  ∃ st', window_close_by_class_loop fuel cls w st = Some st'
    ∧ list_in_array st' ∧ keys_unique st'
    ∧ open_windows st' = filter (λ win, w_classification win ≠ cls) (open_windows st).
Proof.
  induction fuel as [|fuel IH]; intros w st Hwf Hu Hfuel Hpre; [lia|]. simpl.
  case_decide as Hw.
  - pose proof (open_windows_lookup st w Hw Hwf) as Hlw.
    destruct (w_classification (deref st w) =? cls) eqn:Hc.
    + apply Z.eqb_eq in Hc.
      destruct (window_close_open Hinert st w) as (Hopen1 & _ & Hwf1 & Hu1); [lia|done|done|].
      pose proof (next_after_close Hinert st w ltac:(lia) Hwf Hu) as Hn1.
      destruct (IH 0%nat (window_close (Some w) st)) as (st' & Heq & Hwf' & Hu' & Hopen);
        [done|done|rewrite Hn1; nia|intros; lia|].
      exists st'. split_and!; [done|done|done|].
      rewrite Hopen, Hopen1.
      apply (filter_delete_rejected _ _ _ _ Hlw). by intros ?.
    + apply Z.eqb_neq in Hc.
      destruct (IH (S w) st) as (st' & Heq & Hwf' & Hu' & Hopen); [done|done|lia| |].
      { intros k Hk Hk'. destruct (decide (k = w)) as [->|]; [done|]. apply Hpre; lia. }
      by exists st'.
  - exists st. split_and!; try done. symmetry. apply filter_all.
    intros x Hx. apply list_elem_of_lookup in Hx as [k Hk].
    assert (k < RCT2_NEW_WINDOW st)%nat.
    { apply lookup_lt_Some in Hk. by rewrite length_open_windows in Hk. }
    rewrite open_windows_lookup in Hk by done. injection Hk as <-.
    apply Hpre; lia.
Qed.

Lemma window_close_by_class_loop_next cls :
  ∀ fuel w st st',
  is_Some (gWindowNextSlot st) →
  window_close_by_class_loop fuel cls w st = Some st' →
  is_Some (gWindowNextSlot st').
Proof.
  induction fuel as [|fuel IH]; intros w st st' Hs Heq; [done|]. simpl in Heq.
  case_decide.
  - destruct (w_classification (deref st w) =? cls).
    + eapply IH; [|exact Heq]. by apply window_close_next_slot.
    + by eapply IH.
  - by simplify_eq.
Qed.

Lemma window_close_by_number_loop_open cls number :
  ∀ fuel w st,
  list_in_array st → keys_unique st →
  (RCT2_NEW_WINDOW st * S (RCT2_NEW_WINDOW st) + (RCT2_NEW_WINDOW st - w) + 1 ≤ fuel)%nat →
  (∀ k, (k < w)%nat → (k < RCT2_NEW_WINDOW st)%nat → window_key (deref st k) ≠ (cls, number)) →
  ∃ st', window_close_by_number_loop fuel cls number w st = Some st'
    ∧ list_in_array st' ∧ keys_unique st'
    ∧ open_windows st' = filter (λ win, window_key win ≠ (cls, number)) (open_windows st).
Proof.
  induction fuel as [|fuel IH]; intros w st Hwf Hu Hfuel Hpre; [lia|]. simpl.
  case_decide as Hw.
  - pose proof (open_windows_lookup st w Hw Hwf) as Hlw.
    destruct ((w_classification (deref st w) =? cls) && (w_number (deref st w) =? number)) eqn:Hc.
    + apply andb_true_iff in Hc as [Hc1 Hc2]. apply Z.eqb_eq in Hc1, Hc2.
      destruct (window_close_open Hinert st w) as (Hopen1 & _ & Hwf1 & Hu1); [lia|done|done|].
      pose proof (next_after_close Hinert st w ltac:(lia) Hwf Hu) as Hn1.
      destruct (IH 0%nat (window_close (Some w) st)) as (st' & Heq & Hwf' & Hu' & Hopen);
        [done|done|rewrite Hn1; nia|intros; lia|].
      exists st'. split_and!; [done|done|done|].
      rewrite Hopen, Hopen1.
      apply (filter_delete_rejected _ _ _ _ Hlw). intros Hne. apply Hne.
      unfold window_key. by rewrite Hc1, Hc2.
    + destruct (IH (S w) st) as (st' & Heq & Hwf' & Hu' & Hopen); [done|done|lia| |].
      { intros k Hk Hk'. destruct (decide (k = w)) as [->|]; [|apply Hpre; lia].
        unfold window_key. intros Heq. injection Heq as Hc1 Hc2.
        rewrite Hc1, Hc2, !Z.eqb_refl in Hc. done. }
      by exists st'.
  - exists st. split_and!; try done. symmetry. apply filter_all.
    intros x Hx. apply list_elem_of_lookup in Hx as [k Hk].
    assert (k < RCT2_NEW_WINDOW st)%nat.
    { apply lookup_lt_Some in Hk. by rewrite length_open_windows in Hk. }
    rewrite open_windows_lookup in Hk by done. injection Hk as <-.
    apply Hpre; lia.
Qed.

End CloseExact.

Section CloseExceptClass.
Context `{E : Env}.
Hypothesis Hinert : close_handlers_inert.

(** After the first removal [window_close_all_except_class] resumes at
    the second slot, so the first slot is not looked at again. *)
Lemma window_close_all_except_class_loop_open cls :
  ∀ fuel w st,
  list_in_array st → keys_unique st → is_Some (gWindowNextSlot st) →
  (RCT2_NEW_WINDOW st * S (RCT2_NEW_WINDOW st) + (RCT2_NEW_WINDOW st - w) + 1 ≤ fuel)%nat →
  (1 ≤ w)%nat →
  (∀ k, (1 ≤ k < w)%nat → (k < RCT2_NEW_WINDOW st)%nat →
        w_classification (deref st k) = cls ∨ sticky (deref st k)) →
  ∃ st', window_close_all_except_class_loop fuel cls w st = Some st'
    ∧ open_windows st'
      = take 1 (open_windows st)
        ++ filter (λ win, w_classification win = cls ∨ sticky win) (drop 1 (open_windows st)).
Proof.
  induction fuel as [|fuel IH]; intros w st Hwf Hu [n0 Hnext] Hfuel Hw1 Hpre; [lia|]. simpl.
  rewrite Hnext.
  case_decide as Hw.
  - pose proof (open_windows_lookup st w Hw Hwf) as Hlw.
    destruct (negb (w_classification (deref st w) =? cls)
              && negb (test (w_flags (deref st w)) (Z.lor WF_STICK_TO_BACK WF_STICK_TO_FRONT)))
      eqn:Hc.
    + apply andb_true_iff in Hc as [Hc1 Hc2].
      apply negb_true_iff in Hc1, Hc2. apply Z.eqb_neq in Hc1.
      destruct (window_close_open Hinert st w) as (Hopen1 & _ & Hwf1 & Hu1); [lia|done|done|].
      pose proof (next_after_close Hinert st w ltac:(lia) Hwf Hu) as Hn1.
      destruct (IH 1%nat (window_close (Some w) st)) as (st' & Heq & Hopen);
        [done|done|by apply (window_close_next_slot Hinert); eexists|rewrite Hn1; nia|lia|intros; lia|].
      exists st'. split; [done|].
      rewrite Hopen, Hopen1.
      destruct (open_windows st) as [|a l] eqn:Hl; [done|].
      destruct w as [|w]; [lia|]. simpl. rewrite !drop_0. f_equal.
      apply (filter_delete_rejected _ _ w (deref st (S w))); [done|].
      rewrite sticky_test. intros [?|?]; congruence.
    + destruct (IH (S w) st) as (st' & Heq & Hopen); [done|done|by eexists|lia|lia| |].
      { intros k Hk Hk'. destruct (decide (k = w)) as [->|]; [|apply Hpre; lia].
        apply andb_false_iff in Hc as [Hc|Hc]; apply negb_false_iff in Hc.
        - left. by apply Z.eqb_eq.
        - right. by apply sticky_test. }
      by exists st'.
  - exists st. split; [done|].
    rewrite <- (take_drop 1 (open_windows st)) at 1. f_equal.
    symmetry. apply filter_all.
    intros x Hx. apply list_elem_of_lookup in Hx as [k Hk].
    rewrite lookup_drop in Hk.
    assert (1 + k < RCT2_NEW_WINDOW st)%nat.
    { apply lookup_lt_Some in Hk. by rewrite length_open_windows in Hk. }
    rewrite open_windows_lookup in Hk by done. injection Hk as <-.
    apply Hpre; lia.
Qed.

End CloseExceptClass.

(** ** Bulk closing and the stick-to-back and stick-to-front flags *)

(** The claim of C4 as stated fails on the code:
    [window_close_all_except_flags] spares only the flags it is given,
    so with [WF_NO_AUTO_CLOSE] (512) it closes the stick-to-back main
    window and the stick-to-front toolbar; and [window_close_all] first
    closes every dropdown-class window, here one flagged stick-to-front. *)
Lemma bulk_close_counterexample :
  open_windows st_bulk
  = [ plain_window 0 0 0 0 640 480 1; plain_window 9 1 100 80 200 150 0;
      plain_window 6 0 120 100 80 60 2; plain_window 1 0 0 0 640 28 2 ]
  ∧ sticky (E := default_env) (plain_window 0 0 0 0 640 480 1)
  ∧ sticky (E := default_env) (plain_window 6 0 120 100 80 60 2)
  ∧ open_windows <$> window_close_all_except_flags (E := default_env) 512 st_bulk = Some []
  ∧ open_windows <$> window_close_all (E := default_env) 30 st_bulk
    = Some [ plain_window 0 0 0 0 640 480 1; plain_window 1 0 0 0 640 28 2 ].
Proof.
  split_and!; [by vm_compute | by left | by right | by vm_compute | by vm_compute].
Qed.

(** C4, amended: on an initialised window list ([gWindowNextSlot] not
    null), with close handlers that leave the window list alone and
    unique window keys, [window_close_all],
    [window_close_all_except_class] and [window_close_top] return, keep
    every open window flagged stick-to-back or stick-to-front whose
    class is not the dropdown class, and leave no window of the dropdown
    class open, whatever its flags.  [window_close_all_except_flags]
    returns and leaves open exactly the windows that have one of the
    given [flags], in their order: an open window stays if and only if
    it has one of these flags, so the stick-to-back and stick-to-front
    windows all stay when both bits are given. *)
Theorem bulk_close_spares_sticky `{E : Env} (st : ui_state) (fuel : nat) (cls flags : Z) :
  close_handlers_inert → list_in_array st → keys_unique st →
  is_Some (gWindowNextSlot st) →
  (S (RCT2_NEW_WINDOW st) * S (RCT2_NEW_WINDOW st) ≤ fuel)%nat →
  let protected := λ win, sticky win ∧ w_classification win ≠ WC_DROPDOWN in
  let no_dropdown := Forall (λ win, w_classification win ≠ WC_DROPDOWN) in
  (∃ st', window_close_all fuel st = Some st'
     ∧ spared protected st st' ∧ no_dropdown (open_windows st'))
  ∧ (∃ st', window_close_all_except_class fuel cls st = Some st'
       ∧ spared protected st st' ∧ no_dropdown (open_windows st'))
  ∧ (∃ st', window_close_top fuel st = Some st'
       ∧ spared protected st st' ∧ no_dropdown (open_windows st'))
  ∧ (∃ st', window_close_all_except_flags flags st = Some st'
       ∧ open_windows st'
         = filter (λ win, test (w_flags win) flags = true) (open_windows st)
       ∧ ∀ win, win ∈ open_windows st →
           (win ∈ open_windows st' ↔ test (w_flags win) flags = true))
  ∧ (∃ st', window_close_all_except_flags (Z.lor WF_STICK_TO_BACK WF_STICK_TO_FRONT) st
            = Some st'
       ∧ spared sticky st st').
Proof.
  intros Hinert Hwf Hu Hsome Hfuel protected no_dropdown.
  subst protected no_dropdown.
  destruct (window_close_by_class_loop_open Hinert WC_DROPDOWN fuel 0 st Hwf Hu)
    as (st0 & Hst0 & Hwf0 & Hu0 & Hopen0); [nia|intros; lia|].
  destruct (window_close_by_class_loop_next Hinert _ _ _ _ _ Hsome Hst0) as [n0 Hnext0].
  assert (Hn0 : (RCT2_NEW_WINDOW st0 ≤ RCT2_NEW_WINDOW st)%nat).
  { rewrite <- (length_open_windows st0), <- (length_open_windows st) by done.
    rewrite Hopen0. apply length_filter. }
  assert (Hsp0 : spared (λ win, sticky win ∧ w_classification win ≠ WC_DROPDOWN) st st0).
  { intros win Hin [_ Hc]. rewrite Hopen0. by apply list_elem_of_filter. }
  assert (Hnd0 : Forall (λ win, w_classification win ≠ WC_DROPDOWN) (open_windows st0)).
  { apply Forall_forall. intros win Hin. rewrite Hopen0 in Hin.
    by apply list_elem_of_filter in Hin as [? _]. }
  assert (Hsub : ∀ l, l ⊆ open_windows st0 →
                      Forall (λ win, w_classification win ≠ WC_DROPDOWN) l).
  { intros l Hl. apply Forall_forall. intros win Hin.
    rewrite Forall_forall in Hnd0. apply Hnd0. by apply Hl. }
  destruct Hsome as [n Hnext].
  assert (Hflags : ∀ fl, ∃ st',
            window_close_all_except_flags fl st = Some st'
            ∧ open_windows st'
              = filter (λ win, test (w_flags win) fl = true) (open_windows st)).
  { intros fl. unfold window_close_all_except_flags. rewrite Hnext.
    eexists. split; [done|].
    destruct (close_down_loop_open Hinert (λ w, test (w_flags w) fl)
                (RCT2_NEW_WINDOW st) st) as (_ & _ & Hopen); [lia|done|done|].
    rewrite Hopen, <- (length_open_windows st) by done.
    by rewrite firstn_all, drop_all, app_nil_r. }
  split_and!.
  - unfold window_close_all, window_close_by_class. rewrite Hnext, Hst0. simpl.
    eexists. split; [done|].
    destruct (close_down_loop_open Hinert
                (λ w, test (w_flags w) (Z.lor WF_STICK_TO_BACK WF_STICK_TO_FRONT))
                (RCT2_NEW_WINDOW st0) st0) as (_ & _ & Hopen); [lia|done|done|].
    rewrite take_ge, drop_ge, app_nil_r in Hopen
      by (rewrite length_open_windows by done; lia).
    split.
    + intros win Hin Hp. rewrite Hopen. apply list_elem_of_filter. split.
      * apply sticky_test. by destruct Hp.
      * by apply Hsp0.
    + apply Hsub. rewrite Hopen. apply list_subseteq_filter.
  - unfold window_close_all_except_class, window_close_by_class. rewrite Hst0. simpl.
    destruct (window_close_all_except_class_loop_spared Hinert cls fuel 0 st0 Hwf0 Hu0)
      as (st' & Hst' & _ & _ & Hsp & Hsl & _); [by eexists|nia|].
    exists st'. split_and!; [done| |].
    + eapply spared_trans; [exact Hsp0|].
      eapply spared_weaken; [|exact Hsp]. intros win [Hs _]. by right.
    + apply Hsub. by apply sublist_subseteq.
  - unfold window_close_top, window_close_by_class. rewrite Hst0. simpl.
    destruct (_ && _).
    + by exists st0.
    + rewrite Hnext0. destruct (scan_down _ _ _) as [w|] eqn:Hscan.
      * eexists. split; [done|].
        apply scan_down_Some in Hscan as (Hw & Hfl & _).
        split.
        -- eapply spared_trans; [exact Hsp0|].
           apply window_close_spared; [done|done|done|done|].
           intros [Hs _]. apply sticky_test in Hs. unfold deref in Hs.
           rewrite Hs in Hfl. done.
        -- apply Hsub.
           destruct (window_close_open Hinert st0 w Hw Hwf0 Hu0) as (-> & _).
           apply list_subseteq_delete.
      * by exists st0.
  - destruct (Hflags flags) as (st' & Hst' & Hopen).
    exists st'. split_and!; [done|done|].
    intros win Hin. rewrite Hopen, list_elem_of_filter. tauto.
  - destruct (Hflags (Z.lor WF_STICK_TO_BACK WF_STICK_TO_FRONT)) as (st' & Hst' & Hopen).
    exists st'. split; [done|].
    intros win Hin Hs. rewrite Hopen. apply list_elem_of_filter.
    split; [by apply sticky_test | done].
Qed.

Lemma bulk_close_spares_sticky_witness :
  (∃ st', window_close_all (E := default_env) 30 st_bulk = Some st'
     ∧ plain_window 0 0 0 0 640 480 1 ∈ open_windows st'
     ∧ plain_window 1 0 0 0 640 28 2 ∈ open_windows st')
  ∧ (∃ st', window_close_all_except_flags (E := default_env) 3 st_bulk = Some st'
       ∧ open_windows st'
         = [ plain_window 0 0 0 0 640 480 1; plain_window 6 0 120 100 80 60 2;
             plain_window 1 0 0 0 640 28 2 ]).
Proof.
  assert (Hinert : close_handlers_inert (E := default_env)).
  { intros h f Hf. discriminate Hf. }
  assert (Hwf : list_in_array st_bulk) by (vm_compute; lia).
  assert (Hu : keys_unique st_bulk).
  { unfold keys_unique. apply (bool_decide_unpack _). by vm_compute. }
  assert (Hsome : is_Some (gWindowNextSlot st_bulk)) by (by eexists).
  assert (Hfuel : (S (RCT2_NEW_WINDOW st_bulk) * S (RCT2_NEW_WINDOW st_bulk) ≤ 30)%nat)
    by (vm_compute; lia).
  destruct (bulk_close_spares_sticky (E := default_env) st_bulk 30 0 3
              Hinert Hwf Hu Hsome Hfuel)
    as ((st' & Hst' & Hsp & _) & _ & _ & (st2 & Hst2 & Hopen2 & _) & _).
  assert (Hmain : plain_window 0 0 0 0 640 480 1 ∈ open_windows st_bulk)
    by (apply list_elem_of_lookup; by exists 0%nat).
  assert (Htool : plain_window 1 0 0 0 640 28 2 ∈ open_windows st_bulk)
    by (apply list_elem_of_lookup; by exists 3%nat).
  split.
  - exists st'. split; [exact Hst'|]. split.
    + apply Hsp; [exact Hmain|]. split; [by left | discriminate].
    + apply Hsp; [exact Htool|]. split; [by right | discriminate].
  - exists st2. split; [exact Hst2|]. rewrite Hopen2. reflexivity.
Defined.

(** [window_close_by_class] and [window_close_by_number], with close
    handlers that leave the window list alone and unique window keys:
    the call returns, and the windows left open are those of another
    class (of another class or number), in their order. *)
Theorem window_close_by_class_open `{E : Env} (st : ui_state) (fuel : nat) (cls number : Z) :
  close_handlers_inert → list_in_array st → keys_unique st →
  (S (RCT2_NEW_WINDOW st) * S (RCT2_NEW_WINDOW st) ≤ fuel)%nat →
  (∃ st', window_close_by_class fuel cls st = Some st'
     ∧ open_windows st'
       = filter (λ win, w_classification win ≠ cls) (open_windows st))
  ∧ (∃ st', window_close_by_number fuel cls number st = Some st'
       ∧ open_windows st'
         = filter (λ win, window_key win ≠ (cls, number)) (open_windows st)).
Proof.
  intros Hinert Hwf Hu Hfuel. split.
  - destruct (window_close_by_class_loop_open Hinert cls fuel 0 st Hwf Hu)
      as (st' & Heq & _ & _ & Hopen); [nia|intros; lia|].
    by exists st'.
  - destruct (window_close_by_number_loop_open Hinert cls number fuel 0 st Hwf Hu)
      as (st' & Heq & _ & _ & Hopen); [nia|intros; lia|].
    by exists st'.
Qed.

Lemma window_close_by_class_open_witness :
  (∃ st', window_close_by_class (E := default_env) 30 6 st_bulk = Some st'
     ∧ open_windows st'
       = [ plain_window 0 0 0 0 640 480 1; plain_window 9 1 100 80 200 150 0;
           plain_window 1 0 0 0 640 28 2 ])
  ∧ (∃ st', window_close_by_number (E := default_env) 30 9 1 st_bulk = Some st'
       ∧ open_windows st'
         = [ plain_window 0 0 0 0 640 480 1; plain_window 6 0 120 100 80 60 2;
             plain_window 1 0 0 0 640 28 2 ]).
Proof.
  assert (Hinert : close_handlers_inert (E := default_env)).
  { intros h f Hf. discriminate Hf. }
  assert (Hwf : list_in_array st_bulk) by (vm_compute; lia).
  assert (Hu : keys_unique st_bulk).
  { unfold keys_unique. apply (bool_decide_unpack _). by vm_compute. }
  assert (Hfuel : (S (RCT2_NEW_WINDOW st_bulk) * S (RCT2_NEW_WINDOW st_bulk) ≤ 30)%nat)
    by (vm_compute; lia).
  destruct (window_close_by_class_open (E := default_env) st_bulk 30 6 1 Hinert Hwf Hu Hfuel)
    as [(st1 & Heq1 & Hopen1) _].
  destruct (window_close_by_class_open (E := default_env) st_bulk 30 9 1 Hinert Hwf Hu Hfuel)
    as [_ (st2 & Heq2 & Hopen2)].
  split.
  - exists st1. split; [exact Heq1|]. rewrite Hopen1. reflexivity.
  - exists st2. split; [exact Heq2|]. rewrite Hopen2. reflexivity.
Defined.

(** [window_close_all] and [window_close_all_except_flags], with close
    handlers that leave the window list alone and unique window keys:
    [window_close_all] returns and leaves open the stick-to-back and
    stick-to-front windows that are not of the dropdown class; on an
    initialised list ([gWindowNextSlot] not null)
    [window_close_all_except_flags] returns and leaves open the windows
    that have one of the given flags; the order is kept.  While
    [gWindowNextSlot] is null [window_close_all] returns at once, and
    [window_close_all_except_flags], which lacks the null test, has no
    defined result. *)
Theorem window_close_all_open `{E : Env} (st : ui_state) (fuel : nat) (flags : Z) :
  close_handlers_inert → list_in_array st → keys_unique st →
  (S (RCT2_NEW_WINDOW st) * S (RCT2_NEW_WINDOW st) ≤ fuel)%nat →
  (∃ st', window_close_all fuel st = Some st'
     ∧ open_windows st'
       = filter (λ win, sticky win)
           (filter (λ win, w_classification win ≠ WC_DROPDOWN) (open_windows st)))
  ∧ (is_Some (gWindowNextSlot st) →
     ∃ st', window_close_all_except_flags flags st = Some st'
       ∧ open_windows st'
         = filter (λ win, test (w_flags win) flags = true) (open_windows st))
  ∧ (gWindowNextSlot st = None →
     window_close_all fuel st = Some st
     ∧ window_close_all_except_flags flags st = None).
Proof.
  intros Hinert Hwf Hu Hfuel. split_and!.
  - unfold window_close_all. destruct (gWindowNextSlot st) as [n|] eqn:Hn.
    + destruct (window_close_by_class_loop_open Hinert WC_DROPDOWN fuel 0 st Hwf Hu)
        as (st0 & Heq & Hwf0 & Hu0 & Hopen0); [nia|intros; lia|].
      unfold window_close_by_class. rewrite Heq. simpl.
      eexists. split; [done|].
      destruct (close_down_loop_open Hinert
                  (λ w, test (w_flags w) (Z.lor WF_STICK_TO_BACK WF_STICK_TO_FRONT))
                  (RCT2_NEW_WINDOW st0) st0) as (_ & _ & Hopen); [lia|done|done|].
      rewrite Hopen, <- Hopen0.
      rewrite <- (length_open_windows st0) by done.
      rewrite firstn_all, drop_all, app_nil_r.
      apply list_filter_iff. intros win. symmetry. apply sticky_test.
    + exists st. split; [done|].
      unfold open_windows, RCT2_NEW_WINDOW. rewrite Hn. done.
  - intros [n Hn]. unfold window_close_all_except_flags. rewrite Hn.
    eexists. split; [done|].
    destruct (close_down_loop_open Hinert (λ w, test (w_flags w) flags)
                (RCT2_NEW_WINDOW st) st) as (_ & _ & Hopen); [lia|done|done|].
    rewrite Hopen.
    rewrite <- (length_open_windows st) by done.
    by rewrite firstn_all, drop_all, app_nil_r.
  - intros Hn. unfold window_close_all, window_close_all_except_flags. by rewrite Hn.
Qed.

Lemma window_close_all_open_witness :
  (∃ st', window_close_all (E := default_env) 30 st_bulk = Some st'
     ∧ open_windows st'
       = [ plain_window 0 0 0 0 640 480 1; plain_window 1 0 0 0 640 28 2 ])
  ∧ (∃ st', window_close_all_except_flags (E := default_env) 2 st_bulk = Some st'
       ∧ open_windows st'
         = [ plain_window 6 0 120 100 80 60 2; plain_window 1 0 0 0 640 28 2 ]).
Proof.
  assert (Hinert : close_handlers_inert (E := default_env)).
  { intros h f Hf. discriminate Hf. }
  assert (Hwf : list_in_array st_bulk) by (vm_compute; lia).
  assert (Hu : keys_unique st_bulk).
  { unfold keys_unique. apply (bool_decide_unpack _). by vm_compute. }
  assert (Hfuel : (S (RCT2_NEW_WINDOW st_bulk) * S (RCT2_NEW_WINDOW st_bulk) ≤ 30)%nat)
    by (vm_compute; lia).
  destruct (window_close_all_open (E := default_env) st_bulk 30 2 Hinert Hwf Hu Hfuel)
    as ((st1 & Heq1 & Hopen1) & Hflags & _).
  destruct Hflags as (st2 & Heq2 & Hopen2); [by eexists|].
  split.
  - exists st1. split; [exact Heq1|]. rewrite Hopen1. reflexivity.
  - exists st2. split; [exact Heq2|]. rewrite Hopen2. reflexivity.
Defined.

(** [window_close_all_except_class], with close handlers that leave the
    window list alone and unique window keys, returns on an initialised
    list ([gWindowNextSlot] not null).  Of the windows
    left after the dropdown-class windows are closed, it keeps those of
    the class [cls] and the stick-to-back and stick-to-front ones when
    the first of them is such a window; when the first one is not, it is
    closed and the scan resumes at the second slot, so the window that
    follows it is kept whatever its class and flags.  While
    [gWindowNextSlot] is null the call has no defined result: its loop
    is bounded by [nullptr - 1]. *)
Theorem window_close_all_except_class_open `{E : Env} (st : ui_state) (fuel : nat) (cls : Z) :
  close_handlers_inert → list_in_array st → keys_unique st →
  (S (S (RCT2_NEW_WINDOW st)) * S (S (RCT2_NEW_WINDOW st)) ≤ fuel)%nat →
  let keep := λ win, w_classification win = cls ∨ sticky win in
  (is_Some (gWindowNextSlot st) →
   ∃ st', window_close_all_except_class fuel cls st = Some st'
     ∧ open_windows st'
       = match filter (λ win, w_classification win ≠ WC_DROPDOWN) (open_windows st) with
         | [] => []
         | first :: rest =>
             if decide (keep first) then first :: filter keep rest
             else take 1 rest ++ filter keep (drop 1 rest)
         end)
  ∧ (gWindowNextSlot st = None → window_close_all_except_class fuel cls st = None).
Proof.
  intros Hinert Hwf Hu Hfuel keep. split.
  2: { intros Hnone. unfold window_close_all_except_class, window_close_by_class.
       destruct fuel as [|fuel]; [done|]. simpl.
       unfold RCT2_NEW_WINDOW. rewrite Hnone. simpl. by rewrite Hnone. }
  intros Hsome.
  destruct (window_close_by_class_loop_open Hinert WC_DROPDOWN fuel 0 st Hwf Hu)
    as (st0 & Heq & Hwf0 & Hu0 & Hopen0); [nia|intros; lia|].
  pose proof (window_close_by_class_loop_next Hinert _ _ _ _ _ Hsome Heq) as Hsome0.
  unfold window_close_all_except_class, window_close_by_class. rewrite Heq. simpl.
  rewrite <- Hopen0.
  assert (Hn0 : (RCT2_NEW_WINDOW st0 ≤ RCT2_NEW_WINDOW st)%nat).
  { rewrite <- (length_open_windows st0), <- (length_open_windows st) by done.
    rewrite Hopen0. apply length_filter. }
  destruct fuel as [|fuel]; [lia|]. simpl.
  destruct Hsome0 as [n0 Hnext0]. rewrite Hnext0.
  case_decide as Hw.
  - pose proof (open_windows_lookup st0 0 Hw Hwf0) as Hl0.
    destruct (open_windows st0) as [|first rest] eqn:Hl; [done|].
    injection Hl0 as Hfirst.
    destruct (negb (w_classification (deref st0 0) =? cls)
              && negb (test (w_flags (deref st0 0)) (Z.lor WF_STICK_TO_BACK WF_STICK_TO_FRONT)))
      eqn:Hc.
    + apply andb_true_iff in Hc as [Hc1 Hc2].
      apply negb_true_iff in Hc1, Hc2. apply Z.eqb_neq in Hc1.
      destruct (window_close_open Hinert st0 0) as (Hopen1 & _ & Hwf1 & Hu1); [lia|done|done|].
      pose proof (next_after_close Hinert st0 0 ltac:(lia) Hwf0 Hu0) as Hn1.
      destruct (window_close_all_except_class_loop_open Hinert cls fuel 1
                  (window_close (Some 0%nat) st0)) as (st' & Heq' & Hopen);
        [done|done|by apply (window_close_next_slot Hinert); eexists
        |rewrite Hn1; nia|lia|intros; lia|].
      exists st'. split; [done|].
      rewrite Hopen, Hopen1, Hl. simpl.
      rewrite decide_False; [done|].
      subst first. unfold keep. rewrite sticky_test. intros [?|?]; congruence.
    + destruct (window_close_all_except_class_loop_open Hinert cls fuel 1 st0)
        as (st' & Heq' & Hopen); [done|done|by eexists|nia|lia|intros; lia|].
      exists st'. split; [done|].
      rewrite Hopen, Hl. simpl. rewrite drop_0.
      rewrite decide_True; [done|].
      subst first. unfold keep.
      apply andb_false_iff in Hc as [Hc|Hc]; apply negb_false_iff in Hc.
      * left. by apply Z.eqb_eq.
      * right. by apply sticky_test.
  - exists st0. split; [done|].
    assert (Hlen : length (open_windows st0) = 0%nat).
    { rewrite length_open_windows by done. lia. }
    by destruct (open_windows st0).
Qed.

Lemma window_close_all_except_class_open_witness :
  (∃ st', window_close_all_except_class (E := default_env) 40 14 st_bulk = Some st'
     ∧ open_windows st'
       = [ plain_window 0 0 0 0 640 480 1; plain_window 1 0 0 0 640 28 2 ])
  ∧ (∃ st', window_close_all_except_class (E := default_env) 40 0 st_pair = Some st'
       ∧ open_windows st' = [ plain_window 14 0 300 200 120 90 0 ]).
Proof.
  assert (Hinert : close_handlers_inert (E := default_env)).
  { intros h f Hf. discriminate Hf. }
  assert (Hwf : list_in_array st_bulk) by (vm_compute; lia).
  assert (Hu : keys_unique st_bulk).
  { unfold keys_unique. apply (bool_decide_unpack _). by vm_compute. }
  assert (Hwf' : list_in_array st_pair) by (vm_compute; lia).
  assert (Hu' : keys_unique st_pair).
  { unfold keys_unique. apply (bool_decide_unpack _). by vm_compute. }
  destruct (window_close_all_except_class_open (E := default_env) st_bulk 40 14 Hinert Hwf Hu)
    as [H1 _]; [vm_compute; lia|].
  destruct H1 as (st1 & Heq1 & Hopen1); [by eexists|].
  destruct (window_close_all_except_class_open (E := default_env) st_pair 40 0 Hinert Hwf' Hu')
    as [H2 _]; [vm_compute; lia|].
  destruct H2 as (st2 & Heq2 & Hopen2); [by eexists|].
  split.
  - exists st1. split; [exact Heq1|]. rewrite Hopen1. reflexivity.
  - exists st2. split; [exact Heq2|]. rewrite Hopen2. reflexivity.
Defined.

(** [window_close_top], with close handlers that leave the window list
    alone and unique window keys, returns on an initialised list
    ([gWindowNextSlot] not null).  It first closes the
    dropdown-class windows; in the scenario editor outside the landscape
    step it stops there.  Otherwise it closes the front-most window that
    is neither stick-to-back nor stick-to-front, and no window when
    there is none.  While [gWindowNextSlot] is null the call returns,
    with the state unchanged, only in the scenario editor outside the
    landscape step; otherwise it has no defined result, its scan starting
    at [nullptr - 1]. *)
Theorem window_close_top_open `{E : Env} (st : ui_state) (fuel : nat) :
  close_handlers_inert → list_in_array st → keys_unique st →
  (S (RCT2_NEW_WINDOW st) * S (RCT2_NEW_WINDOW st) ≤ fuel)%nat →
  (gWindowNextSlot st = None →
   window_close_top fuel st
   = if test (gScreenFlags st) SCREEN_FLAGS_SCENARIO_EDITOR
        && negb (gS6Info_editor_step st =? EDITOR_STEP_LANDSCAPE_EDITOR)
     then Some st else None)
  ∧ (is_Some (gWindowNextSlot st) →
     ∃ st0 st',
       window_close_by_class fuel WC_DROPDOWN st = Some st0
       ∧ window_close_top fuel st = Some st'
       ∧ open_windows st0
         = filter (λ win, w_classification win ≠ WC_DROPDOWN) (open_windows st)
       ∧ (test (gScreenFlags st0) SCREEN_FLAGS_SCENARIO_EDITOR = true →
          gS6Info_editor_step st0 ≠ EDITOR_STEP_LANDSCAPE_EDITOR →
          st' = st0)
       ∧ (test (gScreenFlags st0) SCREEN_FLAGS_SCENARIO_EDITOR = false
          ∨ gS6Info_editor_step st0 = EDITOR_STEP_LANDSCAPE_EDITOR →
          (Forall sticky (open_windows st0) → st' = st0)
          ∧ ∀ j win,
              open_windows st0 !! j = Some win → ¬ sticky win →
              (∀ k win', (j < k)%nat → open_windows st0 !! k = Some win' → sticky win') →
              open_windows st' = delete j (open_windows st0))).
Proof.
  intros Hinert Hwf Hu Hfuel. split.
  { intros Hnone. unfold window_close_top, window_close_by_class.
    destruct fuel as [|fuel]; [simpl in Hfuel; lia|]. simpl.
    unfold RCT2_NEW_WINDOW. rewrite Hnone. simpl. by rewrite Hnone. }
  intros Hsome.
  destruct (window_close_by_class_loop_open Hinert WC_DROPDOWN fuel 0 st Hwf Hu)
    as (st0 & Heq & Hwf0 & Hu0 & Hopen0); [nia|intros; lia|].
  destruct (window_close_by_class_loop_next Hinert _ _ _ _ _ Hsome Heq) as [n0 Hnext0].
  unfold window_close_top, window_close_by_class. rewrite Heq. simpl. rewrite Hnext0.
  exists st0.
  destruct (test (gScreenFlags st0) SCREEN_FLAGS_SCENARIO_EDITOR) eqn:Hed;
    [destruct (gS6Info_editor_step st0 =? EDITOR_STEP_LANDSCAPE_EDITOR) eqn:Hstep|]; simpl.
  2: { apply Z.eqb_neq in Hstep. exists st0. split_and!; try done.
       intros [?|?]; done. }
  all: destruct (scan_down _ (g_window_list st0) (RCT2_NEW_WINDOW st0)) as [i|] eqn:Hscan.
  all: eexists; split_and!; [done|done|done| |].
  all: try (intros _ Hne; apply Z.eqb_eq in Hstep; done).
  all: try (intros ? ?; done).
  all: intros _.
  all: try (apply scan_down_Some in Hscan as (Hi & HP & Hafter);
            apply negb_true_iff in HP; fold (deref st0 i) in HP;
            pose proof (open_windows_lookup st0 i Hi Hwf0) as Hli;
            split;
            [ intros Hall; exfalso;
              rewrite Forall_lookup in Hall; specialize (Hall i _ Hli);
              apply sticky_test in Hall; congruence
            | intros j win Hj Hns Hrest;
              assert (Hjn : (j < RCT2_NEW_WINDOW st0)%nat)
                by (apply lookup_lt_Some in Hj; by rewrite length_open_windows in Hj);
              assert (j = i);
              [ destruct (lt_eq_lt_dec j i) as [[Hlt|Heq']|Hgt]; [|done|];
                [ exfalso; specialize (Hrest i _ Hlt Hli);
                  apply sticky_test in Hrest; congruence
                | exfalso; specialize (Hafter j ltac:(lia));
                  apply negb_false_iff in Hafter; fold (deref st0 j) in Hafter;
                  rewrite open_windows_lookup in Hj by done; injection Hj as <-;
                  apply Hns; by apply sticky_test ]
              | subst j;
                by destruct (window_close_open Hinert st0 i Hi Hwf0 Hu0) as (-> & _) ] ]).
  all: rewrite scan_down_None in Hscan; split; [done|].
  all: intros j win Hj Hns _; exfalso.
  all: assert (Hjn : (j < RCT2_NEW_WINDOW st0)%nat)
         by (apply lookup_lt_Some in Hj; by rewrite length_open_windows in Hj).
  all: specialize (Hscan j Hjn); apply negb_false_iff in Hscan; fold (deref st0 j) in Hscan.
  all: rewrite open_windows_lookup in Hj by done; injection Hj as <-.
  all: apply Hns; by apply sticky_test.
Qed.

Lemma window_close_top_open_witness :
  ∃ st', window_close_top (E := default_env) 30 st_bulk = Some st'
    ∧ open_windows st'
      = [ plain_window 0 0 0 0 640 480 1; plain_window 1 0 0 0 640 28 2 ].
Proof.
  assert (Hinert : close_handlers_inert (E := default_env)).
  { intros h f Hf. discriminate Hf. }
  assert (Hwf : list_in_array st_bulk) by (vm_compute; lia).
  assert (Hu : keys_unique st_bulk).
  { unfold keys_unique. apply (bool_decide_unpack _). by vm_compute. }
  destruct (window_close_top_open (E := default_env) st_bulk 30 Hinert Hwf Hu)
    as [_ Hsome]; [vm_compute; lia|].
  destruct Hsome as (st0 & st' & Heq0 & Heq & Hopen0 & _ & Hclose); [by eexists|].
  exists st'. split; [exact Heq|].
  vm_compute in Heq0. injection Heq0 as <-.
  destruct Hclose as [_ Hclose]; [by left|].
  rewrite (Hclose 1%nat (plain_window 9 1 100 80 200 150 0)); [reflexivity|reflexivity| |].
  - intros [H|H]; discriminate H.
  - intros k win' Hk Hwin. destruct k as [|[|[|k]]]; [lia|lia| |discriminate Hwin].
    injection Hwin as <-. by right.
Defined.

(** ** Hit testing on the window list *)

Section FindFromPoint.
Context `{E : Env} `{Sc : Screen}.

Lemma window_contains_test x y win :
  (x <? w_x win) || (w_x win + w_width win <=? x)
  || (y <? w_y win) || (w_y win + w_height win <=? y) = false
  ↔ window_contains x y win.
Proof.
  unfold window_contains. rewrite !orb_false_iff.
  rewrite !Z.ltb_ge, !Z.leb_gt. lia.
Qed.

Lemma window_contains_layout x y st st' j :
  layout st' = layout st →
  (window_contains x y (deref st' j) ↔ window_contains x y (deref st j))
  ∧ w_flags (deref st' j) = w_flags (deref st j).
Proof.
  intros Hl.
  destruct (geometry_fields _ _ (layout_deref st st' j Hl)) as (Hx & Hy & Hw & Hh & Hf).
  unfold window_contains. rewrite Hx, Hy, Hw, Hh. done.
Qed.

(** What the scan from slot [k] down returns, when it returns. *)
Lemma window_find_from_point_loop_front x y k :
  paint_handlers_keep_layout →
  ∀ st st' r,
  window_find_from_point_loop k x y st = Some (st', r) →
  layout st' = layout st
  ∧ match r with
    | Some w =>
        (w < k)%nat ∧ window_contains x y (deref st w)
        ∧ ∀ j, (w < j < k)%nat → window_contains x y (deref st j) →
               test (w_flags (deref st j)) WF_NO_BACKGROUND = true
    | None =>
        ∀ j, (j < k)%nat → window_contains x y (deref st j) →
             test (w_flags (deref st j)) WF_NO_BACKGROUND = true
    end.
Proof.
  intros Hk. induction k as [|w IH]; intros st st' r Hres; simpl in Hres.
  - simplify_eq. split; [done|]. intros j ?. lia.
  - destruct (_ || _) eqn:Hc.
    + destruct (IH _ _ _ Hres) as [Hl Hr]. split; [done|].
      assert (Hw : ¬ window_contains x y (deref st w)).
      { intros Hin. apply window_contains_test in Hin. congruence. }
      destruct r as [w'|].
      * destruct Hr as (? & ? & Hr). split_and!; [lia|done|].
        intros j Hj Hin. destruct (decide (j = w)) as [->|]; [done|]. apply Hr; [lia|done].
      * intros j Hj Hin. destruct (decide (j = w)) as [->|]; [done|]. apply Hr; [lia|done].
    + apply window_contains_test in Hc.
      destruct (test (w_flags (deref st w)) WF_NO_BACKGROUND) eqn:Hnb.
      * unfold window_find_widget_from_point in Hres. cbv zeta in Hres. simpl in Hres.
        pose proof (layout_window_event_invalidate_call w st Hk) as Hl1.
        set (st1 := window_event_invalidate_call w st) in *.
        destruct (widget_scan _ _ _ _ _ _ _) as [wi|]; [|done]. simpl in Hres.
        assert (Hres' : ∃ wi', (if wi' =? -1 then window_find_from_point_loop w x y st1
                                else Some (st1, Some w)) = Some (st', r)).
        { destruct (_ && _) in Hres; simpl in Hres; eauto. }
        clear Hres. destruct Hres' as [wi' Hres].
        destruct (wi' =? -1).
        -- destruct (IH _ _ _ Hres) as [Hl Hr]. split; [congruence|].
           destruct r as [w'|].
           ++ destruct Hr as (? & Hin & Hr). split_and!; [lia| |].
              ** by apply (window_contains_layout x y st st1 w' Hl1).
              ** intros j Hj Hinj. destruct (decide (j = w)) as [->|]; [done|].
                 destruct (window_contains_layout x y st st1 j Hl1) as [Hiff Hf].
                 rewrite <- Hf. apply Hr; [lia|]. by apply Hiff.
           ++ intros j Hj Hinj. destruct (decide (j = w)) as [->|]; [done|].
              destruct (window_contains_layout x y st st1 j Hl1) as [Hiff Hf].
              rewrite <- Hf. apply Hr; [lia|]. by apply Hiff.
        -- injection Hres as <- <-. split; [done|]. split_and!; [lia|done|]. intros j ?. lia.
      * simplify_eq. split; [done|]. split_and!; [lia|done|]. intros j ?. lia.
Qed.

(** Without windows lacking a background at the point, the scan returns
    and calls no handler. *)
Lemma window_find_from_point_loop_plain x y k :
  ∀ st,
  (∀ j, (j < k)%nat → window_contains x y (deref st j) →
        test (w_flags (deref st j)) WF_NO_BACKGROUND = false) →
  ∃ r, window_find_from_point_loop k x y st = Some (st, r).
Proof.
  induction k as [|w IH]; intros st Hplain; simpl; [by eexists|].
  destruct (_ || _) eqn:Hc.
  - apply IH. intros j Hj. apply Hplain. lia.
  - apply window_contains_test in Hc. rewrite (Hplain w) by (done || lia). by eexists.
Qed.

End FindFromPoint.

(** [window_find_from_point], with invalidate handlers that do not move,
    resize or reflag windows: when it returns a window, the point lies
    on it and every window in front of it with the point on it is one
    without background; when it returns null, every open window with the
    point on it is one without background.  If no open window at the
    point lacks a background, the call on an initialised list
    ([gWindowNextSlot] not null) returns and leaves the state as it is.
    While [gWindowNextSlot] is null the call has no defined result: the
    scan starts one slot before it. *)
Theorem window_find_from_point_front `{E : Env} `{Sc : Screen} (x y : Z) (st : ui_state) :
  paint_handlers_keep_layout →
  (∀ st' r,
     window_find_from_point x y st = Some (st', r) →
     match r with
     | Some w =>
         (w < RCT2_NEW_WINDOW st)%nat ∧ window_contains x y (deref st w)
         ∧ ∀ j, (w < j < RCT2_NEW_WINDOW st)%nat → window_contains x y (deref st j) →
                test (w_flags (deref st j)) WF_NO_BACKGROUND = true
     | None =>
         ∀ j, (j < RCT2_NEW_WINDOW st)%nat → window_contains x y (deref st j) →
              test (w_flags (deref st j)) WF_NO_BACKGROUND = true
     end)
  ∧ (is_Some (gWindowNextSlot st) →
     (∀ j, (j < RCT2_NEW_WINDOW st)%nat → window_contains x y (deref st j) →
           test (w_flags (deref st j)) WF_NO_BACKGROUND = false) →
     ∃ r, window_find_from_point x y st = Some (st, r))
  ∧ (gWindowNextSlot st = None → window_find_from_point x y st = None).
Proof.
  intros Hk. unfold window_find_from_point. split_and!.
  - intros st' r Hres. destruct (gWindowNextSlot st); [|done].
    by destruct (window_find_from_point_loop_front x y _ Hk _ _ _ Hres).
  - intros [n Hn] Hplain. rewrite Hn. by apply window_find_from_point_loop_plain.
  - by intros ->.
Qed.

Lemma window_find_from_point_front_witness :
  window_find_from_point (E := default_env) (Sc := default_screen) 310 210 st_z_order
  = Some (st_z_order, Some 2%nat)
  ∧ window_find_from_point (E := default_env) (Sc := default_screen) 310 210 st_overlay
    = Some (st_overlay, Some 1%nat).
Proof.
  assert (Hk : paint_handlers_keep_layout (E := default_env)).
  { split; intros h f Hf; discriminate. }
  destruct (window_find_from_point_front (E := default_env) (Sc := default_screen)
              310 210 st_z_order Hk) as (_ & Hplain & _).
  destruct Hplain as [r Hr].
  - by eexists.
  - intros j Hj _. change (RCT2_NEW_WINDOW st_z_order) with 5%nat in Hj.
    destruct j as [|[|[|[|[|j]]]]]; try reflexivity; lia.
  - split; reflexivity.
Defined.

(** ** Redrawing a screen region *)

Section DrawAll.
Context `{E : Env}.

Lemma window_draw_paint_loop_from n dpi w left top right bottom :
  ∀ v st c,
  c ∈ (window_draw_paint_loop n dpi w v left top right bottom st).2 → (v ≤ c.1)%nat.
Proof.
  induction n as [|n IH]; intros v st c Hc; simpl in Hc.
  - by apply elem_of_nil in Hc.
  - case_decide; [|by apply elem_of_nil in Hc].
    simpl in Hc. apply elem_of_app in Hc as [Hc|Hc].
    + destruct (_ || _); [|by apply elem_of_nil in Hc].
      destruct (window_is_visible (Some v) st).1; [|by apply elem_of_nil in Hc].
      unfold window_draw_single in Hc.
      destruct (window_draw_single_clip _ _ _ _ _); [|by apply elem_of_nil in Hc].
      apply list_elem_of_singleton in Hc as ->. done.
    + apply IH in Hc. lia.
Qed.

(** [window_draw] on [w] paints [w] and windows in front of it only. *)
Lemma window_draw_from dpi w :
  ∀ fuel left top right bottom st res,
  window_draw fuel dpi w left top right bottom st = Some res →
  ∀ c, c ∈ res.2 → (w ≤ c.1)%nat.
Proof.
  induction fuel as [|fuel IH]; intros l t r b st res Hres c Hc; [done|].
  simpl in Hres.
  destruct (window_is_visible (Some w) st).1; simpl in Hres.
  2: { injection Hres as <-. by apply elem_of_nil in Hc. }
  unfold window_draw_split in Hres.
  destruct (scan_up _ _ _ _) as [tj|]; simpl in Hres.
  - set (tw := deref (window_is_visible (Some w) st).2 tj) in *.
    destruct (l <? w_x tw);
      [|destruct (w_x tw + w_width tw <? r);
        [|destruct (t <? w_y tw); [|destruct (w_y tw + w_height tw <? b)]]].
    1-4: match type of Hres with
         | context [window_draw ?f ?d ?w0 ?l1 ?t1 ?r1 ?b1 ?s1] =>
             destruct (window_draw f d w0 l1 t1 r1 b1 s1) as [res1|] eqn:H1;
             [|done]; simpl in Hres
         end;
         match type of Hres with
         | context [window_draw ?f ?d ?w0 ?l2 ?t2 ?r2 ?b2 ?s2] =>
             destruct (window_draw f d w0 l2 t2 r2 b2 s2) as [res2|] eqn:H2;
             [|done]; simpl in Hres
         end;
         injection Hres as <-; simpl in Hc;
         apply elem_of_app in Hc as [Hc|Hc];
         [ by eapply IH; [exact H1|] | by eapply IH; [exact H2|] ].
    + simpl in Hres. injection Hres as <-. by apply elem_of_nil in Hc.
  - repeat case_match; simplify_eq; try (by apply elem_of_nil in Hc).
    apply window_draw_paint_loop_from in Hc. done.
Qed.

Lemma window_draw_all_loop_ok fuel dpi left top right bottom :
  paint_handlers_keep_layout →
  (Z.to_nat (right - left) + Z.to_nat (bottom - top) < fuel)%nat →
  ∀ n w st,
  ∃ res,
    window_draw_all_loop fuel n dpi w left top right bottom st = Some res
    ∧ layout res.1 = layout st
    ∧ ∀ c, c ∈ res.2 →
        (w ≤ c.1)%nat
        ∧ dpi_within left top right bottom c.2
        ∧ ∀ j, (c.1 < j < RCT2_NEW_WINDOW st)%nat →
               test (w_flags (deref st j)) WF_TRANSPARENT = false →
               dpi_disjoint c.2 (deref st j).
Proof.
  intros Hk Hfuel. induction n as [|n IH]; intros w st; simpl.
  - eexists. split_and!; [done|done|]. intros c Hc. by apply elem_of_nil in Hc.
  - assert (Hskip : ∃ res,
              window_draw_all_loop fuel n dpi (S w) left top right bottom st = Some res
              ∧ layout res.1 = layout st
              ∧ ∀ c, c ∈ res.2 →
                  (w ≤ c.1)%nat
                  ∧ dpi_within left top right bottom c.2
                  ∧ ∀ j, (c.1 < j < RCT2_NEW_WINDOW st)%nat →
                         test (w_flags (deref st j)) WF_TRANSPARENT = false →
                         dpi_disjoint c.2 (deref st j)).
    { destruct (IH (S w) st) as (res & Heq & Hl & Hc). exists res. split_and!; [done|done|].
      intros c Hin. destruct (Hc c Hin) as (? & ? & ?). split_and!; [lia|done|done]. }
    case_decide.
    2: { eexists. split_and!; [done|done|]. intros c Hc. by apply elem_of_nil in Hc. }
    destruct (test _ WF_TRANSPARENT); [done|].
    destruct (_ || _); [done|]. destruct (_ || _); [done|].
    destruct (window_draw_sound dpi w Hk fuel left top right bottom st Hfuel)
      as (res1 & Heq1 & Hl1 & Hc1).
    rewrite Heq1. simpl.
    destruct (IH (S w) res1.1) as (res2 & Heq2 & Hl2 & Hc2).
    rewrite Heq2. simpl. eexists. split_and!; [done|simpl; congruence|].
    simpl. intros c Hin. apply elem_of_app in Hin as [Hin|Hin].
    + destruct (Hc1 c Hin) as [Hw Hd].
      pose proof (window_draw_from dpi w _ _ _ _ _ _ _ Heq1 c Hin) as Hfrom.
      split_and!; [done|done|]. intros j Hj. apply Hd. lia.
    + destruct (Hc2 c Hin) as (Hw & Hin' & Hd). split_and!; [lia|done|].
      intros j Hj Hop.
      destruct (geometry_fields _ _ (layout_deref st res1.1 j Hl1)) as (?&?&?&?&Hf).
      rewrite <- (layout_next _ _ Hl1) in Hj. rewrite <- Hf in Hop.
      specialize (Hd j Hj Hop). unfold dpi_disjoint in *. lia.
Qed.

End DrawAll.

(** [window_draw_all], with invalidate and paint handlers that do not
    move, resize, reflag, open or close windows: the call returns, and
    every paint call it issues for a window lies within the region to
    redraw and has no pixel in common with any non-transparent window in
    front of that window. *)
Theorem window_draw_all_painter `{E : Env} (dpi : rct_drawpixelinfo)
    (left top right bottom : Z) (st : ui_state) (fuel : nat) :
  paint_handlers_keep_layout →
  (Z.to_nat (sint16 right - sint16 left) + Z.to_nat (sint16 bottom - sint16 top) < fuel)%nat →
  ∃ st' calls,
    window_draw_all fuel dpi left top right bottom st = Some (st', calls)
    ∧ layout st' = layout st
    ∧ ∀ v d, (v, d) ∈ calls →
        dpi_within (sint16 left) (sint16 top) (sint16 right) (sint16 bottom) d
        ∧ ∀ j, (v < j < RCT2_NEW_WINDOW st)%nat →
               test (w_flags (deref st j)) WF_TRANSPARENT = false →
               dpi_disjoint d (deref st j).
Proof.
  intros Hk Hfuel. unfold window_draw_all. cbv zeta.
  match goal with
  | |- context [window_draw_all_loop fuel ?n ?d 0 ?l ?t ?r ?b st] =>
      destruct (window_draw_all_loop_ok fuel d l t r b Hk Hfuel n 0 st)
        as ([st' calls] & Heq & Hl & Hc)
  end.
  exists st', calls. split_and!; [done|done|].
  intros v d Hin. destruct (Hc (v, d) Hin) as (_ & ? & ?). done.
Qed.

Lemma window_draw_all_painter_witness :
  ∃ st',
    window_draw_all (E := default_env) 400 screen_dpi 0 0 150 150 st_overlap
    = Some (st', [ (0%nat, mk_dpi 0 0 0 50 100 590 0);
                   (0%nat, mk_dpi 50 50 0 50 50 590 0);
                   (1%nat, mk_dpi 32050 50 50 100 100 540 0) ]).
Proof.
  assert (Hk : paint_handlers_keep_layout (E := default_env)).
  { split; intros h f Hf; discriminate. }
  destruct (window_draw_all_painter (E := default_env)
              screen_dpi 0 0 150 150 st_overlap 400 Hk) as (st' & calls & Heq & _).
  - vm_compute. lia.
  - exists st'. rewrite Heq. vm_compute in Heq. injection Heq as _ <-. reflexivity.
Defined.

(** ** The visibility cache *)

Section Visibility.
Context `{E : Env}.

Lemma alter_out_of_range (f : rct_window → rct_window) (l : list rct_window) i :
  (length l ≤ i)%nat → alter f i l = l.
Proof.
  intros Hi. apply list_eq. intros j. destruct (decide (j = i)) as [->|Hne].
  - rewrite list_lookup_alter_eq, lookup_ge_None_2 by done. done.
  - by rewrite list_lookup_alter_ne.
Qed.

Lemma for_each_window_ind (I : nat → ui_state → Prop) (P : rct_window → bool)
    (f : nat → ui_state → ui_state) (n : nat) :
  ∀ from st,
  I from st →
  (∀ i s, (from ≤ i < from + n)%nat → I i s →
          I (S i) (if P (deref s i) then f i s else s)) →
  I (from + n)%nat (for_each_window P f from n st).
Proof.
  induction n as [|n IH]; intros from st H0 Hstep; simpl.
  - by rewrite Nat.add_0_r.
  - replace (from + S n)%nat with (S from + n)%nat by lia.
    apply IH.
    + apply Hstep; [lia|done].
    + intros i s Hi. apply Hstep. lia.
Qed.

Lemma window_reset_visibilities_deref st :
  list_in_array st →
  let st' := window_reset_visibilities st in
  gWindowNextSlot st' = gWindowNextSlot st
  ∧ length (g_window_list st') = length (g_window_list st)
  ∧ ∀ j, deref st' j
         = if decide (j < RCT2_NEW_WINDOW st)%nat
           then set_w_visibility VC_UNKNOWN (deref st j) else deref st j.
Proof.
  intros Hwf st'. unfold st', window_reset_visibilities.
  pose proof (for_each_window_ind
           (λ i s, (i ≤ RCT2_NEW_WINDOW st)%nat →
                   gWindowNextSlot s = gWindowNextSlot st
                   ∧ length (g_window_list s) = length (g_window_list st)
                   ∧ ∀ j, deref s j
                       = if decide (j < i)%nat
                         then set_w_visibility VC_UNKNOWN (deref st j) else deref st j)
           (λ _, true) window_reset_visibilities_step (RCT2_NEW_WINDOW st) 0 st) as Hind.
  cbn [Nat.add] in Hind. apply Hind; [| |lia].
  - intros _. split_and!; [done|done|]. intros j. case_decide; [lia|done].
  - intros i s Hi IH Hle. destruct IH as (Hn & Hlen & Hd); [lia|].
    unfold window_reset_visibilities_step. cbv zeta.
    set (s1 := modify i (set_w_visibility VC_UNKNOWN) s).
    assert (H1 : gWindowNextSlot s1 = gWindowNextSlot st
                 ∧ length (g_window_list s1) = length (g_window_list st)
                 ∧ ∀ j, deref s1 j
                     = if decide (j < S i)%nat
                       then set_w_visibility VC_UNKNOWN (deref st j) else deref st j).
    { split_and!; [done|unfold s1; by rewrite length_modify|].
      intros j. unfold s1. destruct (decide (j = i)) as [->|Hne].
      - rewrite deref_modify_eq by (unfold list_in_array in Hwf; lia).
        rewrite Hd. repeat case_decide; try lia. done.
      - rewrite deref_modify_ne by done. rewrite Hd.
        repeat case_decide; try lia; done. }
    by destruct (w_viewport (deref s1 i)).
Qed.

End Visibility.

(** [window_is_visible] caches its answer in the window's [visibility]
    field.  After a call on a window of the array the field holds
    [VC_VISIBLE] when the answer was true and [VC_COVERED] when it was
    false, and no other window record has changed.  While the field
    holds that value, in whatever state, a call returns the cached
    answer without looking at the other windows and leaves the state as
    it is: the answer is not computed again until the field is reset. *)
Theorem window_is_visible_cached `{E : Env} (st : ui_state) (w : nat) :
  (w < length (g_window_list st))%nat →
  let r := window_is_visible (Some w) st in
  w_visibility (deref r.2 w) = (if r.1 then VC_VISIBLE else VC_COVERED)
  ∧ (∀ j, j ≠ w → deref r.2 j = deref st j)
  ∧ (∀ st2, w_visibility (deref st2 w) = w_visibility (deref r.2 w) →
            window_is_visible (Some w) st2 = (r.1, st2))
  ∧ window_is_visible (Some w) r.2 = r.
Proof.
  intros Hw r.
  assert (H1 : w_visibility (deref r.2 w) = (if r.1 then VC_VISIBLE else VC_COVERED)
               ∧ ∀ j, j ≠ w → deref r.2 j = deref st j).
  { unfold r, window_is_visible.
    destruct (w_visibility (deref st w)) eqn:Hv; simpl; [|by rewrite Hv|by rewrite Hv].
    destruct (w_viewport (deref st w)) as [p|] eqn:Hp; simpl.
    - destruct (w_classification (deref st w) =? WC_MAIN_WINDOW); simpl;
        [|destruct (scan_up _ _ _ _); simpl];
        rewrite ?deref_modify_vp, deref_modify_eq by done;
        (split; [done|]); intros j Hj;
        by rewrite ?deref_modify_vp, deref_modify_ne.
    - rewrite deref_modify_eq by done. split; [done|].
      intros j Hj. by rewrite deref_modify_ne. }
  destruct H1 as [H1 H2].
  assert (H3 : ∀ st2, w_visibility (deref st2 w) = w_visibility (deref r.2 w) →
                      window_is_visible (Some w) st2 = (r.1, st2)).
  { intros st2 Hvis. rewrite H1 in Hvis. unfold window_is_visible at 1.
    rewrite Hvis. by destruct r.1. }
  split_and!; [done|done|done|].
  rewrite (H3 r.2 eq_refl). by destruct r.
Qed.

Lemma window_is_visible_cached_witness :
  (window_is_visible (E := default_env) (Some 1%nat) st_covering).1 = false
  ∧ window_covers (deref st_uncovered 1) (deref st_uncovered 3) = false
  ∧ window_is_visible (E := default_env) (Some 1%nat) st_uncovered = (false, st_uncovered)
  ∧ (window_is_visible (E := default_env) (Some 1%nat)
       (window_reset_visibilities st_uncovered)).1 = true.
Proof.
  destruct (window_is_visible_cached (E := default_env) st_covering 1)
    as (_ & _ & Hreuse & _); [simpl; lia|].
  split_and!; [reflexivity | reflexivity | exact (Hreuse st_uncovered eq_refl) | reflexivity].
Defined.

(** After [window_reset_visibilities] the answer of [window_is_visible]
    for an open window is computed afresh, whatever was cached: the
    window counts as covered exactly when it has a viewport, is not the
    main window and an open window in front of it covers it entirely. *)
Theorem window_reset_visibilities_recomputes `{E : Env} (st : ui_state) (w : nat) :
  list_in_array st → (w < RCT2_NEW_WINDOW st)%nat →
  (window_is_visible (Some w) (window_reset_visibilities st)).1 = false
  ↔ w_viewport (deref st w) ≠ None
    ∧ w_classification (deref st w) ≠ WC_MAIN_WINDOW
    ∧ ∃ j, (w < j < RCT2_NEW_WINDOW st)%nat
           ∧ window_covers (deref st w) (deref st j) = true.
Proof.
  intros Hwf Hw.
  destruct (window_reset_visibilities_deref st Hwf) as (Hn & Hlen & Hd).
  set (st' := window_reset_visibilities st) in *.
  assert (Hn' : RCT2_NEW_WINDOW st' = RCT2_NEW_WINDOW st).
  { unfold RCT2_NEW_WINDOW. by rewrite Hn. }
  assert (Hcov : ∀ j, window_covers (deref st' w) (g_window_list st' !!! j)
                      = window_covers (deref st w) (deref st j)).
  { intros j. fold (deref st' j). rewrite !Hd. by repeat case_decide. }
  unfold window_is_visible. rewrite (Hd w). rewrite decide_True by done. simpl.
  destruct (w_viewport (deref st w)) as [p|] eqn:Hp; simpl.
  2: { split; [done|]. intros (? & _). done. }
  destruct (w_classification (deref st w) =? WC_MAIN_WINDOW) eqn:Hc; simpl.
  { apply Z.eqb_eq in Hc. split; [done|]. intros (_ & ? & _). done. }
  apply Z.eqb_neq in Hc.
  match goal with
  | |- context [scan_up ?P ?l ?a ?b] => destruct (scan_up P l a b) as [j|] eqn:Hscan
  end; simpl.
  - apply scan_up_Some in Hscan as (Hj & HP & _).
    split; [|done]. intros _. split_and!; [done|done|].
    exists j. split; [lia|].
    rewrite <- Hcov. rewrite <- HP. f_equal. by rewrite Hd, decide_True.
  - split; [done|]. intros (_ & _ & j & Hj & Hcj). exfalso.
    rewrite scan_up_None in Hscan. specialize (Hscan j ltac:(lia)).
    rewrite <- Hcov in Hcj.
    assert (Heq : deref st' w = set_w_visibility VC_UNKNOWN (deref st w)).
    { by rewrite Hd, decide_True. }
    rewrite Heq in Hcj. congruence.
Qed.

Lemma window_reset_visibilities_recomputes_witness :
  (window_is_visible (E := default_env) (Some 1%nat) (window_reset_visibilities st_covering)).1
  = false
  ∧ (window_is_visible (E := default_env) (Some 2%nat) (window_reset_visibilities st_covering)).1
    = true.
Proof.
  assert (Hwf : list_in_array st_covering) by (vm_compute; lia).
  split.
  - apply (window_reset_visibilities_recomputes (E := default_env) st_covering 1 Hwf).
    + vm_compute. lia.
    + split_and!; [discriminate|discriminate|].
      exists 3%nat. split; [vm_compute; lia|reflexivity].
  - reflexivity.
Defined.

(** ** Scroll regions of a widget table *)

Section ScrollIndex.
Context `{E : Env} `{Sc : Screen}.

(** From the scroll region number to the widget and back. *)
Lemma window_get_scroll_widget_loop_index ws :
  ∀ pre i0 k i,
  length pre = i0 →
  window_get_scroll_widget_loop ws i0 k = Some i →
  (i0 ≤ i)%nat ∧ 0 ≤ k
  ∧ (∃ wd, ws !! (i - i0)%nat = Some wd ∧ wd_type wd = WWT_SCROLL)
  ∧ (∀ acc, window_get_scroll_index_loop ws i0 i acc = Some (acc + k))
  ∧ (∀ res, Z.of_nat (window_get_scroll_data_index_loop (i - i0) i0 (pre ++ ws) res)
            = Z.of_nat res + k).
Proof.
  induction ws as [|widget rest IH]; intros pre i0 k i Hpre Hres; simpl in Hres; [done|].
  assert (Hat : (pre ++ widget :: rest) !!! i0 = widget).
  { rewrite list_lookup_total_middle by done. done. }
  destruct (wd_type widget =? WWT_LAST) eqn:Hlast; [done|].
  destruct (wd_type widget =? WWT_SCROLL) eqn:Hscroll; simpl in Hres.
  - destruct (k =? 0) eqn:Hk.
    + apply Z.eqb_eq in Hk. injection Hres as <-. subst k.
      replace (i0 - i0)%nat with 0%nat by lia.
      split_and!; [lia|lia| | |].
      * exists widget. split; [done|]. by apply Z.eqb_eq.
      * intros acc. simpl. rewrite Hlast. rewrite decide_True by done. f_equal. lia.
      * intros res. simpl. lia.
    + apply Z.eqb_neq in Hk.
      destruct (IH (pre ++ [widget]) (S i0) (k - 1) i) as (Hi & Hk' & Hwd & Hidx & Hdata);
        [rewrite length_app; simpl; lia|done|].
      rewrite <- app_assoc in Hdata. simpl in Hdata.
      replace (i - i0)%nat with (S (i - S i0)) by lia.
      split_and!; [lia|lia|done| |].
      * intros acc. simpl. rewrite Hlast. rewrite decide_False by lia.
        rewrite Hscroll. rewrite Hidx. f_equal. lia.
      * intros res. simpl. rewrite Hat, Hscroll. rewrite Hdata. lia.
  - destruct (IH (pre ++ [widget]) (S i0) k i) as (Hi & Hk' & Hwd & Hidx & Hdata);
      [rewrite length_app; simpl; lia|done|].
    rewrite <- app_assoc in Hdata. simpl in Hdata.
    replace (i - i0)%nat with (S (i - S i0)) by lia.
    split_and!; [lia|lia|done| |].
    + intros acc. simpl. rewrite Hlast. rewrite decide_False by lia.
      rewrite Hscroll. by rewrite Hidx.
    + intros res. simpl. rewrite Hat, Hscroll. by rewrite Hdata.
Qed.

(** From a scroll widget in front of the terminator to its number and
    back. *)
Lemma window_get_scroll_index_loop_widget ws :
  ∀ i0 i wd,
  (i0 ≤ i)%nat →
  ws !! (i - i0)%nat = Some wd → wd_type wd = WWT_SCROLL →
  (∀ j wd', (j ≤ i - i0)%nat → ws !! j = Some wd' → wd_type wd' ≠ WWT_LAST) →
  ∃ k, 0 ≤ k
    ∧ (∀ acc, window_get_scroll_index_loop ws i0 i acc = Some (acc + k))
    ∧ window_get_scroll_widget_loop ws i0 k = Some i.
Proof.
  induction ws as [|widget rest IH]; intros i0 i wd Hi Hwd Hscroll Hnl; [done|].
  assert (Hlast : (wd_type widget =? WWT_LAST) = false).
  { apply Z.eqb_neq. apply (Hnl 0%nat); [lia|done]. }
  destruct (decide (i = i0)) as [->|Hne].
  - replace (i0 - i0)%nat with 0%nat in Hwd by lia. injection Hwd as ->.
    exists 0. split_and!; [lia| |].
    + intros acc. simpl. rewrite Hlast, decide_True by done. f_equal. lia.
    + simpl. rewrite Hlast. apply Z.eqb_eq in Hscroll. by rewrite Hscroll.
  - replace (i - i0)%nat with (S (i - S i0)) in * by lia.
    destruct (IH (S i0) i wd) as (k & Hk & Hidx & Hw); [lia|done|done| |].
    { intros j wd' Hj Hwd'. apply (Hnl (S j)); [lia|done]. }
    destruct (wd_type widget =? WWT_SCROLL) eqn:Hs.
    + exists (k + 1). split_and!; [lia| |].
      * intros acc. simpl. rewrite Hlast, decide_False, Hs by lia.
        rewrite Hidx. f_equal. lia.
      * simpl. rewrite Hlast, Hs. simpl.
        replace (k + 1 =? 0) with false by (symmetry; apply Z.eqb_neq; lia).
        by replace (k + 1 - 1) with k by lia.
    + exists k. split_and!; [lia| |].
      * intros acc. simpl. rewrite Hlast, decide_False, Hs by lia. by rewrite Hidx.
      * simpl. rewrite Hlast, Hs. done.
Qed.

End ScrollIndex.

(** The scroll regions of a window are numbered in the order of their
    widgets: if [window_get_scroll_widget] finds the widget of region
    [k] at entry [i] of the table, then entry [i] is a scroll widget and
    both [window_get_scroll_index] and [window_get_scroll_data_index]
    give [k] for it; and for every scroll widget [i] in front of the
    table's terminator, [window_get_scroll_index] gives a region number
    for which [window_get_scroll_widget] finds entry [i] again. *)
Theorem window_get_scroll_index_round_trip `{E : Env} (w : rct_window) :
  (∀ k i,
     window_get_scroll_widget w k = Some i →
     (∃ wd, w_widgets w !! i = Some wd ∧ wd_type wd = WWT_SCROLL)
     ∧ window_get_scroll_index w i = Some k
     ∧ Z.of_nat (window_get_scroll_data_index w i) = k)
  ∧ (∀ n i wd,
       widgets_end (w_widgets w) n → (i < n)%nat →
       w_widgets w !! i = Some wd → wd_type wd = WWT_SCROLL →
       ∃ k, window_get_scroll_index w i = Some k
            ∧ window_get_scroll_widget w k = Some i).
Proof.
  split.
  - intros k i Hres.
    destruct (window_get_scroll_widget_loop_index (w_widgets w) [] 0 k i eq_refl Hres)
      as (_ & Hk & (wd & Hwd & Hs) & Hidx & Hdata).
    rewrite Nat.sub_0_r in Hwd, Hdata. simpl in Hdata.
    split_and!.
    + by exists wd.
    + unfold window_get_scroll_index. rewrite Hwd. simpl.
      apply Z.eqb_eq in Hs. rewrite Hs. simpl. rewrite Hidx. f_equal.
    + unfold window_get_scroll_data_index. rewrite (Hdata 0%nat). lia.
  - intros n i wd [_ Hend] Hi Hwd Hs.
    destruct (window_get_scroll_index_loop_widget (w_widgets w) 0 i wd) as (k & Hk & Hidx & Hw);
      [lia|by rewrite Nat.sub_0_r|done| |].
    { intros j wd' Hj Hwd'. apply (Hend j); [lia|done]. }
    exists k. split; [|done].
    unfold window_get_scroll_index. rewrite Hwd. simpl.
    apply Z.eqb_eq in Hs. rewrite Hs. simpl. rewrite Hidx. f_equal.
Qed.

Lemma window_get_scroll_index_round_trip_witness :
  window_get_scroll_index (E := default_env) two_scroll_window 3 = Some 1
  ∧ Z.of_nat (window_get_scroll_data_index (E := default_env) two_scroll_window 3) = 1
  ∧ ∃ k, window_get_scroll_index (E := default_env) two_scroll_window 1 = Some k
         ∧ window_get_scroll_widget (E := default_env) two_scroll_window k = Some 1%nat.
Proof.
  destruct (window_get_scroll_index_round_trip (E := default_env) two_scroll_window)
    as [Hto Hfrom].
  destruct (Hto 1 3%nat eq_refl) as (_ & Hidx & Hdata).
  split_and!; [exact Hidx|exact Hdata|].
  apply (Hfrom 4%nat 1%nat (mk_widget 22 10 189 10 50)); [|lia|reflexivity|reflexivity].
  split.
  - exists (mk_widget 26 0 0 0 0). split; reflexivity.
  - intros k wd Hk Hwd. destruct k as [|[|[|[|k]]]]; try lia;
      injection Hwd as <-; discriminate.
Defined.

(** ** Walking the viewports front to back *)

Section PreviousViewport.
Context `{E : Env}.

Lemma viewports_take_S st k :
  (k < length (g_window_list st))%nat →
  reverse (omap w_viewport (take (S k) (g_window_list st)))
  = match w_viewport (deref st k) with
    | Some p => p :: reverse (omap w_viewport (take k (g_window_list st)))
    | None => reverse (omap w_viewport (take k (g_window_list st)))
    end.
Proof.
  intros Hk.
  rewrite (take_S_r _ _ (deref st k)) by (by apply list_lookup_lookup_total_lt).
  rewrite omap_app, reverse_app. simpl.
  by destruct (w_viewport (deref st k)).
Qed.

Lemma window_get_previous_viewport_loop_found st current k :
  (k ≤ length (g_window_list st))%nat →
  window_get_previous_viewport_loop k current true st
  = head (reverse (omap w_viewport (take k (g_window_list st)))).
Proof.
  induction k as [|k IH]; intros Hk; simpl; [done|].
  rewrite viewports_take_S by lia.
  destruct (w_viewport (deref st k)); [done|]. apply IH. lia.
Qed.

Lemma window_get_previous_viewport_loop_next st p k :
  (k ≤ length (g_window_list st))%nat →
  ∀ i,
  NoDup (reverse (omap w_viewport (take k (g_window_list st)))) →
  reverse (omap w_viewport (take k (g_window_list st))) !! i = Some p →
  window_get_previous_viewport_loop k (Some p) false st
  = reverse (omap w_viewport (take k (g_window_list st))) !! S i.
Proof.
  induction k as [|k IH]; intros Hk i Hnd Hi; simpl; [done|].
  rewrite viewports_take_S in Hnd, Hi |- * by lia.
  destruct (w_viewport (deref st k)) as [q|]; [|apply IH; [lia|done|done]].
  apply NoDup_cons in Hnd as [Hq Hnd].
  case_bool_decide as Hqp.
  - injection Hqp as ->. destruct i as [|i].
    + rewrite window_get_previous_viewport_loop_found by lia. simpl. apply head_lookup.
    + simpl in Hi. exfalso. apply Hq. by eapply list_elem_of_lookup_2.
  - destruct i as [|i]; [simpl in Hi; congruence|]. simpl in Hi. simpl.
    apply IH; [lia|done|done].
Qed.

End PreviousViewport.

(** [window_get_previous_viewport] walks the viewports of the open
    windows from the front-most window to the back-most: called with
    null it returns the first of them, and, when no two windows share a
    viewport, called with one of them it returns the next one, and null
    after the last. *)
Theorem window_get_previous_viewport_walk (st : ui_state) :
  list_in_array st →
  let viewports := reverse (omap w_viewport (open_windows st)) in
  window_get_previous_viewport None st = head viewports
  ∧ (NoDup viewports →
     ∀ i p, viewports !! i = Some p →
            window_get_previous_viewport (Some p) st = viewports !! S i).
Proof.
  intros Hwf viewports. unfold viewports, open_windows, window_get_previous_viewport.
  unfold list_in_array in Hwf. unfold RCT2_NEW_WINDOW in *.
  destruct (gWindowNextSlot st) as [n|]; simpl in *.
  - split.
    + by apply window_get_previous_viewport_loop_found.
    + intros Hnd i p Hi. by apply window_get_previous_viewport_loop_next.
  - split; [done|]. intros _ i p Hi. done.
Qed.

Lemma window_get_previous_viewport_walk_witness :
  window_get_previous_viewport None st_covering = Some 2%nat
  ∧ window_get_previous_viewport (Some 2%nat) st_covering = Some 1%nat
  ∧ window_get_previous_viewport (Some 1%nat) st_covering = Some 0%nat
  ∧ window_get_previous_viewport (Some 0%nat) st_covering = None.
Proof.
  assert (Hwf : list_in_array st_covering) by (vm_compute; lia).
  destruct (window_get_previous_viewport_walk st_covering Hwf) as [Hfirst Hnext].
  assert (Hnd : NoDup (reverse (omap w_viewport (open_windows st_covering)))).
  { apply (bool_decide_unpack _). by vm_compute. }
  split_and!.
  - exact Hfirst.
  - exact (Hnext Hnd 0%nat 2%nat eq_refl).
  - exact (Hnext Hnd 1%nat 1%nat eq_refl).
  - exact (Hnext Hnd 2%nat 0%nat eq_refl).
Defined.

(** ** Zoom steps *)

(** [window_zoom_in] and [window_zoom_out] on a window with a viewport
    whose zoom level lies within [0, MAX_ZOOM_LEVEL]: at level 0 zooming
    in changes nothing, and so does zooming out at the highest level;
    otherwise zooming in lowers the level by one and halves the view
    extents, rounding toward zero, and zooming out raises the level by
    one and doubles them in their 16-bit fields: an extent above 16383
    does not double but wraps around. *)
Theorem window_zoom_step `{E : Env} (st : ui_state) (w p : nat) (atCursor : bool) :
  (w < RCT2_NEW_WINDOW st ≤ length (g_window_list st))%nat →
  (p < length (g_viewport_list st))%nat →
  w_viewport (deref st w) = Some p →
  0 ≤ vp_zoom (deref_vp st p) ≤ MAX_ZOOM_LEVEL →
  let v := deref_vp st p in
  (vp_zoom v = 0 → window_zoom_in w atCursor st = Some st)
  ∧ (vp_zoom v = MAX_ZOOM_LEVEL → window_zoom_out w atCursor st = Some st)
  ∧ (0 < vp_zoom v →
     ∃ st', window_zoom_in w atCursor st = Some st'
       ∧ view_of (deref_vp st' p)
         = (vp_zoom v - 1, Z.quot (vp_view_width v) 2, Z.quot (vp_view_height v) 2))
  ∧ (vp_zoom v < MAX_ZOOM_LEVEL →
     ∃ st', window_zoom_out w atCursor st = Some st'
       ∧ view_of (deref_vp st' p)
         = (vp_zoom v + 1, sint16 (vp_view_width v * 2), sint16 (vp_view_height v * 2))
       ∧ (-16384 ≤ vp_view_width v ≤ 16383 →
          vp_view_width (deref_vp st' p) = vp_view_width v * 2)
       ∧ (-16384 ≤ vp_view_height v ≤ 16383 →
          vp_view_height (deref_vp st' p) = vp_view_height v * 2)).
Proof.
  intros Hw Hp Hvp Hz v. fold v in Hz.
  unfold window_zoom_in, window_zoom_out. rewrite Hvp. simpl. fold v.
  split_and!.
  - intros H0. unfold window_zoom_set. rewrite Hvp. fold v.
    replace (Math_Clamp 0 (vp_zoom v - 1) MAX_ZOOM_LEVEL) with (vp_zoom v)
      by (unfold Math_Clamp; lia).
    by rewrite Z.eqb_refl.
  - intros Hmax. unfold window_zoom_set. rewrite Hvp. fold v.
    replace (Math_Clamp 0 (vp_zoom v + 1) MAX_ZOOM_LEVEL) with (vp_zoom v)
      by (unfold Math_Clamp; lia).
    by rewrite Z.eqb_refl.
  - intros Hpos.
    destruct (window_zoom_set_view st w p (vp_zoom v - 1) atCursor Hw Hp Hvp)
      as (st' & Heq & Hview & _).
    exists st'. split; [done|]. rewrite Hview. fold v.
    replace (Math_Clamp 0 (vp_zoom v - 1) MAX_ZOOM_LEVEL) with (vp_zoom v - 1)
      by (unfold Math_Clamp; lia).
    replace (Z.to_nat (vp_zoom v - (vp_zoom v - 1))) with 1%nat by lia.
    replace (Z.to_nat (vp_zoom v - 1 - vp_zoom v)) with 0%nat by lia.
    simpl. tuple_eq; lia.
  - intros Hlt.
    destruct (window_zoom_set_view st w p (vp_zoom v + 1) atCursor Hw Hp Hvp)
      as (st' & Heq & Hview & _).
    fold v in Hview.
    replace (Math_Clamp 0 (vp_zoom v + 1) MAX_ZOOM_LEVEL) with (vp_zoom v + 1) in Hview
      by (unfold Math_Clamp; lia).
    replace (Z.to_nat (vp_zoom v - (vp_zoom v + 1))) with 0%nat in Hview by lia.
    replace (Z.to_nat (vp_zoom v + 1 - vp_zoom v)) with 1%nat in Hview by lia.
    cbn [Nat.iter nat_rect] in Hview.
    exists st'. split_and!; [done|done| |].
    + intros Hr. injection Hview as _ -> _. apply sint16_id. lia.
    + intros Hr. injection Hview as _ _ ->. apply sint16_id. lia.
Qed.

Lemma window_zoom_step_witness :
  (∃ st', window_zoom_in (E := default_env) 1 false st_zoom_even = Some st'
     ∧ view_of (deref_vp st' 0) = (0, 500, 350))
  ∧ (∃ st', window_zoom_out (E := default_env) 1 false st_zoom_even = Some st'
       ∧ view_of (deref_vp st' 0) = (2, 2000, 1400)).
Proof.
  destruct (window_zoom_step (E := default_env) st_zoom_even 1 0 false)
    as (_ & _ & Hin & Hout).
  - vm_compute. lia.
  - vm_compute. lia.
  - reflexivity.
  - vm_compute. split; discriminate.
  - split.
    + destruct Hin as (st' & Heq & Hview); [reflexivity|]. by exists st'.
    + destruct Hout as (st' & Heq & Hview & _); [reflexivity|]. by exists st'.
Defined.

(** ** Positions and locations *)

Section SetPosition.
Context `{E : Env}.

Lemma window_move_position_xy st w dx dy :
  (w < length (g_window_list st))%nat → dx ≠ 0 ∨ dy ≠ 0 →
  w_x (deref (window_move_position w dx dy st) w) = sint16 (w_x (deref st w) + dx)
  ∧ w_y (deref (window_move_position w dx dy st) w) = sint16 (w_y (deref st w) + dy).
Proof.
  intros Hw Hd. unfold window_move_position.
  assert ((dx =? 0) && (dy =? 0) = false) as ->.
  { apply andb_false_iff. destruct Hd; [left|right]; by apply Z.eqb_neq. }
  cbv zeta.
  set (st2 := modify w (λ win, set_w_x (sint16 (w_x win + dx)) win)
                (window_invalidate (Some w) st)).
  set (st3 := modify w (λ win, set_w_y (sint16 (w_y win + dy)) win) st2).
  assert (H3 : deref st3 w
     = set_w_y (sint16 (w_y (deref st w) + dy))
         (set_w_x (sint16 (w_x (deref st w) + dx)) (deref st w))).
  { unfold st3. rewrite deref_modify_eq by (unfold st2; by rewrite length_modify).
    unfold st2. rewrite deref_modify_eq by done. done. }
  destruct (w_viewport (deref st3 w));
    autorewrite with ui_state; rewrite H3; done.
Qed.

(** A position within the 16-bit range is reached. *)
Lemma window_set_position_in_range st w x y :
  (w < length (g_window_list st))%nat →
  -32768 ≤ x ≤ 32767 → -32768 ≤ y ≤ 32767 →
  w_x (deref (window_set_position w x y st) w) = x
  ∧ w_y (deref (window_set_position w x y st) w) = y.
Proof.
  intros Hw Hx Hy. unfold window_set_position.
  destruct (decide (x - w_x (deref st w) = 0 ∧ y - w_y (deref st w) = 0)) as [[H1 H2]|Hn].
  - rewrite H1, H2. change (window_move_position w 0 0 st) with st. lia.
  - destruct (window_move_position_xy st w (x - w_x (deref st w)) (y - w_y (deref st w)) Hw)
      as [Gx Gy]; [lia|].
    rewrite Gx, Gy.
    replace (w_x (deref st w) + (x - w_x (deref st w))) with x by lia.
    replace (w_y (deref st w) + (y - w_y (deref st w))) with y by lia.
    by rewrite !sint16_id.
Qed.

Lemma land_lnot_clears flags bit : Z.land (Z.land flags (Z.lnot bit)) bit = 0.
Proof.
  rewrite <- Z.land_assoc. rewrite (Z.land_comm (Z.lnot bit)).
  by rewrite Z.land_lnot_diag, Z.land_0_r.
Qed.

Lemma length_window_scroll_to_location st w x y z :
  length (g_window_list (window_scroll_to_location w x y z st)) = length (g_window_list st).
Proof.
  unfold window_scroll_to_location, window_unfollow_sprite. cbv zeta.
  repeat case_match; autorewrite with ui_state; rewrite ?length_modify; done.
Qed.

End SetPosition.

(** [window_set_position] puts the window at the given position as its
    16-bit fields hold it: at (x, y) itself when both coordinates lie
    within -32768..32767, and then a second call for the same position
    changes nothing more; a call for the position the window already has
    changes nothing, no region being invalidated. *)
Theorem window_set_position_spec (st : ui_state) (w : nat) (x y : Z) :
  (w < length (g_window_list st))%nat →
  let st' := window_set_position w x y st in
  (x ≠ w_x (deref st w) ∨ y ≠ w_y (deref st w) →
   w_x (deref st' w) = sint16 x ∧ w_y (deref st' w) = sint16 y)
  ∧ (w_x (deref st w) = x → w_y (deref st w) = y → st' = st)
  ∧ (-32768 ≤ x ≤ 32767 → -32768 ≤ y ≤ 32767 →
     w_x (deref st' w) = x ∧ w_y (deref st' w) = y
     ∧ window_set_position w x y st' = st').
Proof.
  intros Hw st'. unfold st'. split_and!.
  - intros Hd. unfold window_set_position.
    destruct (window_move_position_xy st w (x - w_x (deref st w)) (y - w_y (deref st w)) Hw)
      as [Gx Gy]; [lia|].
    rewrite Gx, Gy. split; f_equal; lia.
  - intros Hx0 Hy0. unfold window_set_position. rewrite Hx0, Hy0, !Z.sub_diag. done.
  - intros Hx Hy.
    destruct (window_set_position_in_range st w x y Hw Hx Hy) as [Gx Gy].
    split_and!; [done|done|].
    unfold window_set_position at 1. rewrite Gx, Gy, !Z.sub_diag. done.
Qed.

Lemma window_set_position_spec_witness :
  w_x (deref (window_set_position 1 40 60 st_moving) 1) = 40
  ∧ w_y (deref (window_set_position 1 40 60 st_moving) 1) = 60
  ∧ window_set_position 1 100 80 st_moving = st_moving
  ∧ w_x (deref (window_set_position 1 40000 60 st_moving) 1) = sint16 40000.
Proof.
  destruct (window_set_position_spec st_moving 1 40 60) as (_ & _ & Hin); [simpl; lia|].
  destruct Hin as (Hx & Hy & _); [lia|lia|].
  destruct (window_set_position_spec st_moving 1 100 80) as (_ & Hsame & _); [simpl; lia|].
  destruct (window_set_position_spec st_moving 1 40000 60) as (Hwrap & _); [simpl; lia|].
  destruct Hwrap as [Hx' _]; [left; vm_compute; discriminate|].
  split_and!; [exact Hx | exact Hy | exact (Hsame eq_refl eq_refl) | exact Hx'].
Defined.

(** [window_set_location] leaves the window as [window_scroll_to_location]
    does, except that the scrolling-to-location flag is clear afterwards:
    the view is to jump, not to scroll. *)
Theorem window_set_location_jumps `{E : Env} (st : ui_state) (w : nat) (x y z : Z) :
  (w < length (g_window_list st))%nat →
  let st1 := window_scroll_to_location w x y z st in
  let st' := window_set_location w x y z st in
  test (w_flags (deref st' w)) WF_SCROLLING_TO_LOCATION = false
  ∧ deref st' w
    = set_w_flags (Z.land (w_flags (deref st1 w)) (Z.lnot WF_SCROLLING_TO_LOCATION))
        (deref st1 w)
  ∧ w_saved_view_x (deref st' w) = w_saved_view_x (deref st1 w)
  ∧ w_saved_view_y (deref st' w) = w_saved_view_y (deref st1 w)
  ∧ (∀ j, j ≠ w → deref st' j = deref st1 j)
  ∧ g_viewport_list st' = g_viewport_list st1.
Proof.
  intros Hw st1 st'. unfold st', window_set_location. fold st1.
  assert (Hd : deref (modify w (λ win, set_w_flags
                 (Z.land (w_flags win) (Z.lnot WF_SCROLLING_TO_LOCATION)) win) st1) w
               = set_w_flags (Z.land (w_flags (deref st1 w)) (Z.lnot WF_SCROLLING_TO_LOCATION))
                   (deref st1 w)).
  { rewrite deref_modify_eq; [done|].
    unfold st1. by rewrite length_window_scroll_to_location. }
  rewrite Hd. split_and!; try done.
  - simpl. unfold test. by rewrite land_lnot_clears.
  - intros j Hj. by rewrite deref_modify_ne.
Qed.

Lemma window_set_location_jumps_witness :
  test (w_flags (deref (window_set_location (E := default_env) 0 64 64 0 st_obscured) 0)) 8
  = false
  ∧ test (w_flags (deref (window_scroll_to_location (E := default_env) 0 64 64 0 st_obscured) 0)) 8
    = true.
Proof.
  destruct (window_set_location_jumps (E := default_env) st_obscured 0 64 64 0) as [H _].
  - simpl. lia.
  - split; [exact H | reflexivity].
Defined.

(** ** Bringing to front by class and number *)

Section BringToFrontByClass.
Context `{E : Env} `{Sc : Screen}.

(** What the two functions share once the window is found. *)
Lemma window_bring_to_front_flagged st w flags :
  (w < RCT2_NEW_WINDOW st ≤ length (g_window_list st))%nat →
  let st1 := window_invalidate (Some w)
               (modify w (λ win, set_w_flags (Z.lor (w_flags win) flags) win) st) in
  ∃ v st',
    window_bring_to_front w st1 = Some (v, st')
    ∧ (w ≤ v < RCT2_NEW_WINDOW st)%nat
    ∧ gWindowNextSlot st' = gWindowNextSlot st
    ∧ w_classification (deref st' v) = w_classification (deref st w)
    ∧ w_number (deref st' v) = w_number (deref st w)
    ∧ w_flags (deref st' v) = Z.lor (w_flags (deref st w)) flags.
Proof.
  intros Hw st1.
  assert (Hd : deref st1 w = set_w_flags (Z.lor (w_flags (deref st w)) flags) (deref st w)).
  { unfold st1. autorewrite with ui_state. rewrite deref_modify_eq by lia. done. }
  assert (Hw1 : (w < RCT2_NEW_WINDOW st1 ≤ length (g_window_list st1))%nat).
  { unfold st1. autorewrite with ui_state. rewrite ?window_list_window_invalidate.
    by rewrite ?length_modify. }
  destruct (test (w_flags (deref st1 w)) (Z.lor WF_STICK_TO_BACK WF_STICK_TO_FRONT)) eqn:Hf.
  - exists w, st1. unfold window_bring_to_front. rewrite Hf.
    split_and!; try done; try lia; by rewrite Hd.
  - destruct (window_bring_to_front_moves st1 w Hw1 Hf)
      as (v & st' & Heq & Hv & _ & _ & Hn & _ & _ & _ & _ & H4 & _).
    exists v, st'. rewrite H4, Hd.
    assert (Hnudge : ∀ win, w_classification (nudged win) = w_classification win
                            ∧ w_number (nudged win) = w_number win
                            ∧ w_flags (nudged win) = w_flags win).
    { intros win. unfold nudged. by destruct (_ <? 20). }
    destruct (Hnudge (set_w_flags (Z.lor (w_flags (deref st w)) flags) (deref st w)))
      as (-> & -> & ->).
    assert (Hn1 : RCT2_NEW_WINDOW st1 = RCT2_NEW_WINDOW st) by done.
    split_and!; try done; lia.
Qed.

End BringToFrontByClass.

(** [window_bring_to_front_by_class_with_flags] and
    [window_bring_to_front_by_number] on a window list within its array:
    when no open window has the class (and number) they return null and
    leave the state alone; otherwise they return the new place of the
    first such window, at or in front of its old place, with its class
    and number and with the flags (the white border flags) or-ed into
    its flags, and no window is opened or closed. *)
Theorem window_bring_to_front_by_class_spec `{E : Env} `{Sc : Screen}
    (st : ui_state) (cls number flags : Z) :
  list_in_array st →
  (window_find_by_class cls st = None →
   window_bring_to_front_by_class_with_flags cls flags st = Some (None, st))
  ∧ (window_find_by_number cls number st = None →
     window_bring_to_front_by_number cls number st = Some (None, st))
  ∧ (∀ w, window_find_by_class cls st = Some w →
       ∃ v st',
         window_bring_to_front_by_class_with_flags cls flags st = Some (Some v, st')
         ∧ (w ≤ v < RCT2_NEW_WINDOW st)%nat
         ∧ gWindowNextSlot st' = gWindowNextSlot st
         ∧ w_classification (deref st' v) = cls
         ∧ w_number (deref st' v) = w_number (deref st w)
         ∧ w_flags (deref st' v) = Z.lor (w_flags (deref st w)) (uint16 flags))
  ∧ (∀ w, window_find_by_number cls number st = Some w →
       ∃ v st',
         window_bring_to_front_by_number cls number st = Some (Some v, st')
         ∧ (w ≤ v < RCT2_NEW_WINDOW st)%nat
         ∧ gWindowNextSlot st' = gWindowNextSlot st
         ∧ w_classification (deref st' v) = cls
         ∧ w_number (deref st' v) = number
         ∧ w_flags (deref st' v) = Z.lor (w_flags (deref st w)) WF_WHITE_BORDER_MASK).
Proof.
  intros Hwf. unfold list_in_array in Hwf. split_and!.
  - intros Hnone. unfold window_bring_to_front_by_class_with_flags. by rewrite Hnone.
  - intros Hnone. unfold window_bring_to_front_by_number. by rewrite Hnone.
  - intros w Hfind. unfold window_bring_to_front_by_class_with_flags. rewrite Hfind.
    apply scan_up_Some in Hfind as (Hw & Hc & _). apply Z.eqb_eq in Hc.
    destruct (window_bring_to_front_flagged st w (uint16 flags))
      as (v & st' & Heq & Hv & Hn & Hcls & Hnum & Hfl); [lia|].
    cbv zeta. rewrite Heq. simpl. exists v, st'.
    fold (deref st w) in Hc.
    split_and!; try done; try lia; try congruence.
  - intros w Hfind. unfold window_bring_to_front_by_number. rewrite Hfind.
    apply scan_up_Some in Hfind as (Hw & Hc & _).
    apply andb_true_iff in Hc as [Hc Hnb]. apply Z.eqb_eq in Hc, Hnb.
    destruct (window_bring_to_front_flagged st w WF_WHITE_BORDER_MASK)
      as (v & st' & Heq & Hv & Hn & Hcls & Hnum & Hfl); [lia|].
    cbv zeta. rewrite Heq. simpl. exists v, st'.
    fold (deref st w) in Hc, Hnb.
    split_and!; try done; try lia; try congruence.
Qed.

Lemma window_bring_to_front_by_class_spec_witness :
  window_bring_to_front_by_class (E := default_env) (Sc := default_screen) 99 st_z_order
  = Some (None, st_z_order)
  ∧ ∃ st',
      window_bring_to_front_by_class (E := default_env) (Sc := default_screen) 9 st_z_order
      = Some (Some 3%nat, st')
      ∧ w_classification (deref st' 3) = 9
      ∧ w_flags (deref st' 3) = 12288.
Proof.
  assert (Hwf : list_in_array st_z_order) by (vm_compute; lia).
  destruct (window_bring_to_front_by_class_spec (E := default_env) (Sc := default_screen)
              st_z_order 99 0 12288 Hwf) as (Hnone & _).
  destruct (window_bring_to_front_by_class_spec (E := default_env) (Sc := default_screen)
              st_z_order 9 0 12288 Hwf) as (_ & _ & Hfound & _).
  split; [exact (Hnone eq_refl)|].
  destruct (Hfound 1%nat eq_refl) as (v & st' & Heq & _ & _ & Hc & _ & Hf).
  assert (Heq' := Heq). vm_compute in Heq'. injection Heq' as <- <-.
  eexists. split; [exact Heq|]. split; reflexivity.
Defined.

(** ** Pushing other windows aside *)

Section PushOthers.
Context `{E : Env} `{Sc : Screen}.

(** The record the loop of [window_push_others_below] leaves in slot
    [j]. *)
Lemma window_push_others_below_deref st w1 :
  list_in_array st →
  let st' := window_push_others_below w1 st in
  let win1 := deref st w1 in
  gWindowNextSlot st' = gWindowNextSlot st
  ∧ ∀ j, deref st' j
      = let win2 := deref st j in
        if decide (j < RCT2_NEW_WINDOW st)%nat then
          if decide (w1 = j) then win2
          else if test (w_flags win2) (Z.lor WF_STICK_TO_BACK WF_STICK_TO_FRONT) then win2
          else if (w_x win1 + w_width win1 <? w_x win2) || (w_x win2 + w_width win2 <? w_x win1)
          then win2
          else if (w_y win1 + w_height win1 <? w_y win2) || (w_y win2 + w_height win2 <? w_y win1)
          then win2
          else if context_get_height <=? w_y win1 + w_height win1 + 80 then win2
          else set_w_y (w_y win1 + w_height win1 + 3) win2
        else win2.
Proof.
  intros Hwf st' win1. unfold st', window_push_others_below.
  pose proof (for_each_window_ind
    (λ i s, (i ≤ RCT2_NEW_WINDOW st)%nat →
       gWindowNextSlot s = gWindowNextSlot st
       ∧ length (g_window_list s) = length (g_window_list st)
       ∧ ∀ j, deref s j
           = let win2 := deref st j in
             if decide (j < i)%nat then
               if decide (w1 = j) then win2
               else if test (w_flags win2) (Z.lor WF_STICK_TO_BACK WF_STICK_TO_FRONT) then win2
               else if (w_x win1 + w_width win1 <? w_x win2)
                       || (w_x win2 + w_width win2 <? w_x win1)
               then win2
               else if (w_y win1 + w_height win1 <? w_y win2)
                       || (w_y win2 + w_height win2 <? w_y win1)
               then win2
               else if context_get_height <=? w_y win1 + w_height win1 + 80 then win2
               else set_w_y (w_y win1 + w_height win1 + 3) win2
             else win2)
    (λ _, true) (window_push_others_below_step w1) (RCT2_NEW_WINDOW st) 0 st) as Hind.
  cbn [Nat.add] in Hind.
  destruct Hind as (Hn & _ & Hd); [| |lia|by split].
  - intros _. split_and!; [done|done|]. intros j. cbv zeta. case_decide; [lia|done].
  - intros i s Hi IH Hle. destruct IH as (Hn & Hlen & Hd); [lia|]. cbv zeta in Hd.
    assert (H1 : deref s w1 = win1).
    { rewrite Hd. case_decide; [|done]. by rewrite decide_True. }
    assert (Hi' : deref s i = deref st i).
    { rewrite Hd. case_decide; [lia|done]. }
    assert (Hskip : gWindowNextSlot s = gWindowNextSlot st
              ∧ length (g_window_list s) = length (g_window_list st)
              ∧ ∀ j, deref s j
                  = if decide (j < S i)%nat then
                      if decide (j = i) then deref st j
                      else deref s j
                    else deref st j).
    { split_and!; [done|done|]. intros j. case_decide as Hj.
      - case_decide as Hji; [by subst|done].
      - rewrite Hd. case_decide; [lia|done]. }
    unfold window_push_others_below_step. cbv zeta. rewrite H1, Hi'.
    destruct (decide (w1 = i)) as [Hw1|Hw1].
    { split_and!; [done|done|]. intros j. rewrite Hd.
      repeat case_decide; try lia; try done; try (by subst). }
    destruct (test (w_flags (deref st i)) _) eqn:Hst.
    { split_and!; [done|done|]. intros j. rewrite Hd.
      repeat case_decide; try lia; try done; try (replace j with i by lia; by rewrite ?Hst). }
    destruct ((w_x win1 + w_width win1 <? w_x (deref st i))
              || (w_x (deref st i) + w_width (deref st i) <? w_x win1)) eqn:Hx.
    { split_and!; [done|done|]. intros j. rewrite Hd.
      repeat case_decide; try lia; try done; try (replace j with i by lia; by rewrite ?Hst, ?Hx). }
    destruct ((w_y win1 + w_height win1 <? w_y (deref st i))
              || (w_y (deref st i) + w_height (deref st i) <? w_y win1)) eqn:Hy.
    { split_and!; [done|done|]. intros j. rewrite Hd.
      repeat case_decide; try lia; try done; try (replace j with i by lia; by rewrite ?Hst, ?Hx, ?Hy). }
    destruct (context_get_height <=? _) eqn:Hroom.
    { split_and!; [done|done|]. intros j. rewrite Hd.
      repeat case_decide; try lia; try done; try (replace j with i by lia; by rewrite ?Hst, ?Hx, ?Hy). }
    set (push := w_y win1 + w_height win1 - w_y (deref st i) + 3).
    set (s2 := window_invalidate (Some i)
                 (modify i (λ win, set_w_y (w_y win + push) win)
                    (window_invalidate (Some i) s))).
    assert (H2 : gWindowNextSlot s2 = gWindowNextSlot st
                 ∧ length (g_window_list s2) = length (g_window_list st)
                 ∧ ∀ j, deref s2 j
                     = if decide (j = i) then set_w_y (w_y win1 + w_height win1 + 3) (deref st i)
                       else deref s j).
    { unfold s2. split_and!.
      - done.
      - rewrite window_list_window_invalidate, length_modify. done.
      - intros j. rewrite deref_window_invalidate. case_decide as Hj.
        + subst j. rewrite deref_modify_eq
            by (rewrite window_list_window_invalidate; unfold list_in_array in Hwf; lia).
          rewrite deref_window_invalidate, Hi'. unfold push, set_w_y. f_equal. lia.
        + rewrite deref_modify_ne by done. by rewrite deref_window_invalidate. }
    destruct H2 as (H2n & H2l & H2d).
    assert (Hgoal : ∀ s3, gWindowNextSlot s3 = gWindowNextSlot s2 →
              g_window_list s3 = g_window_list s2 →
              gWindowNextSlot s3 = gWindowNextSlot st
              ∧ length (g_window_list s3) = length (g_window_list st)
              ∧ ∀ j, deref s3 j
                  = if decide (j < S i)%nat then
                      if decide (w1 = j) then deref st j
                      else if test (w_flags (deref st j))
                                (Z.lor WF_STICK_TO_BACK WF_STICK_TO_FRONT) then deref st j
                      else if (w_x win1 + w_width win1 <? w_x (deref st j))
                              || (w_x (deref st j) + w_width (deref st j) <? w_x win1)
                      then deref st j
                      else if (w_y win1 + w_height win1 <? w_y (deref st j))
                              || (w_y (deref st j) + w_height (deref st j) <? w_y win1)
                      then deref st j
                      else set_w_y (w_y win1 + w_height win1 + 3) (deref st j)
                    else deref st j).
    { intros s3 H3n H3l. split_and!; [congruence|congruence|].
      intros j. unfold deref at 1. rewrite H3l. fold (deref s2 j). rewrite H2d.
      case_decide as Hj.
      - subst j. rewrite decide_True by lia. rewrite decide_False by done.
        by rewrite Hst, Hx, Hy.
      - rewrite Hd. repeat case_decide; try lia; done. }
    destruct (w_viewport (deref s2 i)); by apply Hgoal.
Qed.

End PushOthers.

(** [window_push_others_below] on a window list within its array opens
    and closes no window and leaves alone the window [w1] itself and
    every stick-to-back or stick-to-front window; it changes no window's
    x, size or flags.  When there is room below [w1] (its bottom edge is
    more than 80 above the screen height), afterwards no other open
    window without the stick flags touches [w1]: each one lies to a side
    of it, above it, or below its bottom edge. *)
Theorem window_push_others_below_clears `{E : Env} `{Sc : Screen} (st : ui_state) (w1 : nat) :
  list_in_array st →
  let st' := window_push_others_below w1 st in
  let win1 := deref st w1 in
  gWindowNextSlot st' = gWindowNextSlot st
  ∧ deref st' w1 = win1
  ∧ (∀ j, sticky (deref st j) → deref st' j = deref st j)
  ∧ (∀ j, w_x (deref st' j) = w_x (deref st j)
          ∧ w_width (deref st' j) = w_width (deref st j)
          ∧ w_height (deref st' j) = w_height (deref st j)
          ∧ w_flags (deref st' j) = w_flags (deref st j)
          ∧ (w_y (deref st' j) = w_y (deref st j)
             ∨ w_y (deref st' j) = w_y win1 + w_height win1 + 3))
  ∧ (w_y win1 + w_height win1 + 80 < context_get_height →
     ∀ j, (j < RCT2_NEW_WINDOW st)%nat → j ≠ w1 → ¬ sticky (deref st j) →
          let win2 := deref st' j in
          w_x win1 + w_width win1 < w_x win2 ∨ w_x win2 + w_width win2 < w_x win1
          ∨ w_y win1 + w_height win1 < w_y win2 ∨ w_y win2 + w_height win2 < w_y win1).
Proof.
  intros Hwf st' win1.
  destruct (window_push_others_below_deref st w1 Hwf) as [Hn Hd].
  fold st' in Hn, Hd. fold win1 in Hd. cbv zeta in Hd.
  split_and!.
  - done.
  - rewrite Hd. case_decide; [|done]. by rewrite decide_True.
  - intros j Hs. apply sticky_test in Hs. rewrite Hd.
    case_decide; [|done]. case_decide; [done|]. by rewrite Hs.
  - intros j. rewrite Hd. repeat case_match; simpl; split_and!; auto.
  - intros Hroom j Hj Hne Hns. cbv zeta. rewrite Hd.
    rewrite decide_True by done. rewrite decide_False by done.
    destruct (test _ _) eqn:Hst; [exfalso; apply Hns; by apply sticky_test|].
    destruct ((w_x win1 + w_width win1 <? w_x (deref st j))
              || (w_x (deref st j) + w_width (deref st j) <? w_x win1)) eqn:Hx.
    { apply orb_true_iff in Hx as [Hx|Hx]; apply Z.ltb_lt in Hx; lia. }
    destruct ((w_y win1 + w_height win1 <? w_y (deref st j))
              || (w_y (deref st j) + w_height (deref st j) <? w_y win1)) eqn:Hy.
    { apply orb_true_iff in Hy as [Hy|Hy]; apply Z.ltb_lt in Hy; lia. }
    destruct (context_get_height <=? w_y win1 + w_height win1 + 80) eqn:Hr;
      [apply Z.leb_le in Hr; lia|].
    simpl. lia.
Qed.

Lemma window_push_others_below_clears_witness :
  open_windows (window_push_others_below (E := default_env) (Sc := default_screen) 1 st_crowded)
  = [ plain_window 0 0 0 0 640 480 1;
      plain_window 9 1 100 80 200 150 0;
      viewport_window 14 0 150 233 120 90 0 0;
      plain_window 17 0 400 60 120 90 0;
      plain_window 1 0 0 0 640 28 2 ]
  ∧ vp_y (deref_vp (window_push_others_below (E := default_env) (Sc := default_screen) 1
                      st_crowded) 0) = 250
  ∧ deref (window_push_others_below (E := default_env) (Sc := default_screen) 1 st_crowded) 1
    = deref st_crowded 1.
Proof.
  assert (Hwf : list_in_array st_crowded) by (vm_compute; lia).
  destruct (window_push_others_below_clears (E := default_env) (Sc := default_screen)
              st_crowded 1 Hwf) as (_ & Hsame & _).
  split_and!; [reflexivity | reflexivity | exact Hsame].
Defined.

Section PushOthersRight.
Context `{E : Env} `{Sc : Screen}.

(** The record the loop of [window_push_others_right] leaves in slot
    [j]. *)
Lemma window_push_others_right_deref st w1 :
  list_in_array st →
  let st' := window_push_others_right w1 st in
  let win1 := deref st w1 in
  gWindowNextSlot st' = gWindowNextSlot st
  ∧ ∀ j, deref st' j
      = let win := deref st j in
        if decide (j < RCT2_NEW_WINDOW st)%nat then
          if decide (j = w1) then win
          else if test (w_flags win) (Z.lor WF_STICK_TO_BACK WF_STICK_TO_FRONT) then win
          else if w_x win1 + w_width win1 <=? w_x win then win
          else if w_x win + w_width win <=? w_x win1 then win
          else if w_y win1 + w_height win1 <=? w_y win then win
          else if w_y win + w_height win <=? w_y win1 then win
          else if context_get_width <=? w_x win1 + w_width win1 + 13 then win
          else set_w_x (w_x win + uint16 (w_x win1 + w_width win1 - w_x win + 3)) win
        else win.
Proof.
  intros Hwf st' win1. unfold st', window_push_others_right.
  pose proof (for_each_window_ind
    (λ i s, (i ≤ RCT2_NEW_WINDOW st)%nat →
       gWindowNextSlot s = gWindowNextSlot st
       ∧ length (g_window_list s) = length (g_window_list st)
       ∧ ∀ j, deref s j
           = let win := deref st j in
             if decide (j < i)%nat then
               if decide (j = w1) then win
               else if test (w_flags win) (Z.lor WF_STICK_TO_BACK WF_STICK_TO_FRONT) then win
               else if w_x win1 + w_width win1 <=? w_x win then win
               else if w_x win + w_width win <=? w_x win1 then win
               else if w_y win1 + w_height win1 <=? w_y win then win
               else if w_y win + w_height win <=? w_y win1 then win
               else if context_get_width <=? w_x win1 + w_width win1 + 13 then win
               else set_w_x (w_x win + uint16 (w_x win1 + w_width win1 - w_x win + 3)) win
             else win)
    (λ _, true) (window_push_others_right_step w1) (RCT2_NEW_WINDOW st) 0 st) as Hind.
  cbn [Nat.add] in Hind.
  destruct Hind as (Hn & _ & Hd); [| |lia|by split].
  - intros _. split_and!; [done|done|]. intros j. cbv zeta. case_decide; [lia|done].
  - intros i s Hi IH Hle. destruct IH as (Hn & Hlen & Hd); [lia|]. cbv zeta in Hd.
    assert (H1 : deref s w1 = win1).
    { rewrite Hd. case_decide; [|done]. by rewrite decide_True. }
    assert (Hi' : deref s i = deref st i).
    { rewrite Hd. case_decide; [lia|done]. }
    unfold window_push_others_right_step. cbv zeta. rewrite H1, Hi'.
    assert (Hkeep : ∀ s3,
              gWindowNextSlot s3 = gWindowNextSlot s →
              g_window_list s3 = g_window_list s →
              ∀ r, (∀ j, r j = if decide (j < S i)%nat then
                                 if decide (j = i) then deref st j else deref s j
                               else deref st j) →
              gWindowNextSlot s3 = gWindowNextSlot st
              ∧ length (g_window_list s3) = length (g_window_list st)
              ∧ ∀ j, deref s3 j = r j).
    { intros s3 H3n H3l r Hr. split_and!; [congruence|congruence|].
      intros j. unfold deref at 1. rewrite H3l. fold (deref s j). rewrite Hr.
      repeat case_decide; try done.
      - by subst.
      - rewrite Hd. case_decide; [lia|done]. }
    destruct (decide (i = w1)) as [Hw1|Hw1].
    { apply (Hkeep s eq_refl eq_refl). intros j. rewrite Hd.
      repeat case_decide; try lia; try done; try (by subst). }
    destruct (test (w_flags (deref st i)) _) eqn:Hst.
    { apply (Hkeep s eq_refl eq_refl). intros j. rewrite Hd.
      repeat case_decide; try lia; try done;
        try (replace j with i by lia; by rewrite ?Hst). }
    destruct (w_x win1 + w_width win1 <=? w_x (deref st i)) eqn:Hc1.
    { apply (Hkeep s eq_refl eq_refl). intros j. rewrite Hd.
      repeat case_decide; try lia; try done;
        try (replace j with i by lia; by rewrite ?Hst, ?Hc1). }
    destruct (w_x (deref st i) + w_width (deref st i) <=? w_x win1) eqn:Hc2.
    { apply (Hkeep s eq_refl eq_refl). intros j. rewrite Hd.
      repeat case_decide; try lia; try done;
        try (replace j with i by lia; by rewrite ?Hst, ?Hc1, ?Hc2). }
    destruct (w_y win1 + w_height win1 <=? w_y (deref st i)) eqn:Hc3.
    { apply (Hkeep s eq_refl eq_refl). intros j. rewrite Hd.
      repeat case_decide; try lia; try done;
        try (replace j with i by lia; by rewrite ?Hst, ?Hc1, ?Hc2, ?Hc3). }
    destruct (w_y (deref st i) + w_height (deref st i) <=? w_y win1) eqn:Hc4.
    { apply (Hkeep s eq_refl eq_refl). intros j. rewrite Hd.
      repeat case_decide; try lia; try done;
        try (replace j with i by lia; by rewrite ?Hst, ?Hc1, ?Hc2, ?Hc3, ?Hc4). }
    destruct (context_get_width <=? w_x win1 + w_width win1 + 13) eqn:Hroom.
    { apply (Hkeep (window_invalidate (Some i) s) eq_refl eq_refl). intros j. rewrite Hd.
      repeat case_decide; try lia; try done;
        try (replace j with i by lia; by rewrite ?Hst, ?Hc1, ?Hc2, ?Hc3, ?Hc4). }
    set (push := uint16 (w_x win1 + w_width win1 - w_x (deref st i) + 3)).
    set (s2 := window_invalidate (Some i)
                 (modify i (λ win, set_w_x (w_x win + push) win)
                    (window_invalidate (Some i) s))).
    assert (H2 : gWindowNextSlot s2 = gWindowNextSlot st
                 ∧ length (g_window_list s2) = length (g_window_list st)
                 ∧ ∀ j, deref s2 j
                     = if decide (j = i) then set_w_x (w_x (deref st i) + push) (deref st i)
                       else deref s j).
    { unfold s2. split_and!.
      - done.
      - rewrite window_list_window_invalidate, length_modify. done.
      - intros j. rewrite deref_window_invalidate. case_decide as Hj.
        + subst j. rewrite deref_modify_eq
            by (rewrite window_list_window_invalidate; unfold list_in_array in Hwf; lia).
          by rewrite deref_window_invalidate, Hi'.
        + rewrite deref_modify_ne by done. by rewrite deref_window_invalidate. }
    destruct H2 as (H2n & H2l & H2d).
    assert (Hgoal : ∀ s3, gWindowNextSlot s3 = gWindowNextSlot s2 →
              g_window_list s3 = g_window_list s2 →
              gWindowNextSlot s3 = gWindowNextSlot st
              ∧ length (g_window_list s3) = length (g_window_list st)
              ∧ ∀ j, deref s3 j
                  = if decide (j < S i)%nat then
                      if decide (j = w1) then deref st j
                      else if test (w_flags (deref st j))
                                (Z.lor WF_STICK_TO_BACK WF_STICK_TO_FRONT) then deref st j
                      else if w_x win1 + w_width win1 <=? w_x (deref st j) then deref st j
                      else if w_x (deref st j) + w_width (deref st j) <=? w_x win1
                      then deref st j
                      else if w_y win1 + w_height win1 <=? w_y (deref st j) then deref st j
                      else if w_y (deref st j) + w_height (deref st j) <=? w_y win1
                      then deref st j
                      else set_w_x
                             (w_x (deref st j)
                              + uint16 (w_x win1 + w_width win1 - w_x (deref st j) + 3))
                             (deref st j)
                    else deref st j).
    { intros s3 H3n H3l. split_and!; [congruence|congruence|].
      intros j. unfold deref at 1. rewrite H3l. fold (deref s2 j). rewrite H2d.
      case_decide as Hj.
      - subst j. rewrite decide_True by lia. rewrite decide_False by done.
        by rewrite Hst, Hc1, Hc2, Hc3, Hc4.
      - rewrite Hd. repeat case_decide; try lia; done. }
    destruct (w_viewport (deref s2 i)); by apply Hgoal.
Qed.

End PushOthersRight.

(** [window_push_others_right] on a window list within its array opens
    and closes no window, leaves alone the window itself and every
    stick-to-back or stick-to-front window, and changes no window's y,
    size or flags.  When there is room to the right of the window (its
    right edge is more than 13 left of the screen width), afterwards
    every other open window without the stick flags whose push distance
    fits 16 bits lies clear of the window: right of its right edge, left
    of it, below it or above it. *)
Theorem window_push_others_right_clears `{E : Env} `{Sc : Screen} (st : ui_state) (w1 : nat) :
  list_in_array st →
  let st' := window_push_others_right w1 st in
  let win1 := deref st w1 in
  gWindowNextSlot st' = gWindowNextSlot st
  ∧ deref st' w1 = win1
  ∧ (∀ j, sticky (deref st j) → deref st' j = deref st j)
  ∧ (∀ j, w_y (deref st' j) = w_y (deref st j)
          ∧ w_width (deref st' j) = w_width (deref st j)
          ∧ w_height (deref st' j) = w_height (deref st j)
          ∧ w_flags (deref st' j) = w_flags (deref st j))
  ∧ (w_x win1 + w_width win1 + 13 < context_get_width →
     ∀ j, (j < RCT2_NEW_WINDOW st)%nat → j ≠ w1 → ¬ sticky (deref st j) →
          w_x win1 + w_width win1 - w_x (deref st j) + 3 < 65536 →
          let win := deref st' j in
          w_x win1 + w_width win1 ≤ w_x win ∨ w_x win + w_width win ≤ w_x win1
          ∨ w_y win1 + w_height win1 ≤ w_y win ∨ w_y win + w_height win ≤ w_y win1).
Proof.
  intros Hwf st' win1.
  destruct (window_push_others_right_deref st w1 Hwf) as [Hn Hd].
  fold st' in Hn, Hd. fold win1 in Hd. cbv zeta in Hd.
  split_and!.
  - done.
  - rewrite Hd. case_decide; [|done]. by rewrite decide_True.
  - intros j Hs. apply sticky_test in Hs. rewrite Hd.
    case_decide; [|done]. case_decide; [done|]. by rewrite Hs.
  - intros j. rewrite Hd. repeat case_match; simpl; split_and!; auto.
  - intros Hroom j Hj Hne Hns Hfit. cbv zeta. rewrite Hd.
    rewrite decide_True by done. rewrite decide_False by done.
    destruct (test _ _) eqn:Hst; [exfalso; apply Hns; by apply sticky_test|].
    destruct (w_x win1 + w_width win1 <=? w_x (deref st j)) eqn:Hc1;
      [apply Z.leb_le in Hc1; lia|].
    destruct (w_x (deref st j) + w_width (deref st j) <=? w_x win1) eqn:Hc2;
      [apply Z.leb_le in Hc2; lia|].
    destruct (w_y win1 + w_height win1 <=? w_y (deref st j)) eqn:Hc3;
      [apply Z.leb_le in Hc3; lia|].
    destruct (w_y (deref st j) + w_height (deref st j) <=? w_y win1) eqn:Hc4;
      [apply Z.leb_le in Hc4; lia|].
    destruct (context_get_width <=? w_x win1 + w_width win1 + 13) eqn:Hr;
      [apply Z.leb_le in Hr; lia|].
    apply Z.leb_gt in Hc1. simpl. unfold uint16.
    rewrite Z.mod_small by lia. lia.
Qed.

Lemma window_push_others_right_clears_witness :
  open_windows (window_push_others_right (E := default_env) (Sc := default_screen) 1 st_crowded)
  = [ plain_window 0 0 0 0 640 480 1;
      plain_window 9 1 100 80 200 150 0;
      viewport_window 14 0 303 200 120 90 0 0;
      plain_window 17 0 400 60 120 90 0;
      plain_window 1 0 0 0 640 28 2 ]
  ∧ vp_x (deref_vp (window_push_others_right (E := default_env) (Sc := default_screen) 1
                      st_crowded) 0) = 306
  ∧ deref (window_push_others_right (E := default_env) (Sc := default_screen) 1 st_crowded) 1
    = deref st_crowded 1.
Proof.
  assert (Hwf : list_in_array st_crowded) by (vm_compute; lia).
  destruct (window_push_others_right_clears (E := default_env) (Sc := default_screen)
              st_crowded 1 Hwf) as (_ & Hsame & _).
  split_and!; [reflexivity | reflexivity | exact Hsame].
Defined.

(** ** Lookup and invalidation over the window list *)

Section Invalidate.
Context `{E : Env}.

Lemma for_each_window_invalidate (P : rct_window → bool) n :
  ∀ from st,
  (from + n ≤ length (g_window_list st))%nat →
  for_each_window P (λ w, window_invalidate (Some w)) from n st
  = fold_left (λ s c, call c s)
      (window_region <$> filter (λ win, P win = true) (take n (drop from (g_window_list st))))
      st.
Proof.
  induction n as [|n IH]; intros from st Hlen; simpl; [done|].
  assert (Hl : g_window_list st !! from = Some (deref st from)).
  { apply list_lookup_lookup_total_lt. lia. }
  rewrite (drop_S _ _ _ Hl). simpl. rewrite filter_cons.
  destruct (P (deref st from)) eqn:HP.
  - rewrite decide_True by done. simpl. rewrite IH by (simpl; lia). done.
  - rewrite decide_False by (by intros ?). by rewrite IH by lia.
Qed.

End Invalidate.

(** [window_find_by_class] and [window_find_by_number] return the first
    open window, in list order, with the class (and number), and null
    exactly when no open window has it; [window_get_main] is the lookup
    of the main window's class. *)
Theorem window_find_first `{E : Env} (st : ui_state) (cls number : Z) :
  (∀ w, window_find_by_class cls st = Some w
        ↔ (w < RCT2_NEW_WINDOW st)%nat ∧ w_classification (deref st w) = cls
          ∧ ∀ j, (j < w)%nat → w_classification (deref st j) ≠ cls)
  ∧ (window_find_by_class cls st = None
     ↔ ∀ j, (j < RCT2_NEW_WINDOW st)%nat → w_classification (deref st j) ≠ cls)
  ∧ (∀ w, window_find_by_number cls number st = Some w
          ↔ (w < RCT2_NEW_WINDOW st)%nat ∧ window_key (deref st w) = (cls, number)
            ∧ ∀ j, (j < w)%nat → window_key (deref st j) ≠ (cls, number))
  ∧ (window_find_by_number cls number st = None
     ↔ ∀ j, (j < RCT2_NEW_WINDOW st)%nat → window_key (deref st j) ≠ (cls, number))
  ∧ window_get_main st = window_find_by_class WC_MAIN_WINDOW st.
Proof.
  assert (Hkey : ∀ win, (w_classification win =? cls) && (w_number win =? number) = true
                        ↔ window_key win = (cls, number)).
  { intros win. unfold window_key. rewrite andb_true_iff, !Z.eqb_eq.
    split; [intros [-> ->]; done | intros H; by injection H]. }
  assert (Hkey' : ∀ win, (w_classification win =? cls) && (w_number win =? number) = false
                         ↔ window_key win ≠ (cls, number)).
  { intros win. rewrite <- Hkey. by destruct (_ && _). }
  unfold window_find_by_class, window_find_by_number, window_get_main, deref.
  split_and!.
  - intros w. rewrite scan_up_Some. rewrite Z.eqb_eq.
    split; intros (? & ? & Hj); (split; [lia|]; split; [done|]);
      intros j ?; apply Z.eqb_neq; apply Hj; lia.
  - rewrite scan_up_None.
    split; intros Hj j ?; apply Z.eqb_neq; apply Hj; lia.
  - intros w. rewrite scan_up_Some. rewrite Hkey.
    split; intros (? & ? & Hj); (split; [lia|]; split; [done|]);
      intros j ?; apply Hkey'; apply Hj; lia.
  - rewrite scan_up_None.
    split; intros Hj j ?; apply Hkey'; apply Hj; lia.
  - done.
Qed.

(** [window_invalidate_all], [window_invalidate_by_class] and
    [window_invalidate_by_number] on a window list within its array do
    nothing but mark regions dirty: one call for each open window (of
    the class, of the class and number), with the window's region, in
    list order. *)
Theorem window_invalidate_all_calls `{E : Env} (st : ui_state) (cls number : Z) :
  list_in_array st →
  window_invalidate_all st
  = fold_left (λ s c, call c s) (window_region <$> open_windows st) st
  ∧ window_invalidate_by_class cls st
    = fold_left (λ s c, call c s)
        (window_region <$> filter (λ win, w_classification win = cls) (open_windows st)) st
  ∧ window_invalidate_by_number cls number st
    = fold_left (λ s c, call c s)
        (window_region <$> filter (λ win, window_key win = (cls, number)) (open_windows st)) st.
Proof.
  intros Hwf. unfold list_in_array in Hwf.
  unfold window_invalidate_all, window_invalidate_by_class, window_invalidate_by_number,
    open_windows.
  rewrite !for_each_window_invalidate by (simpl; lia). rewrite drop_0.
  split_and!.
  - f_equal. f_equal. apply filter_all. done.
  - f_equal. f_equal. apply list_filter_iff. intros win. apply Z.eqb_eq.
  - f_equal. f_equal. apply list_filter_iff. intros win.
    unfold window_key. rewrite andb_true_iff, !Z.eqb_eq.
    split; [intros [-> ->]; done | intros H; by injection H].
Qed.

Lemma window_invalidate_all_calls_witness :
  ext_calls (window_invalidate_all st_moving)
  = [ gfx_set_dirty_blocks 0 0 640 480; gfx_set_dirty_blocks 100 80 300 230;
      gfx_set_dirty_blocks 300 200 420 290 ]
  ∧ ext_calls (window_invalidate_by_class 14 st_moving)
    = [ gfx_set_dirty_blocks 300 200 420 290 ].
Proof.
  assert (Hwf : list_in_array st_moving) by (vm_compute; lia).
  destruct (window_invalidate_all_calls (E := default_env) st_moving 14 0 Hwf)
    as (Hall & Hcls & _).
  rewrite Hall, Hcls. split; reflexivity.
Defined.

(** ** Clipping a render surface to a rectangle *)

(** [window_draw_single_clip] on a descriptor with a non-empty region
    gives up exactly when the region and the rectangle do not meet.
    Otherwise the clipped descriptor covers their intersection, keeps
    the row stride (width plus pitch) and the zoom level, and its bits
    are advanced to the new origin: by the columns skipped plus the row
    stride times the rows skipped. *)
Theorem window_draw_single_clip_intersection (dpi : rct_drawpixelinfo) (left top right bottom : Z) :
  0 < dpi_width dpi → 0 < dpi_height dpi →
  let x0 := Z.max (dpi_x dpi) left in
  let x1 := Z.min (dpi_x dpi + dpi_width dpi) right in
  let y0 := Z.max (dpi_y dpi) top in
  let y1 := Z.min (dpi_y dpi + dpi_height dpi) bottom in
  match window_draw_single_clip dpi left top right bottom with
  | Some d =>
      x0 < x1 ∧ y0 < y1
      ∧ dpi_x d = x0 ∧ dpi_y d = y0
      ∧ dpi_width d = x1 - x0 ∧ dpi_height d = y1 - y0
      ∧ dpi_width d + dpi_pitch d = dpi_width dpi + dpi_pitch dpi
      ∧ dpi_bits d
        = dpi_bits dpi + (x0 - dpi_x dpi)
          + (dpi_width dpi + dpi_pitch dpi) * (y0 - dpi_y dpi)
      ∧ dpi_zoom_level d = dpi_zoom_level dpi
  | None => x1 ≤ x0 ∨ y1 ≤ y0
  end.
Proof.
  intros Hw Hh x0 x1 y0 y1. subst x0 x1 y0 y1.
  destruct dpi as [bits x y width height pitch zoom]. simpl in *.
  unfold window_draw_single_clip. simpl.
  repeat match goal with
         | |- context [if ?c then _ else _] => destruct c eqn:?; simpl
         end;
    repeat match goal with
           | H : (_ <? _) = true |- _ => apply Z.ltb_lt in H
           | H : (_ <? _) = false |- _ => apply Z.ltb_ge in H
           | H : (_ <=? _) = true |- _ => apply Z.leb_le in H
           | H : (_ <=? _) = false |- _ => apply Z.leb_gt in H
           end;
    try lia;
    (split_and!; try lia; rewrite ?Z.max_r, ?Z.max_l by lia; ring).
Qed.

Lemma window_draw_single_clip_intersection_witness :
  match window_draw_single_clip screen_dpi 50 0 100 50 with
  | Some d =>
      dpi_x d = 50 ∧ dpi_width d = 50 ∧ dpi_height d = 50
      ∧ dpi_width d + dpi_pitch d = 640 ∧ dpi_bits d = 50
  | None => False
  end.
Proof.
  pose proof (window_draw_single_clip_intersection screen_dpi 50 0 100 50) as H.
  cbv zeta in H.
  change (window_draw_single_clip screen_dpi 50 0 100 50)
    with (Some (mk_dpi 50 50 0 50 50 590 0)) in H |- *.
  destruct H as (_ & _ & Hx & _ & Hw & Hh & Hs & Hb & _); [simpl; lia | simpl; lia |].
  split_and!; [exact Hx | exact Hw | exact Hh | exact Hs | exact Hb].
Defined.

(** ** No visible pixel is left out *)

Section DrawComplete.
Context `{E : Env}.
Hypothesis Hk : paint_handlers_keep_layout.
Hypothesis Hv : paint_handlers_keep_visibility.

Lemma layout_length st st' :
  layout st' = layout st → length (g_window_list st') = length (g_window_list st).
Proof.
  unfold layout. intros H.
  assert (Hl : length (geometry <$> g_window_list st') = length (geometry <$> g_window_list st))
    by congruence.
  by rewrite !length_fmap in Hl.
Qed.

Lemma window_draw_single_clip_contains dpi left top right bottom px py :
  dpi_contains px py dpi →
  left ≤ px < right → top ≤ py < bottom →
  ∃ d, window_draw_single_clip dpi left top right bottom = Some d ∧ dpi_contains px py d.
Proof.
  unfold dpi_contains. intros Hin Hx Hy.
  destruct dpi as [bits x y width height pitch zoom]. simpl in *.
  unfold window_draw_single_clip. simpl.
  repeat match goal with
         | |- context [if ?c then _ else _] => destruct c eqn:?; simpl
         end;
    repeat match goal with
           | H : (_ <? _) = true |- _ => apply Z.ltb_lt in H
           | H : (_ <? _) = false |- _ => apply Z.ltb_ge in H
           | H : (_ <=? _) = true |- _ => apply Z.leb_le in H
           | H : (_ <=? _) = false |- _ => apply Z.leb_gt in H
           end;
    try lia;
    (eexists; split; [reflexivity|]; simpl; lia).
Qed.

Lemma visibility_window_is_visible o st w :
  w_visibility (deref st w) = VC_VISIBLE →
  w_visibility (deref (window_is_visible o st).2 w) = VC_VISIBLE.
Proof.
  intros Hvis. destruct o as [v|]; [|done].
  destruct (decide (v = w)) as [->|Hne].
  - unfold window_is_visible. by rewrite Hvis.
  - unfold window_is_visible.
    repeat case_match; simpl; try done;
      rewrite ?deref_modify_vp, deref_modify_ne by done; done.
Qed.

Lemma visibility_window_draw_single dpi v left top right bottom st w :
  w_visibility (deref st w) = VC_VISIBLE →
  w_visibility (deref (window_draw_single dpi v left top right bottom st).1 w) = VC_VISIBLE.
Proof.
  intros Hvis. destruct Hv as [Hvi Hvp]. unfold window_draw_single.
  destruct (window_draw_single_clip _ _ _ _ _); [|done]. simpl.
  unfold window_event_paint_call, window_event_invalidate_call.
  assert (H1 : w_visibility
                 (deref match event_invalidate (w_event_handlers (deref st v)) with
                        | Some invalidate => invalidate v st
                        | None => st
                        end w) = VC_VISIBLE).
  { destruct (event_invalidate _) eqn:Hh; [|done]. by rewrite (Hvi _ _ Hh). }
  match goal with
  | |- context [event_paint ?h] => destruct (event_paint h) eqn:Hp
  end.
  - by rewrite (Hvp _ _ Hp).
  - done.
Qed.

Lemma visibility_window_draw_paint_loop n dpi w0 left top right bottom w :
  ∀ v st,
  w_visibility (deref st w) = VC_VISIBLE →
  w_visibility (deref (window_draw_paint_loop n dpi w0 v left top right bottom st).1 w)
  = VC_VISIBLE.
Proof.
  induction n as [|n IH]; intros v st Hvis; simpl; [done|].
  case_decide; [|done]. simpl. apply IH.
  destruct (_ || _); [|done].
  destruct (window_is_visible (Some v) st).1.
  - apply visibility_window_draw_single. by apply visibility_window_is_visible.
  - simpl. by apply visibility_window_is_visible.
Qed.

(** With the visibility of [w] cached as visible, [window_draw] paints
    every pixel of [w] in the rectangle and on the surface that no
    non-transparent window in front of [w] hides. *)
Lemma window_draw_complete dpi w :
  ∀ fuel left top right bottom st,
  (w < RCT2_NEW_WINDOW st)%nat → (w < length (g_window_list st))%nat →
  w_visibility (deref st w) = VC_VISIBLE →
  (Z.to_nat (right - left) + Z.to_nat (bottom - top) < fuel)%nat →
  ∃ res,
    window_draw fuel dpi w left top right bottom st = Some res
    ∧ layout res.1 = layout st
    ∧ w_visibility (deref res.1 w) = VC_VISIBLE
    ∧ ∀ px py,
        left ≤ px < right → top ≤ py < bottom →
        window_contains px py (deref st w) → dpi_contains px py dpi →
        (∀ j, (w < j < RCT2_NEW_WINDOW st)%nat →
              test (w_flags (deref st j)) WF_TRANSPARENT = false →
              ¬ window_contains px py (deref st j)) →
        ∃ d, (w, d) ∈ res.2 ∧ dpi_contains px py d.
Proof.
  induction fuel as [|fuel IH]; intros l t r b st Hw Hlen Hvis Hfuel; [lia|].
  simpl.
  assert (Hcached : window_is_visible (Some w) st = (true, st)).
  { unfold window_is_visible. by rewrite Hvis. }
  rewrite Hcached. simpl.
  unfold window_draw_split.
  destruct (scan_up _ _ _ _) as [tj|] eqn:Hscan; simpl.
  - apply scan_up_Some in Hscan as (Hj & Hocc & _).
    pose proof Hocc as Hocc'.
    apply window_occludes_true in Hocc as (Hx & Hy & Hx' & Hy' & Hop).
    fold (deref st tj) in *.
    set (tw := deref st tj) in *.
    assert (Hsplit : ∀ l1 t1 r1 b1 l2 t2 r2 b2,
              (Z.to_nat (r1 - l1) + Z.to_nat (b1 - t1) < fuel)%nat →
              (Z.to_nat (r2 - l2) + Z.to_nat (b2 - t2) < fuel)%nat →
              (∀ px py, l ≤ px < r → t ≤ py < b →
                        (l1 ≤ px < r1 ∧ t1 ≤ py < b1) ∨ (l2 ≤ px < r2 ∧ t2 ≤ py < b2)) →
              ∃ res1 res2,
                window_draw fuel dpi w l1 t1 r1 b1 st = Some res1
                ∧ geometry (deref res1.1 tj) = geometry tw
                ∧ window_draw fuel dpi w l2 t2 r2 b2 res1.1 = Some res2
                ∧ layout res2.1 = layout st
                ∧ w_visibility (deref res2.1 w) = VC_VISIBLE
                ∧ ∀ px py,
                    l ≤ px < r → t ≤ py < b →
                    window_contains px py (deref st w) → dpi_contains px py dpi →
                    (∀ j, (w < j < RCT2_NEW_WINDOW st)%nat →
                          test (w_flags (deref st j)) WF_TRANSPARENT = false →
                          ¬ window_contains px py (deref st j)) →
                    ∃ d, (w, d) ∈ res1.2 ++ res2.2 ∧ dpi_contains px py d).
    { intros l1 t1 r1 b1 l2 t2 r2 b2 Hm1 Hm2 Hcover.
      destruct (IH l1 t1 r1 b1 st Hw Hlen Hvis Hm1) as (res1 & Heq1 & Hl1 & Hv1 & Hc1).
      destruct (IH l2 t2 r2 b2 res1.1) as (res2 & Heq2 & Hl2 & Hv2 & Hc2);
        [by rewrite (layout_next _ _ Hl1) | by rewrite (layout_length _ _ Hl1) | done | done |].
      exists res1, res2. split_and!; [done|by apply layout_deref|done|congruence|done|].
      intros px py Hpx Hpy Hin Hdpi Hfree.
      destruct (Hcover px py Hpx Hpy) as [[? ?]|[? ?]].
      - destruct (Hc1 px py) as (d & Hd & Hind); [done|done|done|done|done|].
        exists d. split; [|done]. apply elem_of_app. by left.
      - destruct (Hc2 px py) as (d & Hd & Hind); [done|done| |done| |].
        + destruct (geometry_fields _ _ (layout_deref st res1.1 w Hl1)) as (Hgx&Hgy&Hgw&Hgh&_).
          unfold window_contains in *. rewrite Hgx, Hgy, Hgw, Hgh. done.
        + intros j Hjr Hopj Hinj.
          destruct (geometry_fields _ _ (layout_deref st res1.1 j Hl1)) as (Hgx&Hgy&Hgw&Hgh&Hgf).
          rewrite (layout_next _ _ Hl1) in Hjr. rewrite Hgf in Hopj.
          apply (Hfree j Hjr Hopj).
          unfold window_contains in *. rewrite <- Hgx, <- Hgy, <- Hgw, <- Hgh. done.
        + exists d. split; [|done]. apply elem_of_app. by right. }
    destruct (l <? w_x tw) eqn:Hc1; [|destruct (w_x tw + w_width tw <? r) eqn:Hc2;
      [|destruct (t <? w_y tw) eqn:Hc3; [|destruct (w_y tw + w_height tw <? b) eqn:Hc4]]].
    + destruct (Hsplit l t (w_x tw) b (w_x tw) t r b)
        as (res1 & res2 & Heq1 & Hg & Heq2 & Hl2 & Hv2 & Hc); [lia|lia|intros; lia|].
      destruct (geometry_fields _ _ Hg) as (Hgx & Hgy & Hgw & Hgh & _).
      rewrite Heq1. simpl. rewrite Hgx, Heq2. simpl. by eexists.
    + destruct (Hsplit l t (w_x tw + w_width tw) b (w_x tw + w_width tw) t r b)
        as (res1 & res2 & Heq1 & Hg & Heq2 & Hl2 & Hv2 & Hc); [lia|lia|intros; lia|].
      destruct (geometry_fields _ _ Hg) as (Hgx & Hgy & Hgw & Hgh & _).
      rewrite Heq1. simpl. rewrite Hgx, Hgw, Heq2. simpl. by eexists.
    + destruct (Hsplit l t r (w_y tw) l (w_y tw) r b)
        as (res1 & res2 & Heq1 & Hg & Heq2 & Hl2 & Hv2 & Hc); [lia|lia|intros; lia|].
      destruct (geometry_fields _ _ Hg) as (Hgx & Hgy & Hgw & Hgh & _).
      rewrite Heq1. simpl. rewrite Hgy, Heq2. simpl. by eexists.
    + destruct (Hsplit l t r (w_y tw + w_height tw) l (w_y tw + w_height tw) r b)
        as (res1 & res2 & Heq1 & Hg & Heq2 & Hl2 & Hv2 & Hc); [lia|lia|intros; lia|].
      destruct (geometry_fields _ _ Hg) as (Hgx & Hgy & Hgw & Hgh & _).
      rewrite Heq1. simpl. rewrite Hgy, Hgh, Heq2. simpl. by eexists.
    + eexists. split_and!; [done|done|done|].
      intros px py Hpx Hpy Hin Hdpi Hfree. exfalso.
      apply (Hfree tj); [lia|done|]. fold tw. unfold window_contains. lia.
  - set (l' := Z.max l (w_x (deref st w))).
    set (t' := Z.max t (w_y (deref st w))).
    set (r' := Z.min r (w_x (deref st w) + w_width (deref st w))).
    set (b' := Z.min b (w_y (deref st w) + w_height (deref st w))).
    assert (Hclamp : ∀ px py, l ≤ px < r → t ≤ py < b →
              window_contains px py (deref st w) → l' ≤ px < r' ∧ t' ≤ py < b').
    { unfold window_contains, l', t', r', b'. intros. lia. }
    destruct (r' <=? l') eqn:Hrl.
    { eexists. split_and!; [done|done|done|].
      intros px py Hpx Hpy Hin _ _. destruct (Hclamp px py Hpx Hpy Hin). lia. }
    destruct (b' <=? t') eqn:Hbt.
    { eexists. split_and!; [done|done|done|].
      intros px py Hpx Hpy Hin _ _. destruct (Hclamp px py Hpx Hpy Hin). lia. }
    eexists. split; [done|].
    destruct (window_draw_paint_loop_inv (length (g_window_list st) - w) dpi w w l' t' r' b' st Hk)
      as [Hl _].
    split_and!; [done|by apply visibility_window_draw_paint_loop|].
    intros px py Hpx Hpy Hin Hdpi _.
    destruct (Hclamp px py Hpx Hpy Hin) as [Hcx Hcy].
    destruct (window_draw_single_clip_contains dpi l' t' r' b' px py Hdpi Hcx Hcy)
      as (d & Hclip & Hind).
    exists d. split; [|done].
    destruct (length (g_window_list st) - w)%nat as [|n] eqn:Hn; [lia|].
    simpl. rewrite decide_True by done.
    rewrite bool_decide_eq_true_2 by done. simpl.
    rewrite Hcached. simpl.
    apply elem_of_app. left.
    unfold window_draw_single. rewrite Hclip. simpl. by left.
Qed.

Lemma window_is_visible_true_cached st w :
  (w < length (g_window_list st))%nat →
  (window_is_visible (Some w) st).1 = true →
  w_visibility (deref (window_is_visible (Some w) st).2 w) = VC_VISIBLE.
Proof.
  intros Hw. unfold window_is_visible.
  repeat case_match; simpl; try done;
    intros _; rewrite ?deref_modify_vp, deref_modify_eq by done; done.
Qed.

End DrawComplete.

(** [window_draw] leaves no visible pixel out.  With invalidate and
    paint handlers that do not move, resize, reflag, open or close
    windows and leave the visibility cache alone, for an open window
    [w] that [window_is_visible] reports visible: every pixel of the
    rectangle that lies on the render surface and on [w], and on none of
    the non-transparent windows in front of [w], is in the region of a
    paint call issued for [w]. *)
Theorem window_draw_paints_visible `{E : Env} (dpi : rct_drawpixelinfo) (w : nat)
    (left top right bottom : Z) (st : ui_state) (fuel : nat) :
  paint_handlers_keep_layout → paint_handlers_keep_visibility →
  (w < RCT2_NEW_WINDOW st ≤ length (g_window_list st))%nat →
  (window_is_visible (Some w) st).1 = true →
  (Z.to_nat (right - left) + Z.to_nat (bottom - top) ≤ fuel)%nat →
  ∃ st' calls,
    window_draw (S fuel) dpi w left top right bottom st = Some (st', calls)
    ∧ ∀ px py,
        left ≤ px < right → top ≤ py < bottom →
        window_contains px py (deref st w) → dpi_contains px py dpi →
        (∀ j, (w < j < RCT2_NEW_WINDOW st)%nat →
              test (w_flags (deref st j)) WF_TRANSPARENT = false →
              ¬ window_contains px py (deref st j)) →
        ∃ d, (w, d) ∈ calls ∧ dpi_contains px py d.
Proof.
  intros Hk Hv Hw Hvis Hfuel.
  pose proof (layout_window_is_visible (Some w) st) as Hl1.
  pose proof (window_is_visible_true_cached st w ltac:(lia) Hvis) as Hv1.
  set (st1 := (window_is_visible (Some w) st).2) in *.
  destruct (window_draw_complete Hk Hv dpi w (S fuel) left top right bottom st1)
    as ([st' calls] & Heq & _ & _ & Hc).
  { rewrite (layout_next _ _ Hl1). lia. }
  { rewrite (layout_length _ _ Hl1). lia. }
  { done. }
  { lia. }
  exists st', calls. split.
  - rewrite <- Heq. cbn [window_draw]. rewrite Hvis. fold st1.
    assert (Hcached : window_is_visible (Some w) st1 = (true, st1)).
    { unfold window_is_visible. by rewrite Hv1. }
    rewrite Hcached. done.
  - intros px py Hpx Hpy Hin Hdpi Hfree.
    apply Hc; try done.
    + destruct (geometry_fields _ _ (layout_deref st st1 w Hl1)) as (Hgx&Hgy&Hgw&Hgh&_).
      unfold window_contains in *. rewrite Hgx, Hgy, Hgw, Hgh. done.
    + intros j Hjr Hopj Hinj.
      destruct (geometry_fields _ _ (layout_deref st st1 j Hl1)) as (Hgx&Hgy&Hgw&Hgh&Hgf).
      rewrite (layout_next _ _ Hl1) in Hjr. rewrite Hgf in Hopj.
      apply (Hfree j Hjr Hopj).
      unfold window_contains in *. rewrite <- Hgx, <- Hgy, <- Hgw, <- Hgh. done.
Qed.

Lemma window_draw_paints_visible_witness :
  ∃ st' calls,
    window_draw (E := default_env) 1121 screen_dpi 0 0 0 640 480 st_overlap = Some (st', calls)
    ∧ ∃ d, (0%nat, d) ∈ calls ∧ dpi_contains 70 20 d.
Proof.
  assert (Hk : paint_handlers_keep_layout (E := default_env)).
  { split; intros h f Hf; discriminate. }
  assert (Hv : paint_handlers_keep_visibility (E := default_env)).
  { split; intros h f Hf; discriminate. }
  destruct (window_draw_paints_visible (E := default_env) screen_dpi 0 0 0 640 480
              st_overlap 1120 Hk Hv) as (st' & calls & Heq & Hc).
  - vm_compute. lia.
  - reflexivity.
  - vm_compute. lia.
  - exists st', calls. split; [exact Heq|].
    apply (Hc 70 20); [lia|lia| | |].
    + unfold window_contains. simpl. lia.
    + unfold dpi_contains. simpl. lia.
    + intros j Hj _. change (RCT2_NEW_WINDOW st_overlap) with 2%nat in Hj.
      assert (j = 1%nat) as -> by lia.
      unfold window_contains. simpl. lia.
Defined.

(** ** The anchor chosen when scrolling to a location *)

Section ScrollAnchor.
Context `{E : Env}.




End ScrollAnchor.



(** ** Relocating windows after the screen was resized *)

Section Relocate.
Context `{E : Env} `{Sc : Screen}.

Lemma moved_count_S width height st i :
  list_in_array st → (i < RCT2_NEW_WINDOW st)%nat →
  length (filter (λ win, window_in_view width height win = false)
            (take (S i) (open_windows st)))
  = (length (filter (λ win, window_in_view width height win = false)
               (take i (open_windows st)))
     + if window_in_view width height (deref st i) then 0 else 1)%nat.
Proof.
  intros Hwf Hi.
  rewrite (take_S_r _ _ _ (open_windows_lookup st i Hi Hwf)).
  rewrite filter_app, length_app, filter_cons.
  by destruct (window_in_view width height (deref st i)).
Qed.

Lemma window_relocate_windows_loop_spec width height st :
  list_in_array st →
  let moved := λ i, Z.of_nat (length (filter (λ win, window_in_view width height win = false)
                                        (take i (open_windows st)))) in
  let placed := λ j,
    if window_in_view width height (deref st j) then deref st j
    else set_w_y (8 * (moved j + 1) + TOP_TOOLBAR_HEIGHT + 1)
           (set_w_x (8 * (moved j + 1)) (deref st j)) in
  ∀ n from loc s,
  (from + n ≤ RCT2_NEW_WINDOW st)%nat →
  loc = 8 * (moved from + 1) →
  gWindowNextSlot s = gWindowNextSlot st →
  length (g_window_list s) = length (g_window_list st) →
  (∀ j, deref s j = if decide (j < from)%nat then placed j else deref st j) →
  let r := window_relocate_windows_loop width height from n (loc, s) in
  gWindowNextSlot r.2 = gWindowNextSlot st
  ∧ ∀ j, deref r.2 j = if decide (j < from + n)%nat then placed j else deref st j.
Proof.
  intros Hwf moved placed.
  induction n as [|n IH]; intros from loc s Hle Hloc Hn Hlen Hd;
    cbn [window_relocate_windows_loop snd].
  - split; [done|]. intros j. rewrite Hd. by rewrite Nat.add_0_r.
  - assert (Hi : deref s from = deref st from).
    { rewrite Hd. case_decide; [lia|done]. }
    assert (Hstep : ∃ loc' s',
              window_relocate_windows_step width height from (loc, s) = (loc', s')
              ∧ loc' = 8 * (moved (S from) + 1)
              ∧ gWindowNextSlot s' = gWindowNextSlot st
              ∧ length (g_window_list s') = length (g_window_list st)
              ∧ ∀ j, deref s' j = if decide (j < S from)%nat then placed j else deref st j).
    { unfold window_relocate_windows_step. rewrite Hi.
      fold (window_in_view width height (deref st from)).
      assert (Hm : moved (S from)
                   = moved from + if window_in_view width height (deref st from) then 0 else 1).
      { unfold moved. rewrite moved_count_S by (done || lia).
        destruct (window_in_view width height (deref st from)); lia. }
      destruct (window_in_view width height (deref st from)) eqn:Hin.
      - exists loc, s. split_and!; [done|lia|done|done|].
        intros j. rewrite Hd. repeat case_decide; try lia; try done.
        replace j with from by lia. unfold placed. by rewrite Hin.
      - set (s2 := modify from (set_w_y (loc + TOP_TOOLBAR_HEIGHT + 1))
                     (modify from (set_w_x loc) s)).
        assert (H2 : ∀ j, deref s2 j
                       = if decide (j = from)
                         then set_w_y (loc + TOP_TOOLBAR_HEIGHT + 1)
                                (set_w_x loc (deref st from))
                         else deref s j).
        { intros j. unfold s2. case_decide as Hj.
          - subst j. rewrite deref_modify_eq
              by (rewrite length_modify; unfold list_in_array in Hwf; lia).
            rewrite deref_modify_eq by (unfold list_in_array in Hwf; lia).
            by rewrite Hi.
          - by rewrite !deref_modify_ne. }
        assert (Hfin : ∀ s3, gWindowNextSlot s3 = gWindowNextSlot s2 →
                  g_window_list s3 = g_window_list s2 →
                  gWindowNextSlot s3 = gWindowNextSlot st
                  ∧ length (g_window_list s3) = length (g_window_list st)
                  ∧ ∀ j, deref s3 j
                      = if decide (j < S from)%nat then placed j else deref st j).
        { intros s3 H3n H3l. split_and!.
          - by rewrite H3n.
          - rewrite H3l. unfold s2. by rewrite !length_modify.
          - intros j. unfold deref at 1. rewrite H3l. fold (deref s2 j). rewrite H2.
            case_decide as Hj.
            + subst j. rewrite decide_True by lia. unfold placed. rewrite Hin.
              by rewrite Hloc.
            + rewrite Hd. repeat case_decide; try lia; done. }
        destruct (w_viewport (deref s2 from)) as [q|].
        + eexists _, _. split; [reflexivity|]. split; [lia|]. by apply Hfin.
        + eexists _, _. split; [reflexivity|]. split; [lia|]. by apply Hfin. }
    destruct Hstep as (loc' & s' & Heq & Hloc' & Hn' & Hlen' & Hd').
    rewrite Heq.
    destruct (IH (S from) loc' s') as [G1 G2]; try done; [lia|].
    split; [done|]. intros j. rewrite G2.
    replace (S from + n)%nat with (from + S n)%nat by lia. done.
Qed.

End Relocate.

(** [window_relocate_windows] on a window list within its array opens
    and closes no window and leaves every window alone that is in view
    on the new screen (x + 10 left of the width and y + 10 above the
    height; for the stick-to-back and stick-to-front windows y - 22
    above the height).  The other windows are cascaded: the n-th of them
    in list order is put at x = 8 n, y = 8 n + TOP_TOOLBAR_HEIGHT + 1,
    with its size and flags unchanged. *)
Theorem window_relocate_windows_cascade `{E : Env} `{Sc : Screen}
    (width height : Z) (st : ui_state) :
  list_in_array st →
  let st' := window_relocate_windows width height st in
  gWindowNextSlot st' = gWindowNextSlot st
  ∧ ∀ j, (j < RCT2_NEW_WINDOW st)%nat →
      if window_in_view width height (deref st j) then deref st' j = deref st j
      else
        let n := Z.of_nat (length (filter (λ win, window_in_view width height win = false)
                                     (take (S j) (open_windows st)))) in
        deref st' j
        = set_w_y (8 * n + TOP_TOOLBAR_HEIGHT + 1) (set_w_x (8 * n) (deref st j)).
Proof.
  intros Hwf st'. unfold st', window_relocate_windows.
  destruct (window_relocate_windows_loop_spec width height st Hwf
              (RCT2_NEW_WINDOW st) 0 8 st) as [Hn Hd]; try done.
  split; [done|].
  intros j Hj. rewrite Hd. rewrite decide_True by lia.
  destruct (window_in_view width height (deref st j)) eqn:Hin; [done|].
  cbv zeta. rewrite moved_count_S by done. rewrite Hin.
  rewrite Nat2Z.inj_add. done.
Qed.

Lemma window_relocate_windows_cascade_witness :
  open_windows (window_relocate_windows (E := default_env) (Sc := default_screen)
                  640 480 st_offscreen)
  = [ plain_window 0 0 0 0 640 480 1;
      plain_window 9 1 8 36 200 150 0;
      plain_window 14 0 300 200 120 90 0;
      viewport_window 17 0 16 44 120 90 0 0 ]
  ∧ deref (window_relocate_windows (E := default_env) (Sc := default_screen)
             640 480 st_offscreen) 2
    = deref st_offscreen 2.
Proof.
  assert (Hwf : list_in_array st_offscreen) by (vm_compute; lia).
  destruct (window_relocate_windows_cascade (E := default_env) (Sc := default_screen)
              640 480 st_offscreen Hwf) as [_ Hd].
  split; [reflexivity|].
  exact (Hd 2%nat ltac:(vm_compute; lia)).
Defined.

(** ** Invalidating a widget by class and number *)

Section WidgetInvalidate.
Context `{E : Env}.

Lemma for_each_window_widget_invalidate (P : rct_window → bool) widgetIndex n :
  ∀ from st,
  (from + n ≤ length (g_window_list st))%nat →
  for_each_window P (λ w, widget_invalidate w widgetIndex) from n st
  = fold_left (λ s c, call c s)
      (omap (widget_region widgetIndex)
         (filter (λ win, P win = true) (take n (drop from (g_window_list st)))))
      st.
Proof.
  induction n as [|n IH]; intros from st Hlen; simpl; [done|].
  assert (Hl : g_window_list st !! from = Some (deref st from)).
  { apply list_lookup_lookup_total_lt. lia. }
  rewrite (drop_S _ _ _ Hl). simpl. rewrite filter_cons.
  destruct (P (deref st from)) eqn:HP.
  - rewrite decide_True by done. simpl.
    unfold widget_invalidate, widget_region. cbv zeta.
    destruct (wd_left _ =? -2); simpl; by rewrite IH by (simpl; lia).
  - rewrite decide_False by (by intros ?). by rewrite IH by lia.
Qed.

End WidgetInvalidate.

(** [widget_invalidate_by_class] and [widget_invalidate_by_number] on a
    window list within its array do nothing but mark regions dirty: for
    each open window of the class (and number), in list order, the
    region of its widget [widgetIndex], one pixel wider and higher than
    the widget's bounds; no region for a window where the widget's left
    is -2. *)
Theorem widget_invalidate_by_class_calls (st : ui_state) (cls number : Z) (widgetIndex : nat) :
  list_in_array st →
  widget_invalidate_by_class cls widgetIndex st
  = fold_left (λ s c, call c s)
      (omap (widget_region widgetIndex)
         (filter (λ win, w_classification win = cls) (open_windows st))) st
  ∧ widget_invalidate_by_number cls number widgetIndex st
    = fold_left (λ s c, call c s)
        (omap (widget_region widgetIndex)
           (filter (λ win, window_key win = (cls, number)) (open_windows st))) st.
Proof.
  intros Hwf. unfold list_in_array in Hwf.
  unfold widget_invalidate_by_class, widget_invalidate_by_number, open_windows.
  rewrite !for_each_window_widget_invalidate by (simpl; lia). rewrite drop_0.
  split.
  - f_equal. f_equal. apply list_filter_iff. intros win. apply Z.eqb_eq.
  - f_equal. f_equal. apply list_filter_iff. intros win.
    unfold window_key. rewrite andb_true_iff, !Z.eqb_eq.
    split; [intros [-> ->]; done | intros H; by injection H].
Qed.

Lemma widget_invalidate_by_class_calls_witness :
  ext_calls (widget_invalidate_by_class 20 1 st_two_tables)
  = [ gfx_set_dirty_blocks 110 70 181 82; gfx_set_dirty_blocks 410 320 481 332 ]
  ∧ ext_calls (widget_invalidate_by_number 20 1 1 st_two_tables) = [].
Proof.
  assert (Hwf : list_in_array st_two_tables) by (vm_compute; lia).
  destruct (widget_invalidate_by_class_calls st_two_tables 20 1 1 Hwf) as [Hcls Hnum].
  rewrite Hcls, Hnum. split; reflexivity.
Defined.

(** ** Snapping a dragged window to its neighbours *)

Section SnapRange.
Context `{E : Env} `{Sc : Screen}.

(** The edge the loop ends with is the sentinel it started from or one
    of the candidates, all of which lie in the snap range. *)
Lemma window_snap_loop_range candidate pick w mainWindow lo hi sentinel st :
  (∀ a c, pick a c = a ∨ pick a c = c) →
  (∀ win c, candidate win = Some c → lo ≤ c ≤ hi) →
  ∀ n from most,
  most = sentinel ∨ lo ≤ most ≤ hi →
  window_snap_loop candidate pick w mainWindow from n most st = sentinel
  ∨ lo ≤ window_snap_loop candidate pick w mainWindow from n most st ≤ hi.
Proof.
  intros Hpick Hcand. induction n as [|n IH]; intros from most Hmost; simpl; [done|].
  apply IH. destruct (_ || _); [done|].
  destruct (candidate (deref st from)) as [c|] eqn:Hc; [|done].
  destruct (Hpick most c) as [->| ->]; [done|]. right. by eapply Hcand.
Qed.

Lemma pick_max a c : Z.max a c = a ∨ Z.max a c = c.
Proof. lia. Qed.

Lemma pick_min a c : Z.min a c = a ∨ Z.min a c = c.
Proof. lia. Qed.

Lemma snaps_x_set st w p v :
  (w < length (g_window_list st))%nat →
  (0 ≤ p → Z.abs (v - w_x (deref st w)) ≤ 2 * p) →
  snaps_x p w st (modify w (set_w_x (sint16 v)) st).
Proof.
  intros Hw Hv. unfold snaps_x. rewrite length_modify, deref_modify_eq by done.
  split_and!; try done.
  - intros j Hj. by rewrite deref_modify_ne.
  - intros Hp Hlo Hhi. specialize (Hv Hp). simpl. rewrite sint16_id; lia.
Qed.

Lemma snaps_y_set st w p v :
  (w < length (g_window_list st))%nat →
  (0 ≤ p → Z.abs (v - w_y (deref st w)) ≤ 2 * p) →
  snaps_y p w st (modify w (set_w_y (sint16 v)) st).
Proof.
  intros Hw Hv. unfold snaps_y. rewrite length_modify, deref_modify_eq by done.
  split_and!; try done.
  - intros j Hj. by rewrite deref_modify_ne.
  - intros Hp Hlo Hhi. specialize (Hv Hp). simpl. rewrite sint16_id; lia.
Qed.

Lemma snaps_x_refl st w p : snaps_x p w st st.
Proof. unfold snaps_x. split_and!; try done. lia. Qed.

Lemma snaps_y_refl st w p : snaps_y p w st st.
Proof. unfold snaps_y. split_and!; try done. lia. Qed.

Lemma window_snap_left_spec st w p :
  (w < length (g_window_list st))%nat →
  snaps_x p w st (window_snap_left w p st).
Proof.
  intros Hw. unfold window_snap_left. cbv zeta.
  set (win := deref st w).
  match goal with
  | |- context [window_snap_loop ?c ?pk w ?m 0 ?n ?s st] =>
      pose proof (window_snap_loop_range c pk w m (w_x win - p * 2) (w_x win + p * 2) s st
                    pick_max) as Hloop;
      set (most := window_snap_loop c pk w m 0 n s st) in *
  end.
  destruct (Hloop) with (n := RCT2_NEW_WINDOW st) (from := 0%nat) (most := INT32_MIN)
    as [Hm|Hm].
  { intros w2 c Hc. cbv zeta in Hc.
    destruct (_ || _); [done|]. destruct (_ || _) eqn:Hr; [done|].
    injection Hc as <-. apply orb_false_iff in Hr as [H1 H2].
    apply Z.ltb_ge in H1, H2. lia. }
  { by left. }
  all: fold most in Hm.
  all: destruct ((w_x win - p * 2 <=? 0) && (0 <=? w_x win + p * 2)) eqn:H0.
  all: try (apply andb_true_iff in H0 as [H01 H02]; apply Z.leb_le in H01, H02).
  all: match goal with
       | |- context [negb (?v =? INT32_MIN)] =>
           destruct (v =? INT32_MIN) eqn:Hs; simpl;
           [by apply snaps_x_refl
           | apply snaps_x_set; [done|]; apply Z.eqb_neq in Hs; intros Hp]
       end.
  all: fold win; lia.
Qed.

Lemma window_snap_top_spec st w p :
  (w < length (g_window_list st))%nat →
  snaps_y p w st (window_snap_top w p st).
Proof.
  intros Hw. unfold window_snap_top. cbv zeta.
  set (win := deref st w).
  match goal with
  | |- context [window_snap_loop ?c ?pk w ?m 0 ?n ?s st] =>
      pose proof (window_snap_loop_range c pk w m (w_y win - p * 2) (w_y win + p * 2) s st
                    pick_max) as Hloop;
      set (most := window_snap_loop c pk w m 0 n s st) in *
  end.
  destruct (Hloop) with (n := RCT2_NEW_WINDOW st) (from := 0%nat) (most := INT32_MIN)
    as [Hm|Hm].
  { intros w2 c Hc. cbv zeta in Hc.
    destruct (_ || _); [done|]. destruct (_ || _) eqn:Hr; [done|].
    injection Hc as <-. apply orb_false_iff in Hr as [H1 H2].
    apply Z.ltb_ge in H1, H2. lia. }
  { by left. }
  all: fold most in Hm.
  all: destruct ((w_y win - p * 2 <=? 0) && (0 <=? w_y win + p * 2)) eqn:H0.
  all: try (apply andb_true_iff in H0 as [H01 H02]; apply Z.leb_le in H01, H02).
  all: match goal with
       | |- context [negb (?v =? INT32_MIN)] =>
           destruct (v =? INT32_MIN) eqn:Hs; simpl;
           [by apply snaps_y_refl
           | apply snaps_y_set; [done|]; apply Z.eqb_neq in Hs; intros Hp]
       end.
  all: fold win; lia.
Qed.

Lemma window_snap_right_spec st w p :
  (w < length (g_window_list st))%nat →
  snaps_x p w st (window_snap_right w p st).
Proof.
  intros Hw. unfold window_snap_right. cbv zeta.
  set (win := deref st w).
  match goal with
  | |- context [window_snap_loop ?c ?pk w ?m 0 ?n ?s st] =>
      pose proof (window_snap_loop_range c pk w m
                    (w_x win + w_width win - p * 2) (w_x win + w_width win + p * 2) s st
                    pick_min) as Hloop;
      set (most := window_snap_loop c pk w m 0 n s st) in *
  end.
  destruct (Hloop) with (n := RCT2_NEW_WINDOW st) (from := 0%nat) (most := INT32_MAX)
    as [Hm|Hm].
  { intros w2 c Hc. cbv zeta in Hc.
    destruct (_ || _); [done|]. destruct (_ || _) eqn:Hr; [done|].
    injection Hc as <-. apply orb_false_iff in Hr as [H1 H2].
    apply Z.ltb_ge in H1, H2. lia. }
  { by left. }
  all: fold most in Hm.
  all: destruct ((w_x win + w_width win - p * 2 <=? context_get_width)
                 && (context_get_width <=? w_x win + w_width win + p * 2)) eqn:H0.
  all: try (apply andb_true_iff in H0 as [H01 H02]; apply Z.leb_le in H01, H02).
  all: match goal with
       | |- context [negb (?v =? INT32_MAX)] =>
           destruct (v =? INT32_MAX) eqn:Hs; simpl;
           [by apply snaps_x_refl
           | apply snaps_x_set; [done|]; apply Z.eqb_neq in Hs; intros Hp]
       end.
  all: fold win; lia.
Qed.

Lemma window_snap_bottom_spec st w p :
  (w < length (g_window_list st))%nat →
  snaps_y p w st (window_snap_bottom w p st).
Proof.
  intros Hw. unfold window_snap_bottom. cbv zeta.
  set (win := deref st w).
  match goal with
  | |- context [window_snap_loop ?c ?pk w ?m 0 ?n ?s st] =>
      pose proof (window_snap_loop_range c pk w m
                    (w_y win + w_height win - p * 2) (w_y win + w_height win + p * 2) s st
                    pick_min) as Hloop;
      set (most := window_snap_loop c pk w m 0 n s st) in *
  end.
  destruct (Hloop) with (n := RCT2_NEW_WINDOW st) (from := 0%nat) (most := INT32_MAX)
    as [Hm|Hm].
  { intros w2 c Hc. cbv zeta in Hc.
    destruct (_ || _); [done|]. destruct (_ || _) eqn:Hr; [done|].
    injection Hc as <-. apply orb_false_iff in Hr as [H1 H2].
    apply Z.ltb_ge in H1, H2. lia. }
  { by left. }
  all: fold most in Hm.
  all: destruct ((w_y win + w_height win - p * 2 <=? context_get_height)
                 && (context_get_height <=? w_y win + w_height win + p * 2)) eqn:H0.
  all: try (apply andb_true_iff in H0 as [H01 H02]; apply Z.leb_le in H01, H02).
  all: match goal with
       | |- context [negb (?v =? INT32_MAX)] =>
           destruct (v =? INT32_MAX) eqn:Hs; simpl;
           [by apply snaps_y_refl
           | apply snaps_y_set; [done|]; apply Z.eqb_neq in Hs; intros Hp]
       end.
  all: fold win; lia.
Qed.

Lemma window_move_position_others st w dx dy :
  (w < length (g_window_list st))%nat →
  (∀ j, j ≠ w → deref (window_move_position w dx dy st) j = deref st j)
  ∧ w_width (deref (window_move_position w dx dy st) w) = w_width (deref st w)
  ∧ w_height (deref (window_move_position w dx dy st) w) = w_height (deref st w).
Proof.
  intros Hw. unfold window_move_position.
  destruct ((dx =? 0) && (dy =? 0)); [done|]. cbv zeta.
  set (st2 := modify w (λ win, set_w_x (sint16 (w_x win + dx)) win)
                (window_invalidate (Some w) st)).
  set (st3 := modify w (λ win, set_w_y (sint16 (w_y win + dy)) win) st2).
  assert (H3 : deref st3 w
     = set_w_y (sint16 (w_y (deref st w) + dy))
         (set_w_x (sint16 (w_x (deref st w) + dx)) (deref st w))).
  { unfold st3. rewrite deref_modify_eq by (unfold st2; by rewrite length_modify).
    unfold st2. rewrite deref_modify_eq by done. done. }
  assert (H3ne : ∀ j, j ≠ w → deref st3 j = deref st j).
  { intros j Hj. unfold st3, st2. by rewrite !deref_modify_ne. }
  destruct (w_viewport (deref st3 w));
    autorewrite with ui_state; rewrite H3; split_and!; try done;
    intros j Hj; autorewrite with ui_state; by apply H3ne.
Qed.

(** Two snaps along each axis, one after the other. *)
Lemma snaps_compose p w s0 s1 s2 s3 s4 :
  snaps_x p w s0 s1 → snaps_y p w s1 s2 → snaps_x p w s2 s3 → snaps_y p w s3 s4 →
  length (g_window_list s4) = length (g_window_list s0)
  ∧ (∀ j, j ≠ w → deref s4 j = deref s0 j)
  ∧ w_width (deref s4 w) = w_width (deref s0 w)
  ∧ w_height (deref s4 w) = w_height (deref s0 w)
  ∧ (0 ≤ p →
     -32768 ≤ w_x (deref s0 w) - 4 * p → w_x (deref s0 w) + 4 * p ≤ 32767 →
     Z.abs (w_x (deref s4 w) - w_x (deref s0 w)) ≤ 4 * p)
  ∧ (0 ≤ p →
     -32768 ≤ w_y (deref s0 w) - 4 * p → w_y (deref s0 w) + 4 * p ≤ 32767 →
     Z.abs (w_y (deref s4 w) - w_y (deref s0 w)) ≤ 4 * p).
Proof.
  intros (Hl1 & Hn1 & Hw1 & Hh1 & Hy1 & Hx1) (Hl2 & Hn2 & Hw2 & Hh2 & Hx2 & Hy2)
         (Hl3 & Hn3 & Hw3 & Hh3 & Hy3 & Hx3) (Hl4 & Hn4 & Hw4 & Hh4 & Hx4 & Hy4).
  split_and!; try lia; try congruence.
  intros j Hj. by rewrite Hn4, Hn3, Hn2, Hn1.
Qed.

(** The end of [window_move_and_snap]: the snapped position is kept,
    either in place or by moving the window back and setting the
    position. *)
Lemma window_move_and_snap_finish s4 w ox oy :
  (w < length (g_window_list s4))%nat →
  let st' :=
    if (w_x (deref s4 w) =? ox) && (w_y (deref s4 w) =? oy) then s4
    else window_set_position w (w_x (deref s4 w)) (w_y (deref s4 w))
           (modify w (set_w_y (sint16 oy)) (modify w (set_w_x (sint16 ox)) s4)) in
  (∀ j, j ≠ w → deref st' j = deref s4 j)
  ∧ w_width (deref st' w) = w_width (deref s4 w)
  ∧ w_height (deref st' w) = w_height (deref s4 w)
  ∧ (-32768 ≤ w_x (deref s4 w) ≤ 32767 → -32768 ≤ w_y (deref s4 w) ≤ 32767 →
     w_x (deref st' w) = w_x (deref s4 w) ∧ w_y (deref st' w) = w_y (deref s4 w)).
Proof.
  intros Hw st'. unfold st'. clear st'.
  destruct ((w_x (deref s4 w) =? ox) && (w_y (deref s4 w) =? oy)); [done|].
  set (s5 := modify w (set_w_y (sint16 oy)) (modify w (set_w_x (sint16 ox)) s4)).
  assert (H5 : (w < length (g_window_list s5))%nat
               ∧ (∀ j, j ≠ w → deref s5 j = deref s4 j)
               ∧ deref s5 w = set_w_y (sint16 oy) (set_w_x (sint16 ox) (deref s4 w))).
  { unfold s5. rewrite !length_modify. split_and!; [lia| |].
    - intros j Hj. by rewrite !deref_modify_ne.
    - rewrite deref_modify_eq by (rewrite length_modify; lia).
      rewrite deref_modify_eq by lia. done. }
  destruct H5 as (Hl5 & Hn5 & Hd5). clearbody s5.
  destruct (window_move_position_others s5 w (w_x (deref s4 w) - w_x (deref s5 w))
              (w_y (deref s4 w) - w_y (deref s5 w)) Hl5) as (Gn & Gw & Gh).
  unfold window_set_position.
  split_and!.
  - intros j Hj. by rewrite Gn, Hn5.
  - by rewrite Gw, Hd5.
  - by rewrite Gh, Hd5.
  - intros Hx Hy.
    exact (window_set_position_in_range s5 w _ _ Hl5 Hx Hy).
Qed.

(** Writing the dragged position into the window before snapping. *)
Lemma window_move_and_snap_start st w x y :
  (w < length (g_window_list st))%nat →
  let s0 := modify w (set_w_y (sint16 y)) (modify w (set_w_x (sint16 x)) st) in
  length (g_window_list s0) = length (g_window_list st)
  ∧ (∀ j, j ≠ w → deref s0 j = deref st j)
  ∧ w_x (deref s0 w) = sint16 x ∧ w_y (deref s0 w) = sint16 y
  ∧ w_width (deref s0 w) = w_width (deref st w)
  ∧ w_height (deref s0 w) = w_height (deref st w).
Proof.
  intros Hw s0. unfold s0. clear s0. rewrite !length_modify.
  rewrite deref_modify_eq by (by rewrite length_modify).
  rewrite deref_modify_eq by done.
  split_and!; try done. intros j Hj. by rewrite !deref_modify_ne.
Qed.

End SnapRange.

(** [window_move_and_snap] changes no window but the dragged one and
    keeps its size.  Without snapping (proximity not positive) it is
    [window_set_position] at the requested x and the requested y clamped
    between the toolbar (1 in the title demo, else TOP_TOOLBAR_HEIGHT +
    2) and the screen height minus 34.  With snapping at proximity [p],
    when the requested position with a margin of [4p] around it lies
    within the 16-bit range of the position fields, the window ends
    within [4p] of that position in x and in y: each of the two snaps
    along an axis moves it by at most [2p]. *)
Theorem window_move_and_snap_near `{E : Env} `{Sc : Screen} (st : ui_state) (w : nat)
    (x y p : Z) :
  (w < length (g_window_list st))%nat →
  let minY :=
    if test (gScreenFlags st) SCREEN_FLAGS_TITLE_DEMO then 1 else TOP_TOOLBAR_HEIGHT + 2 in
  let y' := Math_Clamp minY y (context_get_height - 34) in
  let st' := window_move_and_snap w x y p st in
  (p ≤ 0 → st' = window_set_position w x y' st)
  ∧ (0 < p →
     -32768 ≤ x - 4 * p → x + 4 * p ≤ 32767 →
     -32768 ≤ y' - 4 * p → y' + 4 * p ≤ 32767 →
     Z.abs (w_x (deref st' w) - x) ≤ 4 * p ∧ Z.abs (w_y (deref st' w) - y') ≤ 4 * p)
  ∧ (∀ j, j ≠ w → deref st' j = deref st j)
  ∧ w_width (deref st' w) = w_width (deref st w)
  ∧ w_height (deref st' w) = w_height (deref st w).
Proof.
  intros Hw minY y' st'. unfold st', window_move_and_snap. clear st'.
  fold minY. fold y'. cbv zeta.
  destruct (0 <? p) eqn:Hp.
  2: { apply Z.ltb_ge in Hp. split_and!; [done|lia| | |];
         unfold window_set_position;
         destruct (window_move_position_others st w (x - w_x (deref st w))
                     (y' - w_y (deref st w)) Hw) as (? & ? & ?); done. }
  apply Z.ltb_lt in Hp.
  destruct (window_move_and_snap_start st w x y' Hw) as (Hl0 & Hn0 & Hx0 & Hy0 & Hw0 & Hh0).
  revert Hl0 Hn0 Hx0 Hy0 Hw0 Hh0.
  generalize (modify w (set_w_y (sint16 y')) (modify w (set_w_x (sint16 x)) st)).
  intros s0 Hl0 Hn0 Hx0 Hy0 Hw0 Hh0.
  pose proof (window_snap_right_spec s0 w p ltac:(lia)) as H1.
  revert H1. generalize (window_snap_right w p s0). intros s1 H1.
  pose proof (window_snap_bottom_spec s1 w p ltac:(destruct H1; lia)) as H2.
  revert H2. generalize (window_snap_bottom w p s1). intros s2 H2.
  pose proof (window_snap_left_spec s2 w p ltac:(destruct H1, H2; lia)) as H3.
  revert H3. generalize (window_snap_left w p s2). intros s3 H3.
  pose proof (window_snap_top_spec s3 w p ltac:(destruct H1, H2, H3; lia)) as H4.
  revert H4. generalize (window_snap_top w p s3). intros s4 H4.
  destruct (snaps_compose p w s0 s1 s2 s3 s4 H1 H2 H3 H4)
    as (Hl & Hn & Hwd & Hht & Hx & Hy).
  destruct (window_move_and_snap_finish s4 w (w_x (deref st w)) (w_y (deref st w)))
    as (Fn & Fw & Fh & Fxy); [lia|].
  split_and!.
  - lia.
  - intros _ Hxlo Hxhi Hylo Hyhi.
    rewrite Hx0, sint16_id in Hx by lia. rewrite Hy0, sint16_id in Hy by lia.
    specialize (Hx ltac:(lia) ltac:(lia) ltac:(lia)).
    specialize (Hy ltac:(lia) ltac:(lia) ltac:(lia)).
    destruct Fxy as [Fx Fy]; [lia|lia|]. rewrite Fx, Fy. lia.
  - intros j Hj. by rewrite Fn, Hn, Hn0.
  - congruence.
  - congruence.
Qed.

Lemma window_move_and_snap_near_witness :
  w_x (deref (window_move_and_snap (E := default_env) (Sc := default_screen) 1 97 5 5
                st_dragged) 1) = 100
  ∧ w_y (deref (window_move_and_snap (E := default_env) (Sc := default_screen) 1 97 5 5
                  st_dragged) 1) = 29
  ∧ Z.abs (w_x (deref (window_move_and_snap (E := default_env) (Sc := default_screen) 1 60 200 5
                         st_dragged) 1) - 60) ≤ 20
  ∧ w_x (deref (window_move_and_snap (E := default_env) (Sc := default_screen) 1 100000 200 5
                  st_dragged) 1) = -31072.
Proof.
  destruct (window_move_and_snap_near (E := default_env) (Sc := default_screen)
              st_dragged 1 60 200 5) as (_ & Hnear & _); [simpl; lia|].
  destruct Hnear as [Hx _]; [lia|lia|lia|vm_compute; discriminate|vm_compute; discriminate|].
  split_and!; [by vm_compute | by vm_compute | exact Hx | by vm_compute].
Defined.
